(* ===== verification/_CoqProject ===== *)
-Q . S2P
Prelude.v
BTree.v
RustString.v
Text.v
Bytes.v
Ring.v
Protocol.v
Selector.v
Correlate.v
Lifecycle.v
GroupPairs.v
Exact.v
Greedy.v
Nearest.v
StackNested.v
Measure.v
Os.v
Process.v
CuptiCompat.v
Inspect.v
Doctor.v
Discover.v
Resolve.v
Uprobe.v
Usdt.v
Syscalls.v
Validate.v
Linux.v
Bpf.v
Cupti.v
CuptiFilter.v
CuptiClient.v
Completed.v
Live.v
Session.v
Export.v
Aggregate.v
Agent.v
AgentAggregate.v
AgentInventory.v
AgentRecords.v
AgentNvtx.v
AgentEvents.v
AgentActivities.v
SyscallAggregate.v
BpfAggregate.v
BpfCollect.v
CpuAnalysis.v
CpuSymbols.v
CpuSampling.v
CpuCollect.v
CpuCommand.v
Command.v
Print.v
CommandLine.v
Inject.v
Examples.v
HostExamples.v
BpfExamples.v
CpuExamples.v
ExportExamples.v
AgentExamples.v
CuptiExamples.v
LiveExamples.v
