(* ===== verification/Prelude.v ===== *)
(** * xprobe: a verification development

    xprobe measures the latency between two events of a running process, on the
    host (function entry and return, system calls, tracepoints, CPython's
    garbage collector) and on the GPU (CUDA calls, kernels, copies, NVTX
    ranges).  The sources are the Rust crates under [xprobe/]: [protocol] (the
    data), [core] (inspect a process, validate selectors, resolve probes),
    [collector] (read what BPF programs and the CUPTI agent recorded),
    [correlator] (match start and end events and compute statistics),
    [exporter] and [cli].  The BPF programs and the CUPTI agent are C.

    A measurement runs as follows.  The process is inspected and its identity
    (PID and start time) recorded; two selector texts and a match policy are
    validated against it, which resolves host probes to file offsets; the CUPTI
    agent is armed with filters made from the selectors and host collectors
    start; a loop collects and measures until enough pairs matched or time is
    up; the agent is stopped, and what it sent last is merged and measured.
    [correlator::measure] selects, windows and pairs the events.

    ** Files

    - [Prelude]: results with panics ([res]), machine integers, stable sorting,
      list lemmas, tactics and the hint databases [xprobe] and [xlen].
    - [BTree], [RustString], [Text], [Bytes]: the parts of the standard library
      the sources use: ordered maps, string methods, [lines] and
      [split_whitespace], paths, UTF-8, byte slices and integers in them.
    - [Protocol], [Process]: the records and enumerations of [protocol/src].
      [f64] is binary64 ([SpecFloat]).
    - [Selector]: [Selector] of [correlator/src/lib.rs]: parsing, matching,
      supported policies.
    - [Correlate]: [Pair], [Outcome], correlation keys, timelines, and class
      [Correlator], what a correlator promises [measure].
    - [Lifecycle], [Exact], [Greedy], [Nearest], [StackNested]: the correlators
      [correlate_thread_lifecycle] and [correlate_nvtx_lifecycle],
      [correlate_exact], [correlate_first_after] and [correlate_stream_order],
      [correlate_nearest], [correlate_stack_nested]; [GroupPairs] holds what the
      ones that work group by group share.
    - [Measure]: [measure] with its checks, clock domains, window, statistics.
    - [Os]: the operating system as a parameter (class [Os]) and the monad [io].
    - [Inspect], [CuptiCompat], [Doctor], [Discover], [Resolve], [Usdt],
      [Syscalls], [Validate], [Inject]: the files of the same names of
      [core/src]; [Syscalls] is the pair of tables in [validate.rs] and
      [syscall_aggregate.rs].
    - [Ring]: the ring-buffer callback the host collectors share; [Uprobe]:
      [collector/src/uprobe.rs] and the request [cli/src/main.rs] builds;
      [SyscallAggregate]: the two files [syscall_aggregate.rs].
    - [Linux]: [collector/src/linux.rs]: requests, the configuration bytes,
      records; [Bpf] and [BpfAggregate]: the programs of [bpf/xprobe.bpf.c], as
      steps on the maps they write; [BpfCollect]: how the three collectors load,
      configure, attach and arm them, wait and read their maps, over libbpf.
    - [Cupti]: [collector/src/cupti.rs]: control messages and the decoding of
      captures; [CuptiClient]: the exchange over the agent's socket;
      [CuptiFilter]: the filters [cli/src/main.rs] makes and how
      [cupti/src/cupti_agent.c] applies them.
    - [Completed]: [collector/src/completed.rs]; [Live]: the measuring part of
      [cli/src/main.rs], from merged captures to the live loop; [Session]: how
      a live measurement is prepared, run and ended; [Aggregate]: the
      inventory of aggregated CUDA activities.
    - [Agent]: what the parts of [cupti/src/cupti_agent.c] share: status words,
      names, checks of requests, the header, and the interleaving of calls that
      run at the same time; [AgentAggregate]: its table of groups, and
      [AgentInventory], from that table through decoding to the inventory;
      [AgentRecords]: its array of records and snapshots; [AgentNvtx]: its table
      of open NVTX ranges and the NVTX callbacks, with an abstract agent (class
      [RangeStore]) that keeps the ranges in a finite map; [AgentEvents]: its
      records as the events the collector decodes; [AgentActivities]: the
      callbacks for CUDA calls and for buffers of activities.
    - [CpuSampling]: [core/src/cpu_sampling.rs]; [CpuCollect]:
      [collector/src/cpu_sampling.rs]; [CpuAnalysis] and [CpuSymbols]:
      [core/src/cpu_sampling_analysis.rs] (groups, hotspots and hints; mappings
      and symbols); [CpuCommand]: the CPU profile of [cli/src/main.rs].
    - [Export]: [exporter/src/lib.rs], and in [cli/src/main.rs] the reading of
      completed inputs and the atomic replacement of files; [Command]: what the
      commands of [cli/src/main.rs] do with parsed arguments, with exit codes;
      [Print]: what they print; [CommandLine]: the arguments, dispatch and [main].
    - [Examples], [HostExamples], [BpfExamples], [CpuExamples],
      [ExportExamples], [AgentExamples], [CuptiExamples], [LiveExamples]: concrete
      captures, a concrete host, kernel, profile, file system, agent and session, to which the
      theorems with hypotheses are applied.

    ** How the code is modelled

    Functions keep the names of the source where they are free; a loop is a
    [Fixpoint] or a fold with the loop's variables as its state, one iteration
    being a definition of its own ([lifecycle_step], [exact_step], [stack_step],
    [note_step]).  Integers are [Z], with overflow and saturation written out.
    [Result] is [res], whose third case is a panic; a function that can only
    panic returns an [option].  Reading files happens in [io], state passing
    over an abstract world, so that two reads of a file may differ.  Mutation of
    local vectors is returned as a value; no claim depends on sharing.  The agent's
    tables are shared by threads: a call there is a program counter, an atomic
    operation one step of it ([activity_step], [enqueue_step]), and
    [Agent.interleave] runs any number of calls in the order of a schedule, which
    also says when a weak exchange fails for no reason.
    Logs are not modelled.  Fuel: the probing loops of [AgentNvtx] have as many
    turns as the table has slots, as in the source; [Usdt.note_loop] has the
    number of bytes, every note takes at least twelve, and
    [stapsdt_notes_total] shows it is never used up;
    [Cupti.chunks_exact] is bounded by the number of bytes, and every chunk takes
    two hundred; the walk up the ancestors in [Discover] has 2^32 rounds, and no
    process is visited twice; a remote call in [Inject]
    waits for [wait_fuel] turns, the timeout divided by the sleep of a
    millisecond, plus two; the loops of [BpfCollect] have the timeout or duration
    divided by their interval, plus two, and for ring buffers one turn per record
    wanted, which [linux_capture_collects] and [syscall_collect_window] show to be
    enough.  Calls on the agent's tables have no fuel: a schedule may leave them
    unfinished, and [agent_calls_return] bounds what a call needs when it runs
    alone.  The loop of [CpuCollect] is a function of what the
    kernel answers, turn by turn, and [collect_returns] shows that the deadline
    ends it.  The live
    loop is a function of the list of what its turns see (the clock, finished
    threads, the agent's answer) and gives [None] while it has not returned;
    [live_measurement_ends] shows that the deadline ends it.  Commands that
    change the agent's state are recorded in the order they are sent.

    Parameters, each a class: [SerdeJson] (values of [serde_json]),
    [RegexEngine] (the [regex] crate), [Os], [ObjectCrate] (the [object] and
    [cpp_demangle] crates), [NoteParser] (the note section of an object),
    [JsonReader], [SpecReader], [JsonWriter] and [Serializer] (reading and writing
    JSON documents), [Files] (creating, writing and renaming files), [Ptrace] (ptrace
    and waitpid), [Libbpf] (libbpf and the clock), [UnixSocket], [RegexLiterals] (what a pattern of anchors and literal text
    matches).  What is assumed of them is in the classes: a JSON string reads
    back, compiling a pattern does not panic, in [FilesLaws] and [JsonLaws] that
    renaming replaces a file and a written document reads back, in [LibbpfLaws]
    and [PtraceLaws] that the clock does not go back, waiting takes time and
    registers and memory hold what was written, and in
    [RegexLiterals] the documented meaning of anchors and escapes, all of which
    the example files satisfy with concrete instances.

    ** What is shown

    - Correlators: each refines a short specification (adjacent entries of a
      timeline, zipped groups, a greedy matching that is maximum and earliest, a
      nearest choice, balanced brackets), none panics, pairs never reuse an
      event, and the counters account for the events.
    - Measurement: no panic, the evidence is what the selectors, the window and
      the policy say, statistics are those of the evidence, clocks are never
      mixed, errors come in a fixed order.
    - Validation against measurement: what the validator accepts the correlator
      parses and, but for two stated cases, accepts; when a result is valid;
      which policy is recommended.
    - Host side: resolved probes lie inside the process's mappings; symbols are
      unambiguous; identity checks detect reuse; parsing of procfs, notes and
      linker output is total; events of a resolved probe match its selector when
      the path is canonical; aggregation adds up per-CPU counters in any order
      and its hints parse back.
    - Kernel side: the configuration bytes are what the BPF programs read; a
      system call of the target leaves one record exactly when a probe asks for
      it; its event is matched by that probe's selector; the aggregated counters
      read back are exactly the calls of the target, over all CPUs; the collectors
      return, and read the maps after the programs were told to stop.
    - GPU side: decoding a capture is total and typed; the agent keeps every
      record a validated selector matches; incremental captures fit together;
      captures merge into one sequence of one process.
    - The agent: whatever its threads interleave, the inventory of an aggregate
      capture is that of the activities delivered, or none is reported; an exact
      capture holds each accepted record once, and a snapshot only whole records;
      both modes see the same activities; the table of NVTX ranges is a finite
      map and range events come in pairs; a call never waits for another.
    - Sessions: a reported result comes from a complete, stopped capture; the
      deadline ends a measurement; a prepared session releases the agent; an
      inventory counts everything once and its hints select their groups.
    - CPU profiles: a profile printed as complete covers every thread and lost
      nothing, the counters are released on every path, collection ends, groups
      and hotspots count every sample once, suggested selectors read back.
    - Injection and discovery: a remote call is transparent to the target and
      ends, and discovery lists exactly the GPU processes below the root.
    - Commands: a failed measurement keeps the evidence it collected, an
      artifact is replaced whole or not at all, an exported capture reads back;
      every run ends with one result or one error, where and with the exit code
      that scripts rely on.
    - Stated deviations: [failed_start_leaves_agent_armed],
      [timed_out_active_capture_fails], [invalid_syscall_misattributed],
      [word_boundary_dropped], [lost_start_unnoticed] and [doctor_uid_is_real] are theorems about what
      the code does where it does not do what it means to.

    ** Plan

    The order is by how much of a measurement's meaning a part carries:
    correlator, validation and resolution, inspection, the collectors, then the
    commands that compose them, and the agent that feeds them.  What could follow
    are the threads of the host collectors, which are inputs of [Session], and
    NVTX callbacks that run at the same time.

    ** Not modelled

    Argument parsing (clap) and serialization (serde), which are libraries; the
    inside of libbpf, ptrace, perf and CUPTI, which are parameters; the threads
    of the host collectors and what dropping them or a [LiveCollection] logs,
    whose outcomes are inputs of the definitions that join them.  Of the agent:
    the calls into CUPTI that subscribe, enable and flush, calibration of the
    clock, the socket and its thread, and allocation.  Its atomic operations take
    effect in one order for all threads; the weaker orders the code asks for
    (relaxed, acquire, release) are not told apart.  NVTX callbacks run one after
    another. *)

From stdpp Require Export base tactics numbers list sets strings sorting.
From Stdlib Require Export Lia.

#[global] Open Scope Z_scope.

(** ** Results and panics

    [res E A] is the outcome of a function that returns [Result<A, E>]:
    [Panic] stands for a panic ([expect] on [None], [unreachable!], a slice
    index out of range, an unsigned subtraction below zero).  A function that
    does not return a [Result] but can panic returns an [option], [None] being
    the panic.  The components prove that panics are never reached. *)
Inductive res (E A : Type) : Type :=
| Ok (a : A)
| Err (e : E)
| Panic.
Arguments Ok {E A} a.
Arguments Err {E A} e.
Arguments Panic {E A}.

#[export] Instance res_ret {E} : MRet (res E) := λ A a, Ok a.
#[export] Instance res_bind {E} : MBind (res E) := λ A B f m,
  match m with Ok a => f a | Err e => Err e | Panic => Panic end.
#[export] Instance res_fmap {E} : FMap (res E) := λ A B f m,
  match m with Ok a => Ok (f a) | Err e => Err e | Panic => Panic end.

(** [Option::ok_or_else]. *)
Definition ok_or {E A} (o : option A) (e : E) : res E A :=
  match o with Some a => Ok a | None => Err e end.

(** [Option::expect]; also lifts a function that can only panic. *)
Definition or_panic {E A} (o : option A) : res E A :=
  match o with Some a => Ok a | None => Panic end.

(** [Result::map_err]. *)
Definition map_err {E F A} (f : E → F) (m : res E A) : res F A :=
  match m with Ok a => Ok a | Err e => Err (f e) | Panic => Panic end.

(** [iter.map(f).collect::<Result<Vec<_>, _>>()]: the first error wins. *)
Fixpoint res_mapM {E A B} (f : A → res E B) (l : list A) : res E (list B) :=
  match l with
  | [] => Ok []
  | x :: l => y ← f x; ys ← res_mapM f l; Ok (y :: ys)
  end.

(** ** Machine integers

    Unsigned integers are kept as [Z]; the operations that can leave the
    machine range are written out. *)
Definition u32_max : Z := 2 ^ 32 - 1.
Definition u64_max : Z := 2 ^ 64 - 1.
(** [usize] is 64 bits wide on the supported target (Linux x86_64). *)
Definition usize_max : Z := u64_max.

Definition in_u32 (z : Z) : Prop := 0 ≤ z ≤ u32_max.
Definition in_u64 (z : Z) : Prop := 0 ≤ z ≤ u64_max.

(** [u64::checked_add], [u64::checked_mul] and [u64::checked_sub]. *)
Definition checked_add_u64 (a b : Z) : option Z :=
  if a + b <=? u64_max then Some (a + b) else None.
Definition checked_mul_u64 (a b : Z) : option Z :=
  if a * b <=? u64_max then Some (a * b) else None.
Definition checked_sub_u64 (a b : Z) : option Z :=
  if b <=? a then Some (a - b) else None.
(** [u64::saturating_add] and [usize::saturating_sub]. *)
Definition saturating_add_u64 (a b : Z) : Z := Z.min (a + b) u64_max.
Definition saturating_sub (a b : Z) : Z := Z.max (a - b) 0.
(** Unsigned [a - b]: [None] is the overflow panic. *)
Definition sub_u64 (a b : Z) : option Z := checked_sub_u64 a b.

(** [slice.len()]. *)
Definition len {A} (l : list A) : Z := Z.of_nat (length l).

(** [slice.get(i)] and [slice[i]] with an integer index. *)
Definition get_z {A} (l : list A) (i : Z) : option A :=
  if i <? 0 then None else l !! Z.to_nat i.

(** [usize::div_ceil] for a positive divisor. *)
Definition div_ceil (a b : Z) : Z := (a + b - 1) / b.

(** [Vec::truncate(limit)] for [if let Some(limit) = limit]. *)
Definition truncate_opt {A} (limit : option Z) (l : list A) : list A :=
  match limit with Some n => take (Z.to_nat n) l | None => l end.

(** ** Notations *)
Declare Scope xprobe_scope.
Delimit Scope xprobe_scope with xp.
#[global] Open Scope xprobe_scope.

(** Rust's [==] on types with decidable equality. *)
Notation "a == b" := (bool_decide (a = b)) (at level 70) : xprobe_scope.
Notation "a != b" := (negb (bool_decide (a = b))) (at level 70) : xprobe_scope.

(** ** Automation *)
Create HintDb xprobe discriminated.

(** Case analysis on the boolean tests and matches of a goal or hypothesis. *)
Ltac bool_cases :=
  repeat match goal with
  | H : context [if ?b then _ else _] |- _ => destruct b eqn:?
  | |- context [if ?b then _ else _] => destruct b eqn:?
  end.

(** Unfold the monad of results and split a successful bind into its steps. *)
Ltac res_steps :=
  unfold mbind, res_bind, option_bind, mret, res_ret, ok_or, or_panic, map_err in *;
  repeat match goal with
  | H : match ?m with Ok _ => _ | Err _ => _ | Panic => _ end = _ |- _ =>
      let E := fresh "Hstep" in destruct m eqn:E; try discriminate H
  | H : match ?o with Some _ => _ | None => _ end = _ |- _ =>
      let E := fresh "Hstep" in destruct o eqn:E; try discriminate H
  | H : (if ?b then _ else _) = _ |- _ =>
      let E := fresh "Htest" in destruct b eqn:E; try discriminate H
  end; simplify_eq/=.

(** Computations that cannot panic. *)
Lemma res_bind_no_panic {E A B} (m : res E A) (f : A → res E B) :
  m ≠ Panic → (∀ a, m = Ok a → f a ≠ Panic) → m ≫= f ≠ Panic.
Proof. destruct m; simpl; auto. Qed.
Lemma ok_or_no_panic {E A} (o : option A) (e : E) : ok_or o e ≠ Panic.
Proof. by destruct o. Qed.
Lemma map_err_no_panic {E F A} (f : E → F) (m : res E A) : m ≠ Panic → map_err f m ≠ Panic.
Proof. by destruct m. Qed.
#[export] Hint Resolve ok_or_no_panic map_err_no_panic : xprobe.

(** Walk a computation, splitting binds, tests and matches. *)
Ltac no_panic :=
  repeat first
    [ discriminate
    | solve [auto with xprobe nocore]
    | match goal with
      | |- _ ≫= _ ≠ Panic => apply res_bind_no_panic
      | |- context [match ?x with _ => _ end] => destruct x eqn:?
      end
    | intros; simplify_eq/= ].

Lemma res_mapM_no_panic {E A B} (f : A → res E B) l :
  Forall (λ x, f x ≠ Panic) l → res_mapM f l ≠ Panic.
Proof.
  induction 1 as [|x l Hx _ IH]; simpl; [done|].
  apply res_bind_no_panic; [done|]. intros y _. by apply res_bind_no_panic.
Qed.
Lemma res_mapM_Forall2 {E A B} (f : A → res E B) l k :
  res_mapM f l = Ok k → Forall2 (λ x y, f x = Ok y) l k.
Proof.
  revert k. induction l as [|x l IH]; simpl; intros k Hk; [by simplify_eq; constructor|].
  destruct (f x) eqn:Ef; simpl in Hk; [|done..].
  destruct (res_mapM f l); simpl in Hk; [|done..]. simplify_eq. constructor; auto.
Qed.
Lemma res_mapM_Forall {E A B} (f : A → res E B) (P : B → Prop) l k :
  (∀ x y, f x = Ok y → P y) → res_mapM f l = Ok k → Forall P k.
Proof. intros Hf Hk%res_mapM_Forall2. induction Hk; constructor; eauto. Qed.

(** [errors_in P m]: if [m] fails, its error satisfies [P]. *)
Definition errors_in {E A} (P : E → Prop) (m : res E A) : Prop :=
  match m with Err e => P e | _ => True end.

Lemma errors_in_bind {E A B} (P : E → Prop) (m : res E A) (f : A → res E B) :
  errors_in P m → (∀ a, errors_in P (f a)) → errors_in P (m ≫= f).
Proof. destruct m; simpl; auto. Qed.
Lemma errors_in_ok_or {E A} (P : E → Prop) (o : option A) (e : E) :
  P e → errors_in P (ok_or o e).
Proof. by destruct o. Qed.
Lemma errors_in_map_err {E F A} (P : F → Prop) (f : E → F) (m : res E A) :
  (∀ e, P (f e)) → errors_in P (map_err f m).
Proof. destruct m; simpl; auto. Qed.
Lemma errors_in_or_panic {E A} (P : E → Prop) (o : option A) : errors_in P (or_panic o).
Proof. by destruct o. Qed.

(** The same walk for the errors of a computation. *)
Ltac err_walk :=
  repeat first
    [ exact I
    | apply errors_in_or_panic
    | match goal with
      | |- errors_in _ (_ ≫= _) => apply errors_in_bind
      | |- errors_in _ (ok_or _ _) => apply errors_in_ok_or
      | |- errors_in _ (map_err _ _) => apply errors_in_map_err
      | |- errors_in _ (match ?x with _ => _ end) => destruct x
      | |- errors_in _ (Err _) => unfold errors_in
      | |- ∃ _, _ => by eexists
      end
    | intros ? ].

(** Turn [bool_decide] and boolean comparisons in hypotheses into propositions. *)
Ltac bool_props :=
  repeat match goal with
  | H : bool_decide _ = true |- _ => apply bool_decide_eq_true_1 in H
  | H : bool_decide _ = false |- _ => apply bool_decide_eq_false_1 in H
  | H : negb _ = true |- _ => apply negb_true_iff in H
  | H : negb _ = false |- _ => apply negb_false_iff in H
  | H : _ && _ = true |- _ => apply andb_true_iff in H; destruct H
  | H : _ || _ = false |- _ => apply orb_false_iff in H; destruct H
  end.

(** ** Lists *)
Section lists.
Context {A : Type}.
Implicit Types l : list A.

Lemma len_nonneg l : 0 ≤ len l.
Proof. unfold len. lia. Qed.
Lemma len_singleton (x : A) : len [x] = 1.
Proof. done. Qed.
Lemma len_cons x l : len (x :: l) = len l + 1.
Proof. unfold len. simpl. lia. Qed.
Lemma len_app l k : len (l ++ k) = len l + len k.
Proof. unfold len. rewrite length_app. lia. Qed.
Lemma len_perm l k : l ≡ₚ k → len l = len k.
Proof. intros H. unfold len. by rewrite H. Qed.
#[global] Instance len_proper : Proper ((≡ₚ) ==> (=)) (@len A).
Proof. intros l k. apply len_perm. Qed.
Lemma len_zero l : len l = 0 → l = [].
Proof. destruct l; [done|]. rewrite len_cons. pose proof (len_nonneg l). lia. Qed.
Lemma len_take n l : len (take n l) ≤ len l.
Proof. unfold len. rewrite length_take. lia. Qed.
Lemma len_take_le n l : 0 ≤ n → len (take (Z.to_nat n) l) ≤ n.
Proof. unfold len. rewrite length_take. lia. Qed.
Lemma len_submseteq l k : l ⊆+ k → len l ≤ len k.
Proof. intros H%submseteq_length. unfold len. lia. Qed.

Lemma len_filter_split (P : A → Prop) `{∀ x, Decision (P x)} l :
  len (filter P l) + len (filter (λ x, ¬ P x) l) = len l.
Proof.
  induction l as [|x l IH]; [done|].
  rewrite !filter_cons. repeat case_decide; rewrite ?len_cons; try done; lia.
Qed.

Lemma truncate_opt_submseteq limit l : truncate_opt limit l ⊆+ l.
Proof. destruct limit; simpl; [apply submseteq_take|done]. Qed.
Lemma truncate_opt_elem limit l x : x ∈ truncate_opt limit l → x ∈ l.
Proof. intros H. eapply elem_of_submseteq; [exact H|apply truncate_opt_submseteq]. Qed.
Lemma truncate_opt_len limit l n :
  limit = Some n → 0 ≤ n → len (truncate_opt limit l) ≤ n.
Proof. intros -> ?. simpl. by apply len_take_le. Qed.

Lemma StronglySorted_impl (R S : relation A) l :
  (∀ x y, R x y → S x y) → StronglySorted R l → StronglySorted S l.
Proof.
  intros HRS. induction 1; constructor; [done|]. eauto using Forall_impl.
Qed.
Lemma StronglySorted_take (R : relation A) n l :
  StronglySorted R l → StronglySorted R (take n l).
Proof.
  intros H. rewrite <-(take_drop n l) in H. by eapply StronglySorted_app_1_l.
Qed.
End lists.

Lemma list_omap_cons {A B} (f : A → option B) x l :
  omap f (x :: l) = match f x with Some y => y :: omap f l | None => omap f l end.
Proof. done. Qed.
Lemma len_omap {A B} (f : A → option B) l : len (omap f l) ≤ len l.
Proof.
  induction l as [|x l IH]; [done|]. rewrite list_omap_cons.
  destruct (f x); rewrite !len_cons; lia.
Qed.
Lemma len_map {A B} (f : A → B) l : len (map f l) = len l.
Proof. unfold len. by rewrite length_map. Qed.
Lemma len_fmap {A B} (f : A → B) l : len (f <$> l) = len l.
Proof. unfold len. by rewrite length_fmap. Qed.

Create Rewrite HintDb xlen.
#[export] Hint Rewrite @len_singleton @len_cons @len_app @len_map @len_fmap : xlen.
Ltac simpl_len := autorewrite with xlen in *.

Lemma filter_none {A} (P : A → Prop) `{∀ x, Decision (P x)} (l : list A) :
  (∀ x, x ∈ l → ¬ P x) → filter P l = [].
Proof.
  induction l as [|x l IH]; intros Hl; [done|]. rewrite filter_cons.
  rewrite decide_False by (apply Hl; by left). apply IH. intros y Hy. apply Hl. by right.
Qed.
Lemma filter_all {A} (P : A → Prop) `{∀ x, Decision (P x)} (l : list A) :
  (∀ x, x ∈ l → P x) → filter P l = l.
Proof.
  induction l as [|x l IH]; intros Hl; [done|]. rewrite filter_cons.
  rewrite decide_True by (apply Hl; by left). f_equal. apply IH. intros y Hy. apply Hl. by right.
Qed.

Lemma filter_concat_map {A B K} (key : B → option K) `{!EqDecision K} (f : K * A → list B)
    (L : list (K * A)) k :
  NoDup L.*1 → (∀ kg p, kg ∈ L → p ∈ f kg → key p = Some kg.1) →
  filter (λ p, key p = Some k) (concat (map f L))
  = match list_find (λ kg, kg.1 = k) L with Some (_, kg) => f kg | None => [] end.
Proof.
  induction L as [|[k' g] L IH]; intros Hnd Hkey; [done|]. simpl in *.
  apply NoDup_cons in Hnd as [Hnin Hnd]. rewrite filter_app.
  rewrite IH; [|done|intros kg p ??; apply Hkey; [by right|done]].
  case_decide as Hk.
  - subst. rewrite (filter_all _ (f _)) by
      (intros p Hp; rewrite (Hkey (k, g) p); [done|by left|done]).
    destruct (list_find _ L) as [[i kg]|] eqn:E; [|by rewrite app_nil_r].
    apply list_find_Some in E as (Hi & Heq & _). exfalso. apply Hnin.
    apply list_elem_of_fmap. exists kg. split; [done|]. by eapply list_elem_of_lookup_2.
  - rewrite (filter_none _ (f _)) by
      (intros p Hp; rewrite (Hkey (k', g) p); [simpl; congruence|by left|done]).
    simpl. by destruct (list_find _ L) as [[]|].
Qed.

(** ** Sums *)
Definition sum_by {A} (f : A → Z) (l : list A) : Z := foldr (λ x acc, f x + acc) 0 l.
Lemma sum_by_snoc {A} (f : A → Z) l x : sum_by f (l ++ [x]) = sum_by f l + f x.
Proof. induction l; simpl; lia. Qed.
Lemma sum_by_nonneg {A} (f : A → Z) l : Forall (λ x, 0 ≤ f x) l → 0 ≤ sum_by f l.
Proof. induction 1; simpl; lia. Qed.
Lemma sum_by_app {A} (f : A → Z) l k : sum_by f (l ++ k) = sum_by f l + sum_by f k.
Proof. induction l; simpl; lia. Qed.
Lemma sum_by_mono {A} (f : A → Z) l k :
  Forall (λ x, 0 ≤ f x) k → sum_by f l ≤ sum_by f (l ++ k).
Proof. intros Hk. rewrite sum_by_app. pose proof (sum_by_nonneg f k Hk). lia. Qed.
Lemma sum_by_perm {A} (f : A → Z) l k : l ≡ₚ k → sum_by f l = sum_by f k.
Proof. induction 1; simpl; lia. Qed.

Lemma sum_by_cons {A} (f : A → Z) x l : sum_by f (x :: l) = f x + sum_by f l.
Proof. reflexivity. Qed.
Lemma sum_by_insert {A} (f : A → Z) l j x y :
  l !! j = Some x → sum_by f (<[j := y]> l) = sum_by f l - f x + f y.
Proof.
  revert j. induction l as [|z l IH]; intros [|j] Hj; simplify_eq/=; [lia|].
  rewrite (IH j Hj). lia.
Qed.
Lemma sum_by_zero {A} (f : A → Z) l : Forall (λ x, f x = 0) l → sum_by f l = 0.
Proof. induction 1 as [|x l Hx _ IH]; [done|]. simpl. lia. Qed.
Lemma sum_by_fmap {A B} (f : B → Z) (g : A → B) l : sum_by f (g <$> l) = sum_by (λ x, f (g x)) l.
Proof. induction l as [|x l IH]; [done|]. rewrite fmap_cons, !sum_by_cons. lia. Qed.
Lemma sum_by_ext {A} (f g : A → Z) l : Forall (λ x, f x = g x) l → sum_by f l = sum_by g l.
Proof. induction 1 as [|x l Hx _ IH]; [done|]. rewrite !sum_by_cons. lia. Qed.
Lemma sum_by_plus {A} (f g : A → Z) l : sum_by (λ x, f x + g x) l = sum_by f l + sum_by g l.
Proof. induction l as [|x l IH]; [done|]. rewrite !sum_by_cons. lia. Qed.
Lemma sum_by_filter {A} (P : A → Prop) `{!∀ x, Decision (P x)} (f : A → Z) l :
  sum_by f (filter P l) = sum_by (λ x, if decide (P x) then f x else 0) l.
Proof.
  induction l as [|x l IH]; [done|]. rewrite filter_cons, sum_by_cons, <-IH.
  by case_decide.
Qed.
Lemma sum_by_exchange {A B} (f : A → B → Z) l k :
  sum_by (λ x, sum_by (f x) k) l = sum_by (λ y, sum_by (λ x, f x y) l) k.
Proof.
  induction l as [|x l IH].
  - symmetry. apply sum_by_zero. by apply Forall_true.
  - rewrite sum_by_cons, IH, <-sum_by_plus. done.
Qed.
Lemma sum_by_le {A} (f g : A → Z) l : Forall (λ x, f x ≤ g x) l → sum_by f l ≤ sum_by g l.
Proof. induction 1 as [|x l Hx _ IH]; [done|]. rewrite !sum_by_cons. lia. Qed.
Lemma sum_by_elem {A} (f : A → Z) l x :
  Forall (λ x, 0 ≤ f x) l → x ∈ l → f x ≤ sum_by f l.
Proof.
  induction 1 as [|y l Hy Hl IH]; [by intros ?%not_elem_of_nil|].
  rewrite sum_by_cons. pose proof (sum_by_nonneg f l Hl). cbv beta in Hy.
  intros [->|Hx]%elem_of_cons; [lia|]. specialize (IH Hx). lia.
Qed.
Lemma sum_by_scale {A} (f : A → Z) k l : sum_by (λ x, k * f x) l = k * sum_by f l.
Proof. induction l as [|x l IH]; [simpl; lia|]. rewrite !sum_by_cons. lia. Qed.
(** A sum with one term. *)
Lemma sum_by_single {A} (P : A → Prop) `{!∀ x, Decision (P x)} (f : A → Z) l x :
  NoDup l → x ∈ l → P x → (∀ y, y ∈ l → P y → y = x) →
  sum_by (λ y, if decide (P y) then f y else 0) l = f x.
Proof.
  induction 1 as [|z l Hz Hl IH]; [by intros ?%not_elem_of_nil|].
  intros Hx HP Hu. rewrite sum_by_cons. apply elem_of_cons in Hx as [->|Hx].
  - rewrite decide_True by done. rewrite sum_by_zero; [lia|].
    apply Forall_forall. intros y Hy. apply decide_False. intros HPy.
    apply Hz. rewrite <-(Hu y); [done|by right|done].
  - rewrite decide_False; [|intros HPz; apply Hz; rewrite (Hu z); [done|by left|done]].
    rewrite IH; [lia|done|done|]. intros y Hy. apply Hu. by right.
Qed.
Lemma sum_by_one {A} (l : list A) : sum_by (λ _, 1) l = len l.
Proof. induction l as [|x l IH]; [done|]. rewrite sum_by_cons, len_cons, IH. lia. Qed.

(** ** Lists with their positions *)
Lemma filter_fmap_comm {A B} (f : A → B) (P : B → Prop) `{!∀ x, Decision (P x)} (l : list A) :
  filter P (f <$> l) = f <$> filter (λ x, P (f x)) l.
Proof.
  induction l as [|x l IH]; [done|]. rewrite fmap_cons, !filter_cons, IH. by case_decide.
Qed.
Lemma imap_pair_snd {A} (l : list A) : (imap pair l).*2 = l.
Proof.
  apply list_eq. intros i. rewrite list_lookup_fmap, list_lookup_imap. by destruct (l !! i).
Qed.
Lemma imap_pair_NoDup {A} (l : list A) : NoDup (imap pair l).
Proof.
  apply NoDup_alt. intros i j x. rewrite !list_lookup_imap.
  intros (y & _ & ->)%fmap_Some (z & _ & [= ? _])%fmap_Some. done.
Qed.

(** ** Stable sorting

    [slice::sort_by] and [sort_by_key] are stable; the model is an insertion
    sort with the comparison as an argument.  [sort_by_unique] shows that the
    three properties below determine the result, so the choice of algorithm
    does not matter. *)
Section sort.
Context {A : Type} (leb : A → A → bool).

Fixpoint insert_by (x : A) (l : list A) : list A :=
  match l with
  | [] => [x]
  | y :: l' => if leb x y then x :: l else y :: insert_by x l'
  end.
Definition sort_by (l : list A) : list A := foldr insert_by [] l.

Lemma insert_by_perm x l : insert_by x l ≡ₚ x :: l.
Proof.
  induction l as [|y l IH]; simpl; [done|].
  destruct (leb x y); [done|]. rewrite IH. constructor.
Qed.
Lemma sort_by_perm l : sort_by l ≡ₚ l.
Proof.
  induction l as [|x l IH]; simpl; [done|]. by rewrite insert_by_perm, IH.
Qed.
Lemma sort_by_elem x l : x ∈ sort_by l ↔ x ∈ l.
Proof. by rewrite sort_by_perm. Qed.
Lemma sort_by_len l : len (sort_by l) = len l.
Proof. apply len_perm, sort_by_perm. Qed.

Class TotalPreorderB : Prop := {
  leb_total : ∀ x y, leb x y = true ∨ leb y x = true;
  leb_trans : ∀ x y z, leb x y = true → leb y z = true → leb x z = true }.
Context `{!TotalPreorderB}.

Definition eqvb (x y : A) : bool := leb x y && leb y x.
Local Abbreviation sorted := (StronglySorted (λ x y, leb x y = true)).

Lemma insert_by_sorted x l : sorted l → sorted (insert_by x l).
Proof.
  induction 1 as [|y l Hl IH Hy]; simpl; [by repeat constructor|].
  destruct (leb x y) eqn:E.
  - constructor; [by constructor|]. constructor; [done|].
    eapply Forall_impl; [exact Hy|]. intros z Hz. by eapply leb_trans.
  - constructor; [done|]. rewrite insert_by_perm. constructor; [|done].
    destruct (leb_total x y); congruence.
Qed.
Lemma sort_by_sorted l : sorted (sort_by l).
Proof. induction l; simpl; [constructor|by apply insert_by_sorted]. Qed.

Lemma insert_by_filter_eqv z x l :
  sorted l →
  filter (λ y, eqvb z y = true) (insert_by x l)
  = filter (λ y, eqvb z y = true) (x :: l).
Proof.
  induction 1 as [|y l Hl IH Hy]; [done|]. simpl.
  destruct (leb x y) eqn:E; [done|].
  rewrite filter_cons, IH, !filter_cons.
  repeat case_decide; try done.
  exfalso. assert (leb x y = true); [|congruence].
  unfold eqvb in *. bool_props. by eapply leb_trans.
Qed.
(** Stability: elements the comparison does not separate keep their order. *)
Lemma sort_by_stable z l :
  filter (λ y, eqvb z y = true) (sort_by l) = filter (λ y, eqvb z y = true) l.
Proof.
  induction l as [|x l IH]; [done|]. simpl.
  rewrite insert_by_filter_eqv by apply sort_by_sorted.
  rewrite !filter_cons, IH. done.
Qed.

Lemma eqvb_refl x : eqvb x x = true.
Proof. unfold eqvb. destruct (leb_total x x) as [->| ->]; done. Qed.

Lemma sorted_stable_unique l1 l2 :
  sorted l1 → sorted l2 → l1 ≡ₚ l2 →
  (∀ z, filter (λ y, eqvb z y = true) l1 = filter (λ y, eqvb z y = true) l2) →
  l1 = l2.
Proof.
  intros H1. revert l2. induction H1 as [|x l1 Hl1 IH Hx]; intros l2 H2 Hp Hf.
  { symmetry. by apply Permutation_nil. }
  destruct H2 as [|y l2 Hl2 Hy]; [by apply Permutation_nil_r in Hp|].
  assert (eqvb x y = true) as Exy.
  { unfold eqvb. apply andb_true_iff. split.
    - assert (y ∈ x :: l1) as Hin by (rewrite Hp; by left).
      apply elem_of_cons in Hin as [->|Hin].
      + destruct (leb_total x x); done.
      + by eapply Forall_forall in Hx.
    - assert (x ∈ y :: l2) as Hin by (rewrite <-Hp; by left).
      apply elem_of_cons in Hin as [->|Hin].
      + destruct (leb_total y y); done.
      + by eapply Forall_forall in Hy. }
  assert (x = y) as ->.
  { specialize (Hf x). rewrite !filter_cons in Hf.
    rewrite decide_True in Hf by apply eqvb_refl.
    rewrite decide_True in Hf by done. congruence. }
  f_equal. apply IH; [done|by apply (inj (y ::.)) in Hp|].
  intros z. specialize (Hf z). rewrite !filter_cons in Hf.
  case_decide; congruence.
Qed.
(** Sorted, a permutation and stable: only one list is all three. *)
Lemma sort_by_unique l k :
  sorted k → k ≡ₚ l →
  (∀ z, filter (λ y, eqvb z y = true) k = filter (λ y, eqvb z y = true) l) →
  sort_by l = k.
Proof.
  intros Hs Hp Hf. apply sorted_stable_unique; [apply sort_by_sorted|done| |].
  - by rewrite sort_by_perm.
  - intros z. by rewrite sort_by_stable, Hf.
Qed.
Lemma sort_by_id l : sorted l → sort_by l = l.
Proof. intros. by apply sort_by_unique. Qed.
End sort.

(** [Ordering::then_with], and [sort_by] with a comparison. *)
Definition then_with (c d : comparison) : comparison := match c with Eq => d | _ => c end.
Definition not_greater (c : comparison) : bool := match c with Gt => false | _ => true end.

(** [sort_by_key] with an integer key. *)
Definition sort_by_key {A} (key : A → Z) : list A → list A :=
  sort_by (λ x y, key x <=? key y).

#[export] Instance key_leb_total {A} (key : A → Z) :
  TotalPreorderB (λ x y, key x <=? key y).
Proof. split; intros; rewrite ?Z.leb_le in *; lia. Qed.

Lemma sort_by_key_perm {A} (key : A → Z) l : sort_by_key key l ≡ₚ l.
Proof. apply sort_by_perm. Qed.
Lemma sort_by_key_elem {A} (key : A → Z) l x : x ∈ sort_by_key key l ↔ x ∈ l.
Proof. apply sort_by_elem. Qed.
Lemma sort_by_key_len {A} (key : A → Z) l : len (sort_by_key key l) = len l.
Proof. apply sort_by_len. Qed.
Lemma sort_by_key_sorted {A} (key : A → Z) l :
  StronglySorted (λ x y, key x ≤ key y) (sort_by_key key l).
Proof.
  eapply StronglySorted_impl; [|apply sort_by_sorted; apply _].
  intros x y. simpl. by rewrite Z.leb_le.
Qed.
Lemma sublist_sorted {A} (R : relation A) (l k : list A) :
  l `sublist_of` k → StronglySorted R k → StronglySorted R l.
Proof.
  induction 1 as [|x l k Hl IH|x l k Hl IH]; intros Hs; [constructor|..];
    apply StronglySorted_cons in Hs as [Hx Hs].
  - constructor; [by apply IH|]. apply Forall_forall. intros y Hy.
    eapply Forall_forall; [exact Hx|]. by eapply elem_of_sublist.
  - by apply IH.
Qed.

Lemma Forall_submseteq {A} (P : A → Prop) l k : l ⊆+ k → Forall P k → Forall P l.
Proof.
  rewrite !Forall_forall. intros Hsub Hall x Hx. apply Hall. by eapply elem_of_submseteq.
Qed.

(** A list whose keys increase strictly is already sorted. *)
Lemma sorted_keys_id {A} (key : A → Z) (l : list A) :
  StronglySorted (<) (key <$> l) → sort_by_key key l = l.
Proof.
  intros Hs. unfold sort_by_key. apply sort_by_id; [apply _|]. induction l as [|x l IH];
    [constructor|]. rewrite fmap_cons in Hs. apply StronglySorted_cons in Hs as [Hx Hs].
  constructor; [by apply IH|]. rewrite Forall_fmap in Hx. eapply Forall_impl; [exact Hx|].
  intros y Hy. cbn in *. apply Z.leb_le. lia.
Qed.
#[export] Hint Resolve sort_by_key_sorted sort_by_key_perm : xprobe.
