(* ===== verification/BTree.v ===== *)
(** * BTreeMap

    The standard library's ordered map, as far as the program uses it: an
    association list in strictly increasing key order.  The key order is an
    interface ([KeyOrd], Rust's [Ord]); instances cover the key types of the
    program.  Iteration order is key order, which is visible to the program:
    the correlators push matched pairs while iterating and sort them with a
    stable sort afterwards. *)
From S2P Require Import Prelude.
#[local] Open Scope Z_scope.

(** Rust's [Ord] with [Eq] as Leibniz equality. *)
Class KeyOrd (K : Type) := {
  kcmp : K → K → comparison;
  kcmp_eq : ∀ a b, kcmp a b = Eq ↔ a = b;
  kcmp_anti : ∀ a b, kcmp b a = CompOpp (kcmp a b);
  kcmp_trans : ∀ a b c, kcmp a b = Lt → kcmp b c = Lt → kcmp a c = Lt }.

Section keyord.
Context `{KeyOrd K}.
Definition klt (a b : K) : Prop := kcmp a b = Lt.
#[global] Instance klt_dec a b : Decision (klt a b).
Proof. unfold klt. solve_decision. Defined.

Lemma kcmp_refl a : kcmp a a = Eq.
Proof. by apply kcmp_eq. Qed.
Lemma klt_irrefl a : ¬ klt a a.
Proof. unfold klt. by rewrite kcmp_refl. Qed.
Lemma kcmp_gt a b : kcmp a b = Gt ↔ klt b a.
Proof. unfold klt. rewrite (kcmp_anti a b). by destruct (kcmp a b). Qed.
#[global] Instance klt_trans : Transitive klt.
Proof. intros a b c. apply kcmp_trans. Qed.
Lemma klt_ne a b : klt a b → a ≠ b.
Proof. intros ? ->. by eapply klt_irrefl. Qed.
End keyord.

(** Sorting by a comparison that is the order of a key. *)
Lemma key_preorder {A} `{KeyOrd K} (key : A → K) (cmp : A → A → comparison) :
  (∀ x y, cmp x y = kcmp (key x) (key y)) → TotalPreorderB (λ l r, not_greater (cmp l r)).
Proof.
  intros Hcmp. split; intros x y; [|intros z]; rewrite !Hcmp.
  - rewrite (kcmp_anti (key x) (key y)). destruct (kcmp _ _); auto.
  - destruct (kcmp (key x) (key y)) eqn:E1; [| |done];
      (destruct (kcmp (key y) (key z)) eqn:E2; [| |done]); intros _ _.
    + apply kcmp_eq in E1, E2. rewrite E1, E2. by rewrite kcmp_refl.
    + apply kcmp_eq in E1. by rewrite E1, E2.
    + apply kcmp_eq in E2. by rewrite <-E2, E1.
    + by rewrite (kcmp_trans _ _ _ E1 E2).
Qed.

(** ** Instances for the key types of the program *)
#[export] Program Instance Z_keyord : KeyOrd Z := {| kcmp := Z.compare |}.
Next Obligation. apply Z.compare_eq_iff. Qed.
Next Obligation. intros. apply Z.compare_antisym. Qed.
Next Obligation. intros a b c. rewrite !Z.compare_lt_iff. lia. Qed.

(** Tuples compare lexicographically. *)
Definition pair_cmp {A B} (ca : A → A → comparison) (cb : B → B → comparison)
    (x y : A * B) : comparison :=
  match ca x.1 y.1 with Eq => cb x.2 y.2 | c => c end.
#[export] Program Instance pair_keyord {A B} `{KeyOrd A} `{KeyOrd B} :
  KeyOrd (A * B) := {| kcmp := pair_cmp kcmp kcmp |}.
Next Obligation.
  intros A B ?? [a b] [a' b']. unfold pair_cmp. simpl.
  destruct (kcmp a a') eqn:E.
  - apply kcmp_eq in E as ->. rewrite kcmp_eq. split; congruence.
  - split; [done|]. intros [= -> ->]. by rewrite kcmp_refl in E.
  - split; [done|]. intros [= -> ->]. by rewrite kcmp_refl in E.
Qed.
Next Obligation.
  intros A B ?? [a b] [a' b']. unfold pair_cmp. simpl.
  rewrite (kcmp_anti a a'), (kcmp_anti b b'). by destruct (kcmp a a').
Qed.
Next Obligation.
  intros A B ?? [a b] [a' b'] [a'' b'']. unfold pair_cmp. simpl.
  destruct (kcmp a a') eqn:E1; destruct (kcmp a' a'') eqn:E2; try done.
  - apply kcmp_eq in E1 as ->. apply kcmp_eq in E2 as ->. rewrite kcmp_refl.
    apply kcmp_trans.
  - apply kcmp_eq in E1 as ->. by rewrite E2.
  - apply kcmp_eq in E2 as ->. by rewrite E1.
  - by rewrite (kcmp_trans _ _ _ E1 E2).
Qed.

(** [Option]: [None] is below every [Some]. *)
Definition option_cmp {A} (ca : A → A → comparison) (x y : option A) : comparison :=
  match x, y with
  | None, None => Eq
  | None, Some _ => Lt
  | Some _, None => Gt
  | Some a, Some b => ca a b
  end.
#[export] Program Instance option_keyord {A} `{KeyOrd A} :
  KeyOrd (option A) := {| kcmp := option_cmp kcmp |}.
Next Obligation.
  intros A ? [a|] [b|]; simpl; [|done..]. rewrite kcmp_eq. split; congruence.
Qed.
Next Obligation. intros A ? [a|] [b|]; simpl; try done. apply kcmp_anti. Qed.
Next Obligation.
  intros A ? [a|] [b|] [c|]; simpl; try done. apply kcmp_trans.
Qed.

(** Sequences ([Vec], [str] bytes) compare lexicographically, a proper prefix
    being smaller. *)
Fixpoint list_cmp {A} (ca : A → A → comparison) (x y : list A) : comparison :=
  match x, y with
  | [], [] => Eq
  | [], _ :: _ => Lt
  | _ :: _, [] => Gt
  | a :: x', b :: y' => match ca a b with Eq => list_cmp ca x' y' | c => c end
  end.
#[export] Program Instance list_keyord {A} `{KeyOrd A} :
  KeyOrd (list A) := {| kcmp := list_cmp kcmp |}.
Next Obligation.
  intros A ? x. induction x as [|a x IH]; intros [|b y]; simpl; try done.
  destruct (kcmp a b) eqn:E.
  - apply kcmp_eq in E as ->. rewrite IH. split; congruence.
  - split; [done|]. intros [= -> ->]. by rewrite kcmp_refl in E.
  - split; [done|]. intros [= -> ->]. by rewrite kcmp_refl in E.
Qed.
Next Obligation.
  intros A ? x. induction x as [|a x IH]; intros [|b y]; simpl; try done.
  rewrite (kcmp_anti a b), IH. by destruct (kcmp a b).
Qed.
Next Obligation.
  intros A ? x. induction x as [|a x IH]; intros [|b y] [|c z]; simpl; try done.
  destruct (kcmp a b) eqn:E1; destruct (kcmp b c) eqn:E2; try done.
  - apply kcmp_eq in E1 as ->. apply kcmp_eq in E2 as ->. rewrite kcmp_refl.
    apply IH.
  - apply kcmp_eq in E1 as ->. by rewrite E2.
  - apply kcmp_eq in E2 as ->. by rewrite E1.
  - by rewrite (kcmp_trans _ _ _ E1 E2).
Qed.

(** An order pulled back along an injection. *)
Program Definition inj_keyord {A B} `{KeyOrd B} (f : A → B) (Hf : Inj (=) (=) f) :
  KeyOrd A := {| kcmp a b := kcmp (f a) (f b) |}.
Next Obligation.
  intros A B ? f Hf a b. simpl. rewrite kcmp_eq. split; [apply (inj f)|congruence].
Qed.
Next Obligation. intros. apply kcmp_anti. Qed.
Next Obligation. intros A B ? f Hf a b c. apply kcmp_trans. Qed.

(** [String] compares by its bytes. *)
Fixpoint string_bytes (s : string) : list Z :=
  match s with
  | EmptyString => []
  | String c s => Z.of_N (Ascii.N_of_ascii c) :: string_bytes s
  end.
#[export] Instance string_bytes_inj : Inj (=) (=) string_bytes.
Proof.
  intros s. induction s as [|c s IH]; intros [|d t]; simpl; [done..|].
  intros [= Heq Ht]. f_equal; [|by apply IH].
  apply N2Z.inj in Heq.
  by rewrite <-(Ascii.ascii_N_embedding c), <-(Ascii.ascii_N_embedding d), Heq.
Qed.
#[export] Instance string_keyord : KeyOrd string := inj_keyord string_bytes _.

(** ** The map *)
Definition btree (K V : Type) : Type := list (K * V).

Section btree.
Context `{KeyOrd K} {V : Type}.
Implicit Types (m : btree K V) (k : K) (v : V).

Definition bt_keys m : list K := m.*1.
(** [values()]. *)
Definition bt_values m : list V := m.*2.

(** The invariant of the type: strictly increasing keys. *)
Definition bt_wf m : Prop := StronglySorted klt (bt_keys m).

(** [get]. *)
Fixpoint bt_get (k : K) (m : btree K V) : option V :=
  match m with
  | [] => None
  | (k', v) :: m' =>
      match kcmp k k' with Eq => Some v | Lt => None | Gt => bt_get k m' end
  end.

(** [insert]; the previous value is [bt_get k m]. *)
Fixpoint bt_insert (k : K) (v : V) (m : btree K V) : btree K V :=
  match m with
  | [] => [(k, v)]
  | (k', v') :: m' =>
      match kcmp k k' with
      | Eq => (k, v) :: m'
      | Lt => (k, v) :: m
      | Gt => (k', v') :: bt_insert k v m'
      end
  end.

(** [remove]; the removed value is [bt_get k m]. *)
Fixpoint bt_remove (k : K) (m : btree K V) : btree K V :=
  match m with
  | [] => []
  | (k', v') :: m' =>
      match kcmp k k' with
      | Eq => m'
      | Lt => m
      | Gt => (k', v') :: bt_remove k m'
      end
  end.

Lemma bt_keys_insert k v m x : x ∈ bt_keys (bt_insert k v m) → x = k ∨ x ∈ bt_keys m.
Proof.
  induction m as [|[k' v'] m IH]; simpl; rewrite ?elem_of_cons; [tauto|].
  destruct (kcmp k k'); simpl; rewrite ?elem_of_cons; tauto.
Qed.
Lemma bt_keys_remove k m x : x ∈ bt_keys (bt_remove k m) → x ∈ bt_keys m.
Proof.
  induction m as [|[k' v'] m IH]; simpl; [done|].
  destruct (kcmp k k'); simpl; rewrite ?elem_of_cons; tauto.
Qed.

Lemma bt_wf_nil : bt_wf [].
Proof. constructor. Qed.
Lemma bt_wf_cons k v m : bt_wf ((k, v) :: m) ↔ Forall (klt k) (bt_keys m) ∧ bt_wf m.
Proof. unfold bt_wf. simpl. apply StronglySorted_cons. Qed.
Lemma bt_wf_insert k v m : bt_wf m → bt_wf (bt_insert k v m).
Proof.
  induction m as [|[k' v'] m IH]; simpl; intros Hwf; [repeat constructor|].
  apply bt_wf_cons in Hwf as [Hlt Hwf].
  destruct (kcmp k k') eqn:E.
  - apply kcmp_eq in E as ->. by apply bt_wf_cons.
  - rewrite !bt_wf_cons. split; [|done]. simpl. constructor; [done|].
    eapply Forall_impl; [exact Hlt|]. intros. by etrans.
  - rewrite bt_wf_cons. split; [|by apply IH]. apply Forall_forall.
    intros x [->|Hx]%bt_keys_insert; [by apply kcmp_gt|].
    by eapply Forall_forall in Hlt.
Qed.
Lemma bt_wf_remove k m : bt_wf m → bt_wf (bt_remove k m).
Proof.
  induction m as [|[k' v'] m IH]; simpl; intros Hwf; [done|].
  pose proof Hwf as [Hlt Hwf']%bt_wf_cons.
  destruct (kcmp k k') eqn:E; [done..|].
  rewrite bt_wf_cons. split; [|by apply IH]. apply Forall_forall.
  intros x Hx%bt_keys_remove. by eapply Forall_forall in Hlt.
Qed.

Lemma bt_get_head_lt k m : Forall (klt k) (bt_keys m) → bt_get k m = None.
Proof.
  destruct m as [|[k' v'] m]; simpl; [done|].
  intros [Hk _]%Forall_cons. unfold klt in Hk. by rewrite Hk.
Qed.
Lemma bt_get_insert_eq k v m : bt_get k (bt_insert k v m) = Some v.
Proof.
  induction m as [|[k' v'] m IH]; simpl; [by rewrite kcmp_refl|].
  destruct (kcmp k k') eqn:E; simpl; rewrite ?kcmp_refl; [done..|].
  by rewrite E.
Qed.
Lemma bt_get_insert_ne k k' v m : k ≠ k' → bt_get k (bt_insert k' v m) = bt_get k m.
Proof.
  intros Hne. induction m as [|[j w] m IH]; simpl.
  { destruct (kcmp k k') eqn:E; [|done..]. by apply kcmp_eq in E. }
  destruct (kcmp k' j) eqn:E; simpl.
  - apply kcmp_eq in E as ->.
    destruct (kcmp k j) eqn:E2; [|done..]. by apply kcmp_eq in E2.
  - destruct (kcmp k k') eqn:E2; [by apply kcmp_eq in E2| |done].
    by rewrite (kcmp_trans _ _ _ E2 E).
  - by rewrite IH.
Qed.
Lemma bt_get_remove_eq k m : bt_wf m → bt_get k (bt_remove k m) = None.
Proof.
  induction m as [|[j w] m IH]; simpl; [done|].
  intros [Hlt Hwf]%bt_wf_cons. destruct (kcmp k j) eqn:E; simpl.
  - apply kcmp_eq in E as ->. by apply bt_get_head_lt.
  - by rewrite E.
  - rewrite E. by apply IH.
Qed.
Lemma bt_get_remove_ne k k' m :
  bt_wf m → k ≠ k' → bt_get k (bt_remove k' m) = bt_get k m.
Proof.
  intros Hwf Hne. induction m as [|[j w] m IH]; simpl; [done|].
  apply bt_wf_cons in Hwf as [Hlt Hwf].
  destruct (kcmp k' j) eqn:E; simpl; [|done|by rewrite IH].
  apply kcmp_eq in E as ->. destruct (kcmp k j) eqn:E2; [by apply kcmp_eq in E2| |done].
  apply bt_get_head_lt. eapply Forall_impl; [exact Hlt|].
  intros x Hx. by trans j.
Qed.

Lemma bt_insert_perm_None k v m :
  bt_get k m = None → bt_insert k v m ≡ₚ (k, v) :: m.
Proof.
  induction m as [|[j w] m IH]; simpl; [done|].
  destruct (kcmp k j); [done..|]. intros Hn. rewrite (IH Hn). constructor.
Qed.
Lemma bt_remove_perm k v m : bt_get k m = Some v → m ≡ₚ (k, v) :: bt_remove k m.
Proof.
  induction m as [|[j w] m IH]; simpl; [done|].
  destruct (kcmp k j) eqn:E; [|done|].
  - apply kcmp_eq in E as ->. by intros [= ->].
  - intros Hs. rewrite (IH Hs) at 1. constructor.
Qed.
Lemma bt_insert_perm_Some k v w m :
  bt_get k m = Some w → bt_insert k v m ≡ₚ (k, v) :: bt_remove k m.
Proof.
  induction m as [|[j u] m IH]; simpl; [done|].
  destruct (kcmp k j) eqn:E; [done..|].
  intros Hs. rewrite (IH Hs). constructor.
Qed.
Lemma bt_remove_None k m : bt_get k m = None → bt_remove k m = m.
Proof.
  induction m as [|[j u] m IH]; simpl; [done|].
  destruct (kcmp k j) eqn:E; [done..|]. intros. by rewrite IH.
Qed.
Lemma bt_values_insert_None k v m :
  bt_get k m = None → bt_values (bt_insert k v m) ≡ₚ v :: bt_values m.
Proof. intros Hn. unfold bt_values. by rewrite (bt_insert_perm_None _ _ _ Hn). Qed.
Lemma bt_values_insert_Some k v w m :
  bt_get k m = Some w → bt_values (bt_insert k v m) ≡ₚ v :: bt_values (bt_remove k m).
Proof. intros Hs. unfold bt_values. by rewrite (bt_insert_perm_Some _ _ _ _ Hs). Qed.
Lemma bt_values_remove k v m :
  bt_get k m = Some v → bt_values m ≡ₚ v :: bt_values (bt_remove k m).
Proof. intros Hs. unfold bt_values. by rewrite (bt_remove_perm _ _ _ Hs) at 1. Qed.
Lemma bt_len_remove k v m : bt_get k m = Some v → len m = len (bt_remove k m) + 1.
Proof. intros Hs%bt_remove_perm%len_perm. by rewrite len_cons in Hs. Qed.
Lemma bt_len_insert k v m :
  len (bt_insert k v m) = len m + match bt_get k m with Some _ => 0 | None => 1 end.
Proof.
  destruct (bt_get k m) as [w|] eqn:E.
  - rewrite (len_perm _ _ (bt_insert_perm_Some _ v _ _ E)), (bt_len_remove _ _ _ E), len_cons.
    lia.
  - rewrite (len_perm _ _ (bt_insert_perm_None _ v _ E)), len_cons. lia.
Qed.
Lemma bt_get_elem k v m : bt_wf m → bt_get k m = Some v ↔ (k, v) ∈ m.
Proof.
  intros Hwf. split.
  - intros Hs. rewrite (bt_remove_perm _ _ _ Hs). by left.
  - induction m as [|[j w] m IH]; simpl; [set_solver|].
    apply bt_wf_cons in Hwf as [Hlt Hwf]. intros [[= -> ->]|Hin]%elem_of_cons.
    + by rewrite kcmp_refl.
    + assert (klt j k) as Hj.
      { eapply Forall_forall in Hlt; [done|]. apply list_elem_of_fmap. by exists (k, v). }
      apply kcmp_gt in Hj. rewrite Hj. by apply IH.
Qed.
Lemma bt_get_None_keys k m : bt_wf m → bt_get k m = None → k ∉ bt_keys m.
Proof.
  intros Hwf Hn [[j v] [-> Hin]]%list_elem_of_fmap.
  apply bt_get_elem in Hin; [|done]. simpl in Hn. congruence.
Qed.

(** Extensionality: the sorted representation is canonical. *)
Lemma bt_get_tail k0 v0 m k :
  bt_wf ((k0, v0) :: m) →
  bt_get k m = match kcmp k k0 with Gt => bt_get k ((k0, v0) :: m) | _ => None end.
Proof.
  intros [Hlt Hwf]%bt_wf_cons. simpl. destruct (kcmp k k0) eqn:E; [| |done].
  - apply kcmp_eq in E as ->. by apply bt_get_head_lt.
  - apply bt_get_head_lt. eapply Forall_impl; [exact Hlt|]. intros x. by apply kcmp_trans.
Qed.
Lemma bt_ext m1 m2 : bt_wf m1 → bt_wf m2 → (∀ k, bt_get k m1 = bt_get k m2) → m1 = m2.
Proof.
  revert m2. induction m1 as [|[k1 v1] m1 IH]; intros [|[k2 v2] m2] Hwf1 Hwf2 Hget.
  - done.
  - specialize (Hget k2). simpl in Hget. by rewrite kcmp_refl in Hget.
  - specialize (Hget k1). simpl in Hget. by rewrite kcmp_refl in Hget.
  - assert (k1 = k2 ∧ v1 = v2) as [-> ->].
    { pose proof (Hget k1) as H1. pose proof (Hget k2) as H2. simpl in H1, H2.
      rewrite kcmp_refl in H1, H2. destruct (kcmp k1 k2) eqn:E; [|done|].
      - apply kcmp_eq in E. split; congruence.
      - apply kcmp_gt in E. unfold klt in E. by rewrite E in H2. }
    f_equal. apply IH; [by eapply bt_wf_cons|by eapply bt_wf_cons|].
    intros k. by rewrite (bt_get_tail _ _ _ k Hwf1), (bt_get_tail _ _ _ k Hwf2), Hget.
Qed.
Lemma bt_wf_NoDup m : bt_wf m → NoDup m.*1.
Proof.
  unfold bt_wf, bt_keys. generalize (m.*1). clear m. intros l. induction 1 as [|k l Hl IH Hk].
  - constructor.
  - constructor; [|done]. intros Hin. eapply Forall_forall in Hk; [|exact Hin].
    by apply klt_irrefl in Hk.
Qed.
End btree.
#[export] Hint Resolve bt_wf_nil bt_wf_insert bt_wf_remove : xprobe.

(** ** Maps of vectors

    [map.entry(k).or_default().push(x)], the grouping idiom of the program. *)
Section groups.
Context `{KeyOrd K} `{!EqDecision K} {V : Type}.
Implicit Types (m : btree K (list V)) (k : K).

Definition bt_push (k : K) (x : V) (m : btree K (list V)) : btree K (list V) :=
  bt_insert k (default [] (bt_get k m) ++ [x]) m.

(** All the elements of all the groups, in iteration order. *)
Definition bt_concat m : list V := concat (bt_values m).

Lemma bt_concat_perm m m' : m ≡ₚ m' → bt_concat m ≡ₚ bt_concat m'.
Proof.
  intros Hp. unfold bt_concat, bt_values.
  induction Hp; simpl; [done|by f_equiv| |by etrans].
  rewrite !app_assoc. f_equiv. apply Permutation_app_comm.
Qed.
Lemma bt_concat_remove k l m :
  bt_get k m = Some l → bt_concat m ≡ₚ l ++ bt_concat (bt_remove k m).
Proof. intros Hs%bt_remove_perm. by rewrite (bt_concat_perm _ _ Hs). Qed.
Lemma bt_push_concat k x m : bt_concat (bt_push k x m) ≡ₚ x :: bt_concat m.
Proof.
  unfold bt_push. destruct (bt_get k m) as [l|] eqn:E; simpl.
  - rewrite (bt_concat_perm _ _ (bt_insert_perm_Some _ _ _ _ E)).
    rewrite (bt_concat_remove _ _ _ E). unfold bt_concat at 1. simpl.
    rewrite <-app_assoc. simpl. by rewrite <-Permutation_middle.
  - rewrite (bt_concat_perm _ _ (bt_insert_perm_None _ _ _ E)). done.
Qed.
Lemma bt_push_wf k x m : bt_wf m → bt_wf (bt_push k x m).
Proof. apply bt_wf_insert. Qed.
Lemma bt_push_get_eq k x m :
  bt_get k (bt_push k x m) = Some (default [] (bt_get k m) ++ [x]).
Proof. apply bt_get_insert_eq. Qed.
Lemma bt_push_get_ne k k' x m : k ≠ k' → bt_get k (bt_push k' x m) = bt_get k m.
Proof. apply bt_get_insert_ne. Qed.

(** Group a list by a partial key: the groups, and the elements without one
    are left out. *)
Definition bt_group (key : V → option K) (l : list V) : btree K (list V) :=
  foldl (λ m x, match key x with Some k => bt_push k x m | None => m end) [] l.

Lemma bt_group_snoc key l x :
  bt_group key (l ++ [x])
  = match key x with Some k => bt_push k x (bt_group key l) | None => bt_group key l end.
Proof. unfold bt_group. by rewrite foldl_app. Qed.
Lemma bt_group_wf key l : bt_wf (bt_group key l).
Proof.
  induction l as [|x l IH] using rev_ind; [apply bt_wf_nil|].
  rewrite bt_group_snoc. destruct (key x); auto using bt_push_wf.
Qed.
(** A group is the subsequence of the elements with its key. *)
Lemma bt_group_get key l k :
  default [] (bt_get k (bt_group key l)) = filter (λ x, key x = Some k) l.
Proof.
  induction l as [|x l IH] using rev_ind; [done|].
  rewrite bt_group_snoc, filter_app, <-IH. rewrite filter_cons, filter_nil.
  destruct (key x) as [k'|] eqn:E; case_decide; simplify_eq; rewrite ?app_nil_r.
  - by rewrite bt_push_get_eq.
  - by rewrite bt_push_get_ne by congruence.
  - done.
Qed.
Lemma bt_group_get_Some key l k g :
  bt_get k (bt_group key l) = Some g → g = filter (λ x, key x = Some k) l ∧ g ≠ [].
Proof.
  intros Hg. pose proof (bt_group_get key l k) as Hf. rewrite Hg in Hf. split; [done|].
  revert g Hg Hf. induction l as [|x l IH] using rev_ind; intros g Hg Hf; [done|].
  rewrite bt_group_snoc in Hg. destruct (key x) as [k'|] eqn:E.
  - destruct (decide (k = k')) as [->|].
    + rewrite bt_push_get_eq in Hg. injection Hg as <-. by intros [_ ?]%app_nil.
    + rewrite bt_push_get_ne in Hg by done. eapply IH; [done|].
      by rewrite <-(bt_group_get key l k), Hg.
  - eapply IH; [done|]. by rewrite <-(bt_group_get key l k), Hg.
Qed.
Lemma bt_group_concat key l :
  bt_concat (bt_group key l) ≡ₚ filter (λ x, is_Some (key x)) l.
Proof.
  induction l as [|x l IH] using rev_ind; [done|].
  rewrite bt_group_snoc, filter_app, filter_cons, filter_nil.
  destruct (key x) as [k|] eqn:E.
  - rewrite decide_True by eauto. rewrite bt_push_concat, IH.
    by rewrite Permutation_app_comm.
  - rewrite decide_False by (by intros [? ?]). by rewrite app_nil_r.
Qed.
End groups.
