(* ===== verification/RustString.v ===== *)
(** * Strings

    The operations of [str] the program uses, on byte strings.  Every pattern
    the program searches for is ASCII, and in UTF-8 the bytes of a non-ASCII
    character are all at least 0x80, so splitting, stripping and classifying
    byte by byte agrees with Rust's character-wise operations on valid UTF-8. *)
From Stdlib Require Export Ascii.
From stdpp Require Export pretty.
From S2P Require Import Prelude.
#[local] Open Scope Z_scope.

#[global] Arguments String.append : simpl nomatch.

(** ** Predicates *)
Definition is_empty (s : string) : bool :=
  match s with EmptyString => true | _ => false end.

(** [str::len], in bytes. *)
Fixpoint str_len (s : string) : Z :=
  match s with EmptyString => 0 | String _ s => 1 + str_len s end.

Definition byte_of (c : ascii) : Z := Z.of_N (N_of_ascii c).

(** [u8::is_ascii_alphanumeric], also [char::is_ascii_alphanumeric]. *)
Definition is_ascii_alphanumeric (c : ascii) : bool :=
  let b := byte_of c in
  ((48 <=? b) && (b <=? 57)) || ((65 <=? b) && (b <=? 90)) || ((97 <=? b) && (b <=? 122)).

(** [s.bytes().all(p)] and [s.contains(c)]. *)
Fixpoint all_bytes (p : ascii → bool) (s : string) : bool :=
  match s with EmptyString => true | String c s => p c && all_bytes p s end.
Fixpoint contains_char (c : ascii) (s : string) : bool :=
  match s with EmptyString => false | String a s => (a == c) || contains_char c s end.

(** ** Stripping and splitting *)

(** [str::strip_prefix]. *)
Fixpoint strip_prefix (p s : string) : option string :=
  match p, s with
  | EmptyString, _ => Some s
  | String a p, String b s => if a == b then strip_prefix p s else None
  | String _ _, EmptyString => None
  end.

(** [str::starts_with]. *)
Definition starts_with (p s : string) : bool :=
  match strip_prefix p s with Some _ => true | None => false end.

(** [str::strip_suffix]. *)
Fixpoint strip_suffix (suffix s : string) : option string :=
  if s == suffix then Some EmptyString
  else match s with
       | EmptyString => None
       | String c s => String c <$> strip_suffix suffix s
       end.

(** [str::split(c)]: always at least one piece. *)
Fixpoint split (c : ascii) (s : string) : list string :=
  match s with
  | EmptyString => [EmptyString]
  | String a s =>
      if a == c then EmptyString :: split c s
      else match split c s with
           | [] => [String a EmptyString]
           | piece :: pieces => String a piece :: pieces
           end
  end.

(** [str::split_once] with a string pattern: the first occurrence. *)
Fixpoint split_once (pat s : string) : option (string * string) :=
  match strip_prefix pat s with
  | Some rest => Some (EmptyString, rest)
  | None => match s with
            | EmptyString => None
            | String a s => '(x, y) ← split_once pat s; Some (String a x, y)
            end
  end.

(** [str::rsplit_once] with a character pattern: the last occurrence. *)
Fixpoint rsplit_once (c : ascii) (s : string) : option (string * string) :=
  match s with
  | EmptyString => None
  | String a s =>
      match rsplit_once c s with
      | Some (x, y) => Some (String a x, y)
      | None => if a == c then Some (EmptyString, s) else None
      end
  end.

(** [str::splitn(n, c)]. *)
Fixpoint splitn (n : nat) (c : ascii) (s : string) : list string :=
  match n with
  | O => []
  | S O => [s]
  | S n => match split_once (String c EmptyString) s with
           | Some (x, y) => x :: splitn n c y
           | None => [s]
           end
  end.

(** ** Numbers *)

(** [char::to_digit(16)]. *)
Definition hex_digit (c : ascii) : option Z :=
  let b := byte_of c in
  if (48 <=? b) && (b <=? 57) then Some (b - 48)
  else if (97 <=? b) && (b <=? 102) then Some (b - 87)
  else if (65 <=? b) && (b <=? 70) then Some (b - 55)
  else None.

Fixpoint hex_digits (acc : Z) (s : string) : option Z :=
  match s with
  | EmptyString => Some acc
  | String c s =>
      d ← hex_digit c;
      let acc := acc * 16 + d in
      if acc <=? u64_max then hex_digits acc s else None
  end.

(** [u64::from_str_radix(s, 16).ok()]: one leading [+] is accepted. *)
Definition from_str_radix_16 (s : string) : option Z :=
  match s with
  | EmptyString => None
  | String c rest =>
      if c == "+"%char then if is_empty rest then None else hex_digits 0 rest
      else hex_digits 0 s
  end.

Definition hex_char (d : Z) : ascii :=
  ascii_of_N (Z.to_N (if d <? 10 then 48 + d else 87 + d)).

Fixpoint hex_loop (fuel : nat) (z : Z) (acc : string) : string :=
  match fuel with
  | O => acc
  | S fuel =>
      let acc := String (hex_char (z mod 16)) acc in
      if z / 16 =? 0 then acc else hex_loop fuel (z / 16) acc
  end.
(** [format!("{z:x}")] for a [u64]: sixteen digits are enough. *)
Definition to_hex (z : Z) : string := hex_loop 16 z EmptyString.

(** [format!("{z}")] for an unsigned integer. *)
Definition to_decimal (z : Z) : string := pretty (Z.to_N z).

(** [format!("{s:?}")]: quoted, with the ASCII escapes of [str]'s [Debug]. *)
Definition quote : ascii := ascii_of_N 34.
Definition backslash : ascii := ascii_of_N 92.
Fixpoint debug_body (s : string) : string :=
  match s with
  | EmptyString => String quote EmptyString
  | String c s =>
      let b := byte_of c in
      let esc d := String backslash (String d (debug_body s)) in
      if b =? 0 then esc "0"%char
      else if b =? 9 then esc "t"%char
      else if b =? 10 then esc "n"%char
      else if b =? 13 then esc "r"%char
      else if (c == quote) || (c == backslash) then esc c
      else if (b <? 32) || (b =? 127) then
        String backslash "u{" +:+ to_hex b +:+ "}" +:+ debug_body s
      else String c (debug_body s)
  end.
Definition debug_str (s : string) : string := String quote (debug_body s).

(** ** Lemmas *)
Lemma string_app_nil_r s : s +:+ "" = s.
Proof. induction s as [|c s IH]; simpl; [done|]. by rewrite IH. Qed.
Lemma string_app_assoc s t u : (s +:+ t) +:+ u = s +:+ (t +:+ u).
Proof. induction s as [|c s IH]; simpl; [done|]. by rewrite IH. Qed.

Lemma str_len_nonneg s : 0 ≤ str_len s.
Proof. induction s; simpl; lia. Qed.

Lemma strip_prefix_app p s : strip_prefix p (p +:+ s) = Some s.
Proof. induction p; simpl; [done|]. by rewrite bool_decide_eq_true_2. Qed.
Lemma strip_prefix_Some p s t : strip_prefix p s = Some t ↔ s = p +:+ t.
Proof.
  split; [|intros ->; apply strip_prefix_app].
  revert s. induction p as [|a p IH]; intros [|b s]; simpl; [congruence..|done|].
  case_bool_decide; [|done]. intros ?%IH. simpl. congruence.
Qed.
Lemma starts_with_app p s : starts_with p (p +:+ s) = true.
Proof. unfold starts_with. by rewrite strip_prefix_app. Qed.
Lemma starts_with_true p s : starts_with p s = true ↔ ∃ t, s = p +:+ t.
Proof.
  unfold starts_with. destruct (strip_prefix p s) as [t|] eqn:E; split; try done.
  - intros _. exists t. by apply strip_prefix_Some.
  - intros [t ->]. by rewrite strip_prefix_app in E.
Qed.

Lemma strip_suffix_Some suffix s t : strip_suffix suffix s = Some t → s = t +:+ suffix.
Proof.
  revert t. induction s as [|c s IH]; simpl; intros t.
  - case_bool_decide; [|done]. by intros [= <-].
  - case_bool_decide as E; [intros [= <-]; done|].
    destruct (strip_suffix suffix s) as [u|]; [|done].
    intros [= <-]. simpl. f_equal. by apply IH.
Qed.
Lemma strip_suffix_app s suffix : strip_suffix suffix (s +:+ suffix) = Some s.
Proof.
  assert (∀ t u, str_len (t +:+ u) = str_len t + str_len u) as Hlen
    by (intros t u; induction t; simpl; lia).
  induction s as [|c s IH].
  - cbn [String.append]. destruct suffix; cbn [strip_suffix]; by rewrite bool_decide_eq_true_2.
  - cbn [String.append strip_suffix]. rewrite IH, bool_decide_eq_false_2; [done|].
    intros Heq. apply (f_equal str_len) in Heq. simpl in Heq. rewrite Hlen in Heq.
    pose proof (str_len_nonneg s). lia.
Qed.

Lemma contains_char_app c s t :
  contains_char c (s +:+ t) = contains_char c s || contains_char c t.
Proof. induction s; simpl; [done|]. by rewrite IHs, orb_assoc. Qed.
Lemma all_bytes_no_char p c s :
  all_bytes p s = true → p c = false → contains_char c s = false.
Proof.
  intros Hall Hc. induction s as [|a s IH]; simpl in *; [done|].
  bool_props. rewrite IH by done. case_bool_decide; [congruence|done].
Qed.

Lemma split_no_char c s : contains_char c s = false → split c s = [s].
Proof.
  induction s as [|a s IH]; simpl; [done|]. intros. bool_props.
  rewrite bool_decide_eq_false_2 by done. by rewrite IH.
Qed.
(** A separator-free piece followed by the separator. *)
Lemma split_app c s t :
  contains_char c s = false → split c (s +:+ String c t) = s :: split c t.
Proof.
  induction s as [|a s IH]; simpl; intros.
  - by rewrite bool_decide_eq_true_2.
  - bool_props. rewrite bool_decide_eq_false_2 by done. by rewrite IH.
Qed.

Lemma rsplit_once_none c s : contains_char c s = false → rsplit_once c s = None.
Proof.
  induction s as [|a s IH]; simpl; [done|]. intros. bool_props.
  rewrite IH by done. by rewrite bool_decide_eq_false_2.
Qed.
Lemma rsplit_once_app c s t :
  contains_char c t = false → rsplit_once c (s +:+ String c t) = Some (s, t).
Proof.
  intros Ht. induction s as [|a s IH]; simpl.
  - rewrite rsplit_once_none by done. by rewrite bool_decide_eq_true_2.
  - by rewrite IH.
Qed.
Lemma rsplit_once_Some c s x y :
  rsplit_once c s = Some (x, y) → s = x +:+ String c y ∧ contains_char c y = false.
Proof.
  revert x y. induction s as [|a s IH]; simpl; intros x y; [done|].
  destruct (rsplit_once c s) as [[x' y']|] eqn:E.
  - intros [= <- <-]. destruct (IH _ _ eq_refl) as [-> ?]. done.
  - case_bool_decide; [|done]. intros [= <- <-]. subst. split; [done|].
    clear -E. induction s as [|b s IH]; simpl in *; [done|].
    destruct (rsplit_once c s) as [[]|]; [done|].
    case_bool_decide; [done|]. by rewrite IH.
Qed.

Lemma split_once_Some pat s x y : split_once pat s = Some (x, y) → s = x +:+ pat +:+ y.
Proof.
  revert x y. induction s as [|a s IH]; intros x y; simpl.
  - destruct pat; simpl; [|done]. by intros [= <- <-].
  - destruct (strip_prefix pat (String a s)) as [r|] eqn:E.
    + intros [= <- <-]. by apply strip_prefix_Some in E.
    + destruct (split_once pat s) as [[x' y']|]; simpl; [|done].
      intros [= <- <-]. simpl. f_equal. by apply IH.
Qed.
(** A separator-free piece, then the separator: [split_once] with one character. *)
Lemma split_once_char c s t :
  contains_char c s = false →
  split_once (String c EmptyString) (s +:+ String c t) = Some (s, t).
Proof.
  induction s as [|a s IH]; simpl; intros.
  - by rewrite bool_decide_eq_true_2.
  - bool_props. rewrite bool_decide_eq_false_2 by done. by rewrite IH.
Qed.
Lemma split_once_char_none c s :
  contains_char c s = false → split_once (String c EmptyString) s = None.
Proof.
  induction s as [|a s IH]; simpl; intros; [done|].
  bool_props. rewrite bool_decide_eq_false_2 by done. by rewrite IH.
Qed.

Lemma byte_of_ascii b : (b < 256)%N → byte_of (ascii_of_N b) = Z.of_N b.
Proof. intros. unfold byte_of. by rewrite N_ascii_embedding. Qed.
Lemma hex_digit_char d : 0 ≤ d < 16 → hex_digit (hex_char d) = Some d.
Proof.
  intros Hd. unfold hex_digit, hex_char.
  assert (d ∈ [0;1;2;3;4;5;6;7;8;9;10;11;12;13;14;15]) as Hin.
  { rewrite !elem_of_cons. lia. }
  repeat (apply elem_of_cons in Hin as [->|Hin]; [done|]). set_solver.
Qed.
Lemma hex_char_not_plus d : 0 ≤ d < 16 → hex_char d ≠ "+"%char ∧ hex_char d ≠ ":"%char.
Proof.
  intros Hd. assert (d ∈ [0;1;2;3;4;5;6;7;8;9;10;11;12;13;14;15]) as Hin.
  { rewrite !elem_of_cons. lia. }
  repeat (apply elem_of_cons in Hin as [->|Hin]; [by split|]). set_solver.
Qed.

Lemma hex_loop_digits fuel z rest :
  0 ≤ z ≤ u64_max → z < 16 ^ Z.of_nat fuel →
  hex_digits 0 (hex_loop fuel z rest) = hex_digits z rest.
Proof.
  revert z rest. induction fuel as [|fuel IH]; intros z rest Hz Hf.
  { assert (z = 0) as -> by (simpl in Hf; lia). done. }
  cbn [hex_loop]. pose proof (Z.mod_pos_bound z 16).
  pose proof (Z.div_mod z 16 ltac:(lia)) as Hdm.
  destruct (z / 16 =? 0) eqn:E.
  - assert (z mod 16 = z) as -> by lia. cbn [hex_digits].
    rewrite hex_digit_char by lia. unfold mbind, option_bind.
    replace (0 * 16 + z) with z by lia. destruct (z <=? u64_max) eqn:E2; [done|lia].
  - rewrite IH; [| lia |].
    + cbn [hex_digits]. rewrite hex_digit_char by lia. unfold mbind, option_bind.
      replace (z / 16 * 16 + z mod 16) with z by lia.
      destruct (z <=? u64_max) eqn:E2; [done|lia].
    + rewrite Nat2Z.inj_succ, Z.pow_succ_r in Hf by lia.
      apply Z.div_lt_upper_bound; lia.
Qed.
Lemma hex_loop_shape fuel z rest :
  0 ≤ z → ∃ d s, hex_loop (S fuel) z rest = String (hex_char d) s ∧ 0 ≤ d < 16.
Proof.
  revert z rest. induction fuel as [|fuel IH]; intros z rest Hz; cbn [hex_loop].
  - exists (z mod 16), rest. split; [by destruct (z / 16 =? 0)|].
    apply Z.mod_pos_bound; lia.
  - destruct (z / 16 =? 0).
    + exists (z mod 16), rest. split; [done|]. apply Z.mod_pos_bound; lia.
    + apply IH. apply Z.div_pos; lia.
Qed.
Lemma hex_loop_no_colon fuel z rest :
  0 ≤ z → contains_char ":"%char rest = false →
  contains_char ":"%char (hex_loop fuel z rest) = false.
Proof.
  revert z rest. induction fuel as [|fuel IH]; intros z rest Hz Hr; cbn [hex_loop]; [done|].
  assert (contains_char ":" (String (hex_char (z mod 16)) rest) = false) as Hr'.
  { cbn [contains_char]. rewrite Hr, orb_false_r. apply bool_decide_eq_false_2.
    apply hex_char_not_plus. apply Z.mod_pos_bound; lia. }
  destruct (z / 16 =? 0); [done|]. apply IH; [apply Z.div_pos; lia|done].
Qed.
(** Printing in hexadecimal and parsing back. *)
Lemma from_str_radix_16_to_hex z : in_u64 z → from_str_radix_16 (to_hex z) = Some z.
Proof.
  intros [Hlo Hhi]. unfold from_str_radix_16.
  pose proof (hex_loop_digits 16 z "" (conj Hlo Hhi)) as Hd.
  destruct (hex_loop_shape 15 z "" Hlo) as (d & s & Hs & Hdr).
  unfold to_hex. rewrite Hs in *. 
  rewrite bool_decide_eq_false_2 by (by apply hex_char_not_plus).
  apply Hd. unfold u64_max in Hhi. lia.
Qed.
