(* ===== verification/Text.v ===== *)
(** * Text of procfs files, numbers and paths

    What the host side uses of [str], integer parsing and [std::path].  White
    space is the ASCII white space of [char::is_whitespace]; the non-ASCII
    white space characters do not occur in the procfs fields that are split. *)
From S2P Require Import Prelude BTree RustString.
#[local] Open Scope Z_scope.

(** ** White space and lines *)
Definition is_whitespace (c : ascii) : bool :=
  let b := byte_of c in ((9 <=? b) && (b <=? 13)) || (b =? 32).

(** [str::trim_start]. *)
Fixpoint trim_start (s : string) : string :=
  match s with
  | EmptyString => EmptyString
  | String c rest => if is_whitespace c then trim_start rest else s
  end.
(** [str::trim_end]. *)
Fixpoint trim_end (s : string) : string :=
  match s with
  | EmptyString => EmptyString
  | String c rest =>
      match trim_end rest with
      | EmptyString => if is_whitespace c then EmptyString else String c EmptyString
      | rest => String c rest
      end
  end.
Definition trim (s : string) : string := trim_end (trim_start s).

(** [str::split_whitespace]. *)
Fixpoint split_whitespace (s : string) : list string :=
  match s with
  | EmptyString => []
  | String c rest =>
      if is_whitespace c then split_whitespace rest
      else
        match rest with
        | EmptyString => [String c EmptyString]
        | String d _ =>
            if is_whitespace d then String c EmptyString :: split_whitespace rest
            else match split_whitespace rest with
                 | [] => [String c EmptyString]
                 | word :: words => String c word :: words
                 end
        end
  end.

Definition newline : ascii := ascii_of_N 10.
Definition carriage_return : ascii := ascii_of_N 13.

(** [str::lines]: pieces between newlines, without a carriage return before
    the newline and without an empty last piece. *)
Definition strip_carriage_return (s : string) : string :=
  default s (strip_suffix (String carriage_return EmptyString) s).
Fixpoint lines_of (pieces : list string) : list string :=
  match pieces with
  | [] => []
  | [last] => if is_empty last then [] else [last]
  | piece :: pieces => strip_carriage_return piece :: lines_of pieces
  end.
Definition lines (s : string) : list string := lines_of (split newline s).

(** [str::contains] with a string pattern. *)
Definition contains (pat s : string) : bool :=
  match split_once pat s with Some _ => true | None => false end.
(** [str::ends_with]. *)
Definition ends_with (suffix s : string) : bool :=
  match strip_suffix suffix s with Some _ => true | None => false end.
(** [[&str]::join]. *)
Fixpoint join (sep : string) (pieces : list string) : string :=
  match pieces with
  | [] => EmptyString
  | [piece] => piece
  | piece :: pieces => piece +:+ sep +:+ join sep pieces
  end.

(** [iter().find_map(f)]. *)
Fixpoint find_map {A B} (f : A → option B) (l : list A) : option B :=
  match l with
  | [] => None
  | x :: l => match f x with Some y => Some y | None => find_map f l end
  end.

Lemma find_map_Some {A B} (f : A → option B) l y :
  find_map f l = Some y →
  ∃ l1 x l2, l = l1 ++ x :: l2 ∧ f x = Some y ∧ Forall (λ z, f z = None) l1.
Proof.
  induction l as [|x l IH]; simpl; [done|]. destruct (f x) as [z|] eqn:E.
  - intros [= <-]. by exists [], x, l.
  - intros (l1 & x' & l2 & -> & Hx & Hl)%IH. exists (x :: l1), x', l2. split; [done|].
    split; [done|]. by constructor.
Qed.

(** ** Decimal numbers *)
Definition digit (c : ascii) : option Z :=
  let b := byte_of c in if (48 <=? b) && (b <=? 57) then Some (b - 48) else None.

Fixpoint digits (max acc : Z) (s : string) : option Z :=
  match s with
  | EmptyString => Some acc
  | String c s =>
      d ← digit c;
      let acc := acc * 10 + d in
      if acc <=? max then digits max acc s else None
  end.

(** [str::parse] for an unsigned type with the given maximum: one leading [+]
    is accepted. *)
Definition parse_unsigned (max : Z) (s : string) : option Z :=
  match s with
  | EmptyString => None
  | String c rest =>
      if c == "+"%char then if is_empty rest then None else digits max 0 rest
      else digits max 0 s
  end.
Definition parse_u32 : string → option Z := parse_unsigned u32_max.
Definition parse_u64 : string → option Z := parse_unsigned u64_max.

(** [str::parse::<i32>], and [i32::to_string]. *)
Definition parse_i32 (s : string) : option Z :=
  match s with
  | String c rest =>
      if c == "-"%char then
        if is_empty rest then None else Z.opp <$> digits (2 ^ 31) 0 rest
      else parse_unsigned (2 ^ 31 - 1) s
  | EmptyString => None
  end.
Definition i32_to_string (z : Z) : string :=
  if z <? 0 then "-" +:+ to_decimal (- z) else to_decimal z.

Lemma digits_range max acc s z : 0 ≤ acc ≤ max → digits max acc s = Some z → 0 ≤ z ≤ max.
Proof.
  revert acc. induction s as [|c s IH]; simpl; intros acc Hacc; [by intros [= <-]|].
  unfold digit. destruct (_ && _) eqn:E; [|done]. simpl.
  destruct (Z.leb_spec (acc * 10 + (byte_of c - 48)) max); [|done]. apply IH.
  bool_props. lia.
Qed.
Lemma parse_unsigned_range max s z : 0 ≤ max → parse_unsigned max s = Some z → 0 ≤ z ≤ max.
Proof.
  intros Hm. destruct s as [|c s]; simpl; [done|]. case_bool_decide.
  - destruct (is_empty s); [done|]. by apply digits_range.
  - intros Hd. apply (digits_range max 0 (String c s)); [lia|]. exact Hd.
Qed.

(** ** Paths

    [Path] equality and ordering go by components: repeated separators and
    [.] components do not count, except that a leading [.] is kept. *)
Definition root_or_leading (s : string) (pieces : list string) : list (Z * string) :=
  if starts_with "/" s then [(0, EmptyString)]
  else match pieces with piece :: _ => if piece == "." then [(1, EmptyString)] else [] | _ => [] end.
Definition path_component (piece : string) : option (Z * string) :=
  if is_empty piece || (piece == ".") then None
  else if piece == ".." then Some (2, EmptyString)
  else Some (3, piece).
(** [RootDir], [CurDir], [ParentDir] and [Normal] components, in that order. *)
Definition components (s : string) : list (Z * string) :=
  let pieces := split "/" s in
  root_or_leading s pieces ++ omap path_component pieces.

Definition path_eq (a b : string) : bool := components a == components b.

(** [Path::file_name]: the last component if it is a normal one. *)
Definition file_name (s : string) : option string :=
  match last (components s) with
  | Some (3, name) => Some name
  | _ => None
  end.

(** ** UTF-8

    [str::from_utf8]: byte sequences of the well-formedness table of Unicode
    (no overlong forms, no surrogates, at most U+10FFFF). *)
Definition utf8_cont (b : Z) : bool := (128 <=? b) && (b <=? 191).
Definition utf8_2 (a b : Z) : bool := (194 <=? a) && (a <=? 223) && utf8_cont b.
Definition utf8_3 (a b c : Z) : bool :=
  (((a =? 224) && (160 <=? b) && (b <=? 191))
   || ((225 <=? a) && (a <=? 236) && utf8_cont b)
   || ((a =? 237) && (128 <=? b) && (b <=? 159))
   || ((238 <=? a) && (a <=? 239) && utf8_cont b)) && utf8_cont c.
Definition utf8_4 (a b c d : Z) : bool :=
  (((a =? 240) && (144 <=? b) && (b <=? 191))
   || ((241 <=? a) && (a <=? 243) && utf8_cont b)
   || ((a =? 244) && (128 <=? b) && (b <=? 143))) && utf8_cont c && utf8_cont d.

Fixpoint utf8_valid (l : list Z) : bool :=
  match l with
  | [] => true
  | a :: l1 =>
      if a <? 128 then utf8_valid l1
      else
        match l1 with
        | [] => false
        | b :: l2 =>
            if utf8_2 a b then utf8_valid l2
            else
              match l2 with
              | [] => false
              | c :: l3 =>
                  if utf8_3 a b c then utf8_valid l3
                  else
                    match l3 with
                    | [] => false
                    | d :: l4 => if utf8_4 a b c d then utf8_valid l4 else false
                    end
              end
        end
  end.

Definition string_of_bytes (l : list Z) : string :=
  foldr (λ b s, String (ascii_of_N (Z.to_N b)) s) EmptyString l.
Fixpoint bytes_of_string (s : string) : list Z :=
  match s with EmptyString => [] | String c s => byte_of c :: bytes_of_string s end.

(** [String::from_utf8(bytes).ok()]. *)
Definition from_utf8 (l : list Z) : option string :=
  if utf8_valid l then Some (string_of_bytes l) else None.

(** [String::from_utf8_lossy]: the longest start of a sequence that is cut short or continued
    wrongly becomes one U+FFFD. *)
Definition replacement : list Z := [239; 191; 189].
Definition utf8_3_start (a b : Z) : bool := utf8_3 a b 128.
Definition utf8_4_start (a b : Z) : bool := utf8_4 a b 128 128.
Fixpoint lossy_bytes (l : list Z) : list Z :=
  match l with
  | [] => []
  | a :: l1 =>
      if a <? 128 then a :: lossy_bytes l1
      else
        match l1 with
        | [] => replacement
        | b :: l2 =>
            if utf8_2 a b then a :: b :: lossy_bytes l2
            else if utf8_3_start a b then
              match l2 with
              | [] => replacement
              | c :: l3 =>
                  if utf8_cont c then a :: b :: c :: lossy_bytes l3
                  else replacement ++ lossy_bytes l2
              end
            else if utf8_4_start a b then
              match l2 with
              | [] => replacement
              | c :: l3 =>
                  if utf8_cont c then
                    match l3 with
                    | [] => replacement
                    | d :: l4 =>
                        if utf8_cont d then a :: b :: c :: d :: lossy_bytes l4
                        else replacement ++ lossy_bytes l3
                    end
                  else replacement ++ lossy_bytes l2
              end
            else replacement ++ lossy_bytes l1
        end
  end.
Definition from_utf8_lossy (l : list Z) : string := string_of_bytes (lossy_bytes l).

(** [Utf8Error]: the index of the first error and the length of the bad sequence, [None] if the
    text ends within one; and its [Display]. *)
Definition utf8_lead (a : Z) : bool := (194 <=? a) && (a <=? 244).
Fixpoint utf8_error_at (index : Z) (l : list Z) : option (Z * option Z) :=
  match l with
  | [] => None
  | a :: l1 =>
      if a <? 128 then utf8_error_at (index + 1) l1
      else
        match l1 with
        | [] => Some (index, if utf8_lead a then None else Some 1)
        | b :: l2 =>
            if utf8_2 a b then utf8_error_at (index + 2) l2
            else if utf8_3_start a b then
              match l2 with
              | [] => Some (index, None)
              | c :: l3 =>
                  if utf8_cont c then utf8_error_at (index + 3) l3 else Some (index, Some 2)
              end
            else if utf8_4_start a b then
              match l2 with
              | [] => Some (index, None)
              | c :: l3 =>
                  if utf8_cont c then
                    match l3 with
                    | [] => Some (index, None)
                    | d :: l4 =>
                        if utf8_cont d then utf8_error_at (index + 4) l4 else Some (index, Some 3)
                    end
                  else Some (index, Some 2)
              end
            else Some (index, Some 1)
        end
  end.
Definition utf8_error (l : list Z) : string :=
  match utf8_error_at 0 l with
  | Some (index, Some length) =>
      "invalid utf-8 sequence of " +:+ to_decimal length +:+ " bytes from index "
        +:+ to_decimal index
  | Some (index, None) => "incomplete utf-8 byte sequence from index " +:+ to_decimal index
  | None => EmptyString
  end.

(** [bytes.split(|b| b == sep)]. *)
Fixpoint split_bytes (sep : Z) (l : list Z) : list (list Z) :=
  match l with
  | [] => [[]]
  | b :: l =>
      if b =? sep then [] :: split_bytes sep l
      else match split_bytes sep l with
           | [] => [[b]]
           | piece :: pieces => (b :: piece) :: pieces
           end
  end.

Lemma bytes_of_string_app s t :
  bytes_of_string (s +:+ t) = bytes_of_string s ++ bytes_of_string t.
Proof. induction s; simpl; [done|]. by rewrite IHs. Qed.
Lemma bytes_of_string_of_bytes l :
  Forall (λ b, 0 ≤ b < 256) l → bytes_of_string (string_of_bytes l) = l.
Proof.
  induction 1 as [|b l Hb Hl IH]; simpl; [done|].
  rewrite byte_of_ascii by lia. rewrite IH. f_equal. lia.
Qed.
