(* ===== verification/Bytes.v ===== *)
(** * Byte buffers

    Slices of byte vectors and fixed-width integers in them.  A byte is an
    integer from 0 to 255; native byte order is little-endian on the supported
    target. *)
From S2P Require Import Prelude.
#[local] Open Scope Z_scope.

(** [data.get(a..b)]. *)
Definition slice (data : list Z) (a b : Z) : option (list Z) :=
  if (a <=? b) && (b <=? len data)
  then Some (take (Z.to_nat (b - a)) (drop (Z.to_nat a) data)) else None.

(** [u32::from_le_bytes] and [u32::from_be_bytes]. *)
Definition from_le_bytes (bytes : list Z) : Z := foldr (λ b acc, b + 256 * acc) 0 bytes.
Definition from_be_bytes (bytes : list Z) : Z := foldl (λ acc b, acc * 256 + b) 0 bytes.


(** [to_le_bytes] of an integer of [n] bytes. *)
Fixpoint to_le_bytes (n : nat) (z : Z) : list Z :=
  match n with O => [] | S n => z mod 256 :: to_le_bytes n (z / 256) end.

Definition is_byte (b : Z) : Prop := 0 ≤ b < 256.

Lemma from_le_bytes_nonneg l : Forall (λ b, 0 ≤ b) l → 0 ≤ from_le_bytes l.
Proof. unfold from_le_bytes. induction 1; simpl; lia. Qed.
Lemma from_be_bytes_nonneg l : Forall (λ b, 0 ≤ b) l → 0 ≤ from_be_bytes l.
Proof.
  intros Hl. unfold from_be_bytes. induction l as [|b l IH] using rev_ind; [done|].
  rewrite foldl_snoc. apply Forall_app in Hl as [Hl Hb].
  apply Forall_cons in Hb as [Hb _]. specialize (IH Hl). simpl. lia.
Qed.

Lemma slice_Forall (P : Z → Prop) data a b bytes :
  slice data a b = Some bytes → Forall P data → Forall P bytes.
Proof.
  unfold slice. destruct (_ && _); [|done]. intros [= <-] Hd.
  by apply Forall_take, Forall_drop.
Qed.

Lemma to_le_bytes_length n z : length (to_le_bytes n z) = n.
Proof. revert z. induction n; intros z; simpl; auto. Qed.
Lemma to_le_bytes_len n z : len (to_le_bytes n z) = Z.of_nat n.
Proof. unfold len. by rewrite to_le_bytes_length. Qed.
Lemma to_le_bytes_bytes n z : Forall is_byte (to_le_bytes n z).
Proof.
  revert z. induction n as [|n IH]; intros z; simpl; constructor; [|done].
  unfold is_byte. by apply Z.mod_pos_bound.
Qed.
(** Writing an integer and reading it back. *)
Lemma from_to_le_bytes n z : 0 ≤ z < 256 ^ Z.of_nat n → from_le_bytes (to_le_bytes n z) = z.
Proof.
  revert z. induction n as [|n IH]; intros z Hz.
  { simpl in *. lia. }
  rewrite Nat2Z.inj_succ, Z.pow_succ_r in Hz by lia. cbn.
  change (foldr (λ b acc, b + 256 * acc) 0 (to_le_bytes n (z / 256)))
    with (from_le_bytes (to_le_bytes n (z / 256))).
  rewrite IH.
  - pose proof (Z.div_mod z 256 ltac:(lia)). lia.
  - split; [apply Z.div_pos; lia|apply Z.div_lt_upper_bound; lia].
Qed.
Lemma from_le_bytes_range l :
  Forall is_byte l → 0 ≤ from_le_bytes l < 256 ^ len l.
Proof.
  unfold is_byte. induction 1 as [|b l Hb Hl IH]; [done|].
  rewrite len_cons, Z.pow_add_r by (try apply len_nonneg; lia). cbn.
  unfold from_le_bytes in *. lia.
Qed.

(** Reading a field out of concatenated fields. *)
Lemma slice_app l1 l2 l3 a b :
  a = len l1 → b = len l1 + len l2 → slice (l1 ++ l2 ++ l3) a b = Some l2.
Proof.
  intros -> ->. unfold slice. rewrite !len_app.
  pose proof (len_nonneg l1). pose proof (len_nonneg l2). pose proof (len_nonneg l3).
  rewrite (proj2 (Z.leb_le (len l1) (len l1 + len l2))) by lia.
  rewrite (proj2 (Z.leb_le (len l1 + len l2) _)) by lia. simpl. f_equal.
  replace (len l1 + len l2 - len l1) with (len l2) by lia.
  unfold len. rewrite !Nat2Z.id, drop_app_length, take_app_length. done.
Qed.
Lemma slice_some l a b : 0 ≤ a ≤ b → b ≤ len l → ∃ k, slice l a b = Some k ∧ len k = b - a.
Proof.
  intros Hab Hb. unfold slice. rewrite (proj2 (Z.leb_le a b)) by lia.
  rewrite (proj2 (Z.leb_le b _)) by lia. simpl. eexists. split; [done|].
  unfold len in *. rewrite length_take, length_drop. lia.
Qed.

(** A slice has its length when it starts at a position of the buffer. *)
Lemma slice_len l a b k : 0 ≤ a → slice l a b = Some k → len k = b - a.
Proof.
  unfold slice. intros Ha. destruct (_ && _) eqn:E; [|done]. intros [= <-].
  apply andb_true_iff in E as [E1%Z.leb_le E2%Z.leb_le]. unfold len in *.
  rewrite length_take, length_drop. lia.
Qed.

(** ** Records of integer fields *)

(** [from_ne_bytes(bytes[a..b].try_into().expect(..))]: [None] is a panic. *)
Definition field (bytes : list Z) (a b : Z) : option Z := from_le_bytes <$> slice bytes a b.

Lemma field_some l a b : 0 ≤ a ≤ b → b ≤ len l → ∃ v, field l a b = Some v.
Proof.
  intros Ha Hb. unfold field. destruct (slice_some l a b Ha Hb) as (k & -> & _). by eexists.
Qed.
Lemma field_range l a b v :
  0 ≤ a → Forall is_byte l → field l a b = Some v → 0 ≤ v < 256 ^ (b - a).
Proof.
  unfold field. intros Ha Hl. destruct (slice l a b) as [k|] eqn:E; [|done].
  cbn [fmap option_fmap option_map]. intros [= <-].
  rewrite <-(slice_len _ _ _ _ Ha E). apply from_le_bytes_range.
  by eapply slice_Forall.
Qed.

(** A record: its fields in order, each with its width in bytes. *)
Definition encode_layout (fields : list (nat * Z)) : list Z :=
  concat ((λ '(n, z), to_le_bytes n z) <$> fields).
Definition layout_size (fields : list (nat * Z)) : Z :=
  foldr (λ '(n, _) acc, Z.of_nat n + acc) 0 fields.
Definition layout_wf (fields : list (nat * Z)) : Prop :=
  Forall (λ '(n, z), 0 ≤ z < 256 ^ Z.of_nat n) fields.

(** [bytes[start..start + src.len()].copy_from_slice(src)]: [None] is a panic. *)
Definition copy_from_slice (bytes : list Z) (start : Z) (src : list Z) : option (list Z) :=
  if (0 <=? start) && (start + len src <=? len bytes)
  then Some (take (Z.to_nat start) bytes ++ src ++ drop (Z.to_nat (start + len src)) bytes)
  else None.
Lemma copy_from_slice_some l start bytes :
  0 ≤ start → start + len bytes ≤ len l →
  ∃ l', copy_from_slice l start bytes = Some l' ∧ len l' = len l.
Proof.
  intros Hs Hl. unfold copy_from_slice.
  repeat match goal with |- context [if ?b then _ else _] => destruct b eqn:? end; bool_props; try lia.
  all: eexists; split; [done|]; unfold len in *;
    rewrite ?length_app, ?length_take, ?length_drop; lia.
Qed.
(** [to_ne_bytes] of an [i64], and [i64::from_ne_bytes] of the bytes of a [u64]. *)
Definition i64_bits (value : Z) : Z := value mod 2 ^ 64.
Definition as_i64 (value : Z) : Z := if value <? 2 ^ 63 then value else value - 2 ^ 64.

Lemma as_i64_bits value : - 2 ^ 63 ≤ value < 2 ^ 63 → as_i64 (i64_bits value) = value.
Proof.
  intros Hv. unfold as_i64, i64_bits.
  destruct (Z_lt_le_dec value 0).
  - rewrite <-(Z.mod_unique value (2 ^ 64) (-1) (value + 2 ^ 64)) by lia.
    rewrite (proj2 (Z.ltb_ge _ _)) by lia. lia.
  - rewrite Z.mod_small by lia. by rewrite (proj2 (Z.ltb_lt _ _)) by lia.
Qed.

Lemma encode_layout_len fields : len (encode_layout fields) = layout_size fields.
Proof.
  unfold encode_layout. induction fields as [|[n z] l IH]; [done|].
  rewrite fmap_cons. cbn [concat]. rewrite len_app, to_le_bytes_len, IH. done.
Qed.
(** Every field is found behind the ones before it. *)
Lemma layout_field_one pre fields rest i n z a b :
  fields !! i = Some (n, z) → 0 ≤ z < 256 ^ Z.of_nat n →
  a = len pre + layout_size (take i fields) → b = a + Z.of_nat n →
  field (pre ++ encode_layout fields ++ rest) a b = Some z.
Proof.
  intros Hi Hwf Ha Hb.
  rewrite <-(take_drop_middle fields i _ Hi). rewrite <-encode_layout_len in Ha.
  unfold encode_layout, field in *.
  rewrite fmap_app, concat_app, fmap_cons. cbn [concat]. rewrite <-!app_assoc, app_assoc.
  rewrite (slice_app _ (to_le_bytes n z)).
  - change (Some (from_le_bytes (to_le_bytes n z)) = Some z). by rewrite from_to_le_bytes.
  - by rewrite len_app.
  - by rewrite to_le_bytes_len, len_app, Hb, Ha.
Qed.
Lemma layout_field_mid pre fields rest i n z a b :
  fields !! i = Some (n, z) → layout_wf fields →
  a = len pre + layout_size (take i fields) → b = a + Z.of_nat n →
  field (pre ++ encode_layout fields ++ rest) a b = Some z.
Proof.
  intros Hi Hwf. eapply layout_field_one; [done|]. unfold layout_wf in Hwf.
  rewrite Forall_lookup in Hwf. exact (Hwf _ _ Hi).
Qed.
Lemma layout_field_app fields rest i n z a b :
  fields !! i = Some (n, z) → layout_wf fields →
  a = layout_size (take i fields) → b = a + Z.of_nat n →
  field (encode_layout fields ++ rest) a b = Some z.
Proof. intros. by eapply (layout_field_mid []). Qed.
Lemma layout_field fields i n z a b :
  fields !! i = Some (n, z) → layout_wf fields →
  a = layout_size (take i fields) → b = a + Z.of_nat n →
  field (encode_layout fields) a b = Some z.
Proof. intros. rewrite <-(app_nil_r (encode_layout _)). by eapply layout_field_app. Qed.

(** Overwriting a field of a record. *)
Lemma copy_app l1 l2 l2' l3 start :
  start = len l1 → len l2' = len l2 →
  copy_from_slice (l1 ++ l2 ++ l3) start l2' = Some (l1 ++ l2' ++ l3).
Proof.
  intros -> Hl. unfold copy_from_slice. rewrite !len_app.
  pose proof (len_nonneg l1). pose proof (len_nonneg l3).
  rewrite (proj2 (Z.leb_le 0 _)), (proj2 (Z.leb_le (len l1 + _) _)) by lia.
  cbn [andb]. unfold len in *. rewrite <-Nat2Z.inj_add, !Nat2Z.id, take_app_length, <-drop_drop.
  assert (length l2' = length l2) as -> by lia. by rewrite !drop_app_length.
Qed.
Lemma copy_layout_mid pre fields rest i n z z' start :
  fields !! i = Some (n, z) → start = len pre + layout_size (take i fields) →
  copy_from_slice (pre ++ encode_layout fields ++ rest) start (to_le_bytes n z')
  = Some (pre ++ encode_layout (<[i := (n, z')]> fields) ++ rest).
Proof.
  intros Hi Hstart. rewrite insert_take_drop by by apply lookup_lt_Some in Hi.
  rewrite <-(take_drop_middle fields i _ Hi) at 1. rewrite <-encode_layout_len in Hstart.
  unfold encode_layout in *. rewrite !fmap_app, !concat_app, !fmap_cons. cbn [concat].
  rewrite <-!app_assoc, !(app_assoc pre).
  apply copy_app; [|by rewrite !to_le_bytes_len]. by rewrite len_app.
Qed.
Lemma copy_layout fields i n z z' start :
  fields !! i = Some (n, z) → start = layout_size (take i fields) →
  copy_from_slice (encode_layout fields) start (to_le_bytes n z')
  = Some (encode_layout (<[i := (n, z')]> fields)).
Proof.
  intros. rewrite <-(app_nil_r (encode_layout fields)), <-(app_nil_r (encode_layout (<[_:=_]> _))).
  by eapply (copy_layout_mid []).
Qed.

(** Read every field of an encoded record whose layout is known. *)
Ltac read_field Hwf i :=
  lazymatch i with
  | 40%nat => fail
  | _ =>
      match goal with
      | |- context [field (encode_layout ?l) ?a ?b] =>
          rewrite (layout_field l i _ _ a b eq_refl Hwf eq_refl eq_refl)
      | |- context [field (?pre ++ encode_layout ?l ++ ?rest) ?a ?b] =>
          rewrite (layout_field_mid pre l rest i _ _ a b eq_refl Hwf eq_refl eq_refl)
      | |- context [field (encode_layout ?l ++ ?rest) ?a ?b] =>
          rewrite (layout_field_app l rest i _ _ a b eq_refl Hwf eq_refl eq_refl)
      | _ => let j := constr:(S i) in read_field Hwf j
      end
  end.
Ltac read_fields Hwf := repeat read_field Hwf 0%nat.
