(* ===== verification/Ring.v ===== *)
(** * Ring buffers

    The callback with which [xprobe/collector/src/uprobe.rs] and [linux.rs]
    collect records from a BPF ring buffer: the same code in both, with the
    record decoder of the file.  libbpf, which calls it, hands over the records
    in order and stops at a negative return value. *)
From S2P Require Import Prelude Bytes.
#[local] Open Scope Z_scope.

Section ring.
Context {E A : Type} (decode : list Z → res E A).

(** The events collected so far and the slot of the callback's error. *)
Definition CallbackState : Type := list A * option E.

(** The callback, with its return value. *)
Definition ring_callback (limit : Z) (state : CallbackState) (bytes : list Z) :
    option (CallbackState * Z) :=
  let '(events, error) := state in
  if limit <=? len events then Some (state, 0)
  else
    match decode bytes with
    | Ok event => Some ((events ++ [event], error), 0)
    | Err error => Some ((events, Some error), -1)
    | Panic => None
    end.
Fixpoint ring_consume (limit : Z) (state : CallbackState) (records : list (list Z)) :
    option (CallbackState * Z) :=
  match records with
  | [] => Some (state, 0)
  | bytes :: records =>
      '(state, code) ← ring_callback limit state bytes;
      if code <? 0 then Some (state, code) else ring_consume limit state records
  end.

Lemma ring_consume_full limit events error bytes records :
  limit ≤ len events →
  ring_consume limit (events, error) (bytes :: records)
  = ring_consume limit (events, error) records.
Proof.
  intros Hfull. cbn [ring_consume]. unfold ring_callback.
  by rewrite (proj2 (Z.leb_le _ _)) by done.
Qed.
Lemma ring_consume_push limit events error bytes event records :
  len events < limit → decode bytes = Ok event →
  ring_consume limit (events, error) (bytes :: records)
  = ring_consume limit (events ++ [event], error) records.
Proof.
  intros Hroom Hd. cbn [ring_consume]. unfold ring_callback.
  by rewrite (proj2 (Z.leb_gt _ _)), Hd by done.
Qed.
Lemma ring_consume_stop limit events error bytes e records :
  len events < limit → decode bytes = Err e →
  ring_consume limit (events, error) (bytes :: records) = Some ((events, Some e), -1).
Proof.
  intros Hroom Hd. cbn [ring_consume]. unfold ring_callback.
  by rewrite (proj2 (Z.leb_gt _ _)), Hd by done.
Qed.

(** Records that decode: those within the limit are pushed, further ones dropped. *)
Context (encode : A → list Z) (wf : A → Prop).
Context (decode_encode : ∀ a, wf a → decode (encode a) = Ok a).

Lemma ring_consume_encoded limit raws records events :
  Forall wf raws →
  ring_consume limit (events, None) ((encode <$> raws) ++ records)
  = ring_consume limit (events ++ take (Z.to_nat (limit - len events)) raws, None) records.
Proof.
  intros Hwf. revert events. induction Hwf as [|raw raws Hraw _ IH]; intros events.
  { by rewrite take_nil, app_nil_r. }
  rewrite fmap_cons. cbn [app].
  destruct (Z.leb_spec limit (len events)) as [Hfull|Hroom].
  - rewrite ring_consume_full, IH by done.
    by replace (Z.to_nat (limit - len events)) with 0%nat by lia.
  - rewrite (ring_consume_push _ _ _ _ raw) by auto. rewrite IH, len_app.
    change (len [raw]) with 1.
    replace (Z.to_nat (limit - len events)) with (S (Z.to_nat (limit - (len events + 1))))
      by lia.
    simpl. by rewrite <-app_assoc.
Qed.
(** The first [limit] records, or all before one that does not decode. *)
Lemma ring_consume_spec limit raws bad rest e :
  Forall wf raws →
  ring_consume limit ([], None) (encode <$> raws) = Some ((take (Z.to_nat limit) raws, None), 0)
  ∧ (len raws < limit → decode bad = Err e →
     ring_consume limit ([], None) ((encode <$> raws) ++ bad :: rest)
     = Some ((raws, Some e), -1)).
Proof.
  intros Hwf. split.
  - rewrite <-(app_nil_r (_ <$> _)), ring_consume_encoded by done.
    by replace (limit - len []) with limit by (change (@len A []) with 0; lia).
  - intros Hroom Hbad. rewrite ring_consume_encoded by done.
    change (@len A []) with 0. rewrite Z.sub_0_r, take_ge by (unfold len in *; lia).
    by apply ring_consume_stop.
Qed.
End ring.

(** What the callback made of records without an error: it decoded those within the limit and
    skipped the rest. *)
Section ring_ok.
Context {E A : Type} (decode : list Z → res E A).
Lemma ring_consume_ok limit events records events' code :
  ring_consume decode limit (events, None) records = Some ((events', None), code) →
  ∃ new, Forall2 (λ record a, decode record = Ok a)
      (take (Z.to_nat (limit - len events)) records) new
    ∧ events' = events ++ new.
Proof.
  revert events. induction records as [|record records IH]; intros events.
  { intros [= <- <-]. exists []. rewrite take_nil, app_nil_r. done. }
  destruct (Z.leb_spec limit (len events)) as [Hfull|Hroom].
  - rewrite ring_consume_full by done. intros (new & Hnew & ->)%IH.
    replace (Z.to_nat (limit - len events)) with 0%nat in * by lia.
    apply Forall2_nil_inv_l in Hnew as ->. exists []. by split; [constructor|].
  - destruct (decode record) as [a|e|] eqn:Ed.
    + rewrite (ring_consume_push _ _ _ _ _ a) by done. intros (new & Hnew & ->)%IH.
      exists (a :: new). rewrite <-app_assoc. split; [|done].
      rewrite len_app in Hnew. change (len [a]) with 1 in Hnew.
      replace (Z.to_nat (limit - len events)) with (S (Z.to_nat (limit - (len events + 1))))
        by lia. by constructor.
    + by rewrite (ring_consume_stop _ _ _ _ _ e).
    + cbn [ring_consume]. unfold ring_callback. by rewrite (proj2 (Z.leb_gt _ _)), Ed.
Qed.
Lemma ring_consume_total limit state records :
  (∀ bytes, decode bytes ≠ Panic) → ring_consume decode limit state records ≠ None.
Proof.
  intros Hd. revert state. induction records as [|record records IH]; intros [events error]; [done|].
  cbn [ring_consume]. unfold ring_callback. specialize (Hd record).
  destruct (_ <=? _); cbn; [apply IH|]. destruct (decode record); cbn; [apply IH|done|done].
Qed.
End ring_ok.
