(* ===== verification/Protocol.v ===== *)
(** * Protocol data model

    The public data of [xprobe/protocol/src]: events, measurement results,
    validation results and error codes, with the field order of the source.
    Integer fields are [Z]; [event_wf] records their machine ranges.

    Two things come from outside the repository and are parameters: the JSON
    values of [serde_json] (class [SerdeJson]) and, in later files, the
    regular expressions of the [regex] crate.  [f64] is the IEEE 754 binary64
    model of the standard library's [SpecFloat]. *)
From Stdlib Require Import SpecFloat.
From S2P Require Import Prelude BTree RustString.
#[local] Open Scope Z_scope.

(** ** Floating point

    [f64] with rounding to nearest even, as [as f64] casts and [/] round. *)
Definition f64 : Set := spec_float.
Definition f64_of_int (z : Z) : f64 := binary_normalize 53 1024 z 0 false.
Definition f64_div (x y : f64) : f64 := SFdiv 53 1024 x y.

(** ** [serde_json::Value], as far as the program looks into one *)
Class SerdeJson := {
  Value : Type;
  as_str : Value → option string;
  value_string : string → Value;
  value_number : Z → Value;
  value_bool : bool → Value;
  value_array : list Value → Value;
  as_str_string : ∀ s, as_str (value_string s) = Some s;
  as_str_number : ∀ z, as_str (value_number z) = None }.

(** ** Enumerations *)

Module SchemaVersion.
Inductive SchemaVersion : Set :=
| V2.
#[global] Instance SchemaVersion_eq_dec : EqDecision SchemaVersion.
Proof. solve_decision. Defined.
End SchemaVersion.
Abbreviation SchemaVersion := SchemaVersion.SchemaVersion.

Module EventSource.
Inductive EventSource : Set :=
| Ebpf
| CuptiCallback
| CuptiActivity
| Marker.
#[global] Instance EventSource_eq_dec : EqDecision EventSource.
Proof. solve_decision. Defined.
End EventSource.
Abbreviation EventSource := EventSource.EventSource.

Module EventType.
Inductive EventType : Set :=
| HostFunctionEntry
| HostFunctionExit
| KernelFunctionEntry
| KernelFunctionExit
| Tracepoint
| SyscallEntry
| SyscallExit
| CudaApiEntry
| CudaApiExit
| GpuKernelStart
| GpuKernelEnd
| GpuMemcpyStart
| GpuMemcpyEnd
| GpuMemsetStart
| GpuMemsetEnd
| NvtxRangeStart
| NvtxRangeEnd
| PythonGcStart
| PythonGcEnd
| Marker.
#[global] Instance EventType_eq_dec : EqDecision EventType.
Proof. solve_decision. Defined.
End EventType.
Abbreviation EventType := EventType.EventType.

Module ClockDomain.
Inductive ClockDomain : Set :=
| HostMonotonic
| Cupti
| CuptiNormalizedToHostMonotonic.
#[global] Instance ClockDomain_eq_dec : EqDecision ClockDomain.
Proof. solve_decision. Defined.
End ClockDomain.
Abbreviation ClockDomain := ClockDomain.ClockDomain.

Module HostProbeKind.
Inductive HostProbeKind : Set :=
| Uprobe
| Uretprobe
| Kprobe
| Kretprobe
| Tracepoint
| Syscall
| Usdt.
#[global] Instance HostProbeKind_eq_dec : EqDecision HostProbeKind.
Proof. solve_decision. Defined.
End HostProbeKind.
Abbreviation HostProbeKind := HostProbeKind.HostProbeKind.

Module NvtxRangeKind.
Inductive NvtxRangeKind : Set :=
| Thread
| Process.
#[global] Instance NvtxRangeKind_eq_dec : EqDecision NvtxRangeKind.
Proof. solve_decision. Defined.
End NvtxRangeKind.
Abbreviation NvtxRangeKind := NvtxRangeKind.NvtxRangeKind.

Module MemcpyKind.
Inductive MemcpyKind : Set :=
| HostToDevice
| DeviceToHost
| DeviceToDevice
| HostToHost
| PeerToPeer
| Unknown.
#[global] Instance MemcpyKind_eq_dec : EqDecision MemcpyKind.
Proof. solve_decision. Defined.
End MemcpyKind.
Abbreviation MemcpyKind := MemcpyKind.MemcpyKind.

Module MatchPolicy.
Inductive MatchPolicy : Set :=
| Exact
| FirstAfter
| Nearest
| StackNested
| StreamOrder.
#[global] Instance MatchPolicy_eq_dec : EqDecision MatchPolicy.
Proof. solve_decision. Defined.
End MatchPolicy.
Abbreviation MatchPolicy := MatchPolicy.MatchPolicy.

Module SessionStatus.
Inductive SessionStatus : Set :=
| Completed
| TimedOut
| Cancelled
| Failed.
#[global] Instance SessionStatus_eq_dec : EqDecision SessionStatus.
Proof. solve_decision. Defined.
End SessionStatus.
Abbreviation SessionStatus := SessionStatus.SessionStatus.

Module CorrelationConfidence.
Inductive CorrelationConfidence : Set :=
| Exact
| High
| Heuristic
| Ambiguous.
#[global] Instance CorrelationConfidence_eq_dec : EqDecision CorrelationConfidence.
Proof. solve_decision. Defined.
End CorrelationConfidence.
Abbreviation CorrelationConfidence := CorrelationConfidence.CorrelationConfidence.

Module CaptureCompleteness.
Inductive CaptureCompleteness : Set :=
| Complete.
#[global] Instance CaptureCompleteness_eq_dec : EqDecision CaptureCompleteness.
Proof. solve_decision. Defined.
End CaptureCompleteness.
Abbreviation CaptureCompleteness := CaptureCompleteness.CaptureCompleteness.

Module EndpointSource.
Inductive EndpointSource : Set :=
| Host
| Cuda.
#[global] Instance EndpointSource_eq_dec : EqDecision EndpointSource.
Proof. solve_decision. Defined.
End EndpointSource.
Abbreviation EndpointSource := EndpointSource.EndpointSource.

Module AgentActivation.
Inductive AgentActivation : Set :=
| NotRequired
| AlreadyLoaded
| InjectionRequired
| StartupRequired.
#[global] Instance AgentActivation_eq_dec : EqDecision AgentActivation.
Proof. solve_decision. Defined.
End AgentActivation.
Abbreviation AgentActivation := AgentActivation.AgentActivation.

Module PolicyRecommendationReason.
Inductive PolicyRecommendationReason : Set :=
| DeterministicCorrelationKey
| HostCallFrame
| CudaStreamOrder
| TemporalOrderOnly.
#[global] Instance PolicyRecommendationReason_eq_dec : EqDecision PolicyRecommendationReason.
Proof. solve_decision. Defined.
End PolicyRecommendationReason.
Abbreviation PolicyRecommendationReason := PolicyRecommendationReason.PolicyRecommendationReason.

Module ElfObjectKind.
Inductive ElfObjectKind : Set :=
| Executable
| PositionIndependentExecutable
| SharedLibrary.
#[global] Instance ElfObjectKind_eq_dec : EqDecision ElfObjectKind.
Proof. solve_decision. Defined.
End ElfObjectKind.
Abbreviation ElfObjectKind := ElfObjectKind.ElfObjectKind.

Module CheckStatus.
Inductive CheckStatus : Set :=
| Available
| Restricted
| Unavailable
| Unknown.
#[global] Instance CheckStatus_eq_dec : EqDecision CheckStatus.
Proof. solve_decision. Defined.
End CheckStatus.
Abbreviation CheckStatus := CheckStatus.CheckStatus.

Module ErrorCode.
Inductive ErrorCode : Set :=
| PermissionDenied
| TargetNotFound
| TargetExited
| TargetReused
| AmbiguousTarget
| SymbolNotFound
| BinaryNotMapped
| InvalidEventSelector
| InvalidCorrelationPolicy
| CuptiNotAvailable
| CuptiAgentNotLoaded
| CudaContextNotFound
| UnsupportedCudaVersion
| EventRateTooHigh
| SessionLimitExceeded
| NoMatchedSamples
| HighUnmatchedRate
| EventsDropped
| ClockAlignmentFailed
| TraceExportFailed
| CleanupFailed
| Internal.
#[global] Instance ErrorCode_eq_dec : EqDecision ErrorCode.
Proof. solve_decision. Defined.
End ErrorCode.
Abbreviation ErrorCode := ErrorCode.ErrorCode.

(** [SchemaVersion::current]. *)
Definition current_version : SchemaVersion := SchemaVersion.V2.

(** [ErrorCode::as_str]. *)
Definition as_code_str (c : ErrorCode) : string :=
  match c with
  | ErrorCode.PermissionDenied => "PERMISSION_DENIED"
  | ErrorCode.TargetNotFound => "TARGET_NOT_FOUND"
  | ErrorCode.TargetExited => "TARGET_EXITED"
  | ErrorCode.TargetReused => "TARGET_REUSED"
  | ErrorCode.AmbiguousTarget => "AMBIGUOUS_TARGET"
  | ErrorCode.SymbolNotFound => "SYMBOL_NOT_FOUND"
  | ErrorCode.BinaryNotMapped => "BINARY_NOT_MAPPED"
  | ErrorCode.InvalidEventSelector => "INVALID_EVENT_SELECTOR"
  | ErrorCode.InvalidCorrelationPolicy => "INVALID_CORRELATION_POLICY"
  | ErrorCode.CuptiNotAvailable => "CUPTI_NOT_AVAILABLE"
  | ErrorCode.CuptiAgentNotLoaded => "CUPTI_AGENT_NOT_LOADED"
  | ErrorCode.CudaContextNotFound => "CUDA_CONTEXT_NOT_FOUND"
  | ErrorCode.UnsupportedCudaVersion => "UNSUPPORTED_CUDA_VERSION"
  | ErrorCode.EventRateTooHigh => "EVENT_RATE_TOO_HIGH"
  | ErrorCode.SessionLimitExceeded => "SESSION_LIMIT_EXCEEDED"
  | ErrorCode.NoMatchedSamples => "NO_MATCHED_SAMPLES"
  | ErrorCode.HighUnmatchedRate => "HIGH_UNMATCHED_RATE"
  | ErrorCode.EventsDropped => "EVENTS_DROPPED"
  | ErrorCode.ClockAlignmentFailed => "CLOCK_ALIGNMENT_FAILED"
  | ErrorCode.TraceExportFailed => "TRACE_EXPORT_FAILED"
  | ErrorCode.CleanupFailed => "CLEANUP_FAILED"
  | ErrorCode.Internal => "INTERNAL"
  end.

(** ** Records *)

Record Dim3 := BuildDim3 {
  dim_x : Z;
  dim_y : Z;
  dim_z : Z }.

Record NvtxEvent := BuildNvtxEvent {
  nvtx_name : string;
  nvtx_name_complete : bool;
  nvtx_range_kind : NvtxRangeKind;
  nvtx_range_id : Z;
  nvtx_start_tid : Z }.

Record CudaEvent := BuildCudaEvent {
  cuda_device_id : option Z;
  cuda_context_id : option Z;
  cuda_stream_id : option Z;
  cuda_correlation_id : option Z;
  cuda_runtime_correlation_id : option Z;
  cuda_callback_domain : option Z;
  cuda_callback_id : option Z;
  cuda_kernel_name : option string;
  cuda_kernel_name_mangled : option string;
  cuda_start_ns : option Z;
  cuda_end_ns : option Z;
  cuda_grid : option Dim3;
  cuda_block : option Dim3;
  cuda_bytes : option Z;
  cuda_memcpy_kind : option MemcpyKind }.

Section with_json.
Context `{SerdeJson}.

Record ArgumentValue := BuildArgumentValue {
  arg_index : Z;
  arg_abi_type : string;
  arg_value : option Value;
  arg_read_error : option string }.

Record HostEvent := BuildHostEvent {
  host_probe_kind : HostProbeKind;
  host_binary_path : option string;
  host_build_id : option string;
  host_symbol : option string;
  host_symbol_demangled : option string;
  host_offset : option Z;
  host_return_value : option Z;
  host_arguments : list ArgumentValue }.

Record Event := BuildEvent {
  ev_schema_version : SchemaVersion;
  ev_session_id : string;
  ev_event_id : string;
  ev_sequence : Z;
  ev_source : EventSource;
  ev_event_type : EventType;
  ev_pid : Z;
  ev_tid : Z;
  ev_cpu : option Z;
  ev_timestamp_raw : Z;
  ev_timestamp_ns : Z;
  ev_clock_domain : ClockDomain;
  ev_timestamp_error_ns : option Z;
  ev_process_start_time : option Z;
  ev_host : option HostEvent;
  ev_cuda : option CudaEvent;
  ev_nvtx : option NvtxEvent;
  ev_attributes : btree string Value }.

Record Warning := BuildWarning {
  warn_code : string;
  warn_message : string;
  warn_details : btree string Value }.

Record AggregateDuration := BuildAggregateDuration {
  ad_min : Z;
  ad_mean : f64;
  ad_max : Z;
  ad_total : Z }.

Record SampleSummary := BuildSampleSummary {
  samples_matched : Z;
  samples_unmatched_start : Z;
  samples_unmatched_end : Z;
  samples_ambiguous : Z;
  samples_dropped : Z }.

Record LatencyStatistics := BuildLatencyStatistics {
  stat_min : Z;
  stat_mean : f64;
  stat_p50 : Z;
  stat_p90 : Z;
  stat_p95 : Z;
  stat_p99 : Z;
  stat_max : Z }.

Record Measurement := BuildMeasurement {
  meas_name : option string;
  meas_samples : SampleSummary;
  meas_latency_ns : LatencyStatistics }.

Record CorrelationSummary := BuildCorrelationSummary {
  corr_method : string;
  corr_confidence : CorrelationConfidence;
  corr_score : f64 }.

Record ClockQuality := BuildClockQuality {
  clock_alignment : string;
  clock_estimated_error_ns : option Z }.

Record CuptiCollectionSummary := BuildCuptiCollectionSummary {
  ccs_record_capacity : Z;
  ccs_observed_records : Z;
  ccs_retained_records : Z;
  ccs_dropped_records : Z;
  ccs_buffer_utilization : f64 }.

Record CollectionSummary := BuildCollectionSummary {
  coll_completeness : CaptureCompleteness;
  coll_host_events : Z;
  coll_cuda_events : Z;
  coll_dropped_events : Z;
  coll_cupti : option CuptiCollectionSummary }.

Record MatchedEventPair := BuildMatchedEventPair {
  mp_start : Event;
  mp_end : Event;
  mp_latency_ns : Z }.

Record MeasurementResult := BuildMeasurementResult {
  mr_schema_version : SchemaVersion;
  mr_ok : bool;
  mr_session_id : string;
  mr_status : SessionStatus;
  mr_measurement : Measurement;
  mr_correlation : CorrelationSummary;
  mr_clock : ClockQuality;
  mr_collection : CollectionSummary;
  mr_evidence : list MatchedEventPair;
  mr_warnings : list Warning }.

(** The machine ranges of the integer fields the correlator computes with. *)
Definition event_wf (e : Event) : Prop :=
  in_u64 (ev_sequence e) ∧ in_u32 (ev_pid e) ∧ in_u32 (ev_tid e) ∧
  in_u64 (ev_timestamp_raw e) ∧ in_u64 (ev_timestamp_ns e).

(** An event with its session and its place in the session's sequence replaced. *)
Definition event_renumber (session_id : string) (sequence : Z) (e : Event) : Event :=
  BuildEvent (ev_schema_version e) session_id ("evt_" +:+ to_decimal sequence) sequence
    (ev_source e) (ev_event_type e) (ev_pid e) (ev_tid e) (ev_cpu e) (ev_timestamp_raw e)
    (ev_timestamp_ns e) (ev_clock_domain e) (ev_timestamp_error_ns e) (ev_process_start_time e)
    (ev_host e) (ev_cuda e) (ev_nvtx e) (ev_attributes e).

(** [serde_json::Value::as_str] of an attribute. *)
Definition attribute_str (e : Event) (key : string) : option string :=
  bt_get key (ev_attributes e) ≫= as_str.

End with_json.
