(* ===== verification/Selector.v ===== *)
(** * Event selectors of the correlator

    [xprobe/correlator/src/lib.rs], [Selector]: parsing a selector string,
    deciding whether an event matches, and which match policies a pair of
    selectors supports.  The [regex] crate is the parameter [RegexEngine]:
    compiling a pattern (with the text of its error) and matching. *)
From S2P Require Import Prelude BTree RustString Protocol.
#[local] Open Scope Z_scope.

Class RegexEngine := {
  Regex : Type;
  Regex_new : string → res string Regex;
  Regex_new_no_panic : ∀ pattern, Regex_new pattern ≠ Panic;
  is_match : Regex → string → bool }.

#[export] Hint Resolve Regex_new_no_panic : xprobe.

(** ** Errors of the correlator *)
Module MeasureError.
Inductive MeasureError : Type :=
| InvalidSelector (reason : string)
| InvalidPolicy (reason : string)
| InvalidLimit (reason : string)
| EventLimitExceeded (actual maximum : Z)
| EventsDropped (count : Z)
| ClockDomainsDiffer (start finish : ClockDomain)
| NoMatchedSamples.
End MeasureError.
Abbreviation MeasureError := MeasureError.MeasureError.

(** [MeasureError::code] and [MeasureError::recoverable]. *)
Definition measure_error_code (e : MeasureError) : ErrorCode :=
  match e with
  | MeasureError.InvalidSelector _ => ErrorCode.InvalidEventSelector
  | MeasureError.InvalidPolicy _ => ErrorCode.InvalidCorrelationPolicy
  | MeasureError.InvalidLimit _ => ErrorCode.SessionLimitExceeded
  | MeasureError.EventLimitExceeded _ _ => ErrorCode.EventRateTooHigh
  | MeasureError.EventsDropped _ => ErrorCode.EventsDropped
  | MeasureError.ClockDomainsDiffer _ _ => ErrorCode.ClockAlignmentFailed
  | MeasureError.NoMatchedSamples => ErrorCode.NoMatchedSamples
  end.
Definition measure_error_recoverable (e : MeasureError) : bool := true.

(** ** Shared string predicates *)

(** [valid_linux_component]. *)
Definition valid_linux_component (value : string) : bool :=
  negb (is_empty value)
  && all_bytes (λ byte, is_ascii_alphanumeric byte || (byte == "_"%char)) value.

(** [regex_literal]: the literal text of a pattern without operators. *)
Fixpoint regex_literal (pattern : string) : option string :=
  match pattern with
  | EmptyString => Some EmptyString
  | String character rest =>
      if character == backslash then
        match rest with
        | EmptyString => None
        | String escaped rest =>
            if is_ascii_alphanumeric escaped then None
            else String escaped <$> regex_literal rest
        end
      else if contains_char character ".+*?()|[]{}^$" then None
      else String character <$> regex_literal rest
  end.

Definition regex_candidates : list (string * string) :=
  [("^", "$"); ("^", ".*"); (".*", "$"); (".*", ".*");
   ("^", ""); ("", "$"); (".*", ""); ("", "")].

(** [is_bounded_name_regex]. *)
Definition is_bounded_name_regex (pattern : string) : bool :=
  existsb (λ '(prefix, suffix),
    match (strip_prefix prefix pattern ≫= strip_suffix suffix) ≫= regex_literal with
    | Some literal => negb (is_empty literal) && (str_len literal <? 128)
    | None => false
    end) regex_candidates.

Section selector.
Context `{SerdeJson, RegexEngine}.

Inductive HostTarget : Type :=
| Symbol (symbol : string)
| Offset (offset : Z).
#[global] Instance HostTarget_eq_dec : EqDecision HostTarget.
Proof. solve_decision. Defined.

Inductive Selector : Type :=
| Host (event_type : EventType) (probe_kind : HostProbeKind)
    (binary_path : string) (target : HostTarget)
| Syscall (event_type : EventType) (name : string)
| Tracepoint (category name : string)
| PythonGc (event_type : EventType) (marker : string)
| Api (event_type : EventType) (domain name : string)
| Kernel (event_type : EventType) (name : option Regex)
| Memcpy (event_type : EventType) (kind : option MemcpyKind)
| Memset (event_type : EventType)
| Nvtx (event_type : EventType) (name : Regex) (pattern : string).

Local Abbreviation bad reason := (Err (MeasureError.InvalidSelector reason)).

(** ** Parsing *)

(** [Selector::parse_host]. *)
Definition parse_host (text : string) : res MeasureError Selector :=
  rest ← or_panic (strip_prefix "uprobe:" text);
  '(binary_and_target, boundary) ← ok_or (rsplit_once ":"%char rest)
    (MeasureError.InvalidSelector "uprobe selector requires an entry or return boundary");
  '(event_type, probe_kind) ←
    (if boundary == "entry" then Ok (EventType.HostFunctionEntry, HostProbeKind.Uprobe)
     else if boundary == "return" then Ok (EventType.HostFunctionExit, HostProbeKind.Uretprobe)
     else bad "uprobe boundary must be entry or return");
  '(binary_path, target) ←
    match split_once ":symbol=" binary_and_target with
    | Some parts => Ok parts
    | None => ok_or (rsplit_once ":"%char binary_and_target)
        (MeasureError.InvalidSelector
           "uprobe selector requires a binary path and symbol or offset")
    end;
  if is_empty binary_path || is_empty target then
    bad "uprobe binary path and target must not be empty"
  else
    target ←
      match strip_prefix "+0x" target with
      | Some hex =>
          offset ← ok_or (from_str_radix_16 hex)
            (MeasureError.InvalidSelector "uprobe offset must be hexadecimal after +0x");
          Ok (Offset offset)
      | None =>
          if starts_with "+" target then
            bad "uprobe offset must use +0x hexadecimal syntax"
          else Ok (Symbol target)
      end;
    Ok (Host event_type probe_kind binary_path target).

(** [Selector::parse_api]. *)
Definition parse_api (text : string) : res MeasureError Selector :=
  match split ":"%char text with
  | [_; domain; name; boundary] =>
      if is_empty name then
        bad "API selector must be cuda:<runtime_api|driver_api>:<name>:<entry|exit>"
      else
        event_type ←
          (if boundary == "entry" then Ok EventType.CudaApiEntry
           else if boundary == "exit" then Ok EventType.CudaApiExit
           else bad "CUDA API boundary must be entry or exit");
        Ok (Api event_type domain name)
  | _ => bad "API selector must be cuda:<runtime_api|driver_api>:<name>:<entry|exit>"
  end.

(** [Selector::parse_syscall]. *)
Definition parse_syscall (text : string) : res MeasureError Selector :=
  match split ":"%char text with
  | [keyword; name; boundary] =>
      if keyword == "syscall" then
        if negb (valid_linux_component name) then
          bad "syscall name must contain only letters, digits, and underscores"
        else
          event_type ←
            (if boundary == "entry" then Ok EventType.SyscallEntry
             else if boundary == "exit" then Ok EventType.SyscallExit
             else bad "syscall boundary must be entry or exit");
          Ok (Syscall event_type name)
      else bad "syscall selector must be syscall:<name>:<entry|exit>"
  | _ => bad "syscall selector must be syscall:<name>:<entry|exit>"
  end.

(** [Selector::parse_tracepoint]. *)
Definition parse_tracepoint (text : string) : res MeasureError Selector :=
  match split ":"%char text with
  | [keyword; category; name] =>
      if keyword == "tracepoint" then
        if negb (valid_linux_component category) || negb (valid_linux_component name) then
          bad "tracepoint category and name must contain only letters, digits, and underscores"
        else Ok (Tracepoint category name)
      else bad "tracepoint selector must be tracepoint:<category>:<name>"
  | _ => bad "tracepoint selector must be tracepoint:<category>:<name>"
  end.

(** [Selector::parse_python]. *)
Definition parse_python (text : string) : res MeasureError Selector :=
  if text == "python:gc_start" then Ok (PythonGc EventType.PythonGcStart "gc__start")
  else if text == "python:gc_end" then Ok (PythonGc EventType.PythonGcEnd "gc__done")
  else bad "Python selector must be python:<gc_start|gc_end>".

(** [Selector::parse_kernel]; the [unreachable!] arm panics. *)
Definition parse_kernel (fields : list string) : res MeasureError Selector :=
  event ← or_panic (fields !! 1%nat);
  event_type ←
    (if event == "kernel_start" then Ok EventType.GpuKernelStart
     else if event == "kernel_end" then Ok EventType.GpuKernelEnd
     else Panic);
  name ←
    match fields !! 2%nat with
    | None => Ok None
    | Some filter =>
        pattern ← ok_or (strip_prefix "name~" filter)
          (MeasureError.InvalidSelector "kernel filter must use name~<regular-expression>");
        if is_empty pattern then
          bad "kernel name regular expression must not be empty"
        else
          regex ← map_err (λ error, MeasureError.InvalidSelector
                      ("invalid kernel name regular expression: " +:+ error))
                    (Regex_new pattern);
          Ok (Some regex)
    end;
  Ok (Kernel event_type name).

(** The [kind=] filter of a memcpy selector. *)
Definition parse_memcpy_kind (kind : string) : res MeasureError MemcpyKind :=
  if kind == "HtoD" then Ok MemcpyKind.HostToDevice
  else if kind == "DtoH" then Ok MemcpyKind.DeviceToHost
  else if kind == "DtoD" then Ok MemcpyKind.DeviceToDevice
  else if kind == "HtoH" then Ok MemcpyKind.HostToHost
  else if kind == "PtoP" then Ok MemcpyKind.PeerToPeer
  else bad ("unsupported memcpy kind " +:+ debug_str kind).

(** [Selector::parse_memcpy]. *)
Definition parse_memcpy (fields : list string) : res MeasureError Selector :=
  event ← or_panic (fields !! 1%nat);
  event_type ←
    (if event == "memcpy_start" then Ok EventType.GpuMemcpyStart
     else if event == "memcpy_end" then Ok EventType.GpuMemcpyEnd
     else Panic);
  kind ←
    match fields !! 2%nat with
    | None => Ok None
    | Some filter =>
        kind ← ok_or (strip_prefix "kind=" filter)
          (MeasureError.InvalidSelector
             "memcpy filter must use kind=<HtoD|DtoH|DtoD|HtoH|PtoP>");
        kind ← parse_memcpy_kind kind;
        Ok (Some kind)
    end;
  Ok (Memcpy event_type kind).

(** [Selector::parse_memset]. *)
Definition parse_memset (text : string) (fields : list string) : res MeasureError Selector :=
  if negb (length fields =? 2)%nat then
    bad ("memset selector " +:+ debug_str text +:+ " does not accept a filter")
  else
    event ← or_panic (fields !! 1%nat);
    event_type ←
      (if event == "memset_start" then Ok EventType.GpuMemsetStart
       else if event == "memset_end" then Ok EventType.GpuMemsetEnd
       else Panic);
    Ok (Memset event_type).

(** [Selector::parse_nvtx]. *)
Definition parse_nvtx (fields : list string) : res MeasureError Selector :=
  event ← or_panic (fields !! 1%nat);
  event_type ←
    (if event == "nvtx_range_start" then Ok EventType.NvtxRangeStart
     else if event == "nvtx_range_end" then Ok EventType.NvtxRangeEnd
     else Panic);
  filter ← ok_or (fields !! 2%nat)
    (MeasureError.InvalidSelector
       "NVTX range selector requires name~<bounded-regular-expression>");
  pattern ← ok_or (strip_prefix "name~" filter)
    (MeasureError.InvalidSelector
       "NVTX range filter must use name~<bounded-regular-expression>");
  if negb (is_bounded_name_regex pattern) then
    bad "NVTX range name must reduce to one nonempty exact, prefix, suffix, or contains filter shorter than 128 bytes"
  else
    name ← map_err (λ error, MeasureError.InvalidSelector
                ("invalid NVTX range name regular expression: " +:+ error))
              (Regex_new pattern);
    Ok (Nvtx event_type name pattern).

(** [Selector::parse]. *)
Definition selector_parse (text : string) : res MeasureError Selector :=
  if starts_with "uprobe:" text then parse_host text
  else if starts_with "syscall:" text then parse_syscall text
  else if starts_with "tracepoint:" text then parse_tracepoint text
  else if starts_with "python:" text then parse_python text
  else
    let fields := splitn 3 ":"%char text in
    match fields with
    | cuda :: event :: _ =>
        if cuda != "cuda" then
          bad "completed captures require a uprobe:, syscall:, tracepoint:, python:, or cuda: selector"
        else if (event == "runtime_api") || (event == "driver_api") then parse_api text
        else if (event == "kernel_start") || (event == "kernel_end") then parse_kernel fields
        else if (event == "memcpy_start") || (event == "memcpy_end") then parse_memcpy fields
        else if (event == "memset_start") || (event == "memset_end") then
          parse_memset text fields
        else if (event == "nvtx_range_start") || (event == "nvtx_range_end") then
          parse_nvtx fields
        else bad ("event " +:+ debug_str event +:+ " is not present in completed CUPTI captures")
    | _ =>
        bad "completed captures require a uprobe:, syscall:, tracepoint:, python:, or cuda: selector"
    end.

(** ** Matching an event *)

(** [Selector::matches]. *)
Definition selector_matches (selector : Selector) (event : Event) : bool :=
  match selector with
  | Host event_type probe_kind binary_path target =>
      (ev_event_type event == event_type)
      && match ev_host event with
         | None => false
         | Some host =>
             (host_probe_kind host == probe_kind)
             && (host_binary_path host == Some binary_path)
             && match target with
                | Symbol symbol =>
                    (host_symbol host == Some symbol)
                    || (host_symbol_demangled host == Some symbol)
                | Offset offset => host_offset host == Some offset
                end
         end
  | Api event_type domain name =>
      (ev_event_type event == event_type)
      && (attribute_str event "cuda_api_name" == Some name)
      && (attribute_str event "cuda_api_domain" == Some domain)
  | Kernel event_type name =>
      (ev_event_type event == event_type)
      && match name with
         | None => true
         | Some pattern =>
             match ev_cuda event ≫= cuda_kernel_name with
             | None => false
             | Some kernel => is_match pattern kernel
             end
         end
  | Syscall event_type name =>
      (ev_event_type event == event_type)
      && match ev_host event with
         | None => false
         | Some host =>
             (host_probe_kind host == HostProbeKind.Syscall)
             && (host_symbol host == Some name)
         end
  | Tracepoint category name =>
      (ev_event_type event == EventType.Tracepoint)
      && match ev_host event with
         | None => false
         | Some host =>
             (host_probe_kind host == HostProbeKind.Tracepoint)
             && (host_symbol host == Some name)
         end
      && (attribute_str event "tracepoint_category" == Some category)
  | PythonGc event_type marker =>
      (ev_event_type event == event_type)
      && match ev_host event with
         | None => false
         | Some host =>
             (host_probe_kind host == HostProbeKind.Usdt)
             && (host_symbol host == Some marker)
         end
      && (attribute_str event "usdt_provider" == Some "python")
  | Memcpy event_type kind =>
      (ev_event_type event == event_type)
      && match kind with
         | None => true
         | Some kind => (ev_cuda event ≫= cuda_memcpy_kind) == Some kind
         end
  | Memset event_type => ev_event_type event == event_type
  | Nvtx event_type name _ =>
      (ev_event_type event == event_type)
      && match ev_nvtx event with
         | None => false
         | Some nvtx => is_match name (nvtx_name nvtx)
         end
  end.

(** ** Policies a pair of selectors supports *)

(** [Selector::supports_exact]. *)
Definition supports_exact (start finish : Selector) : bool :=
  match start, finish with
  | Syscall EventType.SyscallEntry start_name, Syscall EventType.SyscallExit end_name =>
      start_name == end_name
  | Nvtx EventType.NvtxRangeStart _ start_pattern, Nvtx EventType.NvtxRangeEnd _ end_pattern =>
      start_pattern == end_pattern
  | PythonGc EventType.PythonGcStart _, PythonGc EventType.PythonGcEnd _ => true
  | (Host _ _ _ _ | Tracepoint _ _ | Nvtx _ _ _ | PythonGc _ _), _ => false
  | _, (Host _ _ _ _ | Tracepoint _ _ | Nvtx _ _ _ | PythonGc _ _) => false
  | _, _ => true
  end.

(** [Selector::is_syscall_lifecycle]. *)
Definition is_syscall_lifecycle (start finish : Selector) : bool :=
  match start, finish with
  | Syscall EventType.SyscallEntry start_name, Syscall EventType.SyscallExit end_name =>
      start_name == end_name
  | _, _ => false
  end.

(** [Selector::is_nvtx_lifecycle]. *)
Definition is_nvtx_lifecycle (start finish : Selector) : bool :=
  match start, finish with
  | Nvtx EventType.NvtxRangeStart _ start_pattern, Nvtx EventType.NvtxRangeEnd _ end_pattern =>
      start_pattern == end_pattern
  | _, _ => false
  end.

(** [Selector::is_python_gc_lifecycle]. *)
Definition is_python_gc_lifecycle (start finish : Selector) : bool :=
  match start, finish with
  | PythonGc EventType.PythonGcStart _, PythonGc EventType.PythonGcEnd _ => true
  | _, _ => false
  end.

(** [Selector::supports_stack_nested]. *)
Definition supports_stack_nested (start finish : Selector) : bool :=
  match start, finish with
  | Host EventType.HostFunctionEntry _ start_binary start_target,
    Host EventType.HostFunctionExit _ end_binary end_target =>
      (start_binary == end_binary) && (start_target == end_target)
  | _, _ => false
  end.

(** [Selector::is_gpu_activity]. *)
Definition is_gpu_activity (selector : Selector) : bool :=
  match selector with
  | Kernel _ _ | Memcpy _ _ | Memset _ => true
  | _ => false
  end.

(** ** Parsing never panics *)
Lemma parse_host_no_panic text : starts_with "uprobe:" text = true → parse_host text ≠ Panic.
Proof.
  unfold starts_with, parse_host. destruct (strip_prefix _ text) as [rest|]; [intros _|done].
  apply res_bind_no_panic; [done|]. intros; simplify_eq/=. no_panic.
Qed.
Lemma parse_kernel_no_panic cuda event rest :
  (event == "kernel_start") || (event == "kernel_end") = true →
  parse_kernel (cuda :: event :: rest) ≠ Panic.
Proof.
  unfold parse_kernel. intros Hev. apply res_bind_no_panic; [done|]. intros ? [= <-].
  destruct (event == "kernel_start"), (event == "kernel_end"); try discriminate Hev; no_panic.
Qed.
Lemma parse_memcpy_no_panic cuda event rest :
  (event == "memcpy_start") || (event == "memcpy_end") = true →
  parse_memcpy (cuda :: event :: rest) ≠ Panic.
Proof.
  unfold parse_memcpy, parse_memcpy_kind. intros Hev.
  apply res_bind_no_panic; [done|]. intros ? [= <-].
  destruct (event == "memcpy_start"), (event == "memcpy_end"); try discriminate Hev; no_panic.
Qed.
Lemma parse_memset_no_panic text cuda event rest :
  (event == "memset_start") || (event == "memset_end") = true →
  parse_memset text (cuda :: event :: rest) ≠ Panic.
Proof.
  unfold parse_memset. intros Hev. destruct (negb _); [done|].
  apply res_bind_no_panic; [done|]. intros ? [= <-].
  destruct (event == "memset_start"), (event == "memset_end"); try discriminate Hev; no_panic.
Qed.
Lemma parse_nvtx_no_panic cuda event rest :
  (event == "nvtx_range_start") || (event == "nvtx_range_end") = true →
  parse_nvtx (cuda :: event :: rest) ≠ Panic.
Proof.
  unfold parse_nvtx. intros Hev. apply res_bind_no_panic; [done|]. intros ? [= <-].
  destruct (event == "nvtx_range_start"), (event == "nvtx_range_end");
    try discriminate Hev; no_panic.
Qed.

Lemma selector_parse_no_panic text : selector_parse text ≠ Panic.
Proof.
  unfold selector_parse. destruct (starts_with "uprobe:" text) eqn:Eu.
  { by apply parse_host_no_panic. }
  destruct (starts_with "syscall:" text); [unfold parse_syscall; no_panic|].
  destruct (starts_with "tracepoint:" text); [unfold parse_tracepoint; no_panic|].
  destruct (starts_with "python:" text); [unfold parse_python; no_panic|].
  destruct (splitn 3 _ text) as [|cuda [|event rest]]; [done..|].
  destruct (cuda != "cuda"); [done|].
  destruct (_ || _); [unfold parse_api; no_panic|].
  destruct (_ || _) eqn:E; [by apply parse_kernel_no_panic|clear E].
  destruct (_ || _) eqn:E; [by apply parse_memcpy_no_panic|clear E].
  destruct (_ || _) eqn:E; [by apply parse_memset_no_panic|clear E].
  destruct (_ || _) eqn:E; [by apply parse_nvtx_no_panic|done].
Qed.

(** A selector that does not parse is reported as such. *)
Definition is_invalid_selector (e : MeasureError) : Prop :=
  ∃ reason, e = MeasureError.InvalidSelector reason.

Lemma selector_parse_errors text : errors_in is_invalid_selector (selector_parse text).
Proof.
  unfold selector_parse, parse_host, parse_syscall, parse_tracepoint, parse_python, parse_api,
    parse_kernel, parse_memcpy, parse_memcpy_kind, parse_memset, parse_nvtx,
    is_invalid_selector.
  err_walk.
Qed.

(** ** The event types a parsed selector can have *)
Definition selector_wf (s : Selector) : Prop :=
  match s with
  | Host event_type probe_kind _ _ =>
      (event_type = EventType.HostFunctionEntry ∧ probe_kind = HostProbeKind.Uprobe)
      ∨ (event_type = EventType.HostFunctionExit ∧ probe_kind = HostProbeKind.Uretprobe)
  | Syscall event_type name =>
      (event_type = EventType.SyscallEntry ∨ event_type = EventType.SyscallExit)
      ∧ valid_linux_component name = true
  | Tracepoint category name =>
      valid_linux_component category = true ∧ valid_linux_component name = true
  | PythonGc event_type marker =>
      (event_type = EventType.PythonGcStart ∧ marker = "gc__start"%string)
      ∨ (event_type = EventType.PythonGcEnd ∧ marker = "gc__done"%string)
  | Api event_type _ name =>
      (event_type = EventType.CudaApiEntry ∨ event_type = EventType.CudaApiExit)
      ∧ is_empty name = false
  | Kernel event_type _ =>
      event_type = EventType.GpuKernelStart ∨ event_type = EventType.GpuKernelEnd
  | Memcpy event_type _ =>
      event_type = EventType.GpuMemcpyStart ∨ event_type = EventType.GpuMemcpyEnd
  | Memset event_type =>
      event_type = EventType.GpuMemsetStart ∨ event_type = EventType.GpuMemsetEnd
  | Nvtx event_type name pattern =>
      (event_type = EventType.NvtxRangeStart ∨ event_type = EventType.NvtxRangeEnd)
      ∧ Regex_new pattern = Ok name ∧ is_bounded_name_regex pattern = true
  end.

#[local] Arguments is_bounded_name_regex : simpl never.
#[local] Arguments strip_prefix : simpl never.

Lemma selector_parse_wf text s : selector_parse text = Ok s → selector_wf s.
Proof.
  assert (∀ {A} (m : res MeasureError A) f, (∀ a, m = Ok a → f a = Ok s → selector_wf s) →
    m ≫= f = Ok s → selector_wf s) as Hbind.
  { intros A m f Hf. destruct m; simpl; [|done..]. by apply Hf. }
  unfold selector_parse, parse_host, parse_syscall, parse_tracepoint, parse_python, parse_api,
    parse_kernel, parse_memcpy, parse_memset, parse_nvtx.
  repeat first
    [ progress intros
    | match goal with
      | E : _ ≫= _ = Ok s |- _ => revert E; apply Hbind
      | E : (match ?x with _ => _ end) = Ok _ |- _ => destruct x eqn:?; try done
      | E : map_err _ ?m = Ok _ |- _ => destruct m eqn:?; simpl in E; try done
      end ]; simplify_eq/=; bool_props; auto 10.
Qed.
End selector.
Arguments selector_matches : simpl never.
