(* ===== verification/Correlate.v ===== *)
(** * Common data of the correlators

    [xprobe/correlator/src/lib.rs]: matched pairs, the outcome of a
    correlation, correlation keys and the merged timeline of start and end
    events that three of the correlators walk. *)
From S2P Require Import Prelude BTree RustString Protocol.
#[local] Open Scope Z_scope.

(** ** Ordered keys as sort keys *)

(** [sort_by_key] with a key of any [Ord] type. *)
Definition key_leb {A} `{KeyOrd K} (f : A → K) (x y : A) : bool :=
  match kcmp (f x) (f y) with Gt => false | _ => true end.

#[export] Instance key_leb_preorder {A} `{KeyOrd K} (f : A → K) :
  TotalPreorderB (key_leb f).
Proof.
  unfold key_leb. split.
  - intros x y. rewrite (kcmp_anti (f x) (f y)). destruct (kcmp (f x) (f y)); auto.
  - intros x y z. destruct (kcmp (f x) (f y)) eqn:E1; [| |done].
    + apply kcmp_eq in E1 as ->. done.
    + destruct (kcmp (f y) (f z)) eqn:E2; [| |done].
      * apply kcmp_eq in E2 as <-. by rewrite E1.
      * by rewrite (kcmp_trans _ _ _ E1 E2).
Qed.

Lemma key_leb_fst {A} `{KeyOrd K} (f : A → Z * K) x y :
  key_leb f x y = true → (f x).1 ≤ (f y).1.
Proof.
  unfold key_leb. destruct (f x) as [a b], (f y) as [c d]. simpl. unfold pair_cmp.
  simpl. destruct (Z.compare_spec a c); [|lia|done]. lia.
Qed.

(** Restricting a stably sorted list to a predicate. *)
Lemma filter_sort_by {A} (leb : A → A → bool) `{!TotalPreorderB leb}
    (P : A → Prop) `{∀ x, Decision (P x)} l :
  filter P (sort_by leb l) = sort_by leb (filter P l).
Proof.
  symmetry. apply sort_by_unique; [done| | |].
  - assert (StronglySorted (λ x y, leb x y = true) (sort_by leb l)) as Hs
      by by apply sort_by_sorted.
    induction Hs as [|x k Hk IH Hx]; [constructor|].
    rewrite filter_cons. case_decide; [|done]. constructor; [done|].
    rewrite Forall_forall in *. intros y [_ Hy]%list_elem_of_filter. auto.
  - by rewrite sort_by_perm.
  - intros z. rewrite !list_filter_filter.
    transitivity (filter P (filter (λ y, eqvb leb z y = true) (sort_by leb l))).
    + rewrite list_filter_filter. apply list_filter_iff. tauto.
    + rewrite sort_by_stable by done. rewrite list_filter_filter.
      apply list_filter_iff. tauto.
Qed.

Section correlate.
Context `{SerdeJson}.

(** [Pair] and [Outcome]. *)
Record Pair := BuildPair {
  pair_start : Event;
  pair_end : Event;
  pair_latency_ns : Z }.

Record Outcome := BuildOutcome {
  out_pairs : list Pair;
  out_unmatched_start : Z;
  out_unmatched_end : Z;
  out_ambiguous : Z }.

(** [pairs.sort_by_key(|pair| pair.start.timestamp_ns)]. *)
Definition sort_pairs (pairs : list Pair) : list Pair :=
  sort_by_key (λ pair, ev_timestamp_ns (pair_start pair)) pairs.

(** ** Correlation keys *)
Inductive CorrelationKey : Set :=
| CudaKey (pid context_id correlation_id : Z)
| NvtxKey (pid : Z) (range_kind : NvtxRangeKind) (range_id : Z).

(** The derived [Ord]: variants in declaration order, then their fields. *)
Definition range_kind_rank (k : NvtxRangeKind) : Z :=
  match k with NvtxRangeKind.Thread => 0 | NvtxRangeKind.Process => 1 end.
Definition correlation_key_rank (k : CorrelationKey) : Z * (Z * (Z * Z)) :=
  match k with
  | CudaKey pid context_id correlation_id => (0, (pid, (context_id, correlation_id)))
  | NvtxKey pid range_kind range_id => (1, (pid, (range_kind_rank range_kind, range_id)))
  end.
#[global] Instance correlation_key_rank_inj : Inj (=) (=) correlation_key_rank.
Proof.
  intros [?? ?|? [] ?] [?? ?|? [] ?] ?; simplify_eq/=; done.
Qed.
#[global] Instance CorrelationKey_keyord : KeyOrd CorrelationKey :=
  inj_keyord correlation_key_rank _.
#[global] Instance CorrelationKey_eq_dec : EqDecision CorrelationKey.
Proof. solve_decision. Defined.

(** [correlation_key]. *)
Definition correlation_key (event : Event) : option CorrelationKey :=
  match ev_nvtx event with
  | Some nvtx => Some (NvtxKey (ev_pid event) (nvtx_range_kind nvtx) (nvtx_range_id nvtx))
  | None =>
      cuda ← ev_cuda event;
      context_id ← cuda_context_id cuda;
      correlation_id ← cuda_correlation_id cuda;
      Some (CudaKey (ev_pid event) context_id correlation_id)
  end.

(** ** Timelines

    Starts and ends tagged with their boundary (0 and 1) and merged. *)
Definition entry : Type := Z * (Z * Event).
Definition entry_timestamp (x : entry) : Z := x.1.
Definition entry_boundary (x : entry) : Z := x.2.1.
Definition entry_event (x : entry) : Event := x.2.2.

Definition tag (boundary : Z) (event : Event) : entry :=
  (ev_timestamp_ns event, (boundary, event)).
Definition merged (starts ends : list Event) : list entry :=
  map (tag 0) starts ++ map (tag 1) ends.

(** [timeline.sort_by_key(|(timestamp, boundary, event)|
    ( *timestamp, *boundary, event.sequence))]. *)
Definition timeline (starts ends : list Event) : list entry :=
  sort_by (key_leb (λ x, (entry_timestamp x, (entry_boundary x, ev_sequence (entry_event x)))))
    (merged starts ends).

(** The timeline of [correlate_stack_nested], sorted by time and boundary only. *)
Definition timeline_by_boundary (starts ends : list Event) : list entry :=
  sort_by (key_leb (λ x, (entry_timestamp x, entry_boundary x))) (merged starts ends).

(** Entries carry their event's timestamp and a boundary 0 or 1. *)
Definition entry_wf (x : entry) : Prop :=
  entry_timestamp x = ev_timestamp_ns (entry_event x)
  ∧ (entry_boundary x = 0 ∨ entry_boundary x = 1).

Definition is_start (x : entry) : Prop := entry_boundary x = 0.
#[global] Instance is_start_dec x : Decision (is_start x).
Proof. unfold is_start. apply _. Defined.

Definition by_time : relation entry := λ x y, entry_timestamp x ≤ entry_timestamp y.

Definition timeline_wf (l : list entry) : Prop :=
  Forall entry_wf l ∧ StronglySorted by_time l.

Lemma merged_wf starts ends : Forall entry_wf (merged starts ends).
Proof.
  unfold merged. apply Forall_app. split; apply Forall_forall; intros x Hx;
    apply list_elem_of_fmap in Hx as (e & -> & _); split; simpl; auto.
Qed.

Lemma timeline_is_wf starts ends : timeline_wf (timeline starts ends).
Proof.
  split.
  - unfold timeline. rewrite sort_by_perm. apply merged_wf.
  - eapply StronglySorted_impl; [|apply sort_by_sorted; apply _].
    intros x y Hxy%key_leb_fst. exact Hxy.
Qed.
Lemma timeline_by_boundary_is_wf starts ends :
  timeline_wf (timeline_by_boundary starts ends).
Proof.
  split.
  - unfold timeline_by_boundary. rewrite sort_by_perm. apply merged_wf.
  - eapply StronglySorted_impl; [|apply sort_by_sorted; apply _].
    intros x y Hxy%key_leb_fst. exact Hxy.
Qed.

(** The events behind the start and the end entries of a timeline. *)
Definition start_events (l : list entry) : list Event := entry_event <$> filter is_start l.
Definition end_events (l : list entry) : list Event :=
  entry_event <$> filter (λ x, ¬ is_start x) l.

Lemma start_events_perm l k : l ≡ₚ k → start_events l ≡ₚ start_events k.
Proof. intros Hp. unfold start_events. by rewrite Hp. Qed.
Lemma end_events_perm l k : l ≡ₚ k → end_events l ≡ₚ end_events k.
Proof. intros Hp. unfold end_events. by rewrite Hp. Qed.

Lemma start_events_snoc l x :
  start_events (l ++ [x]) =
  start_events l ++ (if decide (is_start x) then [entry_event x] else []).
Proof.
  unfold start_events. rewrite filter_app, filter_cons, filter_nil, fmap_app.
  by case_decide.
Qed.
Lemma end_events_snoc l x :
  end_events (l ++ [x]) = end_events l ++ (if decide (is_start x) then [] else [entry_event x]).
Proof.
  unfold end_events. rewrite filter_app, filter_cons, filter_nil, fmap_app.
  repeat case_decide; try done.
Qed.

Lemma tagged_events b l :
  start_events (map (tag b) l) = (if decide (b = 0) then l else [])
  ∧ end_events (map (tag b) l) = (if decide (b = 0) then [] else l).
Proof.
  unfold start_events, end_events.
  induction l as [|e l [IH1 IH2]]; simpl; [by case_decide|].
  rewrite !filter_cons. unfold is_start in *. simpl in *.
  repeat case_decide; simplify_eq/=; rewrite ?IH1, ?IH2; done.
Qed.
Lemma merged_start_events starts ends : start_events (merged starts ends) = starts.
Proof.
  unfold merged, start_events. rewrite filter_app, fmap_app.
  pose proof (tagged_events 0 starts) as [Hs _].
  pose proof (tagged_events 1 ends) as [He _]. unfold start_events in *.
  rewrite Hs, He. simpl. by rewrite app_nil_r.
Qed.
Lemma merged_end_events starts ends : end_events (merged starts ends) = ends.
Proof.
  unfold merged, end_events. rewrite filter_app, fmap_app.
  pose proof (tagged_events 0 starts) as [_ Hs].
  pose proof (tagged_events 1 ends) as [_ He]. unfold end_events in *.
  by rewrite Hs, He.
Qed.
Lemma timeline_start_events starts ends :
  start_events (timeline starts ends) ≡ₚ starts.
Proof.
  rewrite <-(merged_start_events starts ends) at 2.
  apply start_events_perm, sort_by_perm.
Qed.
Lemma timeline_end_events starts ends : end_events (timeline starts ends) ≡ₚ ends.
Proof.
  rewrite <-(merged_end_events starts ends) at 2. apply end_events_perm, sort_by_perm.
Qed.
Lemma timeline_by_boundary_start_events starts ends :
  start_events (timeline_by_boundary starts ends) ≡ₚ starts.
Proof.
  rewrite <-(merged_start_events starts ends) at 2.
  apply start_events_perm, sort_by_perm.
Qed.
Lemma timeline_by_boundary_end_events starts ends :
  end_events (timeline_by_boundary starts ends) ≡ₚ ends.
Proof.
  rewrite <-(merged_end_events starts ends) at 2. apply end_events_perm, sort_by_perm.
Qed.

(** ** What every correlator promises

    The pairs come from the two inputs, no event is used twice, and the
    recorded latency is the distance of the two timestamps. *)
Definition pair_forward (p : Pair) : Prop :=
  ev_timestamp_ns (pair_start p) ≤ ev_timestamp_ns (pair_end p)
  ∧ pair_latency_ns p = ev_timestamp_ns (pair_end p) - ev_timestamp_ns (pair_start p).

Definition pairs_from (pairs : list Pair) (starts ends : list Event) : Prop :=
  pair_start <$> pairs ⊆+ starts ∧ pair_end <$> pairs ⊆+ ends.

Lemma sort_pairs_perm pairs : sort_pairs pairs ≡ₚ pairs.
Proof. apply sort_by_key_perm. Qed.
Lemma sort_pairs_len pairs : len (sort_pairs pairs) = len pairs.
Proof. apply sort_by_key_len. Qed.

Lemma truncated_pairs_submseteq limit pairs :
  truncate_opt limit (sort_pairs pairs) ⊆+ pairs.
Proof. rewrite <-(sort_pairs_perm pairs) at 2. apply truncate_opt_submseteq. Qed.

Lemma pairs_from_submseteq pairs pairs' starts ends :
  pairs' ⊆+ pairs → pairs_from pairs starts ends → pairs_from pairs' starts ends.
Proof.
  intros Hsub [Hs He]. split; (etrans; [|eassumption]); by apply fmap_submseteq.
Qed.

(** The conservation law of the correlators that lose no event: every start is
    matched, unmatched or ambiguous, every end matched or unmatched. *)
Definition accounted (out : Outcome) (starts ends : list Event) : Prop :=
  len starts = len (out_pairs out) + out_unmatched_start out + out_ambiguous out
  ∧ len ends = len (out_pairs out) + out_unmatched_end out.

(** ** The interface of a correlator

    What [measure] relies on, for the policies that only pair forward in time
    ([Q] is [pair_forward]) and for the one that pairs in both directions ([Q]
    is [pair_distance]): a result without panic, made of the inputs, within the
    limit, and whose counters cannot overflow when they are added up. *)
Definition pair_distance (p : Pair) : Prop :=
  pair_latency_ns p = Z.abs (ev_timestamp_ns (pair_end p) - ev_timestamp_ns (pair_start p)).

Record outcome_sound (Q : Pair → Prop) (starts ends : list Event) (limit : option Z)
    (out : Outcome) : Prop := {
  os_from : pairs_from (out_pairs out) starts ends;
  os_pairs : Forall Q (out_pairs out);
  os_limit : ∀ n, limit = Some n → len (out_pairs out) ≤ n;
  os_unmatched_start : 0 ≤ out_unmatched_start out;
  os_unmatched_end : 0 ≤ out_unmatched_end out;
  os_ambiguous : 0 ≤ out_ambiguous out;
  os_total : len (out_pairs out) + out_unmatched_start out + out_unmatched_end out
             + out_ambiguous out ≤ len starts + len ends }.

Definition limit_wf (limit : option Z) : Prop := ∀ n, limit = Some n → 0 ≤ n.

Class Correlator (Q : Pair → Prop)
    (correlate : list Event → list Event → option Z → option Outcome) : Prop :=
  correlator_sound : ∀ starts ends limit, limit_wf limit →
    ∃ out, correlate starts ends limit = Some out ∧ outcome_sound Q starts ends limit out.

Lemma limit_wf_default limit : limit_wf limit → 0 ≤ default usize_max limit.
Proof. destruct limit as [n|]; [|done]. intros Hl. by apply Hl. Qed.
Lemma pair_forward_distance p : pair_forward p → pair_distance p.
Proof. intros [? Hp]. unfold pair_distance. rewrite Hp. lia. Qed.
Lemma truncated_pairs_len limit pairs :
  len (truncate_opt limit (sort_pairs pairs)) ≤ len pairs.
Proof. apply len_submseteq, truncated_pairs_submseteq. Qed.
End correlate.
