(* ===== verification/Lifecycle.v ===== *)
(** * Lifecycle correlation

    [correlate_thread_lifecycle] (system calls and CPython collections, keyed
    by thread) and [correlate_nvtx_lifecycle] (NVTX ranges, keyed by range) of
    [xprobe/correlator/src/lib.rs].  Both walk the merged timeline with a map
    of open starts; they differ in the key, and only the NVTX key can be
    missing, so the loop is one definition with a partial key.

    The abstract specification is per key: an end is matched exactly when the
    entry before it, among the entries of its key, is a start
    ([adjacent_pairs]).  [lifecycle_refines] is the refinement, the map of open
    starts being the implementation's summary of the timeline walked so far. *)
From S2P Require Import Prelude BTree RustString Protocol Correlate.
#[local] Open Scope Z_scope.

Section lifecycle.
Context `{SerdeJson} `{KeyOrd K} `{!EqDecision K} (key : Event → option K).

Record lifecycle := BuildLifecycle {
  lc_pending : btree K Event;
  lc_pairs : list Pair;
  lc_unmatched_start : Z;
  lc_unmatched_end : Z;
  lc_ambiguous : Z }.

Definition lifecycle_init : lifecycle := BuildLifecycle [] [] 0 0 0.

(** One iteration of the timeline loop. *)
Definition lifecycle_step (st : lifecycle) (x : entry) : lifecycle :=
  let '(BuildLifecycle pending pairs unmatched_start unmatched_end ambiguous) := st in
  let event := entry_event x in
  match key event with
  | None =>
      if entry_boundary x =? 0
      then BuildLifecycle pending pairs (unmatched_start + 1) unmatched_end ambiguous
      else BuildLifecycle pending pairs unmatched_start (unmatched_end + 1) ambiguous
  | Some k =>
      if entry_boundary x =? 0 then
        BuildLifecycle (bt_insert k event pending) pairs unmatched_start unmatched_end
          (match bt_get k pending with Some _ => ambiguous + 1 | None => ambiguous end)
      else
        match bt_get k pending with
        | Some start =>
            match checked_sub_u64 (ev_timestamp_ns event) (ev_timestamp_ns start) with
            | Some latency_ns =>
                BuildLifecycle (bt_remove k pending)
                  (pairs ++ [BuildPair start event latency_ns])
                  unmatched_start unmatched_end ambiguous
            | None =>
                BuildLifecycle (bt_remove k pending) pairs unmatched_start unmatched_end
                  (ambiguous + 1)
            end
        | None =>
            BuildLifecycle pending pairs unmatched_start (unmatched_end + 1) ambiguous
        end
  end.

Definition lifecycle_run (l : list entry) : lifecycle :=
  foldl lifecycle_step lifecycle_init l.

Definition correlate_lifecycle (starts ends : list Event) (limit : option Z) : Outcome :=
  let st := lifecycle_run (timeline starts ends) in
  BuildOutcome (truncate_opt limit (sort_pairs (lc_pairs st)))
    (lc_unmatched_start st + len (lc_pending st))
    (lc_unmatched_end st) (lc_ambiguous st).

(** ** Specification *)

(** The entries of one key, in order. *)
Definition of_key (k : K) (l : list entry) : list entry :=
  filter (λ x, key (entry_event x) = Some k) l.

(** The start left open at the end of a single-key timeline. *)
Definition open_start (l : list entry) : option Event :=
  x ← last l; if decide (is_start x) then Some (entry_event x) else None.

Definition make_pair (x y : entry) : Pair :=
  BuildPair (entry_event x) (entry_event y) (entry_timestamp y - entry_timestamp x).

(** Every end directly preceded by a start, paired with it. *)
Fixpoint adjacent_pairs (l : list entry) : list Pair :=
  match l with
  | x :: l' =>
      match l' with
      | y :: _ =>
          if decide (is_start x ∧ ¬ is_start y) then make_pair x y :: adjacent_pairs l'
          else adjacent_pairs l'
      | [] => []
      end
  | [] => []
  end.

Lemma adjacent_pairs_snoc l y :
  adjacent_pairs (l ++ [y]) =
  adjacent_pairs l ++
    match last l with
    | Some x => if decide (is_start x ∧ ¬ is_start y) then [make_pair x y] else []
    | None => []
    end.
Proof.
  induction l as [|x l IH]; [done|]. destruct l as [|x' l]; simpl in *.
  - by case_decide.
  - rewrite IH. by case_decide.
Qed.

(** ** The invariant of the loop *)
Record lifecycle_inv (l : list entry) (st : lifecycle) : Prop := {
  li_wf : bt_wf (lc_pending st);
  li_open : ∀ k, bt_get k (lc_pending st) = open_start (of_key k l);
  li_pairs : ∀ k, filter (λ p, key (pair_start p) = Some k) (lc_pairs st)
                  = adjacent_pairs (of_key k l);
  li_keys : Forall (λ p, is_Some (key (pair_start p)) ∧ key (pair_start p) = key (pair_end p))
              (lc_pairs st);
  li_forward : Forall pair_forward (lc_pairs st);
  li_starts : (pair_start <$> lc_pairs st) ++ bt_values (lc_pending st) ⊆+ start_events l;
  li_ends : pair_end <$> lc_pairs st ⊆+ end_events l;
  li_count_start :
    len (start_events l)
    = len (lc_pairs st) + lc_unmatched_start st + len (lc_pending st) + lc_ambiguous st;
  li_count_end : len (end_events l) = len (lc_pairs st) + lc_unmatched_end st }.

Lemma of_key_snoc k l x :
  of_key k (l ++ [x]) =
  of_key k l ++ (if decide (key (entry_event x) = Some k) then [x] else []).
Proof. unfold of_key. by rewrite filter_app, filter_cons, filter_nil. Qed.

(** An open start lies on the timeline. *)
Lemma open_start_elem l s :
  open_start l = Some s → ∃ x, x ∈ l ∧ last l = Some x ∧ is_start x ∧ entry_event x = s.
Proof.
  unfold open_start. destruct (last l) as [x|] eqn:E; simpl; [|done].
  case_decide; [|done]. intros [= <-]. exists x. split; [|done].
  by apply last_Some_elem_of.
Qed.

Ltac lc_open :=
  intros Hinv; destruct Hinv; simpl in *; constructor; simpl;
  rewrite ?start_events_snoc, ?end_events_snoc.

Lemma lifecycle_inv_init : lifecycle_inv [] lifecycle_init.
Proof.
  constructor; simpl; try done; apply bt_wf_nil.
Qed.

(** An entry without a key changes one counter. *)
Lemma lifecycle_inv_keyless l st x :
  key (entry_event x) = None → lifecycle_inv l st → lifecycle_inv (l ++ [x]) (lifecycle_step st x).
Proof.
  intros Hk. destruct st as [pending pairs us ue am].
  unfold lifecycle_step. rewrite Hk. unfold is_start.
  destruct (entry_boundary x =? 0) eqn:Eb; lc_open; unfold is_start;
    try (intros k; rewrite of_key_snoc, Hk, app_nil_r; by auto);
    rewrite ?decide_True by lia; rewrite ?decide_False by lia; rewrite ?app_nil_r;
    rewrite ?len_app, ?len_singleton; try done; try lia;
    by apply submseteq_inserts_r.
Qed.

(** The effect of an entry on the timelines of the keys. *)
Lemma open_start_snoc k l x :
  open_start (of_key k (l ++ [x])) =
  if decide (key (entry_event x) = Some k)
  then (if decide (is_start x) then Some (entry_event x) else None)
  else open_start (of_key k l).
Proof.
  rewrite of_key_snoc. unfold open_start. case_decide.
  - by rewrite last_snoc.
  - by rewrite app_nil_r.
Qed.
Lemma adjacent_pairs_of_key k l x :
  adjacent_pairs (of_key k (l ++ [x])) =
  adjacent_pairs (of_key k l) ++
    (if decide (key (entry_event x) = Some k ∧ ¬ is_start x) then
       match last (of_key k l) with
       | Some s => if decide (is_start s) then [make_pair s x] else []
       | None => []
       end
     else []).
Proof.
  rewrite of_key_snoc. repeat case_decide; try tauto; rewrite ?app_nil_r; try done.
  - rewrite adjacent_pairs_snoc. f_equal. destruct (last _); [|done].
    repeat case_decide; tauto.
  - rewrite adjacent_pairs_snoc. destruct (last _); [|by rewrite app_nil_r].
    case_decide; [tauto|by rewrite app_nil_r].
Qed.

(** A start opens (or reopens) its key. *)
Lemma lifecycle_inv_start l st x k0 :
  key (entry_event x) = Some k0 → is_start x →
  lifecycle_inv l st → lifecycle_inv (l ++ [x]) (lifecycle_step st x).
Proof.
  intros Hk Hs. destruct st as [pending pairs us ue am].
  unfold lifecycle_step. rewrite Hk. rewrite (proj2 (Z.eqb_eq _ _)) by done.
  lc_open; rewrite ?decide_True by done; rewrite ?app_nil_r, ?len_app, ?len_singleton;
    try done.
  - by apply bt_wf_insert.
  - intros k. rewrite open_start_snoc, Hk. rewrite (decide_True (P := is_start x)) by done.
    case_decide; simplify_eq.
    + by rewrite bt_get_insert_eq.
    + rewrite bt_get_insert_ne by congruence. auto.
  - intros k. rewrite adjacent_pairs_of_key, decide_False by tauto. by rewrite app_nil_r.
  - destruct (bt_get k0 pending) as [w|] eqn:E.
    + rewrite (bt_values_insert_Some _ _ _ _ E). rewrite <-Permutation_middle.
      rewrite (Permutation_app_comm (start_events l)). simpl. apply submseteq_skip.
      etrans; [|exact li_starts0]. apply submseteq_skips_l.
      rewrite (bt_values_remove _ _ _ E). by apply submseteq_cons.
    + rewrite (bt_values_insert_None _ _ _ E). rewrite <-Permutation_middle.
      rewrite (Permutation_app_comm (start_events l)). simpl. by apply submseteq_skip.
  - rewrite bt_len_insert. destruct (bt_get k0 pending); lia.
Qed.

(** An end closes its key, or is unmatched.  The timeline is sorted, so the
    subtraction never fails. *)
Lemma lifecycle_inv_end l st x k0 :
  timeline_wf (l ++ [x]) → key (entry_event x) = Some k0 → ¬ is_start x →
  lifecycle_inv l st → lifecycle_inv (l ++ [x]) (lifecycle_step st x).
Proof.
  intros [Hwf Hsorted] Hk Hs Hinv. destruct st as [pending pairs us ue am].
  unfold lifecycle_step. rewrite Hk. rewrite (proj2 (Z.eqb_neq _ _)) by done.
  destruct (bt_get k0 pending) as [s|] eqn:E.
  - pose proof (li_open _ _ Hinv k0) as Hopen. simpl in Hopen. rewrite E in Hopen.
    symmetry in Hopen. apply open_start_elem in Hopen as (y & Hy & Hlast & Hys & <-).
    apply list_elem_of_filter in Hy as [Hky Hyl].
    assert (entry_timestamp y ≤ entry_timestamp x) as Hle.
    { apply (StronglySorted_app_1_elem_of by_time l [x] y x Hsorted Hyl). by left. }
    apply Forall_app in Hwf as [Hwfl [[Htx _] _]%Forall_cons].
    pose proof Hwfl as Hwfl'. eapply Forall_forall in Hwfl' as [Hty _]; [|exact Hyl].
    unfold checked_sub_u64. rewrite (proj2 (Z.leb_le _ _)) by lia.
    revert Hinv. lc_open; rewrite ?decide_False by done;
      rewrite ?fmap_app, ?app_nil_r, ?len_app, ?len_singleton; simpl.
    + by apply bt_wf_remove.
    + intros k. rewrite open_start_snoc, Hk, (decide_False (P := is_start x)) by done.
      case_decide; simplify_eq; [by apply bt_get_remove_eq|].
      rewrite bt_get_remove_ne by (done || congruence). auto.
    + intros k. rewrite filter_app, filter_cons, filter_nil, adjacent_pairs_of_key. simpl.
      rewrite Hky, Hk, li_pairs0. f_equal.
      case_decide; [|rewrite decide_False by tauto; done].
      rewrite decide_True by done. simplify_eq. rewrite Hlast, decide_True by done.
      unfold make_pair. by rewrite Htx, Hty.
    + apply Forall_app. split; [done|]. constructor; [|constructor]. simpl.
      rewrite Hky, Hk. eauto.
    + apply Forall_app. split; [done|]. constructor; [|constructor]. split; simpl; lia.
    + rewrite (bt_values_remove _ _ _ E) in li_starts0. by rewrite <-app_assoc.
    + by apply submseteq_app.
    + rewrite (bt_len_remove _ _ _ E) in li_count_start0. lia.
    + lia.
  - pose proof (li_open _ _ Hinv k0) as Hopen. simpl in Hopen. rewrite E in Hopen.
    revert Hinv. lc_open; rewrite ?decide_False by done;
      rewrite ?app_nil_r, ?len_app, ?len_singleton; try done; try lia.
    + intros k. rewrite open_start_snoc, Hk, (decide_False (P := is_start x)) by done.
      case_decide; simplify_eq; done.
    + intros k. rewrite adjacent_pairs_of_key, li_pairs0, Hk.
      case_decide as Hd; [|by rewrite app_nil_r]. destruct Hd as [? _]. simplify_eq.
      unfold open_start in Hopen. destruct (last (of_key k l)) as [y|]; simpl in *;
        [case_decide|]; by rewrite ?app_nil_r.
    + by apply submseteq_inserts_r.
Qed.

Lemma timeline_wf_app_l l k : timeline_wf (l ++ k) → timeline_wf l.
Proof.
  intros [Hwf Hs]. apply Forall_app in Hwf as [??]. split; [done|].
  by eapply StronglySorted_app_1_l.
Qed.

Lemma lifecycle_run_inv l : timeline_wf l → lifecycle_inv l (lifecycle_run l).
Proof.
  unfold lifecycle_run. induction l as [|x l IH] using rev_ind; intros Hwf.
  { apply lifecycle_inv_init. }
  rewrite foldl_snoc. specialize (IH (timeline_wf_app_l _ _ Hwf)).
  destruct (key (entry_event x)) as [k|] eqn:Hk; [|by apply lifecycle_inv_keyless].
  destruct (decide (is_start x)).
  - by eapply lifecycle_inv_start.
  - by eapply lifecycle_inv_end.
Qed.

(** The specification's pairs are already in order of their start. *)
Lemma adjacent_pairs_elem l p :
  p ∈ adjacent_pairs l → ∃ x y, x ∈ l ∧ y ∈ l ∧ p = make_pair x y.
Proof.
  induction l as [|x l IH]; [by intros ?%elem_of_nil|].
  destruct l as [|y l]; [by intros ?%elem_of_nil|]. cbn [adjacent_pairs].
  assert (p ∈ adjacent_pairs (y :: l) →
          ∃ x' y', x' ∈ x :: y :: l ∧ y' ∈ x :: y :: l ∧ p = make_pair x' y') as Htail.
  { intros Hp. destruct (IH Hp) as (x' & y' & ? & ? & ?). exists x', y'.
    split; [by right|split; [by right|done]]. }
  case_decide; [|done]. intros [->|Hp]%elem_of_cons; [|by apply Htail].
  exists x, y. split; [by left|split; [by right; left|done]].
Qed.
Lemma adjacent_pairs_sorted l :
  timeline_wf l →
  StronglySorted (λ p q, (ev_timestamp_ns (pair_start p) <=? ev_timestamp_ns (pair_start q))
                         = true) (adjacent_pairs l).
Proof.
  intros [Hwf Hs]. induction Hs as [|x l Hl IH Hx]; [constructor|].
  apply Forall_cons in Hwf as [[Hx1 _] Hwf]. specialize (IH Hwf).
  simpl. destruct l as [|y l]; [constructor|]. case_decide; [|done].
  constructor; [done|]. apply Forall_forall. intros p Hp.
  apply adjacent_pairs_elem in Hp as (x' & y' & Hx' & _ & ->). simpl.
  eapply Forall_forall in Hx; [|exact Hx']. eapply Forall_forall in Hwf as [Hwf _]; [|exact Hx'].
  unfold by_time in Hx. lia.
Qed.
Lemma of_key_wf k l : timeline_wf l → timeline_wf (of_key k l).
Proof.
  intros [Hwf Hs]. unfold of_key. split.
  - rewrite Forall_forall in *. intros y [_ Hy]%list_elem_of_filter. auto.
  - induction Hs as [|x l Hl IH Hx]; [constructor|].
    apply Forall_cons in Hwf as [_ Hwf]. rewrite filter_cons. case_decide; [|by apply IH].
    constructor; [by apply IH|]. rewrite Forall_forall in *.
    intros y [_ Hy]%list_elem_of_filter. auto.
Qed.

(** ** Results about the whole correlator *)
Lemma lifecycle_sorted_pairs starts ends k :
  filter (λ p, key (pair_start p) = Some k)
    (sort_pairs (lc_pairs (lifecycle_run (timeline starts ends))))
  = adjacent_pairs (of_key k (timeline starts ends)).
Proof.
  pose proof (timeline_is_wf starts ends) as Hwf.
  pose proof (lifecycle_run_inv _ Hwf) as Hinv.
  unfold sort_pairs, sort_by_key. rewrite filter_sort_by by apply _.
  rewrite (li_pairs _ _ Hinv). apply sort_by_id; [apply _|].
  by apply adjacent_pairs_sorted, of_key_wf.
Qed.

Lemma lifecycle_accounted starts ends :
  accounted (correlate_lifecycle starts ends None) starts ends.
Proof.
  pose proof (lifecycle_run_inv _ (timeline_is_wf starts ends)) as Hinv.
  pose proof (li_count_start _ _ Hinv) as H1. pose proof (li_count_end _ _ Hinv) as H2.
  rewrite (len_perm _ _ (timeline_start_events starts ends)) in H1.
  rewrite (len_perm _ _ (timeline_end_events starts ends)) in H2.
  unfold correlate_lifecycle, accounted. simpl. rewrite sort_pairs_len. lia.
Qed.

Lemma lifecycle_sound starts ends limit :
  let out := correlate_lifecycle starts ends limit in
  pairs_from (out_pairs out) starts ends
  ∧ Forall pair_forward (out_pairs out)
  ∧ Forall (λ p, is_Some (key (pair_start p)) ∧ key (pair_start p) = key (pair_end p))
      (out_pairs out).
Proof.
  simpl. pose proof (lifecycle_run_inv _ (timeline_is_wf starts ends)) as Hinv.
  pose proof (truncated_pairs_submseteq limit
                (lc_pairs (lifecycle_run (timeline starts ends)))) as Hsub.
  split; [|split]; [|by eapply Forall_submseteq, li_forward|by eapply Forall_submseteq, li_keys].
  eapply pairs_from_submseteq; [exact Hsub|]. split.
  - trans (start_events (timeline starts ends)).
    + etrans; [|apply (li_starts _ _ Hinv)]. by apply submseteq_inserts_r.
    + apply Permutation_submseteq, timeline_start_events.
  - trans (end_events (timeline starts ends)); [apply (li_ends _ _ Hinv)|].
    apply Permutation_submseteq, timeline_end_events.
Qed.

Lemma lifecycle_counters l :
  0 ≤ lc_unmatched_start (lifecycle_run l) ∧ 0 ≤ lc_unmatched_end (lifecycle_run l)
  ∧ 0 ≤ lc_ambiguous (lifecycle_run l).
Proof.
  unfold lifecycle_run. induction l as [|x l IH] using rev_ind; [done|].
  rewrite foldl_snoc. destruct (foldl _ _ l) as [pending pairs us ue am]. simpl in *.
  destruct (key _); [destruct (_ =? _); destruct (bt_get _ _)|destruct (_ =? _)];
    try destruct (checked_sub_u64 _ _); simpl; lia.
Qed.

#[global] Instance lifecycle_correlator :
  Correlator pair_forward (λ starts ends limit, Some (correlate_lifecycle starts ends limit)).
Proof.
  intros starts ends limit Hlimit. eexists. split; [done|].
  destruct (lifecycle_sound starts ends limit) as (Hfrom & Hfwd & _).
  destruct (lifecycle_accounted starts ends) as [Hs He].
  destruct (lifecycle_counters (timeline starts ends)) as (Hus & Hue & Ham).
  pose proof (truncated_pairs_len limit (lc_pairs (lifecycle_run (timeline starts ends)))).
  split; [done|done| | | | |]; simpl in *.
  - intros n Hn. apply truncate_opt_len; auto.
  - pose proof (len_nonneg (lc_pending (lifecycle_run (timeline starts ends)))). lia.
  - done.
  - done.
  - pose proof (len_nonneg (lc_pairs (lifecycle_run (timeline starts ends)))).
    rewrite sort_pairs_len in *. lia.
Qed.
End lifecycle.

(** ** The two correlators *)
Section lifecycle_correlators.
Context `{SerdeJson}.

(** The [BTreeMap] key of [correlate_thread_lifecycle]. *)
Definition thread_key (event : Event) : Z * Z * option Z :=
  (ev_pid event, ev_tid event, ev_process_start_time event).

Definition correlate_thread_lifecycle (starts ends : list Event) (limit : option Z) : Outcome :=
  correlate_lifecycle (λ event, Some (thread_key event)) starts ends limit.

Definition correlate_nvtx_lifecycle (starts ends : list Event) (limit : option Z) : Outcome :=
  correlate_lifecycle correlation_key starts ends limit.


(** Refinement of [correlate_nvtx_lifecycle].  Without a sample limit, the
    pairs reported for an NVTX range (process, range kind and range id) are
    exactly the range ends directly preceded, among the entries of that range,
    by a start, each with that start. *)
Theorem nvtx_lifecycle_refines (starts ends : list Event) (k : CorrelationKey) :
  filter (λ p, correlation_key (pair_start p) = Some k)
    (out_pairs (correlate_nvtx_lifecycle starts ends None))
  = adjacent_pairs (filter (λ x, correlation_key (entry_event x) = Some k)
                      (timeline starts ends)).
Proof. apply (lifecycle_sorted_pairs correlation_key). Qed.

(** Soundness and conservation of the lifecycle correlators.  Every pair
    takes a start and an end from the inputs, no event is used twice, both
    share the key, the end is not before the start and the latency is their
    distance; without a limit every start is counted exactly once as matched,
    unmatched or ambiguous and every end as matched or unmatched. *)
Theorem lifecycle_correlators_sound (starts ends : list Event) (limit : option Z) :
  let thread := correlate_thread_lifecycle starts ends limit in
  let nvtx := correlate_nvtx_lifecycle starts ends limit in
  (pairs_from (out_pairs thread) starts ends
   ∧ Forall pair_forward (out_pairs thread)
   ∧ Forall (λ p, thread_key (pair_start p) = thread_key (pair_end p)) (out_pairs thread)
   ∧ accounted (correlate_thread_lifecycle starts ends None) starts ends)
  ∧ (pairs_from (out_pairs nvtx) starts ends
     ∧ Forall pair_forward (out_pairs nvtx)
     ∧ Forall (λ p, is_Some (correlation_key (pair_start p))
                    ∧ correlation_key (pair_start p) = correlation_key (pair_end p))
         (out_pairs nvtx)
     ∧ accounted (correlate_nvtx_lifecycle starts ends None) starts ends).
Proof.
  simpl. split.
  - destruct (lifecycle_sound (λ event, Some (thread_key event)) starts ends limit)
      as (Hfrom & Hfwd & Hkey).
    split; [done|]. split; [done|]. split; [|apply lifecycle_accounted].
    eapply Forall_impl; [exact Hkey|]. intros p [_ Hp]. simpl in Hp. congruence.
  - destruct (lifecycle_sound correlation_key starts ends limit) as (Hfrom & Hfwd & Hkey).
    split; [done|]. split; [done|]. split; [done|apply lifecycle_accounted].
Qed.
End lifecycle_correlators.
