(* ===== verification/GroupPairs.v ===== *)
(** * Pairing by groups

    [correlate_exact] and [correlate_stream_order] group starts and ends by a
    key, walk the start groups in key order and pair each with the end group of
    the same key.  This file proves once what such a walk produces; a pairing
    of two groups is any function that satisfies [Pairing]. *)
From S2P Require Import Prelude BTree RustString Protocol Correlate.
#[local] Open Scope Z_scope.

(** What a walk expects from the way it pairs two groups. *)
Class Pairing `{SerdeJson} (pf : list Event → list Event → list Pair) : Prop := {
  pairing_nil_l : ∀ ends, pf [] ends = [];
  pairing_nil_r : ∀ starts, pf starts [] = [];
  pairing_from : ∀ starts ends, pairs_from (pf starts ends) starts ends;
  pairing_forward : ∀ starts ends, Forall pair_forward (pf starts ends) }.

Section group_pairs.
Context `{SerdeJson} `{KeyOrd K} `{!EqDecision K}.
Context (key : Event → option K) (pf : list Event → list Event → list Pair) `{!Pairing pf}.
Local Abbreviation groups := (btree K (list Event)).

(** The pairs of one start group, given the end groups. *)
Definition group_pairs (m : groups) (kg : K * list Event) : list Pair :=
  match bt_get kg.1 m with
  | Some end_group => pf kg.2 end_group
  | None => []
  end.

(** The pairs of the whole walk, in key order. *)
Definition all_pairs (starts ends : list Event) : list Pair :=
  concat (map (group_pairs (bt_group key ends)) (bt_group key starts)).

(** The events with a given key, in order. *)
Definition with_key (k : K) (events : list Event) : list Event :=
  filter (λ e, key e = Some k) events.

(** Keys are distinct: dropping a visited end group changes no later lookup. *)
Lemma group_pairs_remove (L m : groups) k g :
  bt_wf ((k, g) :: L) → bt_wf m →
  map (group_pairs (bt_remove k m)) L = map (group_pairs m) L.
Proof.
  intros [Hlt _]%bt_wf_cons Hm. apply map_ext_Forall, Forall_forall. intros [k' g'] Hin.
  unfold group_pairs. simpl. rewrite bt_get_remove_ne; [done..|].
  eapply Forall_forall in Hlt; [|apply list_elem_of_fmap; by exists (k', g')].
  apply not_eq_sym. by apply klt_ne.
Qed.

Lemma group_pairs_from (m : groups) kg :
  pairs_from (group_pairs m kg) kg.2 (default [] (bt_get kg.1 m)).
Proof.
  unfold group_pairs. destruct (bt_get kg.1 m) as [eg|]; [apply pairing_from|].
  split; apply submseteq_nil_l.
Qed.

(** The pairs of a group stay within its key. *)
Lemma group_pairs_key starts ends k g p :
  (k, g) ∈ bt_group key starts → p ∈ group_pairs (bt_group key ends) (k, g) →
  key (pair_start p) = Some k ∧ key (pair_end p) = Some k ∧ pair_forward p.
Proof.
  intros Hg%bt_get_elem Hp; [|apply bt_group_wf].
  apply bt_group_get_Some in Hg as [-> _].
  destruct (group_pairs_from (bt_group key ends) (k, filter (λ x, key x = Some k) starts))
    as [H1 H2]. simpl in *. rewrite bt_group_get in H2.
  assert (pair_start p ∈ filter (λ x, key x = Some k) starts) as Hs.
  { eapply elem_of_submseteq; [|exact H1]. apply list_elem_of_fmap. eauto. }
  assert (pair_end p ∈ filter (λ x, key x = Some k) ends) as He.
  { eapply elem_of_submseteq; [|exact H2]. apply list_elem_of_fmap. eauto. }
  apply list_elem_of_filter in Hs as [Hs _]. apply list_elem_of_filter in He as [He _].
  split; [done|]. split; [done|]. unfold group_pairs in Hp.
  destruct (bt_get _ _); [|by apply elem_of_nil in Hp].
  eapply Forall_forall; [apply pairing_forward|exact Hp].
Qed.

(** Restricted to one key, the walk is the pairing of that key's events. *)
Lemma all_pairs_key starts ends k :
  filter (λ p, key (pair_start p) = Some k) (all_pairs starts ends)
  = pf (with_key k starts) (with_key k ends).
Proof.
  unfold all_pairs. rewrite (filter_concat_map (λ p, key (pair_start p))).
  2: { apply bt_wf_NoDup, bt_group_wf. }
  2: { intros [k' g] p Hg Hp. by apply (group_pairs_key starts ends k' g p). }
  unfold with_key. rewrite <-!(bt_group_get key).
  destruct (list_find _ _) as [[i [k' g]]|] eqn:E.
  - apply list_find_Some in E as (Hi & Hk & _). simpl in Hk. subst.
    apply list_elem_of_lookup_2 in Hi. apply bt_get_elem in Hi; [|apply bt_group_wf].
    rewrite Hi. unfold group_pairs. simpl.
    destruct (bt_get k (bt_group key ends)) as [eg|]; [done|]. simpl.
    by rewrite pairing_nil_r.
  - destruct (bt_get k (bt_group key starts)) as [g|] eqn:Eg.
    + apply bt_get_elem in Eg; [|apply bt_group_wf].
      apply list_find_None in E. eapply Forall_forall in E; [|exact Eg]. done.
    + simpl. by rewrite pairing_nil_l.
Qed.

Lemma groups_looked_up (L m : groups) :
  bt_wf L → bt_wf m → concat (map (λ kg, default [] (bt_get kg.1 m)) L) ⊆+ bt_concat m.
Proof.
  revert m. induction L as [|[k g] L IH]; intros m HL Hm; simpl; [apply submseteq_nil_l|].
  apply bt_wf_cons in HL as [Hlt HL].
  destruct (bt_get k m) as [eg|] eqn:E; simpl; [|by apply IH].
  rewrite (bt_concat_remove _ _ _ E). apply submseteq_skips_l.
  etrans; [|apply (IH (bt_remove k m) HL); by apply bt_wf_remove].
  apply Permutation_submseteq.
  erewrite map_ext_Forall; [done|].
  apply Forall_forall. intros [k' g'] Hin. simpl. rewrite bt_get_remove_ne; [done..|].
  eapply Forall_forall in Hlt; [|apply list_elem_of_fmap; by exists (k', g')].
  apply not_eq_sym. by apply klt_ne.
Qed.
Lemma concat_pairs_from (f : K * list Event → list Pair) (h : K * list Event → list Event)
    (L : groups) :
  (∀ kg, pairs_from (f kg) kg.2 (h kg)) →
  pairs_from (concat (map f L)) (bt_concat L) (concat (map h L)).
Proof.
  intros Hf. induction L as [|kg L [IH1 IH2]]; [split; apply submseteq_nil_l|].
  destruct (Hf kg) as [H1 H2]. split; simpl; rewrite fmap_app; by apply submseteq_app.
Qed.
Lemma grouped_submseteq (events : list Event) : bt_concat (bt_group key events) ⊆+ events.
Proof. rewrite bt_group_concat. apply sublist_submseteq, sublist_filter. Qed.

Lemma all_pairs_from starts ends : pairs_from (all_pairs starts ends) starts ends.
Proof.
  destruct (concat_pairs_from _ _ (bt_group key starts)
              (group_pairs_from (bt_group key ends))) as [H1 H2].
  split.
  - etrans; [exact H1|]. apply grouped_submseteq.
  - etrans; [exact H2|]. etrans; [|apply grouped_submseteq].
    apply groups_looked_up; apply bt_group_wf.
Qed.
Lemma all_pairs_keys starts ends :
  Forall (λ p, pair_forward p ∧ is_Some (key (pair_start p))
               ∧ key (pair_start p) = key (pair_end p)) (all_pairs starts ends).
Proof.
  apply Forall_forall. intros p Hp. unfold all_pairs in Hp.
  apply list_elem_of_In, in_concat in Hp as (l & Hl & Hp).
  apply in_map_iff in Hl as ([k g] & <- & Hg). apply list_elem_of_In in Hg, Hp.
  destruct (group_pairs_key starts ends k g p Hg Hp) as (-> & -> & Hf). eauto.
Qed.

(** ** Counting the grouped events *)

(** [groups.values().map(Vec::len).sum()]. *)
Definition group_lengths (m : groups) : Z :=
  foldr (λ group total, len group + total) 0 (bt_values m).

Lemma group_lengths_concat (m : groups) : group_lengths m = len (bt_concat m).
Proof.
  unfold group_lengths, bt_concat. induction (bt_values m) as [|g l IH]; simpl; [done|].
  rewrite len_app. lia.
Qed.
Lemma keyless_split (events : list Event) :
  len events = len (bt_concat (bt_group key events)) + len (filter (λ e, key e = None) events).
Proof.
  rewrite (len_perm _ _ (bt_group_concat key events)).
  rewrite <-(len_filter_split (λ e, is_Some (key e)) events). f_equal. f_equal.
  apply list_filter_iff. intros e. by rewrite eq_None_not_Some.
Qed.
End group_pairs.
