(* ===== verification/Exact.v ===== *)
(** * Exact correlation by key

    [correlate_exact] of [xprobe/correlator/src/lib.rs]: starts and ends are
    grouped by correlation key; groups of equal size are zipped in order,
    groups of different size are ambiguous. *)
From S2P Require Import Prelude BTree RustString Protocol Correlate GroupPairs.
#[local] Open Scope Z_scope.

Section exact.
Context `{SerdeJson}.

(** The grouping loop: the groups and the number of events without a key. *)
Definition group_by_key (events : list Event) : btree CorrelationKey (list Event) * Z :=
  foldl (λ '(groups, unmatched) event,
    match correlation_key event with
    | Some key => (bt_push key event groups, unmatched)
    | None => (groups, unmatched + 1)
    end) ([], 0) events.

(** The loop over [group.iter().zip(end_group)]. *)
Definition exact_zip (acc : list Pair * Z * Z) (pair : Event * Event) : list Pair * Z * Z :=
  let '(pairs, unmatched_start, unmatched_end) := acc in
  let '(start, finish) := pair in
  match checked_sub_u64 (ev_timestamp_ns finish) (ev_timestamp_ns start) with
  | Some latency => (pairs ++ [BuildPair start finish latency], unmatched_start, unmatched_end)
  | None => (pairs, unmatched_start + 1, unmatched_end + 1)
  end.

Record exact_state := BuildExact {
  ex_end_groups : btree CorrelationKey (list Event);
  ex_pairs : list Pair;
  ex_unmatched_start : Z;
  ex_unmatched_end : Z;
  ex_ambiguous : Z }.

(** One iteration over the start groups. *)
Definition exact_step (st : exact_state) (kg : CorrelationKey * list Event) : exact_state :=
  let '(BuildExact end_groups pairs unmatched_start unmatched_end ambiguous) := st in
  let '(key, group) := kg in
  match bt_get key end_groups with
  | None =>
      BuildExact end_groups pairs (unmatched_start + len group) unmatched_end ambiguous
  | Some end_group =>
      let end_groups := bt_remove key end_groups in
      if negb (len group =? len end_group) then
        BuildExact end_groups pairs unmatched_start unmatched_end
          (ambiguous + Z.max (len group) (len end_group))
      else
        let '(pairs, unmatched_start, unmatched_end) :=
          foldl exact_zip (pairs, unmatched_start, unmatched_end) (zip group end_group) in
        BuildExact end_groups pairs unmatched_start unmatched_end ambiguous
  end.

Definition correlate_exact (starts ends : list Event) (limit : option Z) : Outcome :=
  let '(start_groups, unmatched_start) := group_by_key starts in
  let '(end_groups, unmatched_end) := group_by_key ends in
  let st := foldl exact_step
              (BuildExact end_groups [] unmatched_start unmatched_end 0) start_groups in
  BuildOutcome (truncate_opt limit (sort_pairs (ex_pairs st)))
    (ex_unmatched_start st)
    (ex_unmatched_end st + group_lengths (ex_end_groups st))
    (ex_ambiguous st).

(** ** Specification *)

(** Pairs of a zipped group whose end is not before its start. *)
Definition forward_pair (pair : Event * Event) : option Pair :=
  let '(s, e) := pair in
  latency ← checked_sub_u64 (ev_timestamp_ns e) (ev_timestamp_ns s);
  Some (BuildPair s e latency).
Definition forward_pairs (starts ends : list Event) : list Pair :=
  omap forward_pair (zip starts ends).

(** What one key contributes: nothing when its sides differ in number. *)
Definition exact_group_pairs (starts ends : list Event) : list Pair :=
  if len starts =? len ends then forward_pairs starts ends else [].

(** ** The grouping loop *)
Lemma group_by_key_spec events :
  group_by_key events =
  (bt_group correlation_key events, len (filter (λ e, correlation_key e = None) events)).
Proof.
  unfold group_by_key. induction events as [|e l IH] using rev_ind; [done|].
  rewrite foldl_snoc, IH, bt_group_snoc, filter_app, filter_cons, filter_nil.
  destruct (correlation_key e) eqn:E; case_decide; simplify_eq; rewrite ?app_nil_r; [done|].
  by rewrite len_app, len_singleton.
Qed.

(** ** The zip loop *)
Lemma exact_zip_fold zs pairs us ue :
  foldl exact_zip (pairs, us, ue) zs =
  let matched := omap forward_pair zs in
  (pairs ++ matched, us + (len zs - len matched), ue + (len zs - len matched)).
Proof.
  revert pairs us ue. induction zs as [|[s e] zs IH]; intros pairs us ue; cbn zeta.
  - simpl. rewrite app_nil_r. unfold len. simpl. by rewrite !Z.add_0_r.
  - rewrite list_omap_cons. simpl. destruct (checked_sub_u64 _ _); simpl; rewrite IH;
      rewrite ?len_cons; simpl; f_equal; [f_equal| |f_equal|]; try lia.
    by rewrite <-app_assoc.
Qed.

Lemma forward_pairs_elem starts ends p :
  p ∈ forward_pairs starts ends →
  pair_start p ∈ starts ∧ pair_end p ∈ ends ∧ pair_forward p.
Proof.
  unfold forward_pairs. intros ([s e] & Hz & Hp)%list_elem_of_omap.
  unfold forward_pair, checked_sub_u64 in Hp. res_steps.
  split; [by eapply elem_of_zip_l|]. split; [by eapply elem_of_zip_r|].
  split; simpl; lia.
Qed.
Lemma forward_pairs_len starts ends :
  len (forward_pairs starts ends) ≤ len (zip starts ends).
Proof.
  apply len_omap.
Qed.
Lemma forward_pairs_from starts ends : pairs_from (forward_pairs starts ends) starts ends.
Proof.
  unfold forward_pairs. revert ends.
  induction starts as [|s starts IH]; intros [|e ends]; simpl;
    try (split; apply submseteq_nil_l).
  destruct (IH ends) as [IH1 IH2]. destruct (checked_sub_u64 _ _); split; simpl;
    solve [by apply submseteq_skip|by apply submseteq_cons].
Qed.
Lemma zip_len_eq (starts ends : list Event) :
  len starts = len ends → len (zip starts ends) = len starts.
Proof. unfold len. rewrite length_zip. lia. Qed.

(** ** The loop over the start groups *)
Local Abbreviation groups := (btree CorrelationKey (list Event)).

#[global] Instance exact_pairing : Pairing exact_group_pairs.
Proof.
  unfold exact_group_pairs. split.
  - intros ends. by destruct (_ =? _).
  - intros starts. destruct (len starts =? len []); [|done]. by destruct starts.
  - intros starts ends. destruct (_ =? _); [apply forward_pairs_from|].
    split; apply submseteq_nil_l.
  - intros starts ends. destruct (_ =? _); [|constructor].
    apply Forall_forall. intros p Hp.
    by apply forward_pairs_elem in Hp as (_ & _ & Hp).
Qed.

(** Keys are distinct, so removing a group never affects a later iteration. *)
Lemma exact_loop_pairs (L : groups) st :
  bt_wf L → bt_wf (ex_end_groups st) →
  ex_pairs (foldl exact_step st L)
  = ex_pairs st ++ concat (map (group_pairs exact_group_pairs (ex_end_groups st)) L).
Proof.
  revert st. induction L as [|[k g] L IH]; intros st HL Hst; simpl.
  { by rewrite app_nil_r. }
  destruct st as [m pairs us ue am]. simpl in *.
  pose proof (group_pairs_remove exact_group_pairs L m k g HL Hst) as Hrem.
  apply bt_wf_cons in HL as [_ HL].
  unfold group_pairs at 1. simpl. destruct (bt_get k m) as [eg|] eqn:E; [|by apply IH].
  unfold exact_group_pairs at 1. destruct (len g =? len eg) eqn:El; simpl.
  - rewrite exact_zip_fold. simpl. rewrite IH by (simpl; auto using bt_wf_remove). simpl.
    rewrite Hrem. by rewrite <-app_assoc.
  - rewrite IH by (simpl; auto using bt_wf_remove). simpl. by rewrite Hrem.
Qed.

(** Counting: what an iteration adds to each side. *)
Definition exact_sides (st : exact_state) : Z * Z * Z :=
  (len (ex_pairs st) + ex_unmatched_start st + ex_ambiguous st,
   len (ex_pairs st) + ex_unmatched_end st + ex_ambiguous st
     + len (bt_concat (ex_end_groups st)),
   len (ex_pairs st) + ex_unmatched_start st + ex_unmatched_end st + ex_ambiguous st
     + len (bt_concat (ex_end_groups st))).

Lemma exact_step_sides st kg :
  let '(s, e, t) := exact_sides st in
  let '(s', e', t') := exact_sides (exact_step st kg) in
  s + len kg.2 ≤ s' ∧ e ≤ e' ∧ t' ≤ t + len kg.2.
Proof.
  destruct st as [m pairs us ue am], kg as [k g]. simpl.
  destruct (bt_get k m) as [eg|] eqn:E; simpl; [|lia].
  pose proof (len_perm _ _ (bt_concat_remove _ _ _ E)) as Hc. rewrite len_app in Hc.
  pose proof (len_nonneg g). pose proof (len_nonneg eg).
  destruct (len g =? len eg) eqn:El; simpl; [|lia].
  rewrite exact_zip_fold. simpl. rewrite len_app.
  pose proof (forward_pairs_len g eg) as Hf. unfold forward_pairs in Hf.
  rewrite zip_len_eq in * by lia. 
  match goal with |- context [len (omap ?f ?l)] => set (n := len (omap f l)) in * end.
  assert (0 ≤ n) by apply len_nonneg. lia.
Qed.
Lemma exact_loop_sides L st :
  let '(s, e, t) := exact_sides st in
  let '(s', e', t') := exact_sides (foldl exact_step st L) in
  s + group_lengths L ≤ s' ∧ e ≤ e' ∧ t' ≤ t + group_lengths L.
Proof.
  unfold group_lengths. revert st. induction L as [|kg L IH]; intros st; [simpl; lia|].
  pose proof (exact_step_sides st kg) as H1. specialize (IH (exact_step st kg)).
  simpl in *. lia.
Qed.

(** ** The whole correlator *)
Local Abbreviation exact_all_pairs := (all_pairs correlation_key exact_group_pairs).

Lemma correlate_exact_pairs starts ends limit :
  out_pairs (correlate_exact starts ends limit)
  = truncate_opt limit (sort_pairs (exact_all_pairs starts ends)).
Proof.
  unfold correlate_exact. rewrite !group_by_key_spec. simpl.
  rewrite exact_loop_pairs by apply bt_group_wf. done.
Qed.
Lemma correlate_exact_counts starts ends :
  let out := correlate_exact starts ends None in
  len starts ≤ len (out_pairs out) + out_unmatched_start out + out_ambiguous out
  ∧ len ends ≤ len (out_pairs out) + out_unmatched_end out + out_ambiguous out
  ∧ len (out_pairs out) + out_unmatched_start out + out_unmatched_end out + out_ambiguous out
    ≤ len starts + len ends.
Proof.
  unfold correlate_exact. rewrite !group_by_key_spec. simpl.
  match goal with |- context [foldl exact_step ?st ?L] =>
    pose proof (exact_loop_sides L st) as Hs; set (fin := foldl exact_step st L) in * end.
  pose proof (keyless_split correlation_key starts).
  pose proof (keyless_split correlation_key ends).
  rewrite !group_lengths_concat in *. rewrite sort_pairs_len. simpl in Hs.
  change (len []) with 0 in Hs. lia.
Qed.

Lemma exact_zip_counters zs pairs us ue :
  0 ≤ us → 0 ≤ ue →
  0 ≤ (foldl exact_zip (pairs, us, ue) zs).1.2 ∧ 0 ≤ (foldl exact_zip (pairs, us, ue) zs).2.
Proof. rewrite exact_zip_fold. simpl. pose proof (len_omap forward_pair zs). lia. Qed.
Lemma exact_loop_counters L st :
  0 ≤ ex_unmatched_start st → 0 ≤ ex_unmatched_end st → 0 ≤ ex_ambiguous st →
  let fin := foldl exact_step st L in
  0 ≤ ex_unmatched_start fin ∧ 0 ≤ ex_unmatched_end fin ∧ 0 ≤ ex_ambiguous fin.
Proof.
  revert st. induction L as [|[k g] L IH]; intros [m pairs us ue am] Hus Hue Ham;
    cbn zeta; simpl in *; [done|].
  pose proof (len_nonneg g). destruct (bt_get k m) as [eg|]; [|apply IH; simpl; lia].
  destruct (negb _); [pose proof (len_nonneg eg); apply IH; simpl; lia|].
  destruct (exact_zip_counters (zip g eg) pairs us ue Hus Hue) as [H1 H2].
  destruct (foldl _ _ (zip g eg)) as [[pairs' us'] ue']. simpl in *. by apply IH.
Qed.

#[global] Instance exact_correlator :
  Correlator pair_forward (λ starts ends limit, Some (correlate_exact starts ends limit)).
Proof.
  intros starts ends limit Hlimit. eexists. split; [done|].
  pose proof (correlate_exact_counts starts ends) as (_ & _ & Htotal).
  pose proof (truncated_pairs_len limit (exact_all_pairs starts ends)) as Hlen.
  assert (∀ limit', let out := correlate_exact starts ends limit' in
    out_unmatched_start out = out_unmatched_start (correlate_exact starts ends None)
    ∧ out_unmatched_end out = out_unmatched_end (correlate_exact starts ends None)
    ∧ out_ambiguous out = out_ambiguous (correlate_exact starts ends None)
    ∧ 0 ≤ out_unmatched_start out ∧ 0 ≤ out_unmatched_end out ∧ 0 ≤ out_ambiguous out)
    as Hcounters.
  { intros limit'. unfold correlate_exact. rewrite !group_by_key_spec. simpl.
    split_and!; [done..| | |]; rewrite ?group_lengths_concat;
      try (apply Z.add_nonneg_nonneg; [|apply len_nonneg]);
      apply exact_loop_counters; simpl; try apply len_nonneg; lia. }
  destruct (Hcounters limit) as (E1 & E2 & E3 & H1 & H2 & H3).
  split; [| | |done|done|done|].
  - rewrite correlate_exact_pairs.
    eapply pairs_from_submseteq; [apply truncated_pairs_submseteq|]. apply all_pairs_from, _.
  - rewrite correlate_exact_pairs.
    eapply Forall_submseteq; [apply truncated_pairs_submseteq|].
    eapply Forall_impl; [apply all_pairs_keys, _|]. by intros p [? _].
  - intros n Hn. rewrite correlate_exact_pairs. apply truncate_opt_len; auto.
  - rewrite E1, E2, E3. rewrite !correlate_exact_pairs in *. simpl in Htotal.
    rewrite sort_pairs_len in Htotal. lia.
Qed.


(** Soundness and accounting of [correlate_exact].  Pairs are drawn from
    the inputs without reuse, share their key and are forward in time; without
    a limit no start and no end goes uncounted, and the counters together
    never exceed the number of events. *)
Theorem exact_sound (starts ends : list Event) (limit : option Z) :
  let out := correlate_exact starts ends limit in
  let full := correlate_exact starts ends None in
  pairs_from (out_pairs out) starts ends
  ∧ Forall (λ p, pair_forward p ∧ is_Some (correlation_key (pair_start p))
                 ∧ correlation_key (pair_start p) = correlation_key (pair_end p))
      (out_pairs out)
  ∧ len starts ≤ len (out_pairs full) + out_unmatched_start full + out_ambiguous full
  ∧ len ends ≤ len (out_pairs full) + out_unmatched_end full + out_ambiguous full
  ∧ len (out_pairs full) + out_unmatched_start full + out_unmatched_end full
    + out_ambiguous full ≤ len starts + len ends.
Proof.
  cbv zeta. rewrite correlate_exact_pairs.
  split; [|split; [|apply correlate_exact_counts]].
  - eapply pairs_from_submseteq; [apply truncated_pairs_submseteq|].
    apply all_pairs_from, _.
  - eapply Forall_submseteq; [apply truncated_pairs_submseteq|].
    apply all_pairs_keys, _.
Qed.
End exact.
