(* ===== verification/Greedy.v ===== *)
(** * First-after and stream-order correlation

    [correlate_first_after], [correlate_stream_order] and [group_by_stream] of
    [xprobe/correlator/src/lib.rs].  Both walk starts and ends in time order
    with one end index; [greedy] is the reference they are compared with. *)
From S2P Require Import Prelude BTree RustString Protocol Correlate GroupPairs.
#[local] Open Scope Z_scope.

Section greedy.
Context `{SerdeJson}.

(** The loops carry the ends from [end_index] on, [ends.len() - end_index]
    being the length of that suffix. *)

(** [while end_index < ends.len() && ends[end_index].timestamp_ns < ...]. *)
Fixpoint skip_before (timestamp : Z) (rest : list Event) (unmatched_end : Z) :
    list Event * Z :=
  match rest with
  | finish :: rest' =>
      if ev_timestamp_ns finish <? timestamp
      then skip_before timestamp rest' (unmatched_end + 1)
      else (rest, unmatched_end)
  | [] => (rest, unmatched_end)
  end.

(** The loop of [correlate_first_after]; [None] is the panic of an unsigned
    subtraction below zero. *)
Fixpoint first_after_loop (limit : Z) (starts : list Event) (pairs : list Pair)
    (unmatched_start unmatched_end : Z) (rest : list Event) :
    option (list Pair * Z * Z * list Event) :=
  match starts with
  | [] => Some (pairs, unmatched_start, unmatched_end, rest)
  | start :: starts' =>
      if len pairs =? limit then Some (pairs, unmatched_start, unmatched_end, rest) else
      let '(rest, unmatched_end) := skip_before (ev_timestamp_ns start) rest unmatched_end in
      match rest with
      | finish :: rest' =>
          latency ← sub_u64 (ev_timestamp_ns finish) (ev_timestamp_ns start);
          first_after_loop limit starts' (pairs ++ [BuildPair start finish latency])
            unmatched_start unmatched_end rest'
      | [] => Some (pairs, unmatched_start + len starts, unmatched_end, rest)
      end
  end.

Definition correlate_first_after (starts ends : list Event) (limit : option Z) :
    option Outcome :=
  let limit := default usize_max limit in
  '(pairs, unmatched_start, unmatched_end, rest) ← first_after_loop limit starts [] 0 0 ends;
  let unmatched_end :=
    if len pairs <? limit then unmatched_end + len rest else unmatched_end in
  Some (BuildOutcome pairs unmatched_start unmatched_end 0).

(** ** Stream order *)
Definition StreamKey : Type := Z * Z * Z * Z.

(** The key [group_by_stream] computes for an event. *)
Definition stream_key (event : Event) : option StreamKey :=
  cuda ← ev_cuda event;
  device ← cuda_device_id cuda;
  context ← cuda_context_id cuda;
  stream ← cuda_stream_id cuda;
  Some (ev_pid event, device, context, stream).

Definition group_by_stream (events : list Event) : btree StreamKey (list Event) * Z :=
  foldl (λ '(groups, unmatched) event,
    match stream_key event with
    | Some key => (bt_push key event groups, unmatched)
    | None => (groups, unmatched + 1)
    end) ([], 0) events.

(** [for start in group]. *)
Fixpoint stream_loop (group : list Event) (pairs : list Pair)
    (unmatched_start unmatched_end : Z) (rest : list Event) :
    option (list Pair * Z * Z * list Event) :=
  match group with
  | [] => Some (pairs, unmatched_start, unmatched_end, rest)
  | start :: group' =>
      let '(rest, unmatched_end) := skip_before (ev_timestamp_ns start) rest unmatched_end in
      match rest with
      | finish :: rest' =>
          latency ← sub_u64 (ev_timestamp_ns finish) (ev_timestamp_ns start);
          stream_loop group' (pairs ++ [BuildPair start finish latency])
            unmatched_start unmatched_end rest'
      | [] => stream_loop group' pairs (unmatched_start + 1) unmatched_end rest
      end
  end.

(** [for (key, group) in start_groups]. *)
Fixpoint stream_groups (start_groups end_groups : btree StreamKey (list Event))
    (pairs : list Pair) (unmatched_start unmatched_end : Z) :
    option (list Pair * Z * Z * btree StreamKey (list Event)) :=
  match start_groups with
  | [] => Some (pairs, unmatched_start, unmatched_end, end_groups)
  | (key, group) :: start_groups =>
      match bt_get key end_groups with
      | None =>
          stream_groups start_groups end_groups pairs (unmatched_start + len group)
            unmatched_end
      | Some end_group =>
          '(pairs, unmatched_start, unmatched_end, rest) ←
            stream_loop group pairs unmatched_start unmatched_end end_group;
          stream_groups start_groups (bt_remove key end_groups) pairs unmatched_start
            (unmatched_end + len rest)
      end
  end.

Definition correlate_stream_order (starts ends : list Event) (limit : option Z) :
    option Outcome :=
  let '(start_groups, unmatched_start) := group_by_stream starts in
  let '(end_groups, unmatched_end) := group_by_stream ends in
  '(pairs, unmatched_start, unmatched_end, end_groups) ←
    stream_groups start_groups end_groups [] unmatched_start unmatched_end;
  let unmatched_end := unmatched_end + group_lengths end_groups in
  Some (BuildOutcome (truncate_opt limit (sort_pairs pairs)) unmatched_start unmatched_end 0).

(** ** The reference: each start takes the first end at or after it that comes
    after the ends already taken *)
Fixpoint drop_before (timestamp : Z) (rest : list Event) : list Event :=
  match rest with
  | finish :: rest' =>
      if ev_timestamp_ns finish <? timestamp then drop_before timestamp rest' else rest
  | [] => []
  end.

Fixpoint greedy (starts ends : list Event) : list Pair :=
  match starts with
  | [] => []
  | start :: starts' =>
      match drop_before (ev_timestamp_ns start) ends with
      | finish :: rest =>
          BuildPair start finish (ev_timestamp_ns finish - ev_timestamp_ns start)
          :: greedy starts' rest
      | [] => []
      end
  end.

Definition earlier : relation Event := λ x y, ev_timestamp_ns x ≤ ev_timestamp_ns y.
(** The order [measure] establishes with [sort_by_key]. *)
Definition time_sorted (events : list Event) : Prop := StronglySorted earlier events.

(** ** Skipping *)
Lemma drop_before_split t l :
  ∃ skipped, l = skipped ++ drop_before t l
    ∧ Forall (λ e, ev_timestamp_ns e < t) skipped
    ∧ (∀ e rest, drop_before t l = e :: rest → t ≤ ev_timestamp_ns e).
Proof.
  induction l as [|e l (skipped & Hl & Hs & Hd)]; simpl.
  { exists []. done. }
  destruct (ev_timestamp_ns e <? t) eqn:E.
  - exists (e :: skipped). split; [simpl; congruence|]. split; [|done].
    constructor; [lia|done].
  - exists []. split; [done|]. split; [done|]. intros ?? [= -> ->]. lia.
Qed.
Lemma skip_before_spec t l ue :
  skip_before t l ue = (drop_before t l, ue + (len l - len (drop_before t l))).
Proof.
  revert ue. induction l as [|e l IH]; intros ue; simpl; [f_equal; unfold len; simpl; lia|].
  destruct (_ <? _); [|f_equal; lia]. rewrite IH, len_cons. f_equal. lia.
Qed.
Lemma drop_before_forward t l e rest :
  drop_before t l = e :: rest →
  t ≤ ev_timestamp_ns e ∧ sub_u64 (ev_timestamp_ns e) t = Some (ev_timestamp_ns e - t).
Proof.
  intros Hd. destruct (drop_before_split t l) as (_ & _ & _ & Hle).
  specialize (Hle _ _ Hd). unfold sub_u64, checked_sub_u64.
  destruct (Z.leb_spec t (ev_timestamp_ns e)); [done|lia].
Qed.
Lemma drop_before_suffix t l e rest :
  drop_before t l = e :: rest → e :: rest `sublist_of` l.
Proof.
  intros Hd. destruct (drop_before_split t l) as (skipped & Hl & _). rewrite Hl, Hd.
  by apply sublist_inserts_l.
Qed.
Lemma drop_before_len t l : len (drop_before t l) ≤ len l.
Proof.
  destruct (drop_before_split t l) as (skipped & Hl & _). rewrite Hl at 2.
  rewrite len_app. pose proof (len_nonneg skipped). lia.
Qed.

(** ** Properties of the reference *)
Lemma greedy_nil_r starts : greedy starts [] = [].
Proof. by destruct starts. Qed.

(** The starts used are in order, and so are the ends. *)
Lemma greedy_sublists starts ends :
  pair_start <$> greedy starts ends `sublist_of` starts
  ∧ pair_end <$> greedy starts ends `sublist_of` ends.
Proof.
  revert ends. induction starts as [|s starts IH]; intros ends; simpl.
  { split; apply sublist_nil_l. }
  destruct (drop_before _ ends) as [|e rest] eqn:E; simpl.
  { split; apply sublist_nil_l. }
  destruct (IH rest) as [IH1 IH2]. split; [by apply sublist_skip|].
  etrans; [|by eapply drop_before_suffix]. by apply sublist_skip.
Qed.
Lemma greedy_from starts ends : pairs_from (greedy starts ends) starts ends.
Proof.
  destruct (greedy_sublists starts ends). split; by apply sublist_submseteq.
Qed.
Lemma greedy_forward starts ends : Forall pair_forward (greedy starts ends).
Proof.
  revert ends. induction starts as [|s starts IH]; intros ends; simpl; [constructor|].
  destruct (drop_before _ ends) as [|e rest] eqn:E; constructor; [|done].
  apply drop_before_forward in E as [? _]. split; simpl; lia.
Qed.
#[global] Instance greedy_pairing : Pairing greedy.
Proof.
  split; [done|apply greedy_nil_r|apply greedy_from|apply greedy_forward].
Qed.
Lemma greedy_len starts ends :
  len (greedy starts ends) ≤ len starts ∧ len (greedy starts ends) ≤ len ends.
Proof.
  destruct (greedy_from starts ends) as [Hs%len_submseteq He%len_submseteq].
  rewrite len_fmap in *. lia.
Qed.

(** ** The first-after loop computes the reference *)
Lemma first_after_loop_spec limit starts pairs us ue rest :
  len pairs ≤ limit →
  let new := take (Z.to_nat (limit - len pairs)) (greedy starts rest) in
  ∃ us' ue' rest',
    first_after_loop limit starts pairs us ue rest = Some (pairs ++ new, us', ue', rest')
    ∧ us ≤ us' ∧ ue ≤ ue'
    ∧ us' + len new ≤ us + len starts
    ∧ ue' + len rest' + len new = ue + len rest
    ∧ (len pairs + len new < limit → us' + len new = us + len starts).
Proof.
  revert pairs us ue rest. induction starts as [|s starts IH]; intros pairs us ue rest Hl;
    cbn zeta; simpl.
  { rewrite take_nil, app_nil_r. change (@len Pair []) with 0.
    exists us, ue, rest. split_and!; try done; lia. }
  destruct (Z.eqb_spec (len pairs) limit) as [El|El].
  { rewrite El, Z.sub_diag. simpl. rewrite take_0, app_nil_r. change (@len Pair []) with 0.
    pose proof (len_nonneg (s :: starts)). exists us, ue, rest. split_and!; try done; lia. }
  rewrite skip_before_spec. pose proof (drop_before_len (ev_timestamp_ns s) rest) as Hd.
  destruct (drop_before _ rest) as [|e rest'] eqn:E.
  { rewrite take_nil, app_nil_r. pose proof (len_nonneg (s :: starts)).
    change (len []) with 0 in *. eexists _, _, _. split; [done|]. change (len []) with 0.
    split_and!; lia. }
  apply drop_before_forward in E as [_ ->]. unfold mbind, option_bind.
  destruct (IH (pairs ++ [BuildPair s e (ev_timestamp_ns e - ev_timestamp_ns s)]) us
              (ue + (len rest - len (e :: rest'))) rest')
    as (us' & ue' & rest'' & -> & Hus & Hue & Hs & He & Hx).
  { rewrite len_app, len_singleton. lia. }
  replace (Z.to_nat (limit - len pairs)) with (S (Z.to_nat (limit - len pairs - 1))) by lia.
  rewrite len_app, len_singleton in *. simpl. rewrite !len_cons in *.
  replace (limit - (len pairs + 1)) with (limit - len pairs - 1) in * by lia.
  exists us', ue', rest''. split; [by rewrite <-app_assoc|]. split_and!; lia.
Qed.

(** ** Optimality of the reference *)
Lemma submseteq_app_drop {A} (l k1 k2 : list A) :
  l ⊆+ k1 ++ k2 → (∀ x, x ∈ l → x ∉ k1) → l ⊆+ k2.
Proof.
  revert l. induction k1 as [|x k1 IH]; intros l Hl Hn; [done|]. simpl in Hl.
  apply submseteq_cons_r in Hl as [Hl|(l' & Hp & _)].
  - apply IH; [done|]. intros y Hy Hin. apply (Hn y Hy). by right.
  - exfalso. apply (Hn x); [rewrite Hp|]; by left.
Qed.

(** Removing the pair of a matching that uses a given element, if there is one. *)
Lemma matching_uncons (f : Pair → Event) M x l :
  f <$> M ⊆+ x :: l →
  f <$> M ⊆+ l ∨ ∃ p M', M ≡ₚ p :: M' ∧ f p = x ∧ f <$> M' ⊆+ l.
Proof.
  intros [Hl|(k & Hp & Hk)]%submseteq_cons_r; [by left|right].
  assert (x ∈ f <$> M) as Hx by (rewrite Hp; by left).
  apply list_elem_of_fmap in Hx as (p & -> & Hin).
  apply elem_of_Permutation in Hin as [M' HM]. exists p, M'. split; [done|]. split; [done|].
  rewrite HM in Hp. simpl in Hp. apply (inj (f p ::.)) in Hp. by rewrite Hp.
Qed.

(** A matching of the whole input becomes, less one pair, a matching of what
    is left after the first start took the first end. *)
Lemma matching_exchange M s starts e ends :
  Forall (earlier e) ends →
  Forall (λ p, earlier (pair_start p) (pair_end p)) M → pairs_from M (s :: starts) (e :: ends) →
  ∃ M', len M ≤ len M' + 1 ∧ pairs_from M' starts ends
    ∧ Forall (λ p, earlier (pair_start p) (pair_end p)) M'.
Proof.
  intros He Hf [[Hs|(p & M1 & HM & Hp & Hs)]%matching_uncons Hends].
  - apply matching_uncons in Hends as [Hends|(q & M1 & HM & Hq & Hends)].
    + exists M. repeat split; [lia|done..].
    + exists M1. rewrite (len_perm _ _ HM), len_cons. rewrite HM in Hf, Hs.
      apply Forall_cons in Hf as [_ Hf].
      repeat split; [lia| |done..]. etrans; [|exact Hs]. simpl. by apply submseteq_cons.
  - rewrite (len_perm _ _ HM), len_cons. rewrite HM in Hf, Hends.
    apply Forall_cons in Hf as [Hfp Hf].
    apply matching_uncons in Hends as [Hends|(q & M2 & HM2 & Hq & Hends)].
    { exists M1. repeat split; [lia|done| |done].
      etrans; [|exact Hends]. simpl. by apply submseteq_cons. }
    assert (q ∈ p :: M1) as [->|Hq1]%elem_of_cons by (rewrite HM2; by left).
    { exists M1. apply (inj (p ::.)) in HM2. repeat split; [lia|done| |done].
      by rewrite HM2. }
    apply elem_of_Permutation in Hq1 as [M3 HM3]. rewrite HM3 in HM2, Hf, Hs.
    assert (M2 ≡ₚ p :: M3) as HM23.
    { apply (inj (q ::.)). rewrite <-HM2. constructor. }
    apply Forall_cons in Hf as [Hfq Hf]. rewrite HM23 in Hends. simpl in Hs, Hends.
    exists (BuildPair (pair_start q) (pair_end p) 0 :: M3).
    rewrite (len_perm _ _ HM3), !len_cons. split; [lia|]. split; [done|].
    constructor; [|done]. assert (pair_end p ∈ ends) as Hin.
    { eapply elem_of_submseteq; [|exact Hends]. by left. }
    eapply Forall_forall in He; [|exact Hin]. unfold earlier in *. simpl in *.
    rewrite Hq in Hfq. lia.
Qed.

(** No matching of starts with ends at or after them is larger. *)
Lemma greedy_maximum starts ends M :
  time_sorted starts → time_sorted ends →
  pairs_from M starts ends → Forall (λ p, earlier (pair_start p) (pair_end p)) M →
  len M ≤ len (greedy starts ends).
Proof.
  intros Hss. revert ends M. induction Hss as [|s starts Hss IH Hs]; intros ends M Hes HM Hf.
  { destruct HM as [HM%len_submseteq _]. by rewrite len_fmap in HM. }
  simpl. assert (∀ p, p ∈ M → ev_timestamp_ns s ≤ ev_timestamp_ns (pair_end p)) as Hlate.
  { intros p Hp. rewrite Forall_forall in Hf. specialize (Hf p Hp). unfold earlier in Hf.
    assert (pair_start p ∈ s :: starts) as Hin.
    { eapply elem_of_submseteq; [|apply HM]. apply list_elem_of_fmap. eauto. }
    apply elem_of_cons in Hin as [Hin|Hin]; [by rewrite <-Hin|].
    rewrite Forall_forall in Hs. specialize (Hs _ Hin). unfold earlier in Hs. lia. }
  destruct (drop_before_split (ev_timestamp_ns s) ends) as (skipped & Hsplit & Hskip & _).
  assert (pair_end <$> M ⊆+ drop_before (ev_timestamp_ns s) ends) as Hends.
  { destruct HM as [_ HM]. rewrite Hsplit in HM. eapply submseteq_app_drop; [exact HM|].
    intros x (p & -> & Hp)%list_elem_of_fmap Hx. eapply Forall_forall in Hskip; [|exact Hx].
    specialize (Hlate p Hp). lia. }
  assert (time_sorted (drop_before (ev_timestamp_ns s) ends)) as Hds.
  { rewrite Hsplit in Hes. by eapply StronglySorted_app_1_r. }
  destruct (drop_before _ ends) as [|e rest].
  { apply len_submseteq in Hends. by rewrite len_fmap in Hends. }
  rewrite len_cons. apply StronglySorted_inv in Hds as [Hds He].
  destruct (matching_exchange M s starts e rest) as (M' & Hlen & HM' & Hf');
    [done|done|split; [apply HM|done]|].
  specialize (IH rest M' Hds HM' Hf'). lia.
Qed.

(** An end passed over although it could have been taken was already taken. *)
Lemma greedy_earliest starts ends pre p post e :
  time_sorted starts → time_sorted ends → greedy starts ends = pre ++ p :: post →
  e ∈ ends → ev_timestamp_ns (pair_start p) ≤ ev_timestamp_ns e →
  ev_timestamp_ns e < ev_timestamp_ns (pair_end p) → e ∈ pair_end <$> pre.
Proof.
  intros Hss. revert ends pre. induction Hss as [|s starts Hss IH Hs]; intros ends pre Hes Hg Hin Hge Hlt.
  { by destruct pre. }
  simpl in Hg.
  destruct (drop_before_split (ev_timestamp_ns s) ends) as (skipped & Hsplit & Hskip & _).
  destruct (drop_before _ ends) as [|f rest]; [by destruct pre|].
  rewrite Hsplit in Hes, Hin. apply StronglySorted_app_1_r in Hes.
  apply StronglySorted_inv in Hes as [Hes Hf].
  assert (ev_timestamp_ns s ≤ ev_timestamp_ns (pair_start p)) as Hsp.
  { destruct pre as [|q pre]; injection Hg as Hq Hg; [by rewrite <-Hq|].
    assert (pair_start p ∈ starts) as Hp; [|by eapply Forall_forall in Hs].
    destruct (greedy_from starts rest) as [Hsub _]. eapply elem_of_submseteq; [|exact Hsub].
    rewrite Hg, fmap_app. apply elem_of_app. right. by left. }
  apply elem_of_app in Hin as [Hin|Hin].
  { eapply Forall_forall in Hskip; [|exact Hin]. simpl in Hskip. lia. }
  destruct pre as [|q pre]; injection Hg as <- Hg.
  - apply elem_of_cons in Hin as [->|Hin]; [simpl in *; lia|].
    eapply Forall_forall in Hf; [|exact Hin]. unfold earlier in Hf. simpl in *. lia.
  - apply elem_of_cons in Hin as [->|Hin]; [by left|]. right. by eapply IH.
Qed.

(** ** The stream-order loops compute the reference per stream *)
Lemma stream_loop_spec group pairs us ue rest :
  let new := greedy group rest in
  ∃ ue' rest',
    stream_loop group pairs us ue rest
    = Some (pairs ++ new, us + len group - len new, ue', rest')
    ∧ ue' + len rest' + len new = ue + len rest.
Proof.
  revert pairs us ue rest. induction group as [|s group IH]; intros pairs us ue rest;
    cbn zeta; simpl.
  { rewrite app_nil_r. exists ue, rest. change (@len Pair []) with 0.
    change (@len Event []) with 0. split; [do 4 f_equal|]; lia. }
  rewrite skip_before_spec. pose proof (drop_before_len (ev_timestamp_ns s) rest) as Hd.
  destruct (drop_before _ rest) as [|e rest'] eqn:E.
  { destruct (IH pairs (us + 1) (ue + (len rest - @len Event [])) []) as (ue' & rest' & -> & Hsum).
    rewrite greedy_nil_r, app_nil_r in *. exists ue', rest'. rewrite len_cons in *.
    change (@len Pair []) with 0 in *. change (@len Event []) with 0 in *.
    split; [do 4 f_equal|]; lia. }
  apply drop_before_forward in E as [_ ->]. unfold mbind, option_bind.
  match goal with |- context [stream_loop group ?p us ?u rest'] =>
    destruct (IH p us u rest') as (ue' & rest'' & -> & Hsum) end.
  exists ue', rest''. rewrite !len_cons in *. split; [|lia].
  rewrite <-app_assoc. do 4 f_equal. lia.
Qed.

Lemma stream_groups_spec L m pairs us ue :
  bt_wf L → bt_wf m →
  let new := concat (map (group_pairs greedy m) L) in
  ∃ ue' m',
    stream_groups L m pairs us ue
    = Some (pairs ++ new, us + group_lengths L - len new, ue', m')
    ∧ ue' + group_lengths m' + len new = ue + group_lengths m.
Proof.
  revert m pairs us ue. induction L as [|[k g] L IH]; intros m pairs us ue HL Hm;
    cbn zeta; simpl.
  { rewrite app_nil_r. exists ue, m. change (@len Pair []) with 0.
    split; [|lia]. unfold group_lengths. simpl. do 4 f_equal. lia. }
  pose proof (group_pairs_remove greedy L m k g HL Hm) as Hrem.
  apply bt_wf_cons in HL as [_ HL]. simpl.
  change (group_pairs greedy m (k, g))
    with (match bt_get k m with Some end_group => greedy g end_group | None => [] end).
  change (group_lengths ((k, g) :: L)) with (len g + group_lengths L).
  destruct (bt_get k m) as [eg|] eqn:E.
  - destruct (stream_loop_spec g pairs us ue eg) as (ue1 & rest & -> & Hsum1).
    unfold mbind, option_bind.
    match goal with |- context [stream_groups L ?m2 ?p ?u1 ?u2] =>
      destruct (IH m2 p u1 u2) as (ue' & m' & -> & Hsum); [done|by apply bt_wf_remove|] end.
    rewrite Hrem in *. exists ue', m'. rewrite len_app, <-app_assoc.
    split; [do 4 f_equal; lia|].
    rewrite !group_lengths_concat in *.
    pose proof (len_perm _ _ (bt_concat_remove _ _ _ E)) as Hc. rewrite len_app in Hc. lia.
  - destruct (IH m pairs (us + len g) ue) as (ue' & m' & -> & Hsum); [done..|].
    exists ue', m'. split; [simpl; do 4 f_equal; lia|done].
Qed.

Lemma group_by_stream_spec events :
  group_by_stream events =
  (bt_group stream_key events, len (filter (λ e, stream_key e = None) events)).
Proof.
  unfold group_by_stream. induction events as [|e l IH] using rev_ind; [done|].
  rewrite foldl_snoc, IH, bt_group_snoc, filter_app, filter_cons, filter_nil.
  destruct (stream_key e) eqn:E; case_decide; simplify_eq; rewrite ?app_nil_r; [done|].
  by rewrite len_app, len_singleton.
Qed.
Local Abbreviation stream_pairs := (all_pairs stream_key greedy).

Lemma correlate_stream_order_spec starts ends limit :
  ∃ us ue,
    correlate_stream_order starts ends limit
    = Some (BuildOutcome (truncate_opt limit (sort_pairs (stream_pairs starts ends))) us ue 0)
    ∧ us + len (stream_pairs starts ends) = len starts
    ∧ ue + len (stream_pairs starts ends) = len ends.
Proof.
  unfold correlate_stream_order. rewrite !group_by_stream_spec.
  destruct (stream_groups_spec (bt_group stream_key starts) (bt_group stream_key ends) []
    (len (filter (λ e, stream_key e = None) starts))
    (len (filter (λ e, stream_key e = None) ends))) as (ue' & m' & -> & Hsum);
    [apply bt_group_wf..|].
  simpl. eexists _, _. split; [done|]. fold (stream_pairs starts ends) in *.
  pose proof (keyless_split stream_key starts). pose proof (keyless_split stream_key ends).
  rewrite !group_lengths_concat in *. lia.
Qed.

(** ** The interface *)
#[global] Instance first_after_correlator : Correlator pair_forward correlate_first_after.
Proof.
  intros starts ends limit Hlimit. pose proof (limit_wf_default _ Hlimit) as Hmax.
  unfold correlate_first_after.
  destruct (first_after_loop_spec (default usize_max limit) starts [] 0 0 ends)
    as (us & ue & rest & -> & Hus & Hue & Hs & He & _); [done|].
  change (len []) with 0 in *. rewrite Z.sub_0_r in *. simpl.
  set (pairs := take (Z.to_nat (default usize_max limit)) (greedy starts ends)) in *.
  assert (pairs ⊆+ greedy starts ends) as Hsub by apply submseteq_take.
  pose proof (len_nonneg rest). pose proof (len_nonneg pairs).
  eexists. split; [done|]. split; simpl; [| | |done| |done|].
  - by eapply pairs_from_submseteq, greedy_from.
  - by eapply Forall_submseteq, greedy_forward.
  - intros n ->. by apply len_take_le.
  - destruct (_ <? _); lia.
  - destruct (_ <? _); lia.
Qed.

#[global] Instance stream_order_correlator : Correlator pair_forward correlate_stream_order.
Proof.
  intros starts ends limit Hlimit.
  destruct (correlate_stream_order_spec starts ends limit) as (us & ue & -> & Hs & He).
  destruct (all_pairs_from stream_key greedy starts ends) as [Hs'%len_submseteq He'%len_submseteq].
  rewrite len_fmap in Hs', He'.
  pose proof (truncated_pairs_len limit (stream_pairs starts ends)).
  eexists. split; [done|]. split; simpl; [| | |lia|lia|done|].
  - eapply pairs_from_submseteq; [apply truncated_pairs_submseteq|]. apply all_pairs_from, _.
  - eapply Forall_submseteq; [apply truncated_pairs_submseteq|].
    eapply Forall_impl; [apply all_pairs_keys, _|]. by intros p [? _].
  - intros n Hn. apply truncate_opt_len; auto.
  - pose proof (len_nonneg (stream_pairs starts ends)). lia.
Qed.

(** ** Claims *)

(** C10: [correlate_first_after] never panics, whatever the order of its inputs,
    and pairs each start with the first end at or after it that is later in the
    list than the ends taken before, up to the sample limit.  Below the limit
    every start and every end is counted exactly once; at the limit no counter
    exceeds what is left. *)
Theorem first_after_refines (starts ends : list Event) (limit : option Z)
    (Hlimit : 0 ≤ default usize_max limit) :
  let max := default usize_max limit in
  ∃ out, correlate_first_after starts ends limit = Some out
    ∧ out_pairs out = take (Z.to_nat max) (greedy starts ends)
    ∧ (len (out_pairs out) < max → accounted out starts ends)
    ∧ out_unmatched_start out + len (out_pairs out) ≤ len starts
    ∧ out_unmatched_end out + len (out_pairs out) ≤ len ends.
Proof.
  cbv zeta. unfold correlate_first_after.
  destruct (first_after_loop_spec (default usize_max limit) starts [] 0 0 ends)
    as (us & ue & rest & -> & Hus & Hue & Hs & He & Hx); [done|].
  change (len []) with 0 in *. rewrite Z.sub_0_r in *. simpl.
  pose proof (len_nonneg rest).
  eexists. split; [done|]. simpl. split; [done|]. unfold accounted. simpl.
  destruct (Z.ltb_spec (len (take (Z.to_nat (default usize_max limit)) (greedy starts ends)))
    (default usize_max limit)); split_and!; lia.
Qed.

(** The matching of [correlate_first_after] is maximum.  On inputs in time
    order and without reaching the limit, no way of assigning ends to starts
    that respects time and uses each event once yields more samples. *)
Theorem first_after_maximum (starts ends : list Event) (limit : option Z) (out : Outcome)
    (M : list Pair)
    (Hstarts : time_sorted starts) (Hends : time_sorted ends)
    (Hout : correlate_first_after starts ends limit = Some out)
    (Hbelow : len (out_pairs out) < default usize_max limit)
    (Hfrom : pairs_from M starts ends)
    (Htime : Forall (λ p, earlier (pair_start p) (pair_end p)) M) :
  len M ≤ len (out_pairs out).
Proof.
  unfold correlate_first_after in Hout.
  destruct (first_after_loop_spec (default usize_max limit) starts [] 0 0 ends)
    as (us & ue & rest & Hrun & _).
  { pose proof (len_nonneg (out_pairs out)). change (len []) with 0. lia. }
  rewrite Hrun in Hout. change (len []) with 0 in Hout. rewrite Z.sub_0_r in Hout.
  injection Hout as <-. simpl in *. etrans; [by apply (greedy_maximum starts ends)|].
  unfold len in *. rewrite length_take in *. lia.
Qed.

(** [correlate_first_after] takes the earliest end.  On inputs in time
    order, an end that lies between a reported start and the end reported for
    it is the end of a pair reported before. *)
Theorem first_after_earliest (starts ends : list Event) (limit : option Z) (out : Outcome)
    (pre post : list Pair) (p : Pair) (e : Event)
    (Hstarts : time_sorted starts) (Hends : time_sorted ends)
    (Hlimit : 0 ≤ default usize_max limit)
    (Hout : correlate_first_after starts ends limit = Some out)
    (Hp : out_pairs out = pre ++ p :: post)
    (Hin : e ∈ ends)
    (Hafter : ev_timestamp_ns (pair_start p) ≤ ev_timestamp_ns e)
    (Hbefore : ev_timestamp_ns e < ev_timestamp_ns (pair_end p)) :
  e ∈ pair_end <$> pre.
Proof.
  unfold correlate_first_after in Hout.
  destruct (first_after_loop_spec (default usize_max limit) starts [] 0 0 ends)
    as (us & ue & rest & Hrun & _); [done|].
  rewrite Hrun in Hout. injection Hout as <-. simpl in Hp.
  change (len []) with 0 in Hp. rewrite Z.sub_0_r in Hp.
  eapply (greedy_earliest starts ends pre p (post ++ drop _ (greedy starts ends)));
    [done|done| |done..].
  rewrite <-(take_drop (Z.to_nat (default usize_max limit)) (greedy starts ends)) at 1.
  rewrite Hp. by rewrite <-app_assoc.
Qed.

(** [correlate_stream_order] never panics and, without a limit, reports for
    a CUDA stream (process, device, context, stream) exactly the first-after
    matching of the events of that stream; every event is counted once, and
    with a limit only the number of pairs changes. *)
Theorem stream_order_refines (starts ends : list Event) (limit : option Z) :
  ∃ out full, correlate_stream_order starts ends limit = Some out
    ∧ correlate_stream_order starts ends None = Some full
    ∧ accounted full starts ends
    ∧ (∀ k, filter (λ p, stream_key (pair_start p) = Some k) (out_pairs full)
            = sort_pairs (greedy (with_key stream_key k starts) (with_key stream_key k ends)))
    ∧ pairs_from (out_pairs full) starts ends
    ∧ Forall (λ p, pair_forward p ∧ is_Some (stream_key (pair_start p))
                   ∧ stream_key (pair_start p) = stream_key (pair_end p)) (out_pairs full)
    ∧ out = BuildOutcome (truncate_opt limit (out_pairs full)) (out_unmatched_start full)
              (out_unmatched_end full) 0.
Proof.
  destruct (correlate_stream_order_spec starts ends limit) as (us & ue & Ho & Hs & He).
  destruct (correlate_stream_order_spec starts ends None) as (us' & ue' & Hf & Hs' & He').
  eexists _, _. split; [exact Ho|]. split; [exact Hf|]. simpl.
  unfold accounted. simpl. rewrite sort_pairs_len. split; [lia|]. split.
  { intros k. unfold sort_pairs, sort_by_key. rewrite filter_sort_by by apply _.
    by rewrite all_pairs_key by apply _. }
  split; [|split].
  - eapply pairs_from_submseteq; [apply Permutation_submseteq, sort_pairs_perm|].
    apply all_pairs_from, _.
  - rewrite sort_pairs_perm. apply all_pairs_keys, _.
  - f_equal; lia.
Qed.
End greedy.
