(* ===== verification/Nearest.v ===== *)
(** * Nearest correlation

    [correlate_nearest] of [xprobe/correlator/src/lib.rs]: each start takes the
    end closest in time among those still available, kept in a map from
    timestamp to a stack of ends. *)
From S2P Require Import Prelude BTree RustString Protocol Correlate GroupPairs.
#[local] Open Scope Z_scope.

Section nearest.
Context `{SerdeJson}.

Definition Available : Type := btree Z (list Event).

(** [available.range(..=t).next_back()] and [available.range(t..).next()],
    keys only. *)
Definition key_before (t : Z) (available : Available) : option Z :=
  last (filter (λ k, k ≤ t) (bt_keys available)).
Definition key_after (t : Z) (available : Available) : option Z :=
  head (filter (λ k, t ≤ k) (bt_keys available)).

(** The outcome of choosing a timestamp: one is selected, none is left, or an
    unsigned subtraction panics. *)
Definition select_timestamp (t : Z) (available : Available) : option (option Z) :=
  match key_before t available, key_after t available with
  | Some before, Some after =>
      to_before ← sub_u64 t before;
      to_after ← sub_u64 after t;
      Some (Some (if to_before <? to_after then before else after))
  | Some timestamp, None | None, Some timestamp => Some (Some timestamp)
  | None, None => Some None
  end.

(** [u64::abs_diff]. *)
Definition abs_diff (a b : Z) : Z := Z.abs (a - b).

(** The loop over the starts: pairs, unmatched starts, whether the limit was
    reached, and what is still available.  [None] is a panic: an [expect] that
    fails or a subtraction below zero. *)
Fixpoint nearest_loop (limit : Z) (starts : list Event) (available : Available)
    (pairs : list Pair) : option (list Pair * Z * bool * Available) :=
  match starts with
  | [] => Some (pairs, 0, false, available)
  | start :: starts' =>
      if len pairs =? limit then Some (pairs, 0, true, available) else
      selected ← select_timestamp (ev_timestamp_ns start) available;
      match selected with
      | None => Some (pairs, len starts, false, available)
      | Some selected =>
          bucket ← bt_get selected available;
          finish ← last bucket;
          let bucket := removelast bucket in
          let available := bt_insert selected bucket available in
          let pairs :=
            pairs ++ [BuildPair start finish (abs_diff selected (ev_timestamp_ns start))] in
          let available :=
            match bucket with [] => bt_remove selected available | _ => available end in
          nearest_loop limit starts' available pairs
      end
  end.

Definition correlate_nearest (starts ends : list Event) (limit : option Z) :
    option Outcome :=
  let limit := default usize_max limit in
  let available := foldl (λ m finish, bt_push (ev_timestamp_ns finish) finish m) [] ends in
  '(pairs, unmatched_start, reached_limit, available) ←
    nearest_loop limit starts available [];
  Some (BuildOutcome pairs unmatched_start
    (if (reached_limit : bool) then 0 else group_lengths available) 0).

(** ** Specification

    [nearest_run starts pool pairs rest]: the starts in order take ends out of
    the pool; the end taken is at minimal distance, of two equally distant
    timestamps the later one, and of several ends with that timestamp the last
    one. *)
Definition distance (start finish : Event) : Z :=
  abs_diff (ev_timestamp_ns finish) (ev_timestamp_ns start).

Definition nearest_choice (start finish : Event) (before after : list Event) : Prop :=
  let pool := before ++ finish :: after in
  Forall (λ e, distance start finish ≤ distance start e) pool
  ∧ Forall (λ e, distance start finish = distance start e →
                 ev_timestamp_ns e ≤ ev_timestamp_ns finish) pool
  ∧ Forall (λ e, ev_timestamp_ns e ≠ ev_timestamp_ns finish) after.

Inductive nearest_run : list Event → list Event → list Pair → list Event → Prop :=
| nearest_done pool : nearest_run [] pool [] pool
| nearest_take start starts before finish after pairs rest :
    nearest_choice start finish before after →
    nearest_run starts (before ++ after) pairs rest →
    nearest_run (start :: starts) (before ++ finish :: after)
      (BuildPair start finish (distance start finish) :: pairs) rest.

(** ** The map of available ends *)

(** The map stores the pool: under each timestamp the ends of that time, no
    empty bucket. *)
Definition at_time (t : Z) (pool : list Event) : list Event :=
  filter (λ e, ev_timestamp_ns e = t) pool.
Definition represents (m : Available) (pool : list Event) : Prop :=
  bt_wf m
  ∧ ∀ t, bt_get t m = match at_time t pool with [] => None | b => Some b end.

Lemma available_group ends :
  foldl (λ m finish, bt_push (ev_timestamp_ns finish) finish m) [] ends
  = bt_group (λ e, Some (ev_timestamp_ns e)) ends.
Proof. done. Qed.
Lemma at_time_some t pool :
  filter (λ e, Some (ev_timestamp_ns e) = Some t) pool = at_time t pool.
Proof. apply list_filter_iff. intros e. split; congruence. Qed.

Lemma represents_group ends : represents (bt_group (λ e, Some (ev_timestamp_ns e)) ends) ends.
Proof.
  split; [apply bt_group_wf|]. intros t.
  pose proof (bt_group_get (λ e, Some (ev_timestamp_ns e)) ends t) as Hg.
  rewrite at_time_some in Hg.
  destruct (bt_get t _) as [g|] eqn:E.
  - apply bt_group_get_Some in E as [-> Hne]. rewrite at_time_some in *.
    by destruct (at_time t ends).
  - simpl in Hg. by rewrite <-Hg.
Qed.
Lemma represents_key m pool t :
  represents m pool → t ∈ bt_keys m ↔ ∃ e, e ∈ pool ∧ ev_timestamp_ns e = t.
Proof.
  intros [Hwf Hget]. specialize (Hget t). split.
  - intros Hin. destruct (bt_get t m) as [b|] eqn:E; [|by destruct (bt_get_None_keys t m Hwf E)].
    destruct (at_time t pool) as [|e b'] eqn:Eb; [done|].
    assert (e ∈ at_time t pool) as He by (rewrite Eb; by left).
    apply list_elem_of_filter in He as [??]. eauto.
  - intros (e & He & Ht). destruct (at_time t pool) as [|e' b'] eqn:Eb.
    + assert (e ∈ at_time t pool) as Hin by (by apply list_elem_of_filter).
      rewrite Eb in Hin. by apply elem_of_nil in Hin.
    + apply bt_get_elem in Hget; [|done]. apply list_elem_of_fmap. eexists (t, _). done.
Qed.
Lemma keys_sorted (m : Available) : bt_wf m → StronglySorted Z.lt (bt_keys m).
Proof. intros Hwf. eapply StronglySorted_impl; [|exact Hwf]. intros x y. apply Z.compare_lt_iff. Qed.

Lemma filter_sorted (P : Z → Prop) `{∀ x, Decision (P x)} l :
  StronglySorted Z.lt l → StronglySorted Z.lt (filter P l).
Proof.
  induction 1 as [|x l Hl IH Hx]; [constructor|]. rewrite filter_cons.
  case_decide; [|done]. constructor; [done|]. rewrite Forall_forall in *.
  intros y [_ Hy]%list_elem_of_filter. auto.
Qed.
Lemma last_greatest l x : StronglySorted Z.lt l → last l = Some x → Forall (λ y, y ≤ x) l.
Proof.
  intros Hs (l' & ->)%last_Some. apply Forall_forall. intros y [Hy|Hy]%elem_of_app.
  - assert (y < x); [|lia]. eapply StronglySorted_app_1_elem_of; [done..|by left].
  - apply list_elem_of_singleton in Hy. lia.
Qed.
Lemma head_least l x : StronglySorted Z.lt l → head l = Some x → Forall (λ y, x ≤ y) l.
Proof.
  intros [|y l' Hl Hy]; [done|]. intros [= ->]. constructor; [lia|].
  eapply Forall_impl; [exact Hy|]. lia.
Qed.

Lemma key_before_spec t m :
  bt_wf m →
  match key_before t m with
  | Some b => b ∈ bt_keys m ∧ b ≤ t ∧ ∀ k, k ∈ bt_keys m → k ≤ t → k ≤ b
  | None => ∀ k, k ∈ bt_keys m → t < k
  end.
Proof.
  intros Hs%keys_sorted. unfold key_before.
  destruct (last _) as [b|] eqn:E.
  - pose proof (last_greatest _ _ (filter_sorted (λ k, k ≤ t) _ Hs) E) as Hg.
    apply last_Some in E as (l' & E).
    assert (b ∈ filter (λ k, k ≤ t) (bt_keys m)) as [Hb Hin]%list_elem_of_filter.
    { rewrite E. apply elem_of_app. right. by left. }
    split; [done|]. split; [done|]. intros k Hk Hle. rewrite Forall_forall in Hg.
    apply Hg, list_elem_of_filter. done.
  - apply last_None in E. intros k Hk. destruct (Z.le_gt_cases k t); [exfalso|lia].
    eapply elem_of_nil. rewrite <-E. by apply list_elem_of_filter.
Qed.
Lemma key_after_spec t m :
  bt_wf m →
  match key_after t m with
  | Some a => a ∈ bt_keys m ∧ t ≤ a ∧ ∀ k, k ∈ bt_keys m → t ≤ k → a ≤ k
  | None => ∀ k, k ∈ bt_keys m → k < t
  end.
Proof.
  intros Hs%keys_sorted. unfold key_after.
  destruct (head _) as [a|] eqn:E.
  - pose proof (head_least _ _ (filter_sorted (λ k, t ≤ k) _ Hs) E) as Hg.
    apply head_Some in E as (l' & E).
    assert (a ∈ filter (λ k, t ≤ k) (bt_keys m)) as [Ha Hin]%list_elem_of_filter.
    { rewrite E. by left. }
    split; [done|]. split; [done|]. intros k Hk Hle. rewrite Forall_forall in Hg.
    apply Hg, list_elem_of_filter. done.
  - apply head_None in E. intros k Hk. destruct (Z.le_gt_cases t k); [exfalso|lia].
    eapply elem_of_nil. rewrite <-E. by apply list_elem_of_filter.
Qed.

(** Selection never panics; it finds nothing only in an empty map, and otherwise
    the key at minimal distance, the later of two. *)
Lemma select_timestamp_spec t m :
  bt_wf m →
  (m = [] ∧ select_timestamp t m = Some None)
  ∨ ∃ k, select_timestamp t m = Some (Some k) ∧ k ∈ bt_keys m
      ∧ ∀ k', k' ∈ bt_keys m →
          abs_diff k t ≤ abs_diff k' t ∧ (abs_diff k t = abs_diff k' t → k' ≤ k).
Proof.
  intros Hwf. pose proof (key_before_spec t m Hwf) as Hb.
  pose proof (key_after_spec t m Hwf) as Ha.
  unfold select_timestamp, sub_u64, checked_sub_u64, abs_diff.
  destruct (key_before t m) as [b|], (key_after t m) as [a|].
  - destruct Hb as (Hb & Hbt & Hbmax), Ha as (Ha & Hta & Hamin). right.
    rewrite !(proj2 (Z.leb_le _ _)) by lia. simpl.
    exists (if t - b <? a - t then b else a). split; [done|].
    split; [by destruct (_ <? _)|]. intros k' Hk'.
    specialize (Hbmax k' Hk'). specialize (Hamin k' Hk').
    destruct (Z.ltb_spec (t - b) (a - t)); lia.
  - destruct Hb as (Hb & Hbt & Hbmax). right. exists b. split; [done|]. split; [done|].
    intros k' Hk'. specialize (Ha k' Hk'). specialize (Hbmax k' Hk'). lia.
  - destruct Ha as (Ha & Hta & Hamin). right. exists a. split; [done|]. split; [done|].
    intros k' Hk'. specialize (Hb k' Hk'). specialize (Hamin k' Hk'). lia.
  - left. split; [|done]. destruct m as [|[k v] m]; [done|]. exfalso.
    specialize (Ha k (list_elem_of_here _ _)). specialize (Hb k (list_elem_of_here _ _)). lia.
Qed.

(** ** Popping from a bucket *)
Lemma at_time_app t l k : at_time t (l ++ k) = at_time t l ++ at_time t k.
Proof. apply filter_app. Qed.

Lemma at_time_pop t pool b e :
  at_time t pool = b ++ [e] →
  ∃ before after, pool = before ++ e :: after ∧ ev_timestamp_ns e = t
    ∧ Forall (λ x, ev_timestamp_ns x ≠ t) after ∧ at_time t before = b.
Proof.
  induction pool as [|x pool IH] using rev_ind.
  { intros E. by destruct b. }
  rewrite at_time_app. unfold at_time at 2. rewrite filter_cons, filter_nil. case_decide.
  - intros [<- [= <-]]%app_inj_tail. exists pool, []. done.
  - rewrite app_nil_r. intros (before & after & -> & Ht & Ha & Hb)%IH.
    exists before, (after ++ [x]). split; [by rewrite <-app_assoc|]. split; [done|].
    split; [|done]. apply Forall_app. by repeat constructor.
Qed.

(** The map after the pop stores the pool without the end taken. *)
Lemma represents_pop m before e after b :
  represents m (before ++ e :: after) → at_time (ev_timestamp_ns e) before = b →
  Forall (λ x, ev_timestamp_ns x ≠ ev_timestamp_ns e) after →
  let m' := bt_insert (ev_timestamp_ns e) b m in
  represents (match b with [] => bt_remove (ev_timestamp_ns e) m' | _ => m' end)
    (before ++ after).
Proof.
  intros [Hwf Hget] Hb Ha. cbv zeta.
  assert (at_time (ev_timestamp_ns e) after = []) as Hafter.
  { apply filter_none. intros x Hx. by eapply Forall_forall in Ha. }
  assert (bt_wf (bt_insert (ev_timestamp_ns e) b m)) as Hwf' by by apply bt_wf_insert.
  assert (∀ t, t ≠ ev_timestamp_ns e →
    at_time t (before ++ e :: after) = at_time t (before ++ after)) as Hne.
  { intros t Ht. rewrite !at_time_app. f_equal. unfold at_time. by rewrite filter_cons, decide_False by congruence. }
  split; [destruct b; auto using bt_wf_remove|]. intros t.
  destruct (decide (t = ev_timestamp_ns e)) as [->|Ht].
  - rewrite at_time_app, Hafter, app_nil_r, Hb.
    destruct b; [by apply bt_get_remove_eq|apply bt_get_insert_eq].
  - rewrite <-Hne, <-Hget by done.
    destruct b; rewrite ?bt_get_remove_ne by done; by rewrite bt_get_insert_ne by done.
Qed.

Lemma represents_len m pool : represents m pool → group_lengths m = len pool.
Proof.
  intros [Hwf Hget]. destruct (represents_group pool) as [Hwf' Hget'].
  replace m with (bt_group (λ e, Some (ev_timestamp_ns e)) pool).
  - rewrite group_lengths_concat, (len_perm _ _ (bt_group_concat _ _)).
    rewrite filter_all; [done|]. eauto.
  - apply bt_ext; [done..|]. intros k. by rewrite Hget, Hget'.
Qed.

(** ** One iteration *)
Lemma nearest_select m pool s :
  represents m pool →
  (pool = [] ∧ select_timestamp (ev_timestamp_ns s) m = Some None)
  ∨ ∃ before e after, pool = before ++ e :: after
      ∧ select_timestamp (ev_timestamp_ns s) m = Some (Some (ev_timestamp_ns e))
      ∧ bt_get (ev_timestamp_ns e) m = Some (at_time (ev_timestamp_ns e) before ++ [e])
      ∧ nearest_choice s e before after.
Proof.
  intros Hrep. pose proof Hrep as [Hwf Hget].
  destruct (select_timestamp_spec (ev_timestamp_ns s) m Hwf)
    as [[-> Hsel]|(k & Hsel & Hk & Hmin)].
  { left. split; [|done]. destruct pool as [|x pool]; [done|].
    assert (ev_timestamp_ns x ∈ bt_keys (V := list Event) []) as Hx.
    { apply (represents_key _ (x :: pool)); [done|]. exists x. split; [by left|done]. }
    by apply elem_of_nil in Hx. }
  right. assert (∃ b, bt_get k m = Some b) as [b Hb].
  { destruct (bt_get k m) eqn:E; [by eexists|]. by destruct (bt_get_None_keys k m Hwf E). }
  pose proof (Hget k) as Hbk. rewrite Hb in Hbk.
  destruct (at_time k pool) as [|x b'] eqn:Eat; [done|]. injection Hbk as ->.
  destruct (exists_last (l := x :: b')) as (b0 & e & Heq); [done|]. rewrite Heq in *.
  destruct (at_time_pop _ _ _ _ Eat) as (before & after & -> & <- & Hafter & <-).
  exists before, e, after. split_and!; [done..|]. unfold nearest_choice, distance.
  split; [|split; [|done]]; apply Forall_forall; intros y Hy; apply Hmin;
    (eapply represents_key; [done|]; eauto).
Qed.

Lemma nearest_loop_spec limit starts m pool pairs :
  represents m pool → len pairs ≤ limit →
  ∃ new us reached m' rest,
    nearest_loop limit starts m pairs = Some (pairs ++ new, us, reached, m')
    ∧ nearest_run (take (length new) starts) pool new rest ∧ represents m' rest
    ∧ len new = Z.min (limit - len pairs) (Z.min (len starts) (len pool))
    ∧ us = (if (reached : bool) then 0 else len starts - len new)
    ∧ (reached = true ↔ limit - len pairs < len starts ∧ limit - len pairs ≤ len pool).
Proof.
  revert m pool pairs. induction starts as [|s starts IH]; intros m pool pairs Hrep Hle; simpl.
  { exists [], 0, false, m, pool. rewrite app_nil_r. pose proof (len_nonneg pool).
    change (@len Event []) with 0. change (@len Pair []) with 0.
    split_and!; [done|constructor|done|lia|lia|split; [done|lia]]. }
  destruct (Z.eqb_spec (len pairs) limit) as [El|El].
  { exists [], 0, true, m, pool. rewrite app_nil_r. pose proof (len_nonneg pool).
    pose proof (len_nonneg (s :: starts)). rewrite len_cons in *. pose proof (len_nonneg starts).
    change (@len Pair []) with 0. split_and!; [done|constructor|done|lia|lia|].
    split; [lia|done]. }
  destruct (nearest_select m pool s Hrep)
    as [[-> ->]|(before & e & after & -> & -> & Hget & Hchoice)].
  { exists [], (len (s :: starts)), false, m, []. rewrite app_nil_r.
    pose proof (len_nonneg (s :: starts)). change (@len Event []) with 0.
    change (@len Pair []) with 0. split_and!; [done|constructor|done|lia|lia|].
    split; [done|lia]. }
  unfold mbind, option_bind. rewrite Hget, last_snoc, removelast_last.
  pose proof (represents_pop m before e after _ Hrep eq_refl (proj2 (proj2 Hchoice))) as Hrep'.
  cbv zeta in Hrep'.
  destruct (IH _ _ (pairs ++ [BuildPair s e (distance s e)]) Hrep')
    as (new & us & reached & m' & rest & Hrun & Hspec & Hrest & Hlen & Hus & Hreach).
  { rewrite len_app, len_singleton. lia. }
  exists (BuildPair s e (distance s e) :: new), us, reached, m', rest.
  rewrite ?len_app, ?len_cons in *. change (@len Pair []) with 0 in *.
  split; [by rewrite <-app_assoc in Hrun|]. split; [by constructor|].
  split_and!; [done|lia|destruct reached; lia|].
  rewrite Hreach. lia.
Qed.

(** What a run of the specification implies. *)
Lemma nearest_run_sound starts pool pairs rest :
  nearest_run starts pool pairs rest →
  pair_start <$> pairs = starts ∧ (pair_end <$> pairs) ++ rest ≡ₚ pool
  ∧ Forall (λ p, pair_latency_ns p = distance (pair_start p) (pair_end p)) pairs.
Proof.
  induction 1 as [|s starts before e after pairs rest Hc Hr (IH1 & IH2 & IH3)]; [done|].
  rewrite !fmap_cons, IH1, <-app_comm_cons, IH2.
  split; [done|]. split; [apply Permutation_middle|by constructor].
Qed.

#[global] Instance nearest_correlator : Correlator pair_distance correlate_nearest.
Proof.
  intros starts ends limit Hlimit. pose proof (limit_wf_default _ Hlimit) as Hmax.
  unfold correlate_nearest. rewrite available_group.
  destruct (nearest_loop_spec (default usize_max limit) starts _ ends []
              (represents_group ends) Hmax)
    as (new & us & reached & m' & rest & -> & Hrun & Hrest & Hlen & Hus & _).
  simpl. change (len []) with 0 in *. rewrite Z.sub_0_r in *.
  destruct (nearest_run_sound _ _ _ _ Hrun) as (Hst & Hperm & Hlat).
  rewrite (represents_len _ _ Hrest). pose proof (len_nonneg rest).
  pose proof (len_perm _ _ Hperm) as Hsum. rewrite len_app, len_fmap in Hsum.
  eexists. split; [done|]. split; simpl; [|done| | | |done|].
  - split; [rewrite Hst; apply submseteq_take|].
    etrans; [|apply Permutation_submseteq, Hperm]. by apply submseteq_inserts_r.
  - intros n ->. simpl in Hlen. lia.
  - destruct reached; lia.
  - destruct reached; lia.
  - pose proof (len_nonneg starts). pose proof (len_nonneg ends). destruct reached; lia.
Qed.

(** C12: [correlate_nearest] never panics and implements the nearest matching:
    the starts in order take the closest end that is still available, the later
    of two at equal distance and the last of several at the same time.  It
    reports min(limit, starts, ends) pairs, uses every end at most once, records
    the distance as the latency, and counts every event unless a start is left
    when the limit is reached, in which case it counts none. *)
Theorem nearest_refines (starts ends : list Event) (limit : option Z)
    (Hlimit : 0 ≤ default usize_max limit) :
  let max := default usize_max limit in
  ∃ out rest, correlate_nearest starts ends limit = Some out
    ∧ nearest_run (take (length (out_pairs out)) starts) ends (out_pairs out) rest
    ∧ (pair_end <$> out_pairs out) ++ rest ≡ₚ ends
    ∧ Forall (λ p, pair_latency_ns p = distance (pair_start p) (pair_end p)) (out_pairs out)
    ∧ len (out_pairs out) = Z.min max (Z.min (len starts) (len ends))
    ∧ (len starts ≤ max ∨ len ends < max → accounted out starts ends)
    ∧ (max < len starts ∧ max ≤ len ends →
       out_unmatched_start out = 0 ∧ out_unmatched_end out = 0).
Proof.
  cbv zeta. unfold correlate_nearest. rewrite available_group.
  destruct (nearest_loop_spec (default usize_max limit) starts _ ends []
              (represents_group ends) Hlimit)
    as (new & us & reached & m' & rest & -> & Hrun & Hrest & Hlen & Hus & Hreach).
  simpl. change (len []) with 0 in *. rewrite Z.sub_0_r in *.
  eexists _, rest. split; [done|]. simpl.
  destruct (nearest_run_sound _ _ _ _ Hrun) as (_ & Hperm & Hlat).
  split_and!; try done.
  - unfold accounted. simpl. intros Hc.
    assert (reached = false) as -> by (apply not_true_is_false; rewrite Hreach; lia).
    rewrite (represents_len _ _ Hrest). apply len_perm in Hperm.
    rewrite len_app, len_fmap in Hperm. lia.
  - intros Hc%Hreach. by rewrite Hc in *.
Qed.
End nearest.
