(* ===== verification/StackNested.v ===== *)
(** * Stack-nested correlation

    [correlate_stack_nested] of [xprobe/correlator/src/lib.rs]: entries and
    returns of host functions, matched last-in first-out per thread.

    The abstract specification is bracket matching: a return belongs to the
    entry it is separated from by a balanced stretch of the thread's timeline
    ([encloses]). *)
From S2P Require Import Prelude BTree RustString Protocol Correlate GroupPairs.
#[local] Open Scope Z_scope.

Section stack_nested.
Context `{SerdeJson}.

Definition stack_key (event : Event) : Z * Z := (ev_pid event, ev_tid event).

Record stack_state := BuildStack {
  st_stacks : btree (Z * Z) (list Event);
  st_pairs : list Pair;
  st_unmatched_end : Z }.

(** One iteration over the timeline; [None] is a subtraction below zero. *)
Definition stack_step (limit : Z) (st : stack_state) (x : entry) : option stack_state :=
  let '(BuildStack stacks pairs unmatched_end) := st in
  let event := entry_event x in
  let key := stack_key event in
  if entry_boundary x =? 0 then
    Some (BuildStack (bt_push key event stacks) pairs unmatched_end)
  else
    match bt_get key stacks with
    | Some stack =>
        match last stack with
        | Some start =>
            let stacks := bt_insert key (removelast stack) stacks in
            if len pairs <? limit then
              latency ← sub_u64 (ev_timestamp_ns event) (ev_timestamp_ns start);
              Some (BuildStack stacks (pairs ++ [BuildPair start event latency]) unmatched_end)
            else Some (BuildStack stacks pairs unmatched_end)
        | None => Some (BuildStack stacks pairs (unmatched_end + 1))
        end
    | None => Some (BuildStack stacks pairs (unmatched_end + 1))
    end.

Definition stack_run (limit : Z) (l : list entry) : option stack_state :=
  foldl (λ st x, st ← st; stack_step limit st x) (Some (BuildStack [] [] 0)) l.

Definition correlate_stack_nested (starts ends : list Event) (limit : option Z) :
    option Outcome :=
  let limit := default usize_max limit in
  st ← stack_run limit (timeline_by_boundary starts ends);
  Some (BuildOutcome (sort_pairs (st_pairs st)) (group_lengths (st_stacks st))
          (st_unmatched_end st) 0).

(** ** Specification *)

(** Balanced stretches of a single-thread timeline. *)
Inductive balanced : list entry → Prop :=
| balanced_nil : balanced []
| balanced_nest x l y k :
    is_start x → ¬ is_start y → balanced l → balanced k → balanced (x :: l ++ y :: k).

(** The entries of one thread. *)
Definition of_thread (k : Z * Z) (l : list entry) : list entry :=
  filter (λ x, stack_key (entry_event x) = k) l.

Definition encloses (l : list entry) (start finish : Event) : Prop :=
  ∃ k x y l1 m l2,
    of_thread k l = l1 ++ x :: m ++ y :: l2
    ∧ is_start x ∧ ¬ is_start y ∧ balanced m
    ∧ entry_event x = start ∧ entry_event y = finish.

(** The loop on one thread, without limit: the stack and the pairs. *)
Definition lifo_step (st : list Event * list Pair) (x : entry) : list Event * list Pair :=
  let '(stack, pairs) := st in
  if entry_boundary x =? 0 then (stack ++ [entry_event x], pairs)
  else
    match last stack with
    | Some start =>
        (removelast stack,
         pairs ++ [BuildPair start (entry_event x)
                     (ev_timestamp_ns (entry_event x) - ev_timestamp_ns start)])
    | None => (stack, pairs)
    end.
#[local] Arguments lifo_step : simpl never.
Definition lifo_run (st : list Event * list Pair) (l : list entry) : list Event * list Pair :=
  foldl lifo_step st l.

Lemma lifo_start stack pairs x :
  is_start x → lifo_step (stack, pairs) x = (stack ++ [entry_event x], pairs).
Proof. unfold is_start, lifo_step. intros ->. done. Qed.
Lemma lifo_end stack start pairs y :
  ¬ is_start y →
  lifo_step (stack ++ [start], pairs) y
  = (stack, pairs ++ [BuildPair start (entry_event y)
                        (ev_timestamp_ns (entry_event y) - ev_timestamp_ns start)]).
Proof.
  unfold is_start, lifo_step. intros Hy. destruct (Z.eqb_spec (entry_boundary y) 0); [done|].
  by rewrite last_snoc, removelast_last.
Qed.
Lemma lifo_end_empty pairs y : ¬ is_start y → lifo_step ([], pairs) y = ([], pairs).
Proof.
  unfold is_start, lifo_step. intros Hy. by destruct (Z.eqb_spec (entry_boundary y) 0).
Qed.

(** ** Completeness: a balanced stretch leaves the stack as it was *)
Lemma lifo_balanced m stack pairs :
  balanced m → ∃ new, lifo_run (stack, pairs) m = (stack, pairs ++ new).
Proof.
  intros Hm. revert stack pairs.
  induction Hm as [|x l y k Hx Hy Hl IHl Hk IHk]; intros stack pairs.
  { exists []. by rewrite app_nil_r. }
  unfold lifo_run in *. simpl. rewrite foldl_app, lifo_start by done.
  destruct (IHl (stack ++ [entry_event x]) pairs) as [new1 ->]. simpl.
  rewrite lifo_end by done. edestruct (IHk stack) as [new2 ->].
  eexists. rewrite <-!app_assoc. done.
Qed.
Lemma lifo_pairs_grow st l : ∃ new, (lifo_run st l).2 = st.2 ++ new.
Proof.
  unfold lifo_run. induction l as [|x l [new IH]] using rev_ind.
  { exists []. by rewrite app_nil_r. }
  rewrite foldl_snoc. destruct (foldl _ _ _) as [stack pairs]. simpl in *. subst.
  unfold lifo_step. destruct (_ =? 0); [by exists new|]. destruct (last stack); [|by exists new].
  eexists. by rewrite <-app_assoc.
Qed.
Lemma lifo_complete l1 x m y l2 :
  is_start x → ¬ is_start y → balanced m →
  BuildPair (entry_event x) (entry_event y)
    (ev_timestamp_ns (entry_event y) - ev_timestamp_ns (entry_event x))
  ∈ (lifo_run ([], []) (l1 ++ x :: m ++ y :: l2)).2.
Proof.
  intros Hx Hy Hm. unfold lifo_run. rewrite foldl_app. destruct (foldl _ _ l1) as [stack pairs].
  simpl. rewrite lifo_start, foldl_app by done.
  destruct (lifo_balanced m (stack ++ [entry_event x]) pairs Hm) as [new Hrun].
  unfold lifo_run in Hrun. rewrite Hrun. simpl. rewrite lifo_end by done.
  match goal with |- _ ∈ (foldl _ ?st _).2 =>
    destruct (lifo_pairs_grow st l2) as [new2 Hg] end.
  unfold lifo_run in Hg. rewrite Hg. apply elem_of_app. left. apply elem_of_app. right. by left.
Qed.

(** ** Soundness: what the stack says about the timeline walked so far *)
Lemma balanced_app l k : balanced l → balanced k → balanced (l ++ k).
Proof.
  intros Hl Hk. induction Hl as [|x l y k' Hx Hy Hl IHl Hk' IHk']; [done|]. simpl.
  rewrite <-app_assoc. simpl. by constructor.
Qed.

Inductive open_stack : list entry → list Event → Prop :=
| open_none l : open_stack l []
| open_push l stack x m :
    open_stack l stack → is_start x → balanced m →
    open_stack (l ++ x :: m) (stack ++ [entry_event x]).

Lemma open_stack_inv l stack s :
  open_stack l (stack ++ [s]) →
  ∃ l0 x m, l = l0 ++ x :: m ∧ is_start x ∧ balanced m ∧ entry_event x = s
    ∧ open_stack l0 stack.
Proof.
  intros Ho. inversion Ho as [l' Hl' E|l' stack' x m Ho' Hx Hm Hl' E]; subst.
  - symmetry in E. by apply app_nil in E as [_ ?].
  - apply app_inj_tail in E as [-> <-]. by exists l', x, m.
Qed.
Lemma open_stack_extend l stack m : open_stack l stack → balanced m → open_stack (l ++ m) stack.
Proof.
  intros Ho Hm. destruct Ho as [|l stack x m' Ho Hx Hm']; [constructor|].
  rewrite <-app_assoc. simpl. constructor; [done..|]. by apply balanced_app.
Qed.

(** A pair the reference reports is a matching couple of brackets. *)
Definition matched_in (l : list entry) (p : Pair) : Prop :=
  ∃ x y l1 m l2, l = l1 ++ x :: m ++ y :: l2
    ∧ is_start x ∧ ¬ is_start y ∧ balanced m
    ∧ p = BuildPair (entry_event x) (entry_event y)
            (ev_timestamp_ns (entry_event y) - ev_timestamp_ns (entry_event x)).
Lemma matched_in_snoc l p z : matched_in l p → matched_in (l ++ [z]) p.
Proof.
  intros (x & y & l1 & m & l2 & -> & Hx & Hy & Hm & Hp).
  exists x, y, l1, m, (l2 ++ [z]). split_and!; try done.
  rewrite <-!app_assoc. simpl. by rewrite <-app_assoc.
Qed.

Lemma lifo_sound l :
  let '(stack, pairs) := lifo_run ([], []) l in
  open_stack l stack ∧ Forall (matched_in l) pairs.
Proof.
  unfold lifo_run. induction l as [|z l IH] using rev_ind; [by split; constructor|].
  rewrite foldl_snoc. destruct (foldl _ _ l) as [stack pairs]. destruct IH as [Ho Hp].
  assert (Forall (matched_in (l ++ [z])) pairs) as Hp'.
  { eapply Forall_impl; [exact Hp|]. intros p. apply matched_in_snoc. }
  destruct (decide (is_start z)) as [Hz|Hz].
  { rewrite lifo_start by done. split; [|done]. by apply open_push; [|done|constructor]. }
  destruct stack as [|s stack _] using rev_ind.
  { rewrite lifo_end_empty by done. split; [constructor|done]. }
  rewrite lifo_end by done.
  apply open_stack_inv in Ho as (l0 & x & m & -> & Hx & Hm & <- & Ho). split.
  - rewrite <-app_assoc. apply open_stack_extend; [done|]. simpl.
    apply balanced_nest; [done..|constructor].
  - apply Forall_app. split; [done|]. constructor; [|constructor].
    exists x, z, l0, m, []. split_and!; try done. by rewrite <-app_assoc.
Qed.

Lemma open_stack_elem l stack s :
  open_stack l stack → s ∈ stack → ∃ x, x ∈ l ∧ is_start x ∧ entry_event x = s.
Proof.
  induction 1 as [|l stack x m Ho IH Hx Hm]; [by intros ?%elem_of_nil|].
  intros [(z & Hz & ?)%IH| ->%list_elem_of_singleton]%elem_of_app.
  - exists z. split; [|done]. apply elem_of_app. by left.
  - exists x. split; [|done]. apply elem_of_app. right. by left.
Qed.

(** ** The loop over all threads *)
Lemma of_thread_snoc k l x :
  of_thread k (l ++ [x]) =
  of_thread k l ++ (if decide (stack_key (entry_event x) = k) then [x] else []).
Proof. unfold of_thread. by rewrite filter_app, filter_cons, filter_nil. Qed.

(** [P] are the pairs in the order of their ends, whatever the limit. *)
Record stack_inv (limit : Z) (l : list entry) (P : list Pair) (st : stack_state) : Prop := {
  si_wf : bt_wf (st_stacks st);
  si_stack : ∀ k, default [] (bt_get k (st_stacks st)) = (lifo_run ([], []) (of_thread k l)).1;
  si_pairs : ∀ k, filter (λ p, stack_key (pair_start p) = k) P
                  = (lifo_run ([], []) (of_thread k l)).2;
  si_limit : st_pairs st = take (Z.to_nat limit) P;
  si_starts : start_events l ≡ₚ (pair_start <$> P) ++ bt_concat (st_stacks st);
  si_ends : ∃ unmatched, end_events l ≡ₚ (pair_end <$> P) ++ unmatched
              ∧ len unmatched = st_unmatched_end st;
  si_forward : Forall pair_forward P }.

Lemma stack_key_of_stack k l s :
  s ∈ (lifo_run ([], []) (of_thread k l)).1 → stack_key s = k ∧ s ∈ start_events l.
Proof.
  pose proof (lifo_sound (of_thread k l)) as Hs.
  destruct (lifo_run _ _) as [stack pairs]. destruct Hs as [Ho _].
  intros (x & Hx & Hst & <-)%(open_stack_elem _ _ _ Ho).
  apply list_elem_of_filter in Hx as [Hk Hx]. split; [done|].
  apply list_elem_of_fmap. exists x. split; [done|]. by apply list_elem_of_filter.
Qed.

(** The entries walked so far are not later than the next one. *)
Lemma timeline_snoc_le l x s :
  timeline_wf (l ++ [x]) → s ∈ start_events l →
  ev_timestamp_ns s ≤ ev_timestamp_ns (entry_event x).
Proof.
  intros [Hwf Hs] (z & -> & Hz)%list_elem_of_fmap. apply list_elem_of_filter in Hz as [_ Hz].
  assert (by_time z x) as Hle by (eapply StronglySorted_app_1_elem_of; [done..|by left]).
  apply Forall_app in Hwf as [Hwf Hx]. eapply Forall_forall in Hwf; [|exact Hz].
  apply Forall_cons in Hx as [[Ex _] _]. destruct Hwf as [Ez _]. by rewrite <-Ex, <-Ez.
Qed.

Lemma take_snoc_limit {A} (limit : Z) (P : list A) x :
  0 ≤ limit →
  take (Z.to_nat limit) (P ++ [x])
  = if len (take (Z.to_nat limit) P) <? limit then take (Z.to_nat limit) P ++ [x]
    else take (Z.to_nat limit) P.
Proof.
  intros Hl. destruct (Z.ltb_spec (len (take (Z.to_nat limit) P)) limit) as [Hlt|Hge];
    unfold len in *; rewrite length_take in *.
  - rewrite !take_ge; [done|lia|]. rewrite length_app. simpl. lia.
  - rewrite take_app_le by lia. done.
Qed.

(** Popping the stack of a thread. *)
Lemma pop_concat k stack s (m : btree (Z * Z) (list Event)) :
  bt_get k m = Some (stack ++ [s]) → bt_concat m ≡ₚ s :: bt_concat (bt_insert k stack m).
Proof.
  intros Hg. rewrite (bt_concat_perm _ _ (bt_insert_perm_Some _ _ _ _ Hg)).
  rewrite (bt_concat_remove _ _ _ Hg). unfold bt_concat at 2. simpl.
  rewrite <-app_assoc. simpl. by rewrite <-Permutation_middle.
Qed.

Lemma stack_inv_start limit l P st x :
  stack_inv limit l P st → is_start x →
  stack_inv limit (l ++ [x]) P
    (BuildStack (bt_push (stack_key (entry_event x)) (entry_event x) (st_stacks st))
       (st_pairs st) (st_unmatched_end st)).
Proof.
  intros [Hwf Hstack Hpairs Hlim Hstarts Hends Hfwd] Hx. split; simpl; [| | |done| | |done].
  - by apply bt_push_wf.
  - intros k. rewrite of_thread_snoc. unfold lifo_run in *. rewrite foldl_app.
    case_decide as Hk; simpl; [|rewrite bt_push_get_ne by congruence; by rewrite <-Hstack].
    subst k. rewrite bt_push_get_eq. simpl.
    destruct (foldl _ _ _) as [stack pairs] eqn:E. rewrite lifo_start by done. simpl.
    by rewrite Hstack, E.
  - intros k. rewrite of_thread_snoc. unfold lifo_run in *. rewrite foldl_app, Hpairs.
    case_decide; [|done]. simpl. destruct (foldl _ _ _) as [stack pairs].
    by rewrite lifo_start by done.
  - rewrite start_events_snoc, decide_True by done. rewrite bt_push_concat, Hstarts.
    rewrite <-app_assoc. f_equiv. by rewrite Permutation_app_comm.
  - rewrite end_events_snoc, decide_True by done. by rewrite app_nil_r.
Qed.

Lemma stack_inv_unmatched limit l P st x :
  stack_inv limit l P st → ¬ is_start x →
  default [] (bt_get (stack_key (entry_event x)) (st_stacks st)) = [] →
  stack_inv limit (l ++ [x]) P
    (BuildStack (st_stacks st) (st_pairs st) (st_unmatched_end st + 1)).
Proof.
  intros [Hwf Hstack Hpairs Hlim Hstarts Hends Hfwd] Hx Hempty.
  assert (∀ k, lifo_run ([], []) (of_thread k (l ++ [x])) = lifo_run ([], []) (of_thread k l))
    as Hsame.
  { intros k. rewrite of_thread_snoc. case_decide as Hk; [|by rewrite app_nil_r].
    subst k. rewrite Hstack in Hempty. unfold lifo_run in *. rewrite foldl_snoc.
    destruct (foldl _ _ _) as [stack pairs]. simpl in Hempty. subst stack.
    by rewrite lifo_end_empty by done. }
  split; simpl; try done.
  - intros k. by rewrite Hsame.
  - intros k. by rewrite Hsame.
  - rewrite start_events_snoc, decide_False by done. by rewrite app_nil_r.
  - destruct Hends as (u & Hu & Hlen). exists (u ++ [entry_event x]).
    rewrite end_events_snoc, decide_False, len_app, len_singleton by done.
    rewrite Hu, app_assoc. split; [done|lia].
Qed.

Lemma stack_inv_pop limit l P st x stack s :
  let k := stack_key (entry_event x) in
  let p := BuildPair s (entry_event x)
             (ev_timestamp_ns (entry_event x) - ev_timestamp_ns s) in
  0 ≤ limit → stack_inv limit l P st → ¬ is_start x → timeline_wf (l ++ [x]) →
  bt_get k (st_stacks st) = Some (stack ++ [s]) →
  stack_inv limit (l ++ [x]) (P ++ [p])
    (BuildStack (bt_insert k stack (st_stacks st))
       (if len (st_pairs st) <? limit then st_pairs st ++ [p] else st_pairs st)
       (st_unmatched_end st))
  ∧ ev_timestamp_ns s ≤ ev_timestamp_ns (entry_event x).
Proof.
  intros k p Hl [Hwf Hstack Hpairs Hlim Hstarts Hends Hfwd] Hx Htl Hget.
  assert ((lifo_run ([], []) (of_thread k l)).1 = stack ++ [s]) as Hk
    by (by rewrite <-Hstack, Hget).
  destruct (stack_key_of_stack k l s) as [Hks Hsl].
  { rewrite Hk. apply elem_of_app. right. by left. }
  pose proof (timeline_snoc_le _ _ _ Htl Hsl) as Hle.
  assert (∀ k', lifo_run ([], []) (of_thread k' (l ++ [x])) =
    if decide (k = k') then (stack, (lifo_run ([], []) (of_thread k' l)).2 ++ [p])
    else lifo_run ([], []) (of_thread k' l)) as Hrun.
  { intros k'. rewrite of_thread_snoc. fold k. case_decide as Hk'; [|by rewrite app_nil_r].
    subst k'. unfold lifo_run in *. rewrite foldl_snoc.
    destruct (foldl _ _ _) as [stack' pairs]. simpl in Hk. subst stack'.
    by rewrite lifo_end by done. }
  split; [|done]. split; simpl.
  - by apply bt_wf_insert.
  - intros k'. rewrite Hrun. case_decide as Hk'; [subst k'; by rewrite bt_get_insert_eq|].
    by rewrite bt_get_insert_ne by congruence.
  - intros k'. rewrite Hrun, filter_app, filter_cons, filter_nil. simpl. rewrite Hks, Hpairs.
    case_decide; [done|]. by rewrite app_nil_r.
  - by rewrite take_snoc_limit, Hlim.
  - rewrite start_events_snoc, decide_False by done. rewrite app_nil_r, Hstarts, fmap_app.
    rewrite (pop_concat _ _ _ _ Hget). by rewrite <-app_assoc.
  - destruct Hends as (u & Hu & Hlen). exists u. split; [|done].
    rewrite end_events_snoc, decide_False, fmap_app, Hu by done.
    rewrite <-!app_assoc. f_equiv. by rewrite Permutation_app_comm.
  - apply Forall_app. split; [done|]. constructor; [|constructor]. split; simpl; lia.
Qed.

Lemma stack_step_inv limit l P st x :
  0 ≤ limit → stack_inv limit l P st → timeline_wf (l ++ [x]) →
  ∃ P' st', stack_step limit st x = Some st' ∧ stack_inv limit (l ++ [x]) P' st'.
Proof.
  intros Hl Hinv Htl. destruct st as [stacks pairs ue]. unfold stack_step.
  destruct (Z.eqb_spec (entry_boundary x) 0) as [Hx|Hx].
  { eexists P, _. split; [done|]. by apply (stack_inv_start _ _ _ (BuildStack stacks pairs ue)). }
  destruct (bt_get _ stacks) as [stack|] eqn:Hget.
  - destruct stack as [|s stack _] using rev_ind.
    { eexists P, _. split; [done|]. apply (stack_inv_unmatched _ _ _ (BuildStack stacks pairs ue));
        [done..|]. simpl. by rewrite Hget. }
    rewrite last_snoc, removelast_last.
    destruct (stack_inv_pop limit l P (BuildStack stacks pairs ue) x stack s) as [Hinv' Hle];
      [done..|]. simpl in Hinv'. eexists _, _. split; [|exact Hinv'].
    unfold sub_u64, checked_sub_u64. rewrite (proj2 (Z.leb_le _ _)) by done. simpl.
    by destruct (_ <? _).
  - eexists P, _. split; [done|]. apply (stack_inv_unmatched _ _ _ (BuildStack stacks pairs ue));
      [done..|]. simpl. by rewrite Hget.
Qed.

Lemma stack_run_inv limit l :
  0 ≤ limit → timeline_wf l → ∃ P st, stack_run limit l = Some st ∧ stack_inv limit l P st.
Proof.
  intros Hl. unfold stack_run. induction l as [|x l IH] using rev_ind; intros Hwf.
  { exists [], (BuildStack [] [] 0). split; [done|]. split; simpl; try done.
    - apply bt_wf_nil.
    - by rewrite take_nil.
    - by exists []. }
  destruct IH as (P & st & Hrun & Hinv).
  { destruct Hwf as [Hwf Hs]. apply Forall_app in Hwf as [Hwf _]. split; [done|].
    by eapply StronglySorted_app_1_l. }
  rewrite foldl_snoc, Hrun. simpl. destruct (stack_step_inv limit l P st x) as (P' & st' & ? & ?);
    [done..|]. by exists P', st'.
Qed.

Lemma stack_pairs_encloses limit l P st s e :
  stack_inv limit l P st →
  BuildPair s e (ev_timestamp_ns e - ev_timestamp_ns s) ∈ P ↔ encloses l s e.
Proof.
  intros Hinv. pose proof (si_pairs _ _ _ _ Hinv) as Hpairs. split.
  - intros Hin. pose proof (lifo_sound (of_thread (stack_key s) l)) as Hs.
    destruct (lifo_run _ _) as [stack pairs] eqn:E. destruct Hs as [_ Hs].
    eapply Forall_forall in Hs.
    2: { specialize (Hpairs (stack_key s)). rewrite E in Hpairs. simpl in Hpairs.
         rewrite <-Hpairs. apply list_elem_of_filter. split; [|exact Hin]. done. }
    destruct Hs as (x & y & l1 & m & l2 & Hl & Hx & Hy & Hm & [= -> ->]).
    exists (stack_key (entry_event x)), x, y, l1, m, l2. done.
  - intros (k & x & y & l1 & m & l2 & Hl & Hx & Hy & Hm & <- & <-).
    pose proof (lifo_complete l1 x m y l2 Hx Hy Hm) as Hc. rewrite <-Hl, <-Hpairs in Hc.
    by apply list_elem_of_filter in Hc as [_ Hc].
Qed.

Lemma stack_nested_spec starts ends limit :
  0 ≤ default usize_max limit →
  ∃ P us ue,
    correlate_stack_nested starts ends limit
    = Some (BuildOutcome (sort_pairs (take (Z.to_nat (default usize_max limit)) P)) us ue 0)
    ∧ (∀ s e, BuildPair s e (ev_timestamp_ns e - ev_timestamp_ns s) ∈ P
              ↔ encloses (timeline_by_boundary starts ends) s e)
    ∧ pairs_from P starts ends ∧ Forall pair_forward P
    ∧ 0 ≤ us ∧ 0 ≤ ue ∧ len starts = len P + us ∧ len ends = len P + ue.
Proof.
  intros Hlimit.
  destruct (stack_run_inv (default usize_max limit) (timeline_by_boundary starts ends))
    as (P & st & Hrun & Hinv); [done|apply timeline_by_boundary_is_wf|].
  unfold correlate_stack_nested. rewrite Hrun. simpl. rewrite (si_limit _ _ _ _ Hinv).
  pose proof (si_starts _ _ _ _ Hinv) as Hs. destruct (si_ends _ _ _ _ Hinv) as (u & He & Hu).
  rewrite timeline_by_boundary_start_events in Hs.
  rewrite timeline_by_boundary_end_events in He.
  eexists P, _, _. split; [done|]. split; [intros s e; by eapply stack_pairs_encloses|].
  rewrite group_lengths_concat, <-Hu. split.
  { split; [rewrite Hs|rewrite He]; by apply submseteq_inserts_r. }
  split; [apply Hinv|]. split; [apply len_nonneg|]. split; [apply len_nonneg|].
  apply len_perm in Hs, He. rewrite len_app, len_fmap in *. done.
Qed.

#[global] Instance stack_nested_correlator : Correlator pair_forward correlate_stack_nested.
Proof.
  intros starts ends limit Hlimit. pose proof (limit_wf_default _ Hlimit) as Hmax.
  destruct (stack_nested_spec starts ends limit Hmax)
    as (P & us & ue & -> & _ & Hfrom & Hfwd & Hus & Hue & Hs & He).
  assert (sort_pairs (take (Z.to_nat (default usize_max limit)) P) ⊆+ P) as Hsub
    by (rewrite sort_pairs_perm; apply submseteq_take).
  eexists. split; [done|]. split; simpl; [| | |done|done|done|].
  - by eapply pairs_from_submseteq.
  - by eapply Forall_submseteq.
  - intros n ->. rewrite sort_pairs_len. by apply len_take_le.
  - apply len_submseteq in Hsub. pose proof (len_nonneg P). lia.
Qed.

(** C11: [correlate_stack_nested] never panics and computes bracket matching per
    thread: without regard to the limit, a start and an end are paired exactly
    when they are entry and return around a balanced stretch of their thread's
    timeline.  Pairs use every event at most once and go forward in time, every
    start and end is counted, and the limit keeps the pairs whose ends come
    first. *)
Theorem stack_nested_refines (starts ends : list Event) (limit : option Z)
    (Hlimit : 0 ≤ default usize_max limit) :
  ∃ P unmatched_start unmatched_end,
    correlate_stack_nested starts ends limit
    = Some (BuildOutcome (sort_pairs (take (Z.to_nat (default usize_max limit)) P))
              unmatched_start unmatched_end 0)
    ∧ (∀ s e, BuildPair s e (ev_timestamp_ns e - ev_timestamp_ns s) ∈ P
              ↔ encloses (timeline_by_boundary starts ends) s e)
    ∧ pairs_from P starts ends ∧ Forall pair_forward P
    ∧ len starts = len P + unmatched_start ∧ len ends = len P + unmatched_end.
Proof.
  destruct (stack_nested_spec starts ends limit Hlimit)
    as (P & us & ue & Hrun & Hiff & Hfrom & Hfwd & _ & _ & Hs & He).
  by exists P, us, ue.
Qed.
End stack_nested.
