(* ===== verification/Measure.v ===== *)
(** * Measurement

    [measure] of [xprobe/correlator/src/lib.rs] with the functions it calls:
    checking options and policy, clock domains, the duration window, choosing
    the correlator, latency statistics, warnings and the result. *)
From S2P Require Import Prelude BTree RustString Protocol Selector Correlate.
From S2P Require Import Lifecycle GroupPairs Exact Greedy Nearest StackNested.
#[local] Open Scope Z_scope.

Section measure.
Context `{SerdeJson, RegexEngine}.

(** [MeasureOptions]; a [Duration] is its number of nanoseconds. *)
Record MeasureOptions := BuildMeasureOptions {
  opt_session_id : string;
  opt_name : option string;
  opt_start_selector : string;
  opt_end_selector : string;
  opt_match_policy : MatchPolicy;
  opt_samples : option Z;
  opt_duration : option Z;
  opt_max_events : Z;
  opt_dropped_events : Z }.

Local Abbreviation limit_error reason := (Err (MeasureError.InvalidLimit reason)).

Definition validate_options (options : MeasureOptions) : res MeasureError unit :=
  if bool_decide (opt_samples options = None) && bool_decide (opt_duration options = None) then
    limit_error "at least one of samples or duration must be set"
  else if opt_samples options == Some 0 then
    limit_error "samples must be greater than zero"
  else if match opt_duration options with Some duration => duration =? 0 | None => false end then
    limit_error "duration must be greater than zero"
  else if opt_max_events options =? 0 then
    limit_error "max-events must be greater than zero"
  else if is_empty (opt_session_id options) then
    limit_error "session ID must not be empty"
  else Ok ().

Definition validate_policy (start finish : Selector) (policy : MatchPolicy) :
    res MeasureError unit :=
  let message :=
    match policy with
    | MatchPolicy.Exact =>
        if negb (supports_exact start finish)
        then Some "exact matching requires endpoints with a deterministic correlation key"
        else None
    | MatchPolicy.StackNested =>
        if negb (supports_stack_nested start finish)
        then Some "stack-nested requires entry and return selectors for the same host function"
        else None
    | MatchPolicy.StreamOrder =>
        if negb (is_gpu_activity start) || negb (is_gpu_activity finish)
        then Some "stream-order requires two GPU activity selectors"
        else None
    | _ => None
    end%string in
  match message with
  | Some message => Err (MeasureError.InvalidPolicy message)
  | None => Ok ()
  end.

(** ** Clock domains *)
Definition clock_group (domain : ClockDomain) : Z :=
  match domain with
  | ClockDomain.HostMonotonic | ClockDomain.CuptiNormalizedToHostMonotonic => 0
  | ClockDomain.Cupti => 1
  end.

(** The loop over the events after the first one. *)
Fixpoint clock_loop (first : ClockDomain) (has_normalized_cupti : bool) (events : list Event) :
    res MeasureError bool :=
  match events with
  | [] => Ok has_normalized_cupti
  | event :: events =>
      if negb (clock_group (ev_clock_domain event) =? clock_group first) then
        Err (MeasureError.ClockDomainsDiffer first (ev_clock_domain event))
      else
        clock_loop first
          (has_normalized_cupti
           || (ev_clock_domain event == ClockDomain.CuptiNormalizedToHostMonotonic)) events
  end.

Definition common_clock_domain (starts ends : list Event) : res MeasureError ClockDomain :=
  match starts ++ ends with
  | [] => Err MeasureError.NoMatchedSamples
  | first :: events =>
      has_normalized_cupti ←
        clock_loop (ev_clock_domain first)
          (ev_clock_domain first == ClockDomain.CuptiNormalizedToHostMonotonic) events;
      Ok (if clock_group (ev_clock_domain first) =? 1 then ClockDomain.Cupti
          else if (has_normalized_cupti : bool) then ClockDomain.CuptiNormalizedToHostMonotonic
          else ClockDomain.HostMonotonic)
  end.

(** ** The duration window *)

(** The smaller of the first timestamps of two lists. *)
Definition first_timestamp (starts ends : list Event) : option Z :=
  match ev_timestamp_ns <$> head starts, ev_timestamp_ns <$> head ends with
  | Some a, Some b => Some (Z.min a b)
  | Some a, None | None, Some a => Some a
  | None, None => None
  end.

Definition apply_duration_window (starts ends : list Event) (duration : option Z) :
    res MeasureError (list Event * list Event) :=
  match duration with
  | None => Ok (starts, ends)
  | Some duration =>
      match first_timestamp starts ends with
      | None => Ok (starts, ends)
      | Some first_timestamp =>
          duration_ns ← (if duration <=? u64_max then Ok duration
                         else limit_error "duration exceeds nanosecond range");
          end_timestamp ← ok_or (checked_add_u64 first_timestamp duration_ns)
            (MeasureError.InvalidLimit "duration window overflows timestamp range");
          Ok (filter (λ event, ev_timestamp_ns event ≤ end_timestamp) starts,
              filter (λ event, ev_timestamp_ns event ≤ end_timestamp) ends)
      end
  end.

(** ** Choosing the correlator *)
Record LifecycleKinds := BuildLifecycleKinds {
  lk_syscall : bool;
  lk_nvtx : bool;
  lk_python_gc : bool }.

Definition correlate_selected (starts ends : list Event) (policy : MatchPolicy)
    (limit : option Z) (lifecycles : LifecycleKinds) : option Outcome :=
  match policy with
  | MatchPolicy.Exact =>
      if lk_syscall lifecycles || lk_python_gc lifecycles then
        Some (correlate_thread_lifecycle starts ends limit)
      else if lk_nvtx lifecycles then Some (correlate_nvtx_lifecycle starts ends limit)
      else Some (correlate_exact starts ends limit)
  | MatchPolicy.FirstAfter => correlate_first_after starts ends limit
  | MatchPolicy.Nearest => correlate_nearest starts ends limit
  | MatchPolicy.StackNested => correlate_stack_nested starts ends limit
  | MatchPolicy.StreamOrder => correlate_stream_order starts ends limit
  end.

Definition correlation_metadata (policy : MatchPolicy) (lifecycles : LifecycleKinds) :
    string * CorrelationConfidence :=
  match policy with
  | MatchPolicy.Exact =>
      if lk_syscall lifecycles then
        ("exact_syscall_tid_lifecycle"%string, CorrelationConfidence.Exact)
      else if lk_nvtx lifecycles then
        ("exact_nvtx_range_id"%string, CorrelationConfidence.Exact)
      else if lk_python_gc lifecycles then
        ("exact_python_gc_tid_lifecycle"%string, CorrelationConfidence.Exact)
      else ("exact_cupti_correlation_id"%string, CorrelationConfidence.Exact)
  | MatchPolicy.FirstAfter => ("first_after"%string, CorrelationConfidence.Heuristic)
  | MatchPolicy.Nearest => ("nearest"%string, CorrelationConfidence.Heuristic)
  | MatchPolicy.StackNested => ("stack_nested_tid_lifo"%string, CorrelationConfidence.High)
  | MatchPolicy.StreamOrder => ("cuda_stream_order"%string, CorrelationConfidence.High)
  end.

(** ** Statistics *)
Definition ratio (numerator denominator : Z) : f64 :=
  f64_div (f64_of_int numerator) (f64_of_int denominator).
Definition mean (sum count : Z) : f64 := f64_div (f64_of_int sum) (f64_of_int count).

(** [None] is a panic: the product overflows or the index is out of range. *)
Definition percentile (sorted : list Z) (percentile : Z) : option Z :=
  product ← checked_mul_u64 percentile (len sorted);
  let rank := div_ceil product 100 in
  get_z sorted (saturating_sub rank 1).

Definition statistics (values : list Z) : option LatencyStatistics :=
  let sorted := sort_by_key id values in
  let sum := foldl Z.add 0 sorted in
  min ← get_z sorted 0;
  p50 ← percentile sorted 50;
  p90 ← percentile sorted 90;
  p95 ← percentile sorted 95;
  p99 ← percentile sorted 99;
  max ← last sorted;
  Some (BuildLatencyStatistics min (mean sum (len sorted)) p50 p90 p95 p99 max).

(** The error [maximum_timestamp_error] attributes to an event. *)
Definition timestamp_error (event : Event) : option Z :=
  if ev_clock_domain event == ClockDomain.CuptiNormalizedToHostMonotonic
  then ev_timestamp_error_ns event
  else Some (default 0 (ev_timestamp_error_ns event)).

Definition maximum_timestamp_error (pairs : list Pair) : option Z :=
  foldl (λ maximum error, maximum ← maximum; error ← error; Some (Z.max maximum error))
    (Some 0)
    (map timestamp_error (concat (map (λ pair, [pair_start pair; pair_end pair]) pairs))).

(** ** Warnings and counts *)
Definition warning (code message : string) : Warning := BuildWarning code message [].

Definition measurement_warnings (options : MeasureOptions) (starts ends : list Event) :
    list Warning :=
  (if (opt_match_policy options == MatchPolicy.FirstAfter)
      || (opt_match_policy options == MatchPolicy.Nearest)
   then [warning "HEURISTIC_CORRELATION"
           "temporal matching does not prove request-level causality"] else [])
  ++ (if existsb (λ event,
            (ev_clock_domain event == ClockDomain.CuptiNormalizedToHostMonotonic)
            && bool_decide (ev_timestamp_error_ns event = None)) (starts ++ ends)
      then [warning "CLOCK_ERROR_UNAVAILABLE"
              "CUPTI does not report an error bound for GPU-to-host timestamp interpolation"]
      else []).

Definition collection_event_counts (events : list Event) : Z * Z :=
  let host := len (filter (λ event, ev_source event = EventSource.Ebpf) events) in
  (host, len events - host).

(** ** The measurement *)
Record correlated := BuildCorrelated {
  cr_starts : list Event;
  cr_ends : list Event;
  cr_clock_domain : ClockDomain;
  cr_lifecycles : LifecycleKinds;
  cr_outcome : Outcome }.

(** The events a selector selects, in time order. *)
Definition select (selector : Selector) (events : list Event) : list Event :=
  sort_by_key ev_timestamp_ns (filter (λ event, selector_matches selector event = true) events).

Definition lifecycle_kinds (start finish : Selector) : LifecycleKinds :=
  BuildLifecycleKinds (is_syscall_lifecycle start finish) (is_nvtx_lifecycle start finish)
    (is_python_gc_lifecycle start finish).

(** [measure] up to the check that some pair was found. *)
Definition measure_correlate (events : list Event) (options : MeasureOptions) :
    res MeasureError correlated :=
  _ ← validate_options options;
  if opt_max_events options <? len events then
    Err (MeasureError.EventLimitExceeded (len events) (opt_max_events options))
  else if negb (opt_dropped_events options =? 0) then
    Err (MeasureError.EventsDropped (opt_dropped_events options))
  else
    start_selector ← selector_parse (opt_start_selector options);
    end_selector ← selector_parse (opt_end_selector options);
    _ ← validate_policy start_selector end_selector (opt_match_policy options);
    let starts := select start_selector events in
    let ends := select end_selector events in
    clock_domain ← common_clock_domain starts ends;
    '(starts, ends) ← apply_duration_window starts ends (opt_duration options);
    let lifecycles := lifecycle_kinds start_selector end_selector in
    outcome ← or_panic
      (correlate_selected starts ends (opt_match_policy options) (opt_samples options)
         lifecycles);
    match out_pairs outcome with
    | [] => Err MeasureError.NoMatchedSamples
    | _ => Ok (BuildCorrelated starts ends clock_domain lifecycles outcome)
    end.

Definition alignment (clock_domain : ClockDomain) : string :=
  match clock_domain with
  | ClockDomain.HostMonotonic => "host_monotonic"
  | ClockDomain.Cupti => "cupti_same_domain"
  | ClockDomain.CuptiNormalizedToHostMonotonic => "cupti_normalized_to_host_monotonic"
  end.

(** [matched + outcome.unmatched_start + outcome.unmatched_end + outcome.ambiguous]
    with the overflow checks of [u64]. *)
Definition denominator (outcome : Outcome) : option Z :=
  sum ← checked_add_u64 (len (out_pairs outcome)) (out_unmatched_start outcome);
  sum ← checked_add_u64 sum (out_unmatched_end outcome);
  checked_add_u64 sum (out_ambiguous outcome).

Definition measure (events : list Event) (options : MeasureOptions) :
    res MeasureError MeasurementResult :=
  '(BuildCorrelated starts ends clock_domain lifecycles outcome) ←
    measure_correlate events options;
  let matched := len (out_pairs outcome) in
  let latencies := map pair_latency_ns (out_pairs outcome) in
  denominator ← or_panic (denominator outcome);
  let '(method, confidence) := correlation_metadata (opt_match_policy options) lifecycles in
  let warnings := measurement_warnings options starts ends in
  let '(host_events, cuda_events) := collection_event_counts events in
  latency_ns ← or_panic (statistics latencies);
  Ok (BuildMeasurementResult SchemaVersion.V2 true (opt_session_id options)
        SessionStatus.Completed
        (BuildMeasurement (opt_name options)
           (BuildSampleSummary matched (out_unmatched_start outcome)
              (out_unmatched_end outcome) (out_ambiguous outcome) (opt_dropped_events options))
           latency_ns)
        (BuildCorrelationSummary method confidence (ratio matched denominator))
        (BuildClockQuality (alignment clock_domain)
           (maximum_timestamp_error (out_pairs outcome)))
        (BuildCollectionSummary CaptureCompleteness.Complete host_events cuda_events
           (opt_dropped_events options) None)
        (map (λ pair, BuildMatchedEventPair (pair_start pair) (pair_end pair)
                        (pair_latency_ns pair)) (out_pairs outcome))
        warnings).

(** The ranges of the option fields ([usize], [u128] and [u64]). *)
Definition options_wf (options : MeasureOptions) : Prop :=
  (∀ n, opt_samples options = Some n → 0 ≤ n)
  ∧ (∀ d, opt_duration options = Some d → 0 ≤ d)
  ∧ 0 ≤ opt_max_events options ∧ 0 ≤ opt_dropped_events options.

(** ** Percentiles *)

(** [v] is the nearest-rank percentile: a value of the list such that at least
    [p] percent of the values are at most [v] and fewer are less. *)
Definition nearest_rank (values : list Z) (p v : Z) : Prop :=
  v ∈ values
  ∧ p * len values ≤ 100 * len (filter (λ x, x ≤ v) values)
  ∧ 100 * len (filter (λ x, x < v) values) < p * len values.

Local Abbreviation increasing := (StronglySorted (λ x y : Z, x ≤ y)).

Lemma sorted_lookup_le l i j x y :
  increasing l → l !! i = Some x → l !! j = Some y → (i ≤ j)%nat → x ≤ y.
Proof.
  intros Hs. revert i j. induction Hs as [|z l Hl IH Hz]; intros i j Hi Hj Hij; [done|].
  destruct i as [|i], j as [|j]; simplify_eq/=; [done| |lia|].
  - apply list_elem_of_lookup_2 in Hj. by eapply Forall_forall in Hz.
  - apply (IH i j); [done..|lia].
Qed.
Lemma filter_le_count l i v :
  increasing l → l !! i = Some v → Z.of_nat i + 1 ≤ len (filter (λ x, x ≤ v) l).
Proof.
  intros Hs Hi. rewrite <-(take_drop (S i) l), filter_app, len_app.
  rewrite (filter_all _ (take (S i) l)).
  - pose proof (lookup_lt_Some _ _ _ Hi). unfold len. rewrite length_take. lia.
  - intros x (j & Hj)%list_elem_of_lookup_1. apply lookup_take_Some in Hj as [Hj Hlt].
    eapply sorted_lookup_le; [done..|lia].
Qed.
Lemma filter_lt_count l i v :
  increasing l → l !! i = Some v → len (filter (λ x, x < v) l) ≤ Z.of_nat i.
Proof.
  intros Hs Hi. rewrite <-(take_drop i l), filter_app, len_app.
  rewrite (filter_none _ (drop i l)).
  - change (len []) with 0. unfold len at 1.
    pose proof (length_filter (λ x, x < v) (take i l)). rewrite length_take in *. lia.
  - intros x (j & Hj)%list_elem_of_lookup_1. rewrite lookup_drop in Hj.
    assert (v ≤ x); [|lia]. eapply sorted_lookup_le; [done..|lia].
Qed.

(** The index [percentile] computes is in range, and it is the nearest rank. *)
Lemma percentile_spec l p :
  increasing l → l ≠ [] → 1 ≤ p ≤ 100 → p * len l ≤ u64_max →
  ∃ i v, percentile l p = Some v ∧ l !! i = Some v ∧ nearest_rank l p v
    ∧ Z.of_nat i = div_ceil (p * len l) 100 - 1.
Proof.
  intros Hs Hne Hp Hmul. unfold percentile, checked_mul_u64.
  rewrite (proj2 (Z.leb_le _ _)) by done. simpl.
  assert (0 < len l) as Hlen.
  { destruct l; [done|]. rewrite len_cons. pose proof (len_nonneg l). lia. }
  unfold saturating_sub, div_ceil, get_z. set (rank := (p * len l + 100 - 1) / 100).
  assert (100 * rank ≤ p * len l + 99 ∧ p * len l + 99 < 100 * rank + 100) as [Hr1 Hr2].
  { pose proof (Z.div_mod (p * len l + 100 - 1) 100). pose proof (Z.mod_pos_bound (p * len l + 100 - 1) 100).
    lia. }
  assert (1 ≤ rank ≤ len l) as Hr by nia.
  rewrite Z.max_l by lia. destruct (Z.ltb_spec (rank - 1) 0); [lia|].
  destruct (lookup_lt_is_Some_2 l (Z.to_nat (rank - 1))) as [v Hv].
  { unfold len in Hr. lia. }
  exists (Z.to_nat (rank - 1)), v. split; [done|]. split; [done|]. split; [|lia].
  split; [by eapply list_elem_of_lookup_2|].
  pose proof (filter_le_count _ _ _ Hs Hv). pose proof (filter_lt_count _ _ _ Hs Hv). lia.
Qed.

(** The statistics of a nonempty list exist and are ordered. *)
Definition statistics_ok (values : list Z) (st : LatencyStatistics) : Prop :=
  stat_min st ∈ values ∧ stat_max st ∈ values
  ∧ Forall (λ v, stat_min st ≤ v ≤ stat_max st) values
  ∧ nearest_rank values 50 (stat_p50 st) ∧ nearest_rank values 90 (stat_p90 st)
  ∧ nearest_rank values 95 (stat_p95 st) ∧ nearest_rank values 99 (stat_p99 st)
  ∧ stat_min st ≤ stat_p50 st ≤ stat_p90 st ∧ stat_p90 st ≤ stat_p95 st ≤ stat_p99 st
  ∧ stat_p99 st ≤ stat_max st.

Lemma statistics_ok_perm values values' st :
  values ≡ₚ values' → statistics_ok values st → statistics_ok values' st.
Proof. intros Hp. unfold statistics_ok, nearest_rank. by rewrite Hp. Qed.

Lemma div_ceil_mono a b : a ≤ b → div_ceil a 100 ≤ div_ceil b 100.
Proof. intros. apply Z.div_le_mono; lia. Qed.

(** A larger percentile is not smaller. *)
Lemma percentile_mono l p q v w :
  increasing l → l ≠ [] → 1 ≤ p ≤ q → q ≤ 100 → q * len l ≤ u64_max →
  percentile l p = Some v → percentile l q = Some w → v ≤ w.
Proof.
  intros Hs Hne Hpq Hq Hmul Hv Hw. pose proof (len_nonneg l).
  destruct (percentile_spec l p) as (i & v' & Hv' & Hi & _ & Hi'); [done..|lia|nia|].
  destruct (percentile_spec l q) as (j & w' & Hw' & Hj & _ & Hj'); [done..|lia|nia|].
  simplify_eq. eapply sorted_lookup_le; [done|exact Hi|exact Hj|].
  pose proof (div_ceil_mono (p * len l) (q * len l)). nia.
Qed.

Lemma sorted_bounds l mn mx :
  increasing l → head l = Some mn → last l = Some mx → Forall (λ v, mn ≤ v ≤ mx) l.
Proof.
  intros Hs Hmn Hmx. apply Forall_forall. intros v (i & Hi)%list_elem_of_lookup_1.
  rewrite head_lookup in Hmn. rewrite last_lookup in Hmx.
  pose proof (lookup_lt_Some _ _ _ Hi). split.
  - eapply sorted_lookup_le; [done|exact Hmn|exact Hi|lia].
  - eapply sorted_lookup_le; [done|exact Hi|exact Hmx|lia].
Qed.

Lemma statistics_spec values :
  values ≠ [] → 99 * len values ≤ u64_max →
  ∃ st, statistics values = Some st ∧ statistics_ok values st.
Proof.
  intros Hne Hmul. unfold statistics. set (l := sort_by_key id values).
  assert (l ≡ₚ values) as Hperm by apply sort_by_key_perm.
  assert (increasing l) as Hs by apply (sort_by_key_sorted id).
  assert (l ≠ []) as Hl.
  { intros E. rewrite E in Hperm. symmetry in Hperm. by apply Permutation_nil_r in Hperm. }
  assert (len l = len values) as Hlen by by rewrite Hperm.
  pose proof (len_nonneg l). rewrite <-Hlen in Hmul.
  destruct (percentile_spec l 50) as (i1 & p50 & E1 & L1 & R1 & _); [done..|lia|lia|].
  destruct (percentile_spec l 90) as (i2 & p90 & E2 & L2 & R2 & _); [done..|lia|lia|].
  destruct (percentile_spec l 95) as (i3 & p95 & E3 & L3 & R3 & _); [done..|lia|lia|].
  destruct (percentile_spec l 99) as (i4 & p99 & E4 & L4 & R4 & _); [done..|lia|lia|].
  assert (∃ mn, head l = Some mn) as [mn Hmn] by (destruct l; [done|by eexists]).
  assert (∃ mx, last l = Some mx) as [mx Hmx].
  { destruct (last l) eqn:E; [by eexists|]. by apply last_None in E. }
  pose proof (sorted_bounds l mn mx Hs Hmn Hmx) as Hb.
  assert (∀ i v, l !! i = Some v → mn ≤ v ≤ mx) as Hbi.
  { intros i v Hi. eapply Forall_forall in Hb; [exact Hb|]. by eapply list_elem_of_lookup_2. }
  unfold get_z. simpl. rewrite <-head_lookup, Hmn, Hmx, E1, E2, E3, E4. simpl.
  eexists. split; [done|]. apply (statistics_ok_perm l); [done|].
  unfold statistics_ok. simpl. rewrite head_lookup in Hmn.
  rewrite last_lookup in Hmx.
  pose proof (percentile_mono l 50 90 _ _ Hs Hl ltac:(lia) ltac:(lia) ltac:(lia) E1 E2).
  pose proof (percentile_mono l 90 95 _ _ Hs Hl ltac:(lia) ltac:(lia) ltac:(lia) E2 E3).
  pose proof (percentile_mono l 95 99 _ _ Hs Hl ltac:(lia) ltac:(lia) ltac:(lia) E3 E4).
  destruct (Hbi _ _ L1), (Hbi _ _ L4).
  split_and!; try done; by eapply list_elem_of_lookup_2.
Qed.

(** ** Clock domains *)
Lemma clock_loop_ok first b events b' :
  clock_loop first b events = Ok b' →
  Forall (λ e, clock_group (ev_clock_domain e) = clock_group first) events
  ∧ (b' = true ↔ b = true ∨ ∃ e, e ∈ events ∧
       ev_clock_domain e = ClockDomain.CuptiNormalizedToHostMonotonic).
Proof.
  revert b. induction events as [|e l IH]; intros b; simpl.
  { intros [= ->]. split; [constructor|]. split; [by left|]. intros [?|(e & He & _)]; [done|].
    by apply elem_of_nil in He. }
  destruct (Z.eqb_spec (clock_group (ev_clock_domain e)) (clock_group first)); [|done].
  intros (Hg & Hb)%IH. split; [by constructor|]. rewrite Hb, orb_true_iff, bool_decide_eq_true.
  setoid_rewrite elem_of_cons. clear. naive_solver.
Qed.
Lemma clock_loop_no_panic first b events : clock_loop first b events ≠ Panic.
Proof. revert b. induction events as [|e l IH]; intros b; simpl; [done|]. by destruct (negb _). Qed.

(** The domain reported, given that there is one. *)
Lemma common_clock_domain_ok starts ends d :
  common_clock_domain starts ends = Ok d →
  (∀ e f, e ∈ starts ++ ends → f ∈ starts ++ ends →
     clock_group (ev_clock_domain e) = clock_group (ev_clock_domain f))
  ∧ (∀ e, e ∈ starts ++ ends → clock_group (ev_clock_domain e) = clock_group d)
  ∧ (d = ClockDomain.CuptiNormalizedToHostMonotonic ↔
     ∃ e, e ∈ starts ++ ends ∧ ev_clock_domain e = ClockDomain.CuptiNormalizedToHostMonotonic).
Proof.
  unfold common_clock_domain. destruct (starts ++ ends) as [|first events]; [done|].
  intros Hd. res_steps. destruct (clock_loop_ok _ _ _ _ Hstep) as [Hg Hn].
  assert (∀ e, e ∈ first :: events →
    clock_group (ev_clock_domain e) = clock_group (ev_clock_domain first)) as Hall.
  { intros e [->|He]%elem_of_cons; [done|]. by eapply Forall_forall in Hg. }
  assert (a = true ↔ ∃ e, e ∈ first :: events ∧
    ev_clock_domain e = ClockDomain.CuptiNormalizedToHostMonotonic) as Ha.
  { rewrite Hn, bool_decide_eq_true. setoid_rewrite elem_of_cons. clear. naive_solver. }
  split; [intros e f He Hf; by rewrite (Hall e), (Hall f)|].
  destruct (Z.eqb_spec (clock_group (ev_clock_domain first)) 1) as [E1|E1].
  - split; [intros e He; by rewrite (Hall e)|]. split; [done|].
    intros (e & He & Hd). specialize (Hall e He). rewrite Hd, E1 in Hall. done.
  - assert (clock_group (ev_clock_domain first) = 0) as E0
      by (by destruct (ev_clock_domain first)).
    split; [intros e He; rewrite (Hall e), E0 by done; by destruct a|].
    rewrite <-Ha. by destruct a.
Qed.
Lemma common_clock_domain_no_panic starts ends : common_clock_domain starts ends ≠ Panic.
Proof.
  unfold common_clock_domain. destruct (starts ++ ends) as [|first events]; [done|].
  apply res_bind_no_panic; [apply clock_loop_no_panic|done].
Qed.

(** ** The window *)

(** What the window keeps: everything without a duration; otherwise the events
    not later than [duration] after the earliest one. *)
Definition in_window (duration : option Z) (all : list Event) (event : Event) : Prop :=
  match duration with
  | None => True
  | Some d => ∃ first, first ∈ all
      ∧ Forall (λ e, ev_timestamp_ns first ≤ ev_timestamp_ns e) all
      ∧ ev_timestamp_ns event ≤ ev_timestamp_ns first + d
  end.

Lemma time_sorted_head l x e :
  time_sorted l → head l = Some x → e ∈ l → ev_timestamp_ns x ≤ ev_timestamp_ns e.
Proof.
  intros [|y l' Hl Hy]; [done|]. intros [= ->] [->|He]%elem_of_cons; [done|].
  by eapply Forall_forall in Hy.
Qed.
Lemma first_timestamp_ok starts ends t :
  time_sorted starts → time_sorted ends → first_timestamp starts ends = Some t →
  ∃ first, first ∈ starts ++ ends ∧ ev_timestamp_ns first = t
    ∧ Forall (λ e, ev_timestamp_ns first ≤ ev_timestamp_ns e) (starts ++ ends).
Proof.
  intros Hs He Ht. unfold first_timestamp in Ht.
  setoid_rewrite Forall_app. setoid_rewrite Forall_forall.
  assert (∀ (l : list Event) x, head l = Some x → x ∈ l) as Hhead.
  { intros [|y l] x; [done|]. intros [= ->]. by left. }
  destruct (head starts) as [a|] eqn:Ea, (head ends) as [b|] eqn:Eb; simpl in Ht; simplify_eq.
  - destruct (Z.min_spec (ev_timestamp_ns a) (ev_timestamp_ns b)) as [[? ->]|[? ->]].
    + exists a. split; [apply elem_of_app; auto|]. split; [done|].
      split; intros e Hin; [by apply (time_sorted_head starts)|].
      pose proof (time_sorted_head ends b e He Eb Hin). lia.
    + exists b. split; [apply elem_of_app; auto|]. split; [done|].
      split; intros e Hin; [|by apply (time_sorted_head ends)].
      pose proof (time_sorted_head starts a e Hs Ea Hin). lia.
  - exists a. split; [apply elem_of_app; auto|]. split; [done|].
    split; intros e Hin; [by apply (time_sorted_head starts)|].
    destruct ends; [by apply elem_of_nil in Hin|done].
  - exists b. split; [apply elem_of_app; auto|]. split; [done|].
    split; intros e Hin; [|by apply (time_sorted_head ends)].
    destruct starts; [by apply elem_of_nil in Hin|done].
Qed.

Lemma apply_duration_window_ok starts ends duration starts' ends' :
  time_sorted starts → time_sorted ends →
  apply_duration_window starts ends duration = Ok (starts', ends') →
  starts' ⊆+ starts ∧ ends' ⊆+ ends
  ∧ (∀ e, e ∈ starts' ↔ e ∈ starts ∧ in_window duration (starts ++ ends) e)
  ∧ (∀ e, e ∈ ends' ↔ e ∈ ends ∧ in_window duration (starts ++ ends) e).
Proof.
  unfold apply_duration_window. intros Hs He Hw.
  destruct duration as [d|]; [|simplify_eq/=; by split_and!; [..|split; [|intros [? _]]|split; [|intros [? _]]]].
  destruct (first_timestamp starts ends) as [t|] eqn:Et.
  - res_steps. unfold checked_add_u64 in Hstep1. res_steps.
    destruct (first_timestamp_ok _ _ _ Hs He Et) as (first & Hin & <- & Hmin).
    assert (∀ e, in_window (Some a) (starts ++ ends) e
      ↔ ev_timestamp_ns e ≤ ev_timestamp_ns first + a) as Hwin.
    { intros e. split; [|by exists first]. intros (first' & Hin' & Hmin' & Hle).
      rewrite Forall_forall in Hmin, Hmin'. pose proof (Hmin' _ Hin). lia. }
    split; [apply sublist_submseteq, sublist_filter|].
    split; [apply sublist_submseteq, sublist_filter|].
    unfold in_window in Hwin. split; intros e; rewrite list_elem_of_filter, Hwin; tauto.
  - simplify_eq. assert (starts' = [] ∧ ends' = []) as [-> ->].
    { unfold first_timestamp in Et. by destruct starts', ends'. }
    split_and!; [done..| |]; intros e; (split; [by intros ?%elem_of_nil|by intros [??]]).
Qed.
Lemma apply_duration_window_no_panic starts ends duration :
  apply_duration_window starts ends duration ≠ Panic.
Proof.
  unfold apply_duration_window. destruct duration; [|done].
  destruct (first_timestamp _ _); [|done]. no_panic.
Qed.

(** ** Choosing a correlator *)
Definition policy_pair (policy : MatchPolicy) : Pair → Prop :=
  match policy with MatchPolicy.Nearest => pair_distance | _ => pair_forward end.

(** Every correlator [correlate_selected] can choose satisfies the interface. *)
#[global] Instance selected_correlator policy lifecycles :
  Correlator (policy_pair policy)
    (λ starts ends limit, correlate_selected starts ends policy limit lifecycles).
Proof.
  intros starts ends limit. destruct policy; simpl; [|apply correlator_sound..].
  destruct (_ || _); [apply (lifecycle_correlator (λ event, Some (thread_key event)))|].
  destruct (lk_nvtx _); [apply (lifecycle_correlator correlation_key)|apply exact_correlator].
Qed.

Lemma policy_pair_distance policy p : policy_pair policy p → pair_distance p.
Proof. destruct policy; simpl; auto using pair_forward_distance. Qed.

Lemma outcome_denominator Q starts ends limit out :
  outcome_sound Q starts ends limit out → len starts + len ends ≤ u64_max →
  ∃ n, denominator out = Some n ∧ len (out_pairs out) ≤ n.
Proof.
  intros [_ _ _ Hus Hue Ham Htot] Hmax. pose proof (len_nonneg (out_pairs out)).
  unfold denominator, checked_add_u64.
  do 3 (rewrite (proj2 (Z.leb_le _ _)) by lia; simpl). eexists. split; [done|]. lia.
Qed.

(** ** What a successful correlation phase establishes *)
Lemma select_sorted sel events : time_sorted (select sel events).
Proof. apply sort_by_key_sorted. Qed.
Lemma select_elem sel events e :
  e ∈ select sel events ↔ selector_matches sel e = true ∧ e ∈ events.
Proof. unfold select. by rewrite sort_by_key_elem, list_elem_of_filter. Qed.
Lemma select_submseteq sel events : select sel events ⊆+ events.
Proof.
  unfold select. rewrite sort_by_key_perm. apply sublist_submseteq, sublist_filter.
Qed.

Record correlated_ok (events : list Event) (options : MeasureOptions)
    (start_selector end_selector : Selector) (cr : correlated) : Prop := {
  co_options : validate_options options = Ok ();
  co_max_events : len events ≤ opt_max_events options;
  co_dropped : opt_dropped_events options = 0;
  co_start : selector_parse (opt_start_selector options) = Ok start_selector;
  co_end : selector_parse (opt_end_selector options) = Ok end_selector;
  co_policy : validate_policy start_selector end_selector (opt_match_policy options) = Ok ();
  co_clock : common_clock_domain (select start_selector events) (select end_selector events)
             = Ok (cr_clock_domain cr);
  co_window : apply_duration_window (select start_selector events)
                (select end_selector events) (opt_duration options)
              = Ok (cr_starts cr, cr_ends cr);
  co_lifecycles : cr_lifecycles cr = lifecycle_kinds start_selector end_selector;
  co_outcome : correlate_selected (cr_starts cr) (cr_ends cr) (opt_match_policy options)
                 (opt_samples options) (cr_lifecycles cr) = Some (cr_outcome cr);
  co_pairs : out_pairs (cr_outcome cr) ≠ [] }.

Lemma measure_correlate_ok events options cr :
  measure_correlate events options = Ok cr →
  ∃ start_selector end_selector, correlated_ok events options start_selector end_selector cr.
Proof.
  unfold measure_correlate. intros Hm. res_steps. destruct a4 as [starts ends].
  destruct (correlate_selected _ _ _ _ _) as [out|] eqn:Eout; [|done].
  destruct (out_pairs out) eqn:Ep; simplify_eq. bool_props.
  repeat match goal with u : unit |- _ => destruct u end.
  exists a0, a1. split; simpl; try done; [lia|lia|by rewrite Ep].
Qed.

(** The outcome of a successful phase, seen through the interface. *)
Lemma correlated_sound events options s e cr :
  options_wf options → correlated_ok events options s e cr →
  outcome_sound (policy_pair (opt_match_policy options)) (cr_starts cr) (cr_ends cr)
    (opt_samples options) (cr_outcome cr).
Proof.
  intros [Hsamples _] Hok.
  destruct (correlator_sound (Correlator := selected_correlator (opt_match_policy options)
              (cr_lifecycles cr)) (cr_starts cr) (cr_ends cr) (opt_samples options) Hsamples)
    as (out & Hout & Hsound).
  rewrite (co_outcome _ _ _ _ _ Hok) in Hout. by injection Hout as ->.
Qed.
Lemma correlated_window events options s e cr :
  correlated_ok events options s e cr →
  let all := select s events ++ select e events in
  cr_starts cr ⊆+ select s events ∧ cr_ends cr ⊆+ select e events
  ∧ (∀ x, x ∈ cr_starts cr ↔ x ∈ select s events ∧ in_window (opt_duration options) all x)
  ∧ (∀ x, x ∈ cr_ends cr ↔ x ∈ select e events ∧ in_window (opt_duration options) all x).
Proof.
  intros Hok. apply apply_duration_window_ok; [apply select_sorted..|].
  apply (co_window _ _ _ _ _ Hok).
Qed.

(** The parts of a result the theorems speak about. *)
Lemma measure_ok events options r :
  measure events options = Ok r →
  ∃ s e cr st, correlated_ok events options s e cr
    ∧ statistics (map pair_latency_ns (out_pairs (cr_outcome cr))) = Some st
    ∧ meas_latency_ns (mr_measurement r) = st
    ∧ meas_samples (mr_measurement r)
      = BuildSampleSummary (len (out_pairs (cr_outcome cr)))
          (out_unmatched_start (cr_outcome cr)) (out_unmatched_end (cr_outcome cr))
          (out_ambiguous (cr_outcome cr)) 0
    ∧ mr_evidence r = map (λ pair, BuildMatchedEventPair (pair_start pair) (pair_end pair)
                             (pair_latency_ns pair)) (out_pairs (cr_outcome cr))
    ∧ mr_clock r = BuildClockQuality (alignment (cr_clock_domain cr))
                     (maximum_timestamp_error (out_pairs (cr_outcome cr)))
    ∧ mr_warnings r = measurement_warnings options (cr_starts cr) (cr_ends cr).
Proof.
  unfold measure. intros Hm. res_steps. destruct a as [starts ends clock kinds out].
  destruct (denominator out) as [n|]; [|done].
  destruct (correlation_metadata _ _) as [method confidence].
  destruct (collection_event_counts events) as [host cuda].
  destruct (statistics _) as [st|] eqn:Est; [|done]. injection Hm as <-.
  destruct (measure_correlate_ok _ _ _ Hstep) as (s & e & Hok).
  exists s, e, (BuildCorrelated starts ends clock kinds out), st. simpl.
  by rewrite (co_dropped _ _ _ _ _ Hok).
Qed.

(** ** Claims *)

(** C27: [measure] never panics.  The only assumption besides the ranges of the
    option fields is that 99 times the number of events fits in a [usize], the
    product the percentiles compute: no index is out of range, no [expect]
    fails, no subtraction goes below zero and no sum overflows. *)
Theorem measure_never_panics (events : list Event) (options : MeasureOptions)
    (Hoptions : options_wf options) (Hsize : 99 * len events ≤ usize_max) :
  measure events options ≠ Panic.
Proof.
  unfold measure. apply res_bind_no_panic.
  - unfold measure_correlate. apply res_bind_no_panic.
    { unfold validate_options. no_panic. }
    intros _ _. destruct (_ <? _); [done|]. destruct (negb _); [done|].
    apply res_bind_no_panic; [apply selector_parse_no_panic|]. intros s _.
    apply res_bind_no_panic; [apply selector_parse_no_panic|]. intros e _.
    apply res_bind_no_panic; [unfold validate_policy; no_panic|]. intros _ _.
    apply res_bind_no_panic; [apply common_clock_domain_no_panic|]. intros d _.
    apply res_bind_no_panic; [apply apply_duration_window_no_panic|]. intros [starts ends] _.
    destruct Hoptions as [Hsamples _].
    destruct (correlator_sound (Correlator := selected_correlator (opt_match_policy options)
                (lifecycle_kinds s e)) starts ends (opt_samples options) Hsamples)
      as (out & -> & _). simpl. by destruct (out_pairs out).
  - intros cr (s & e & Hok)%measure_correlate_ok.
    pose proof (correlated_sound _ _ _ _ _ Hoptions Hok) as Hsound.
    destruct (correlated_window _ _ _ _ _ Hok) as (Hs & He & _).
    pose proof (len_submseteq _ _ (select_submseteq s events)).
    pose proof (len_submseteq _ _ (select_submseteq e events)).
    apply len_submseteq in Hs, He. pose proof (len_nonneg events).
    unfold usize_max in Hsize.
    destruct (outcome_denominator _ _ _ _ _ Hsound) as (n & Hn & _); [lia|].
    destruct (os_from _ _ _ _ _ Hsound) as [Hp%len_submseteq _]. rewrite len_fmap in Hp.
    destruct (statistics_spec (map pair_latency_ns (out_pairs (cr_outcome cr))))
      as (st & Hst & _).
    { pose proof (co_pairs _ _ _ _ _ Hok). by destruct (out_pairs _). }
    { rewrite len_map. lia. }
    destruct cr as [starts ends clock kinds out]. simpl in *. rewrite Hn, Hst. simpl.
    by destruct (correlation_metadata _ _), (collection_event_counts events).
Qed.

(** C26: the evidence of a successful measurement.  It is nonempty, [matched]
    counts it and the sample limit bounds it; every pair is a start the start
    selector matches and an end the end selector matches, both events of the
    capture and inside the duration window, no event serves twice on the same
    side, and the latency is the distance of the timestamps, the end never
    preceding the start except under the nearest policy. *)
Theorem measure_evidence (events : list Event) (options : MeasureOptions)
    (r : MeasurementResult) (Hoptions : options_wf options)
    (Hok : measure events options = Ok r) :
  ∃ start_selector end_selector,
    selector_parse (opt_start_selector options) = Ok start_selector
    ∧ selector_parse (opt_end_selector options) = Ok end_selector
    ∧ mr_evidence r ≠ []
    ∧ samples_matched (meas_samples (mr_measurement r)) = len (mr_evidence r)
    ∧ (∀ n, opt_samples options = Some n → len (mr_evidence r) ≤ n)
    ∧ mp_start <$> mr_evidence r ⊆+ events ∧ mp_end <$> mr_evidence r ⊆+ events
    ∧ Forall (λ m,
        selector_matches start_selector (mp_start m) = true
        ∧ selector_matches end_selector (mp_end m) = true
        ∧ in_window (opt_duration options)
            (select start_selector events ++ select end_selector events) (mp_start m)
        ∧ in_window (opt_duration options)
            (select start_selector events ++ select end_selector events) (mp_end m)
        ∧ mp_latency_ns m = Z.abs (ev_timestamp_ns (mp_end m) - ev_timestamp_ns (mp_start m))
        ∧ (opt_match_policy options ≠ MatchPolicy.Nearest →
           ev_timestamp_ns (mp_start m) ≤ ev_timestamp_ns (mp_end m))) (mr_evidence r).
Proof.
  destruct (measure_ok _ _ _ Hok) as (s & e & cr & st & Hcr & _ & _ & Hsum & -> & _).
  pose proof (correlated_sound _ _ _ _ _ Hoptions Hcr) as Hsound.
  destruct (correlated_window _ _ _ _ _ Hcr) as (Hs & He & Hins & Hine).
  destruct (os_from _ _ _ _ _ Hsound) as [Hfs Hfe]. rewrite Hsum. simpl.
  exists s, e. split; [apply Hcr|]. split; [apply Hcr|]. rewrite len_map.
  split; [pose proof (co_pairs _ _ _ _ _ Hcr); by destruct (out_pairs _)|].
  split; [done|]. split; [apply Hsound|].
  rewrite <-!list_fmap_compose. split_and!.
  - etrans; [exact Hfs|]. etrans; [exact Hs|]. apply select_submseteq.
  - etrans; [exact Hfe|]. etrans; [exact He|]. apply select_submseteq.
  - apply Forall_fmap, Forall_forall. intros p Hp. simpl.
    assert (pair_start p ∈ cr_starts cr) as [Hps Hws]%Hins.
    { eapply elem_of_submseteq; [|exact Hfs]. apply list_elem_of_fmap. eauto. }
    assert (pair_end p ∈ cr_ends cr) as [Hpe Hwe]%Hine.
    { eapply elem_of_submseteq; [|exact Hfe]. apply list_elem_of_fmap. eauto. }
    apply select_elem in Hps as [? _], Hpe as [? _].
    pose proof (os_pairs _ _ _ _ _ Hsound) as Hq. rewrite Forall_forall in Hq.
    specialize (Hq p Hp). split_and!; try done; [by eapply policy_pair_distance|].
    intros Hne. by destruct (opt_match_policy options); [apply Hq..|done| |]; apply Hq.
Qed.

(** C3: the statistics of a successful measurement are those of the evidence:
    minimum and maximum bound all latencies and occur among them, p50, p90, p95
    and p99 are nearest-rank percentiles (at least that share of the latencies
    is not larger, a smaller share is less), and they are ordered
    min <= p50 <= p90 <= p95 <= p99 <= max. *)
Theorem measure_statistics (events : list Event) (options : MeasureOptions)
    (r : MeasurementResult) (Hoptions : options_wf options)
    (Hsize : 99 * len events ≤ usize_max) (Hok : measure events options = Ok r) :
  statistics_ok (mp_latency_ns <$> mr_evidence r) (meas_latency_ns (mr_measurement r)).
Proof.
  destruct (measure_ok _ _ _ Hok) as (s & e & cr & st & Hcr & Hst & -> & _ & -> & _).
  pose proof (correlated_sound _ _ _ _ _ Hoptions Hcr) as Hsound.
  destruct (correlated_window _ _ _ _ _ Hcr) as (Hs%len_submseteq & _).
  pose proof (len_submseteq _ _ (select_submseteq s events)).
  destruct (os_from _ _ _ _ _ Hsound) as [Hp%len_submseteq _]. rewrite len_fmap in Hp.
  destruct (statistics_spec (map pair_latency_ns (out_pairs (cr_outcome cr))))
    as (st' & Hst' & Hstat).
  { pose proof (co_pairs _ _ _ _ _ Hcr). by destruct (out_pairs _). }
  { rewrite len_map. unfold usize_max in Hsize. lia. }
  rewrite Hst in Hst'. injection Hst' as <-. by rewrite <-list_fmap_compose.
Qed.

Lemma maximum_fold a L :
  let fold := foldl (λ maximum error, maximum ← maximum; error ← error;
                       Some (Z.max maximum error)) in
  match fold (Some a) L with
  | Some m => a ≤ m ∧ (m = a ∨ Some m ∈ L) ∧ Forall (λ o, ∃ x, o = Some x ∧ x ≤ m) L
  | None => None ∈ L
  end.
Proof.
  cbv zeta. revert a. induction L as [|o L IH]; intros a; simpl.
  { split; [lia|]. split; [by left|constructor]. }
  destruct o as [x|]; simpl.
  - specialize (IH (Z.max a x)). destruct (foldl _ _ L) as [m|]; [|by right].
    destruct IH as (Hm & Hin & Hall). split; [lia|]. split.
    + destruct Hin as [->|Hin]; [|right; by right].
      destruct (Z.max_spec a x) as [[_ ->]|[_ ->]]; [right; by left|by left].
    + constructor; [|done]. exists x. split; [done|lia].
  - assert (∀ L, foldl (λ maximum error, maximum ← maximum; error ← error;
      Some (Z.max maximum error)) None L = None) as Hnone by (by induction L0).
    rewrite Hnone. by left.
Qed.

(** The events of the evidence. *)
Definition evidence_events (r : MeasurementResult) : list Event :=
  concat (map (λ m, [mp_start m; mp_end m]) (mr_evidence r)).

(** The clock statement of a successful measurement.  All events of the
    evidence share one clock group, so a host timestamp is never subtracted from
    a raw CUPTI one; [estimated_error_ns] is the largest error of the evidence
    (zero if none is larger), and it is absent exactly when an event normalized
    from CUPTI carries no bound, in which case the result warns. *)
Theorem measure_clock (events : list Event) (options : MeasureOptions)
    (r : MeasurementResult) (Hoptions : options_wf options)
    (Hok : measure events options = Ok r) :
  (∀ x y, x ∈ evidence_events r → y ∈ evidence_events r →
     clock_group (ev_clock_domain x) = clock_group (ev_clock_domain y))
  ∧ match clock_estimated_error_ns (mr_clock r) with
    | Some m => Forall (λ x, ∃ err, timestamp_error x = Some err ∧ err ≤ m) (evidence_events r)
                ∧ 0 ≤ m ∧ (m = 0 ∨ ∃ x, x ∈ evidence_events r ∧ timestamp_error x = Some m)
    | None => ∃ x, x ∈ evidence_events r
        ∧ ev_clock_domain x = ClockDomain.CuptiNormalizedToHostMonotonic
        ∧ ev_timestamp_error_ns x = None
        ∧ ∃ w, w ∈ mr_warnings r ∧ warn_code w = "CLOCK_ERROR_UNAVAILABLE"%string
    end.
Proof.
  destruct (measure_ok _ _ _ Hok) as (s & e & cr & st & Hcr & _ & _ & _ & Hev & Hclock & Hwarn).
  pose proof (correlated_sound _ _ _ _ _ Hoptions Hcr) as Hsound.
  destruct (correlated_window _ _ _ _ _ Hcr) as (Hs & He & _).
  destruct (os_from _ _ _ _ _ Hsound) as [Hfs Hfe].
  assert (evidence_events r
    = concat (map (λ p, [pair_start p; pair_end p]) (out_pairs (cr_outcome cr)))) as Hall.
  { unfold evidence_events. by rewrite Hev, map_map. }
  assert (∀ x, x ∈ evidence_events r → x ∈ cr_starts cr ++ cr_ends cr) as Hin.
  { intros x Hx. rewrite Hall in Hx. apply list_elem_of_In, in_concat in Hx as (l & Hl & Hx).
    apply in_map_iff in Hl as (p & <- & Hp). apply list_elem_of_In in Hp.
    apply elem_of_app. destruct Hx as [<-|[<-|[]]].
    - left. eapply elem_of_submseteq; [|exact Hfs]. apply list_elem_of_fmap. eauto.
    - right. eapply elem_of_submseteq; [|exact Hfe]. apply list_elem_of_fmap. eauto. }
  split.
  { destruct (common_clock_domain_ok _ _ _ (co_clock _ _ _ _ _ Hcr)) as [Hg _].
    intros x y Hx%Hin Hy%Hin. apply Hg; rewrite ?elem_of_app in *;
      match goal with
      | H : x ∈ _ ∨ _ |- x ∈ _ ∨ _ => destruct H; [left|right]
      | H : y ∈ _ ∨ _ |- y ∈ _ ∨ _ => destruct H; [left|right]
      end; by eapply elem_of_submseteq. }
  rewrite Hclock. simpl. unfold maximum_timestamp_error. rewrite <-Hall.
  pose proof (maximum_fold 0 (map timestamp_error (evidence_events r))) as Hfold.
  cbv zeta in Hfold. destruct (foldl _ _ _) as [m|].
  - destruct Hfold as (Hm & Hor & Hf). rewrite Forall_forall in Hf. split.
    { apply Forall_forall. intros x Hx. apply Hf, list_elem_of_fmap. eauto. }
    split; [done|].
    destruct Hor as [->|(x & Hx & ?)%list_elem_of_fmap]; [by left|right]. eauto.
  - apply list_elem_of_fmap in Hfold as (x & Hx & Hin').
    unfold timestamp_error in Hx. destruct (bool_decide _) eqn:Ed; [|done]. bool_props.
    exists x. split; [done|]. split; [done|]. split; [done|].
    exists (warning "CLOCK_ERROR_UNAVAILABLE"
      "CUPTI does not report an error bound for GPU-to-host timestamp interpolation").
    split; [|done]. rewrite Hwarn. unfold measurement_warnings. apply elem_of_app. right.
    rewrite (proj2 (existsb_exists _ _)); [by left|]. exists x.
    split; [by apply list_elem_of_In, Hin|].
    apply andb_true_iff. split; by apply bool_decide_eq_true_2.
Qed.

(** ** Errors *)
Lemma measure_err events options e :
  measure events options = Err e ↔ measure_correlate events options = Err e.
Proof.
  unfold measure, mbind, res_bind.
  destruct (measure_correlate events options) as [[starts ends clock kinds out]|e'|];
    [|split; intros; by simplify_eq..].
  split; [|done]. destruct (denominator out); [|done].
  destruct (correlation_metadata _ _), (collection_event_counts events).
  unfold or_panic. by destruct (statistics _).
Qed.

(** The errors that can follow the three checks of the capture itself. *)
Definition late_error (events : list Event) (e : MeasureError) : Prop :=
  match e with
  | MeasureError.EventLimitExceeded _ _ | MeasureError.EventsDropped _ => False
  | MeasureError.ClockDomainsDiffer a b =>
      clock_group a ≠ clock_group b
      ∧ ∃ x y, x ∈ events ∧ y ∈ events ∧ ev_clock_domain x = a ∧ ev_clock_domain y = b
  | _ => True
  end.
Lemma clock_loop_errors all first b events :
  (∀ x, x ∈ events → x ∈ all) → (∃ x, x ∈ all ∧ ev_clock_domain x = first) →
  errors_in (late_error all) (clock_loop first b events).
Proof.
  intros Hsub (x & Hx & Hfirst). revert b. induction events as [|y l IH]; intros b; [done|].
  simpl. destruct (Z.eqb_spec (clock_group (ev_clock_domain y)) (clock_group first)).
  - apply IH. intros z Hz. apply Hsub. by right.
  - simpl. split; [congruence|]. exists x, y. split_and!; try done. apply Hsub. by left.
Qed.
Lemma common_clock_domain_errors all starts ends :
  (∀ x, x ∈ starts ++ ends → x ∈ all) →
  errors_in (late_error all) (common_clock_domain starts ends).
Proof.
  unfold common_clock_domain. destruct (starts ++ ends) as [|first events]; [done|].
  intros Hsub. apply errors_in_bind; [|done]. apply clock_loop_errors.
  - intros x Hx. apply Hsub. by right.
  - exists first. split; [|done]. apply Hsub. by left.
Qed.
Lemma errors_in_impl {E A} (P Q : E → Prop) (m : res E A) :
  (∀ e, P e → Q e) → errors_in P m → errors_in Q m.
Proof. destruct m; simpl; auto. Qed.
Lemma validate_options_errors options :
  errors_in (λ e, ∃ reason, e = MeasureError.InvalidLimit reason) (validate_options options).
Proof. unfold validate_options. err_walk. Qed.

(** The capture's own checks, then the rest. *)
Lemma measure_correlate_cases events options :
  (∃ reason, validate_options options = Err (MeasureError.InvalidLimit reason)
     ∧ measure_correlate events options = Err (MeasureError.InvalidLimit reason))
  ∨ validate_options options = Ok ()
    ∧ ((opt_max_events options < len events
        ∧ measure_correlate events options
          = Err (MeasureError.EventLimitExceeded (len events) (opt_max_events options)))
       ∨ (len events ≤ opt_max_events options ∧ opt_dropped_events options ≠ 0
          ∧ measure_correlate events options
            = Err (MeasureError.EventsDropped (opt_dropped_events options)))
       ∨ (len events ≤ opt_max_events options ∧ opt_dropped_events options = 0
          ∧ errors_in (late_error events) (measure_correlate events options))).
Proof.
  unfold measure_correlate. pose proof (validate_options_errors options) as Hv.
  destruct (validate_options options) as [[]|e|] eqn:Ev; simpl in *.
  2: { destruct Hv as [reason ->]. left. eauto. }
  2: { exfalso. revert Ev. unfold validate_options. no_panic. }
  right. split; [done|]. destruct (Z.ltb_spec (opt_max_events options) (len events)); [by left|].
  right. destruct (Z.eqb_spec (opt_dropped_events options) 0) as [Hd|Hd]; [right|by left].
  split; [done|]. split; [done|]. simpl.
  assert (∀ text, errors_in (late_error events) (selector_parse text)) as Hparse.
  { intros text. eapply errors_in_impl, selector_parse_errors. by intros e [reason ->]. }
  apply errors_in_bind; [apply Hparse|]. intros s.
  apply errors_in_bind; [apply Hparse|]. intros e.
  apply errors_in_bind; [unfold validate_policy; err_walk; exact I|]. intros _.
  apply errors_in_bind.
  { apply common_clock_domain_errors. intros x [Hx|Hx]%elem_of_app;
      by apply select_elem in Hx as [_ Hx]. }
  intros d. apply errors_in_bind; [unfold apply_duration_window; err_walk; exact I|].
  intros [starts ends]. apply errors_in_bind; [apply errors_in_or_panic|]. intros out.
  by destruct (out_pairs out).
Qed.

(** The refusals of [measure], in the order the checks are made.  Bad
    options are refused first; a capture that is too large, then one that
    dropped events, is refused whatever the selectors are, with the numbers at
    fault; and a selector or policy error or a clock mismatch is reported only
    for a capture that passed these. *)
Theorem measure_refusals (events : list Event) (options : MeasureOptions) :
  (∀ reason, validate_options options = Err reason → measure events options = Err reason)
  ∧ (∀ actual maximum,
       measure events options = Err (MeasureError.EventLimitExceeded actual maximum)
       ↔ validate_options options = Ok () ∧ actual = len events
         ∧ maximum = opt_max_events options ∧ maximum < actual)
  ∧ (∀ count, measure events options = Err (MeasureError.EventsDropped count)
       ↔ validate_options options = Ok () ∧ len events ≤ opt_max_events options
         ∧ count = opt_dropped_events options ∧ count ≠ 0)
  ∧ (∀ a b, measure events options = Err (MeasureError.ClockDomainsDiffer a b) →
       len events ≤ opt_max_events options ∧ opt_dropped_events options = 0
       ∧ clock_group a ≠ clock_group b
       ∧ ∃ x y, x ∈ events ∧ y ∈ events ∧ ev_clock_domain x = a ∧ ev_clock_domain y = b).
Proof.
  setoid_rewrite measure_err. destruct (measure_correlate_cases events options)
    as [(reason & Hv & Hm)|(Hv & [(Hmax & Hm)|[(Hmax & Hd & Hm)|(Hmax & Hd & Hm)]])];
    rewrite Hv; try rewrite Hm.
  - split_and!; intros; simplify_eq; try done; (split; [done|by intros [? _]]).
  - split_and!; intros; simplify_eq; try done.
    + split; [intros; simplify_eq; done|]. by intros (_ & -> & -> & _).
    + split; [done|]. intros (_ & ? & _). lia.
  - split_and!; intros; simplify_eq; try done.
    + split; [done|]. intros (_ & -> & -> & ?). lia.
    + split; [intros; simplify_eq; done|]. by intros (_ & _ & -> & _).
  - split_and!; intros; simplify_eq.
    + split; [intros E; by rewrite E in Hm|]. intros (_ & -> & -> & ?). lia.
    + split; [intros E; by rewrite E in Hm|]. intros (_ & _ & -> & ?). lia.
    + rewrite H1 in Hm. done.
Qed.
End measure.
