(* ===== verification/Os.v ===== *)
(** * The operating system

    The host side reads procfs and binaries while the target runs, so two reads
    of the same file can differ.  The system is a parameter, class [Os]: a type
    of worlds and the system calls the code makes, each returning its result
    and the next world.  Code that does input and output is a function in the
    monad [io], state passing over the world with the results of the prelude. *)
From S2P Require Import Prelude BTree RustString Text.
#[local] Open Scope Z_scope.

(** [io::ErrorKind], as far as the code distinguishes kinds, the text of the
    error and the number of the system's error, if it is one. *)
Module ErrorKind.
Inductive ErrorKind : Set := NotFound | PermissionDenied | Other.
#[global] Instance ErrorKind_eq_dec : EqDecision ErrorKind.
Proof. solve_decision. Defined.
End ErrorKind.
Abbreviation ErrorKind := ErrorKind.ErrorKind.
Record IoError := BuildIoError {
  io_kind : ErrorKind; io_message : string; io_errno : option Z }.

(** A system call either fails or gives a value. *)
Definition syscall_result (A : Type) : Type := IoError + A.

(** [fs::Metadata] and [process::Output], as far as they are used; the text of the exit
    status comes with the output.  A directory is the list of its entries' names. *)
Record Metadata := BuildMetadata { md_len : Z; md_is_file : bool }.
Record Output := BuildOutput {
  out_success : bool;
  out_code : option Z;
  out_status : string;
  out_stdout : list Z;
  out_stderr : list Z }.

Class Os := {
  World : Type;
  fs_read_to_string : string → World → syscall_result string * World;
  fs_read : string → World → syscall_result (list Z) * World;
  fs_read_link : string → World → syscall_result string * World;
  fs_canonicalize : string → World → syscall_result string * World;
  fs_metadata : string → World → syscall_result Metadata * World;
  fs_try_exists : string → World → syscall_result bool * World;
  fs_read_dir : string → World → syscall_result (list (syscall_result (list Z))) * World;
  command_output : string → list string → World → syscall_result Output * World }.

Section io.
Context `{Os}.

Definition io (E A : Type) : Type := World → res E A * World.

#[global] Instance io_ret {E} : MRet (io E) := λ A a w, (Ok a, w).
#[global] Instance io_bind {E} : MBind (io E) := λ A B f m w,
  match m w with
  | (Ok a, w) => f a w
  | (Err e, w) => (Err e, w)
  | (Panic, w) => (Panic, w)
  end.

Definition lift {E A} (m : res E A) : io E A := λ w, (m, w).

(** A system call whose error is turned into the caller's error. *)
Definition call {E A} (f : World → syscall_result A * World) (wrap : IoError → E) : io E A :=
  λ w, match f w with
       | (inl e, w) => (Err (wrap e), w)
       | (inr a, w) => (Ok a, w)
       end.

(** A call for something that may be missing: [None] when it is not found. *)
Definition call_optional {E A} (f : World → syscall_result A * World) (wrap : IoError → E) :
    io E (option A) :=
  λ w, match f w with
       | (inl e, w) =>
           if io_kind e == ErrorKind.NotFound then (Ok None, w) else (Err (wrap e), w)
       | (inr a, w) => (Ok (Some a), w)
       end.

(** [Path::is_file]: errors count as no. *)
Definition is_file {E} (path : string) : io E bool := λ w,
  match fs_metadata path w with
  | (inl _, w) => (Ok false, w)
  | (inr metadata, w) => (Ok (md_is_file metadata), w)
  end.

Definition map_io_err {E F A} (f : E → F) (m : io E A) : io F A :=
  λ w, let '(r, w) := m w in (map_err f r, w).

(** What a successful sequence of steps went through. *)
Lemma io_bind_ok {E A B} (m : io E A) (f : A → io E B) w b w' :
  (m ≫= f) w = (Ok b, w') ↔ ∃ a w1, m w = (Ok a, w1) ∧ f a w1 = (Ok b, w').
Proof.
  unfold mbind, io_bind. destruct (m w) as [[a|e|] w1].
  - split; [by exists a, w1|]. intros (? & ? & [= -> ->] & ?). done.
  - split; [done|]. by intros (? & ? & ? & _).
  - split; [done|]. by intros (? & ? & ? & _).
Qed.
Lemma lift_ok {E A} (m : res E A) w a w' : lift m w = (Ok a, w') ↔ m = Ok a ∧ w' = w.
Proof. unfold lift. split; [by intros [= -> ->]|by intros [-> ->]]. Qed.
Lemma call_ok {E A} (f : World → syscall_result A * World) (wrap : IoError → E) w a w' :
  call f wrap w = (Ok a, w') ↔ f w = (inr a, w').
Proof.
  unfold call. destruct (f w) as [[e|b] w1]; split; try done; by intros [= -> ->].
Qed.
Lemma map_io_err_ok {E F A} (f : E → F) (m : io E A) w a w' :
  map_io_err f m w = (Ok a, w') ↔ m w = (Ok a, w').
Proof.
  unfold map_io_err. destruct (m w) as [[b|e|] w1]; simpl; split; try done;
    by intros [= -> ->].
Qed.

(** Computations that never panic, in any world. *)
Definition total {E A} (m : io E A) : Prop := ∀ w, (m w).1 ≠ Panic.

Lemma total_ret {E A} (a : A) : total (mret (M := io E) a).
Proof. done. Qed.
Lemma total_bind {E A B} (m : io E A) (f : A → io E B) :
  total m → (∀ w a w', m w = (Ok a, w') → total (f a)) → total (m ≫= f).
Proof.
  intros Hm Hf w. specialize (Hm w). unfold mbind, io_bind.
  destruct (m w) as [[a|e|] w1] eqn:E1; simpl in *; [|done..]. by apply (Hf w a w1).
Qed.
Lemma total_lift {E A} (m : res E A) : m ≠ Panic → total (lift m).
Proof. by intros Hm w. Qed.
Lemma total_call {E A} (f : World → syscall_result A * World) (wrap : IoError → E) :
  total (call f wrap).
Proof. intros w. unfold call. by destruct (f w) as [[]]. Qed.
Lemma total_call_optional {E A} (f : World → syscall_result A * World) (wrap : IoError → E) :
  total (call_optional f wrap).
Proof. intros w. unfold call_optional. destruct (f w) as [[e|]]; [|done]. by destruct (_ == _). Qed.
Lemma total_is_file {E} path : total (is_file (E := E) path).
Proof. intros w. unfold is_file. by destruct (fs_metadata path w) as [[]]. Qed.
Lemma total_map_io_err {E F A} (f : E → F) (m : io E A) : total m → total (map_io_err f m).
Proof.
  intros Hm w. specialize (Hm w). unfold map_io_err. by destruct (m w) as [[] ?].
Qed.
End io.
#[export] Hint Resolve total_ret total_call total_call_optional total_is_file total_map_io_err : xprobe.
#[export] Hint Resolve total_lift : xprobe.

(** Computations put together from ones that never panic. *)
Ltac total_steps :=
  repeat match goal with
  | |- total (_ ≫= _) => apply total_bind; [|intros ? ? ? _]
  | |- total (lift _) => apply total_lift; try discriminate; try solve [no_panic]
  | |- total (map_io_err _ _) => apply total_map_io_err
  | |- total (if ?b then _ else _) => destruct b
  | |- total (match ?x with _ => _ end) => destruct x
  | |- total _ => solve [auto with xprobe]
  end.

(** Split a successful run into its steps. *)
Ltac io_steps :=
  repeat match goal with
  | H : (_ ≫= _) _ = (Ok _, _) |- _ =>
      apply io_bind_ok in H;
      let a := fresh "a" in let w := fresh "w" in let Hs := fresh "Hio" in
      destruct H as (a & w & Hs & H)
  | H : lift _ _ = (Ok _, _) |- _ => apply lift_ok in H; destruct H as [H ?]; subst
  | H : map_io_err _ _ _ = (Ok _, _) |- _ => apply map_io_err_ok in H
  | H : mret _ _ = (Ok _, _) |- _ => injection H as <- <-
  end.
