(* ===== verification/Process.v ===== *)
(** * The inspected process

    The data of [xprobe/protocol/src/process.rs], [capability.rs] and
    [resolve.rs] that the host side passes around. *)
From S2P Require Import Prelude BTree RustString Text Protocol.
#[local] Open Scope Z_scope.

Record TargetIdentity := BuildTargetIdentity {
  target_pid : Z;
  target_process_start_time : Z }.
#[export] Instance TargetIdentity_eq_dec : EqDecision TargetIdentity.
Proof. solve_decision. Defined.

Record Capabilities := BuildCapabilities {
  cap_uprobe : bool;
  cap_uretprobe : bool;
  cap_tracepoint : bool;
  cap_cuda_callback : bool;
  cap_cuda_activity : bool;
  cap_runtime_injection : bool }.

Record CheckResult := BuildCheckResult {
  check_status : CheckStatus;
  check_detail : option string }.

Record ProcessCredentials := BuildProcessCredentials {
  cred_real_uid : Z;
  cred_effective_uid : Z;
  cred_saved_uid : Z;
  cred_filesystem_uid : Z;
  cred_real_gid : Z;
  cred_effective_gid : Z;
  cred_saved_gid : Z;
  cred_filesystem_gid : Z }.

Record CgroupEntry := BuildCgroupEntry {
  cg_hierarchy_id : Z;
  cg_controllers : list string;
  cg_path : string }.

Record ProcessCudaState := BuildProcessCudaState {
  pcs_libcuda_loaded : bool;
  pcs_libcudart_loaded : bool;
  pcs_xprobe_cupti_loaded : bool;
  pcs_context : CheckResult }.

Record ProcessReport := BuildProcessReport {
  pr_schema_version : SchemaVersion;
  pr_ok : bool;
  pr_target : TargetIdentity;
  pr_executable : string;
  pr_command_line : list string;
  pr_credentials : ProcessCredentials;
  pr_namespace_pids : list Z;
  pr_mount_namespace : string;
  pr_cgroups : list CgroupEntry;
  pr_loaded_libraries : list string;
  pr_cuda : ProcessCudaState;
  pr_capabilities : Capabilities }.

Record ProcessMapping := BuildProcessMapping {
  pm_start_address : Z;
  pm_end_address : Z;
  pm_file_offset : Z }.

Record ResolvedProbe := BuildResolvedProbe {
  rp_schema_version : SchemaVersion;
  rp_ok : bool;
  rp_target : TargetIdentity;
  rp_selector : string;
  rp_binary_path : string;
  rp_build_id : option string;
  rp_object_kind : ElfObjectKind;
  rp_probe_kind : HostProbeKind;
  rp_symbol : option string;
  rp_symbol_demangled : option string;
  rp_symbol_virtual_address : option Z;
  rp_symbol_size : option Z;
  rp_file_offset : Z;
  rp_runtime_address : Z;
  rp_mapping : ProcessMapping }.
