(* ===== verification/CuptiCompat.v ===== *)
(** * CUPTI compatibility

    [xprobe/core/src/cupti_compat.rs]: the CUDA major version a target uses,
    read off its loaded libraries, and the CUPTI library that matches it.  The
    installed libraries come from the linker cache and the file system. *)
From S2P Require Import Prelude BTree RustString Text Protocol Os Process.
#[local] Open Scope Z_scope.

Definition SUPPORTED_MAJORS : list Z := [12; 13].

Record CuptiLibrary := BuildCuptiLibrary {
  cl_major : Z;
  cl_path : string;
  cl_already_loaded : bool }.

Module CuptiCompatibilityError.
Inductive CuptiCompatibilityError : Type :=
| ConflictingTargetVersions (majors : list Z)
| UnsupportedMajor (major : Z)
| AmbiguousInstalledVersions (majors : list Z)
| LibraryNotFound (major : option Z)
| LinkerCache (detail : string)
| Io (path : string) (source : IoError).
End CuptiCompatibilityError.
Abbreviation CuptiCompatibilityError := CuptiCompatibilityError.CuptiCompatibilityError.

Definition cupti_error_code (e : CuptiCompatibilityError) : ErrorCode :=
  match e with
  | CuptiCompatibilityError.UnsupportedMajor _
  | CuptiCompatibilityError.ConflictingTargetVersions _
  | CuptiCompatibilityError.AmbiguousInstalledVersions _ => ErrorCode.UnsupportedCudaVersion
  | CuptiCompatibilityError.LibraryNotFound _ | CuptiCompatibilityError.LinkerCache _
  | CuptiCompatibilityError.Io _ _ => ErrorCode.CuptiNotAvailable
  end.

(** [format!("{majors:?}")]. *)
Definition debug_majors (majors : list Z) : string :=
  "[" +:+ join ", " (map to_decimal majors) +:+ "]".

(** [Display]. *)
Definition cupti_error_display (e : CuptiCompatibilityError) : string :=
  match e with
  | CuptiCompatibilityError.ConflictingTargetVersions majors =>
      "target maps conflicting CUDA/CUPTI majors " +:+ debug_majors majors
  | CuptiCompatibilityError.UnsupportedMajor major =>
      "CUDA/CUPTI major " +:+ to_decimal major +:+ " is unsupported; expected 12 or 13"
  | CuptiCompatibilityError.AmbiguousInstalledVersions majors =>
      "target CUDA major is not observable and installed CUPTI majors "
        +:+ debug_majors majors +:+ " are ambiguous"
  | CuptiCompatibilityError.LibraryNotFound (Some major) =>
      "libcupti.so." +:+ to_decimal major +:+ " was not found"
  | CuptiCompatibilityError.LibraryNotFound None =>
      "no supported libcupti.so.12 or libcupti.so.13 was found"
  | CuptiCompatibilityError.LinkerCache detail =>
      "failed to inspect the dynamic linker cache: " +:+ detail
  | CuptiCompatibilityError.Io path source =>
      "failed to inspect " +:+ path +:+ ": " +:+ io_message source
  end.

Definition library_major (path prefix : string) : option Z :=
  file_name ← file_name path;
  suffix ← strip_prefix prefix file_name;
  piece ← head (split "." suffix);
  parse_u32 piece.

(** A [BTreeSet<u32>]: sorted and without duplicates. *)
Definition major_set (l : list Z) : btree Z () := foldl (λ m z, bt_insert z () m) [] l.

Definition collect_majors (libraries : list string) (prefix : string) : btree Z () :=
  major_set (omap (λ library, library_major library prefix) libraries).
Definition collect_target_cupti_majors (libraries : list string) : btree Z () :=
  major_set (filter (λ major, major < 100) (bt_keys (collect_majors libraries "libcupti.so."))).

Definition ensure_supported (major : Z) : res CuptiCompatibilityError unit :=
  if bool_decide (major ∈ SUPPORTED_MAJORS) then Ok ()
  else Err (CuptiCompatibilityError.UnsupportedMajor major).

Definition target_major_from_libraries (libraries : list string) :
    res CuptiCompatibilityError (option Z) :=
  let cupti := collect_target_cupti_majors libraries in
  let runtime := collect_majors libraries "libcudart.so." in
  let observed := bt_keys (major_set (bt_keys cupti ++ bt_keys runtime)) in
  if 1 <? len observed then
    Err (CuptiCompatibilityError.ConflictingTargetVersions observed)
  else
    match head observed with
    | Some major => _ ← ensure_supported major; Ok (Some major)
    | None => Ok None
    end.

Definition target_major (report : ProcessReport) : res CuptiCompatibilityError (option Z) :=
  target_major_from_libraries (pr_loaded_libraries report).

Definition loaded_library (libraries : list string) (prefix : string) (major : Z) :
    option string :=
  find_map (λ library,
    if (library_major library prefix == Some major) && negb (ends_with " (deleted)" library)
    then Some library else None) libraries.

(** [parse_linker_cache]: the first entry of each supported major. *)
Definition parse_linker_cache (output : string) : btree Z string :=
  foldl (λ libraries line,
    match split_once " => " (trim line) with
    | None => libraries
    | Some (name, path) =>
        match library_major (default "" (head (split_whitespace name))) "libcupti.so." with
        | None => libraries
        | Some major =>
            if bool_decide (major ∈ SUPPORTED_MAJORS) then
              match bt_get major libraries with
              | Some _ => libraries
              | None => bt_insert major path libraries
              end
            else libraries
        end
    end) [] (lines output).

(** ** Installed libraries *)
Section installed.
Context `{Os}.

Definition linker_cache_libraries : io CuptiCompatibilityError (btree Z string) :=
  output ← call_optional (command_output "ldconfig" ["-p"%string])
    (CuptiCompatibilityError.Io "ldconfig");
  match output with
  | None => mret []
  | Some output =>
      if negb (out_success output) then
        lift (Err (CuptiCompatibilityError.LinkerCache (trim (from_utf8_lossy (out_stderr output)))))
      else mret (parse_linker_cache (from_utf8_lossy (out_stdout output)))
  end.

(** The directories under [/usr/local] named after the major version. *)
Fixpoint cuda_roots (major : Z) (entries : list (syscall_result (list Z))) :
    res CuptiCompatibilityError (list string) :=
  match entries with
  | [] => Ok []
  | inl source :: _ => Err (CuptiCompatibilityError.Io "/usr/local" source)
  | inr name :: entries =>
      roots ← cuda_roots major entries;
      Ok match from_utf8 name with
         | Some name =>
             if starts_with ("cuda-" +:+ to_decimal major) name
             then ("/usr/local/" +:+ name) :: roots else roots
         | None => roots
         end
  end.
Definition root_paths (major : Z) (root : string) : list string :=
  let library := "libcupti.so." +:+ to_decimal major in
  [root +:+ "/extras/CUPTI/lib64/" +:+ library;
   root +:+ "/targets/x86_64-linux/lib/" +:+ library;
   root +:+ "/lib64/" +:+ library].
Definition known_cuda_paths (major : Z) : io CuptiCompatibilityError (list string) :=
  entries ← call_optional (fs_read_dir "/usr/local") (CuptiCompatibilityError.Io "/usr/local");
  roots ← lift (cuda_roots major (default [] entries));
  mret (concat (root_paths major <$> "/usr/local/cuda"%string :: roots)).

(** The first path that is a file replaces the linker cache's entry. *)
Fixpoint first_file (major : Z) (paths : list string) (libraries : btree Z string) :
    io CuptiCompatibilityError (btree Z string) :=
  match paths with
  | [] => mret libraries
  | path :: paths =>
      file ← is_file path;
      if file : bool then mret (bt_insert major path libraries) else first_file major paths libraries
  end.
Fixpoint add_known_libraries (majors : list Z) (libraries : btree Z string) :
    io CuptiCompatibilityError (btree Z string) :=
  match majors with
  | [] => mret libraries
  | major :: majors =>
      paths ← known_cuda_paths major;
      libraries ← first_file major paths libraries;
      add_known_libraries majors libraries
  end.
Definition installed_libraries : io CuptiCompatibilityError (btree Z string) :=
  libraries ← linker_cache_libraries;
  add_known_libraries SUPPORTED_MAJORS libraries.

(** [resolve_library]: what is installed is looked at only when no loaded library matches. *)
Definition resolve_library (report : ProcessReport) : io CuptiCompatibilityError CuptiLibrary :=
  target_major ← lift (target_major report);
  match target_major ≫= loaded_library (pr_loaded_libraries report) "libcupti.so.", target_major with
  | Some path, Some major => mret (BuildCuptiLibrary major path true)
  | _, _ =>
      installed ← installed_libraries;
      major ← lift match target_major with
                   | Some major => Ok major
                   | None =>
                       if 1 <? len installed then
                         Err (CuptiCompatibilityError.AmbiguousInstalledVersions (bt_keys installed))
                       else ok_or (head (bt_keys installed))
                              (CuptiCompatibilityError.LibraryNotFound None)
                   end;
      path ← lift (ok_or (bt_get major installed)
                     (CuptiCompatibilityError.LibraryNotFound (Some major)));
      mret (BuildCuptiLibrary major path false)
  end.

Lemma cuda_roots_no_panic major entries : cuda_roots major entries ≠ Panic.
Proof. induction entries as [|[e|name] entries IH]; simpl; [done..|]. no_panic. Qed.
Lemma first_file_total major paths : ∀ libraries, total (first_file major paths libraries).
Proof. induction paths as [|path paths IH]; intros libraries; simpl; total_steps; apply IH. Qed.
Lemma known_cuda_paths_total major : total (known_cuda_paths major).
Proof. unfold known_cuda_paths. total_steps. apply cuda_roots_no_panic. Qed.
Lemma installed_libraries_total : total installed_libraries.
Proof.
  unfold installed_libraries, linker_cache_libraries. total_steps.
  generalize a. induction SUPPORTED_MAJORS as [|major majors IH]; intros l; cbn; total_steps.
  - apply known_cuda_paths_total.
  - apply first_file_total.
Qed.
End installed.

(** ** Lemmas *)
Lemma major_set_wf l : bt_wf (major_set l).
Proof.
  unfold major_set. induction l as [|z l IH] using rev_ind; [apply bt_wf_nil|].
  rewrite foldl_snoc. by apply bt_wf_insert.
Qed.
Lemma major_set_elem l z : z ∈ bt_keys (major_set l) ↔ z ∈ l.
Proof.
  assert (bt_get z (major_set l) = if decide (z ∈ l) then Some () else None) as Hget.
  { unfold major_set. induction l as [|x l IH] using rev_ind; [done|].
    rewrite foldl_snoc. destruct (decide (z = x)) as [->|Hne].
    - rewrite bt_get_insert_eq, decide_True; [done|]. apply elem_of_app. right. by left.
    - rewrite bt_get_insert_ne, IH by done.
      destruct (decide (z ∈ l)) as [Hin|Hin], (decide (z ∈ l ++ [x])) as [Hin'|Hin']; try done.
      + destruct Hin'. apply elem_of_app. by left.
      + apply elem_of_app in Hin' as [?| ->%list_elem_of_singleton]; done. }
  split.
  - intros Hin. destruct (decide (z ∈ l)); [done|].
    by destruct (bt_get_None_keys z _ (major_set_wf l) Hget).
  - intros Hin. rewrite decide_True in Hget by done.
    apply bt_get_elem in Hget; [|apply major_set_wf].
    apply list_elem_of_fmap. by exists (z, ()).
Qed.

(** The majors a target exposes: of its CUDA runtime, and of CUPTI except the
    calendar versions (100 and above). *)
Definition observes (libraries : list string) (major : Z) : Prop :=
  (∃ library, library ∈ libraries ∧ library_major library "libcudart.so." = Some major)
  ∨ (∃ library, library ∈ libraries ∧ library_major library "libcupti.so." = Some major
       ∧ major < 100).

Lemma observed_elem libraries major :
  major ∈ bt_keys (major_set (bt_keys (collect_target_cupti_majors libraries)
                              ++ bt_keys (collect_majors libraries "libcudart.so.")))
  ↔ observes libraries major.
Proof.
  rewrite major_set_elem, elem_of_app. unfold collect_target_cupti_majors, collect_majors.
  rewrite !major_set_elem, list_elem_of_filter, !major_set_elem, !list_elem_of_omap.
  unfold observes. split.
  - intros [(? & l & ? & ?)|(l & ? & ?)]; [right|left]; eauto.
  - intros [(l & ? & ?)|(l & ? & ? & ?)]; [right|left]; eauto.
Qed.
Lemma sorted_keys_two (m : btree Z ()) :
  bt_wf m → 1 < len (bt_keys m) ↔ ∃ a b, a ∈ bt_keys m ∧ b ∈ bt_keys m ∧ a ≠ b.
Proof.
  intros Hwf. destruct m as [|[a []] [|[b []] m]]; simpl; split.
  - done.
  - by intros (a & b & ?%elem_of_nil & _).
  - done.
  - intros (x & y & ->%list_elem_of_singleton & ->%list_elem_of_singleton & ?). done.
  - intros _. exists a, b. split; [by left|]. split; [right; by left|].
    apply bt_wf_cons in Hwf as [Hlt _]. apply Forall_cons in Hlt as [Hlt _].
    by apply klt_ne.
  - intros _. rewrite !len_cons. pose proof (len_nonneg m). unfold len. simpl. lia.
Qed.

(** The CUDA major reported for a target.  A result exists only if all
    versions the loaded libraries expose agree on a supported major, no result
    is given only if none is exposed, and two different exposed majors are
    always refused as a conflict. *)
Theorem target_major_spec (libraries : list string) :
  (∀ major, target_major_from_libraries libraries = Ok (Some major) →
     (major = 12 ∨ major = 13) ∧ ∀ m, observes libraries m ↔ m = major)
  ∧ (target_major_from_libraries libraries = Ok None ↔ ∀ m, ¬ observes libraries m)
  ∧ ((∃ majors, target_major_from_libraries libraries
        = Err (CuptiCompatibilityError.ConflictingTargetVersions majors))
     ↔ ∃ a b, observes libraries a ∧ observes libraries b ∧ a ≠ b).
Proof.
  unfold target_major_from_libraries.
  pose proof (observed_elem libraries) as Hobs.
  set (m := major_set _) in *. pose proof (sorted_keys_two m (major_set_wf _)) as Htwo.
  setoid_rewrite Hobs in Htwo. destruct (Z.ltb_spec 1 (len (bt_keys m))) as [Hlt|Hge].
  { apply Htwo in Hlt as Hab. destruct Hab as (a & b & Ha & Hb & Hne).
    split_and!; [done| |]; split; try done; eauto.
    intros Hnone. by destruct (Hnone a). }
  assert (¬ ∃ a b, observes libraries a ∧ observes libraries b ∧ a ≠ b) as Hno by (rewrite <-Htwo; lia).
  destruct (bt_keys m) as [|major [|]]; simpl.
  - split_and!; [done| |].
    + split; [|done]. intros _ x ?%Hobs. by eapply elem_of_nil.
    + split; [by intros [? ?]|done].
  - unfold ensure_supported. assert (∀ x, observes libraries x ↔ x = major) as Hx.
    { intros x. by rewrite <-Hobs, list_elem_of_singleton. }
    case_bool_decide as Hs; simpl; split_and!.
    + intros ? [= <-]. split; [|done]. unfold SUPPORTED_MAJORS in Hs.
      rewrite !elem_of_cons in Hs. destruct Hs as [?|[?|Hn%elem_of_nil]]; [auto..|done].
    + split; [done|]. intros Hnone. destruct (Hnone major). by apply Hx.
    + split; [by intros [? ?]|done].
    + done.
    + split; [done|]. intros Hnone. destruct (Hnone major). by apply Hx.
    + split; [by intros [? ?]|done].
  - rewrite !len_cons in Hge. pose proof (len_nonneg l). lia.
Qed.
