(* ===== verification/Inspect.v ===== *)
(** * Process inspection

    [xprobe/core/src/inspect.rs]: reading and parsing procfs, and verifying
    that a process identity still holds.  Its call of [doctor::run], which
    queries the machine rather than the target, is an argument. *)
From S2P Require Import Prelude BTree RustString Text Protocol Os Process.
#[local] Open Scope Z_scope.

(** [InspectError]; [Environment] keeps the text of the doctor's error. *)
Module InspectError.
Inductive InspectError : Type :=
| TargetNotFound (pid : Z)
| TargetExited (pid : Z)
| TargetReused (pid : Z)
| PermissionDenied (pid : Z) (path : string)
| Io (path : string) (source : IoError)
| InvalidProc (path reason : string)
| Environment (error : string).
End InspectError.
Abbreviation InspectError := InspectError.InspectError.

Definition inspect_error_code (e : InspectError) : ErrorCode :=
  match e with
  | InspectError.TargetNotFound _ => ErrorCode.TargetNotFound
  | InspectError.TargetExited _ => ErrorCode.TargetExited
  | InspectError.TargetReused _ => ErrorCode.TargetReused
  | InspectError.PermissionDenied _ _ => ErrorCode.PermissionDenied
  | InspectError.Io _ _ | InspectError.InvalidProc _ _ | InspectError.Environment _ =>
      ErrorCode.Internal
  end.
Definition inspect_error_display (e : InspectError) : string :=
  match e with
  | InspectError.TargetNotFound pid => "target PID " +:+ to_decimal pid +:+ " was not found"
  | InspectError.TargetExited pid =>
      "target PID " +:+ to_decimal pid +:+ " exited during inspection"
  | InspectError.TargetReused pid =>
      "target PID " +:+ to_decimal pid +:+ " was reused during inspection"
  | InspectError.PermissionDenied pid path =>
      "permission denied while inspecting PID " +:+ to_decimal pid +:+ " at " +:+ path
  | InspectError.Io path source => "failed to read " +:+ path +:+ ": " +:+ io_message source
  | InspectError.InvalidProc path reason => "invalid procfs data in " +:+ path +:+ ": " +:+ reason
  | InspectError.Environment error => "environment inspection failed: " +:+ error
  end.
Definition inspect_error_recoverable (e : InspectError) : bool :=
  match e with
  | InspectError.TargetNotFound _ | InspectError.TargetExited _
  | InspectError.TargetReused _ | InspectError.PermissionDenied _ _ => true
  | _ => false
  end.

(** ** Parsing *)
Definition proc_path (pid : Z) (entry : string) : string :=
  "/proc/" +:+ to_decimal pid +:+ "/" +:+ entry.

Local Abbreviation invalid path reason := (InspectError.InvalidProc path reason).

Definition parse_start_time (stat path : string) : res InspectError Z :=
  '(_, tail) ← ok_or (rsplit_once ")" stat) (invalid path "missing command terminator");
  value ← ok_or (split_whitespace tail !! 19%nat) (invalid path "missing process start time");
  ok_or (parse_u64 value) (invalid path "invalid process start time").

Definition parse_parent_pid (stat path : string) : res InspectError Z :=
  '(_, tail) ← ok_or (rsplit_once ")" stat) (invalid path "missing command terminator");
  parent ← ok_or (split_whitespace tail !! 1%nat) (invalid path "missing parent PID");
  ok_or (parse_u32 parent) (invalid path "invalid parent PID").

Definition parse_command_line (bytes : list Z) (pid : Z) : res InspectError (list string) :=
  res_mapM (λ argument, ok_or (from_utf8 argument)
      (invalid (proc_path pid "cmdline") "argument is not valid UTF-8"))
    (filter (λ argument, argument ≠ []) (split_bytes 0 bytes)).

Definition parse_four_ids (status field : string) (pid : Z) :
    res InspectError (Z * Z * Z * Z) :=
  let path := proc_path pid "status" in
  rest ← ok_or (find_map (strip_prefix field) (lines status))
    (invalid path ("missing " +:+ field));
  values ← res_mapM (λ value, ok_or (parse_u32 value) (invalid path ("invalid " +:+ field)))
    (split_whitespace rest);
  match values with
  | [a; b; c; d] => Ok (a, b, c, d)
  | _ => Err (invalid path ("expected four values for " +:+ field))
  end.

Definition parse_credentials (status : string) (pid : Z) : res InspectError ProcessCredentials :=
  '(ru, eu, su, fu) ← parse_four_ids status "Uid:" pid;
  '(rg, eg, sg, fg) ← parse_four_ids status "Gid:" pid;
  Ok (BuildProcessCredentials ru eu su fu rg eg sg fg).

Definition parse_namespace_pids (status : string) (pid : Z) : res InspectError (list Z) :=
  let path := proc_path pid "status" in
  rest ← ok_or (find_map (strip_prefix "NSpid:") (lines status)) (invalid path "missing NSpid");
  res_mapM (λ value, ok_or (parse_u32 value) (invalid path "invalid NSpid"))
    (split_whitespace rest).

Definition parse_cgroup_line (path line : string) : res InspectError CgroupEntry :=
  let fields := splitn 3 ":" line in
  hierarchy ← ok_or (fields !! 0%nat) (invalid path "missing cgroup hierarchy");
  hierarchy_id ← ok_or (parse_u32 hierarchy) (invalid path "invalid cgroup hierarchy");
  controllers ← ok_or (fields !! 1%nat) (invalid path "missing cgroup controllers");
  cgroup_path ← ok_or (fields !! 2%nat) (invalid path "missing cgroup path");
  Ok (BuildCgroupEntry hierarchy_id
        (filter (λ controller, is_empty controller = false) (split "," controllers))
        cgroup_path).
Definition parse_cgroups (cgroup : string) (pid : Z) : res InspectError (list CgroupEntry) :=
  res_mapM (parse_cgroup_line (proc_path pid "cgroup")) (lines cgroup).

(** [maps_path]: the rest of the line after its fifth field. *)
Fixpoint maps_path_loop (line : string) (fields_seen : Z) (in_field : bool) : option string :=
  match line with
  | EmptyString => None
  | String character rest =>
      if is_whitespace character then
        if in_field then
          let fields_seen := fields_seen + 1 in
          if fields_seen =? 5 then Some (trim_start line)
          else maps_path_loop rest fields_seen false
        else maps_path_loop rest fields_seen in_field
      else maps_path_loop rest fields_seen true
  end.
Definition maps_path (line : string) : option string := maps_path_loop line 0 false.

(** Sorted and without duplicates, as collected from a [BTreeSet]. *)
Definition btree_set (l : list string) : list string :=
  bt_keys (foldl (λ m s, bt_insert s () m) [] l).
Definition parse_loaded_libraries (maps : string) : list string :=
  btree_set (filter (λ path, starts_with "/" path && contains ".so" path = true)
               (omap maps_path (lines maps))).
Definition contains_library (libraries : list string) (name : string) : bool :=
  existsb (λ path, match file_name path with
                   | Some file_name => starts_with name file_name
                   | None => false
                   end) libraries.

(** ** Reading *)
Section inspect.
Context `{Os}.

Definition process_io_error (pid : Z) (path : string) (initial : bool) (source : IoError) :
    InspectError :=
  match io_kind source with
  | ErrorKind.NotFound =>
      if initial then InspectError.TargetNotFound pid else InspectError.TargetExited pid
  | ErrorKind.PermissionDenied => InspectError.PermissionDenied pid path
  | ErrorKind.Other => InspectError.Io path source
  end.

Definition read_start_time (pid : Z) (initial : bool) : io InspectError Z :=
  let path := proc_path pid "stat" in
  stat ← call (fs_read_to_string path) (process_io_error pid path initial);
  lift (parse_start_time stat path).
Definition read_parent_pid (pid : Z) : io InspectError Z :=
  let path := proc_path pid "stat" in
  stat ← call (fs_read_to_string path) (process_io_error pid path false);
  lift (parse_parent_pid stat path).

Definition read_text (pid : Z) (entry : string) : io InspectError string :=
  let path := proc_path pid entry in
  call (fs_read_to_string path) (process_io_error pid path false).
Definition read_bytes (pid : Z) (entry : string) : io InspectError (list Z) :=
  let path := proc_path pid entry in
  call (fs_read path) (process_io_error pid path false).
Definition read_link (pid : Z) (entry : string) : io InspectError string :=
  let path := proc_path pid entry in
  target ← call (fs_read_link path) (process_io_error pid path false);
  lift (if utf8_valid (bytes_of_string target) then Ok target
        else Err (InspectError.InvalidProc path "path is not valid UTF-8")).

Definition verify_target (target : TargetIdentity) : io InspectError unit :=
  current_start_time ← read_start_time (target_pid target) false;
  lift (if negb (current_start_time =? target_process_start_time target)
        then Err (InspectError.TargetReused (target_pid target)) else Ok ()).

(** [inspect::run]; [doctor] gives the capabilities of the machine. *)
Definition inspect_run (doctor : io string Capabilities) (pid : Z) :
    io InspectError ProcessReport :=
  first_start_time ← read_start_time pid true;
  executable ← read_link pid "exe";
  cmdline ← read_bytes pid "cmdline";
  command_line ← lift (parse_command_line cmdline pid);
  status ← read_text pid "status";
  credentials ← lift (parse_credentials status pid);
  namespace_pids ← lift (parse_namespace_pids status pid);
  mount_namespace ← read_link pid "ns/mnt";
  cgroup ← read_text pid "cgroup";
  cgroups ← lift (parse_cgroups cgroup pid);
  maps ← read_text pid "maps";
  let loaded_libraries := parse_loaded_libraries maps in
  final_start_time ← read_start_time pid false;
  _ ← lift (if negb (first_start_time =? final_start_time)
            then Err (InspectError.TargetReused pid) else Ok ());
  let libcuda_loaded := contains_library loaded_libraries "libcuda.so" in
  let libcudart_loaded := contains_library loaded_libraries "libcudart.so" in
  let xprobe_cupti_loaded := contains_library loaded_libraries "libxprobe-cupti.so" in
  let context :=
    if libcuda_loaded
    then BuildCheckResult CheckStatus.Unknown
           (Some "CUDA context state is not externally observable")%string
    else BuildCheckResult CheckStatus.Unavailable
           (Some "libcuda is not loaded in the target process")%string in
  local_capabilities ← map_io_err InspectError.Environment doctor;
  mret (BuildProcessReport SchemaVersion.V2 true (BuildTargetIdentity pid first_start_time)
          executable command_line credentials namespace_pids mount_namespace cgroups
          loaded_libraries
          (BuildProcessCudaState libcuda_loaded libcudart_loaded xprobe_cupti_loaded context)
          (BuildCapabilities (cap_uprobe local_capabilities) (cap_uretprobe local_capabilities)
             (cap_tracepoint local_capabilities) xprobe_cupti_loaded xprobe_cupti_loaded
             (cap_runtime_injection local_capabilities))).

(** ** The start time is found behind any command name *)
Lemma split_whitespace_space s : split_whitespace (String " " s) = split_whitespace s.
Proof. done. Qed.

(** A word: nonempty and without white space. *)
Definition is_word (s : string) : bool :=
  negb (is_empty s) && all_bytes (λ c, negb (is_whitespace c)) s.

Lemma split_whitespace_word s rest :
  is_word s = true →
  split_whitespace (s +:+ String " " rest) = s :: split_whitespace rest.
Proof.
  unfold is_word. induction s as [|c s IH]; simpl; [done|]. intros Hs. bool_props.
  rewrite H0. destruct s as [|d s]; simpl in *; [done|].
  bool_props. destruct (is_whitespace d) eqn:E; [done|]. simpl in *.
  rewrite IH by done. done.
Qed.
Lemma split_whitespace_last s : is_word s = true → split_whitespace s = [s].
Proof.
  unfold is_word. induction s as [|c s IH]; simpl; [done|]. intros Hs. bool_props.
  rewrite H0. destruct s as [|d s]; simpl in *; [done|].
  bool_props. destruct (is_whitespace d) eqn:E; [done|]. rewrite IH by done. done.
Qed.
Lemma split_whitespace_join words :
  Forall (λ s, is_word s = true) words → split_whitespace (join " " words) = words.
Proof.
  induction 1 as [|s words Hs Hw IH]; [done|]. destruct words as [|t words].
  - by apply split_whitespace_last.
  - change (join " " (s :: t :: words)) with (s +:+ String " " (join " " (t :: words))).
    rewrite split_whitespace_word by done. by rewrite IH.
Qed.

Lemma no_paren_join words :
  Forall (λ s, contains_char ")" s = false) words → contains_char ")" (join " " words) = false.
Proof.
  induction 1 as [|s words Hs Hw IH]; [done|]. destruct words as [|t words]; [done|].
  change (join " " (s :: t :: words)) with (s +:+ " " +:+ join " " (t :: words)).
  rewrite !contains_char_app, Hs, IH. done.
Qed.

(** A [/proc/<pid>/stat] line: the PID, the command in parentheses, the fields. *)
Definition stat_line (pid command : string) (fields : list string) : string :=
  pid +:+ " (" +:+ command +:+ ") " +:+ join " " fields.

Lemma parse_start_time_stat pid command fields path :
  Forall (λ s, is_word s = true ∧ contains_char ")" s = false) fields →
  parse_start_time (stat_line pid command fields) path =
  value ← ok_or (fields !! 19%nat)
            (InspectError.InvalidProc path "missing process start time");
  ok_or (parse_u64 value) (InspectError.InvalidProc path "invalid process start time").
Proof.
  intros Hf. unfold parse_start_time, stat_line.
  assert (Forall (λ s, is_word s = true) fields) as Hw
    by (eapply Forall_impl; [exact Hf|]; by intros s []).
  assert (Forall (λ s, contains_char ")" s = false) fields) as Hp
    by (eapply Forall_impl; [exact Hf|]; by intros s []).
  replace (pid +:+ " (" +:+ command +:+ ") " +:+ join " " fields)
    with ((pid +:+ " (" +:+ command) +:+ String ")" (String " " (join " " fields)))
    by (by rewrite !string_app_assoc).
  rewrite rsplit_once_app by (simpl; by apply no_paren_join). simpl.
  by rewrite split_whitespace_join.
Qed.

Lemma read_start_time_ok pid initial w t w' :
  read_start_time pid initial w = (Ok t, w') ↔
  ∃ stat, fs_read_to_string (proc_path pid "stat") w = (inr stat, w')
    ∧ parse_start_time stat (proc_path pid "stat") = Ok t.
Proof.
  unfold read_start_time. rewrite io_bind_ok. split.
  - intros (stat & w1 & Hread & Hparse). apply call_ok in Hread.
    apply lift_ok in Hparse as [Hparse ->]. by exists stat.
  - intros (stat & Hread & Hparse). exists stat, w'. rewrite call_ok, lift_ok. done.
Qed.

(** The start time is read correctly whatever the process is called.  For
    a stat line with any command text, including one with parentheses, white
    space and digits, the parser returns the twentieth field after the command
    (field 22 of proc(5)) as long as the fields themselves are words without a
    closing parenthesis, which the kernel guarantees. *)
Theorem start_time_any_command (pid command : string) (fields : list string)
    (path value : string) (t : Z)
    (Hfields : Forall (λ s, is_word s = true ∧ contains_char ")" s = false) fields)
    (Hvalue : fields !! 19%nat = Some value) (Ht : parse_u64 value = Some t) :
  parse_start_time (stat_line pid command fields) path = Ok t.
Proof. rewrite parse_start_time_stat by done. rewrite Hvalue. simpl. by rewrite Ht. Qed.

(** An identity check succeeds exactly when the process read at that moment
    has the recorded start time, so a PID that was reused is never accepted; a
    mismatch is reported as reuse and a vanished process as exited. *)
Theorem verify_target_spec (target : TargetIdentity) (w : World) :
  let path := proc_path (target_pid target) "stat" in
  (∀ w', verify_target target w = (Ok (), w') ↔
     ∃ stat, fs_read_to_string path w = (inr stat, w')
       ∧ parse_start_time stat path = Ok (target_process_start_time target))
  ∧ (∀ stat w' t, fs_read_to_string path w = (inr stat, w') →
       parse_start_time stat path = Ok t → t ≠ target_process_start_time target →
       verify_target target w = (Err (InspectError.TargetReused (target_pid target)), w'))
  ∧ (∀ e w', fs_read_to_string path w = (inl e, w') → io_kind e = ErrorKind.NotFound →
       verify_target target w = (Err (InspectError.TargetExited (target_pid target)), w')).
Proof.
  cbv zeta. split_and!.
  - intros w'. unfold verify_target. rewrite io_bind_ok. split.
    + intros (t & w1 & Hread & Hcheck). apply read_start_time_ok in Hread.
      apply lift_ok in Hcheck as [Hcheck ->].
      destruct (Z.eqb_spec t (target_process_start_time target)); [by subst|done].
    + intros Hread. exists (target_process_start_time target), w'.
      rewrite read_start_time_ok, lift_ok, Z.eqb_refl. done.
  - intros stat w' t Hread Hparse Hne. unfold verify_target, read_start_time, mbind, io_bind, call, lift.
    rewrite Hread, Hparse. by rewrite (proj2 (Z.eqb_neq _ _)).
  - intros e w' Hread Hkind. unfold verify_target, read_start_time, mbind, io_bind, call, lift.
    rewrite Hread. unfold process_io_error. by rewrite Hkind.
Qed.

(** A report describes a single process.  When an inspection succeeds, the
    start time it records was read before all other data and read again, with
    the same value, after them; the CUDA capabilities it claims for the target
    hold exactly when the xprobe agent is among the libraries it lists. *)
Theorem inspect_run_identity (doctor : io string Capabilities) (pid : Z) (w w' : World)
    (report : ProcessReport) (Hok : inspect_run doctor pid w = (Ok report, w')) :
  let t := target_process_start_time (pr_target report) in
  let agent := contains_library (pr_loaded_libraries report) "libxprobe-cupti.so" in
  target_pid (pr_target report) = pid
  ∧ (∃ w1, read_start_time pid true w = (Ok t, w1))
  ∧ (∃ w2 w3, read_start_time pid false w2 = (Ok t, w3))
  ∧ cap_cuda_callback (pr_capabilities report) = agent
  ∧ cap_cuda_activity (pr_capabilities report) = agent
  ∧ pcs_xprobe_cupti_loaded (pr_cuda report) = agent.
Proof.
  unfold inspect_run in Hok. io_steps. simpl.
  repeat match goal with Hs : (if ?b then Err _ else Ok _) = Ok _ |- _ =>
    destruct b eqn:?; [done|] end.
  bool_props. match goal with Heq : (?x =? ?y) = true |- _ => apply Z.eqb_eq in Heq; subst end.
  split; [done|]. split; [eauto|]. split; [eauto|]. done.
Qed.
End inspect.
