(* ===== verification/Doctor.v ===== *)
(** * Host capability checks

    [xprobe/core/src/doctor.rs]: the user and the capabilities read from
    [/proc/self/status], the kernel settings, the NVIDIA tools, what the checks
    together allow, and the warnings. *)
From S2P Require Import Prelude BTree RustString Text Protocol Os Process CuptiCompat Inspect.
#[local] Open Scope Z_scope.

Definition CAP_SYS_ADMIN : Z := 21.
Definition CAP_SYS_PTRACE : Z := 19.
Definition CAP_PERFMON : Z := 38.
Definition CAP_BPF : Z := 39.

Module DoctorError.
Inductive DoctorError : Type :=
| Io (path : string) (source : IoError)
| InvalidValue (path value : string)
| Command (program detail : string)
| Cupti (error : CuptiCompatibilityError).
End DoctorError.
Abbreviation DoctorError := DoctorError.DoctorError.

Definition parse_status_u32 (status field path : string) : res DoctorError Z :=
  value ← ok_or (find_map (strip_prefix field) (lines status)
                 ≫= λ value, head (split_whitespace value))
    (DoctorError.InvalidValue path field);
  ok_or (parse_u32 value) (DoctorError.InvalidValue path value).

Definition parse_status_hex (status field path : string) : res DoctorError Z :=
  value ← ok_or (trim <$> find_map (strip_prefix field) (lines status))
    (DoctorError.InvalidValue path field);
  ok_or (from_str_radix_16 value) (DoctorError.InvalidValue path value).

Definition has_capability (capabilities capability : Z) : bool :=
  negb (Z.land capabilities (Z.shiftl 1 capability) =? 0).

Definition check (status : CheckStatus) (detail : string) : CheckResult :=
  BuildCheckResult status (Some detail).

Definition ebpf_permission_check (effective_uid capabilities : Z) : CheckResult :=
  let allowed := (effective_uid =? 0)
    || (has_capability capabilities CAP_BPF && has_capability capabilities CAP_PERFMON)
    || has_capability capabilities CAP_SYS_ADMIN in
  if allowed then check CheckStatus.Available "effective BPF and perf privileges"
  else check CheckStatus.Restricted
         "requires root, CAP_BPF + CAP_PERFMON, or CAP_SYS_ADMIN".

Record SystemChecks := BuildSystemChecks {
  sc_btf : CheckResult;
  sc_ebpf_permissions : CheckResult;
  sc_kernel_lockdown : CheckResult;
  sc_perf_event_paranoid : CheckResult;
  sc_ptrace_scope : CheckResult;
  sc_nvidia_driver : CheckResult;
  sc_cuda_driver : CheckResult;
  sc_cuda_toolkit : CheckResult;
  sc_cupti : CheckResult }.

Record Environment := BuildEnvironment {
  env_operating_system : string;
  env_architecture : string;
  env_kernel_release : string;
  env_effective_uid : Z;
  env_container : option string;
  env_pid_namespace : string }.

Section doctor.
Context `{SerdeJson, Os}.

Record CapabilityReport := BuildCapabilityReport {
  cr_schema_version : SchemaVersion;
  cr_ok : bool;
  cr_capabilities : Capabilities;
  cr_environment : Environment;
  cr_checks : SystemChecks;
  cr_warnings : list Warning }.

Definition doctor_warning (code message : string) : Warning := BuildWarning code message [].
Definition warnings_for (checks : SystemChecks) : list Warning :=
  (if check_status (sc_ebpf_permissions checks) != CheckStatus.Available then
     [doctor_warning "BPF_PERMISSION_MISSING" "The current process cannot attach eBPF probes."]
   else [])
  ++ (if check_status (sc_nvidia_driver checks) != CheckStatus.Available then
        [doctor_warning "NVIDIA_DRIVER_UNAVAILABLE"
           "The NVIDIA driver is unavailable from this execution environment."]
      else [])
  ++ (if check_status (sc_cupti checks) != CheckStatus.Available then
        [doctor_warning "CUPTI_NOT_AVAILABLE"
           "CUPTI was not found in the dynamic linker cache or CUDA installation."]
      else [])
  ++ (if check_status (sc_kernel_lockdown checks) == CheckStatus.Restricted then
        [doctor_warning "KERNEL_LOCKDOWN" "Kernel lockdown may prevent probe attachment."]
      else []).

(** ** The checks *)
Definition read_required (path : string) : io DoctorError string :=
  value ← call (fs_read_to_string path) (DoctorError.Io path);
  mret (trim value).
Definition read_optional (path : string) : io DoctorError (option string) :=
  value ← call_optional (fs_read_to_string path) (DoctorError.Io path);
  mret (trim <$> value).
Definition path_exists (path : string) : io DoctorError bool :=
  call (fs_try_exists path) (DoctorError.Io path).
Definition optional_command (program : string) (arguments : list string) :
    io DoctorError (option Output) :=
  call_optional (command_output program arguments) (DoctorError.Io program).
Definition command_error_detail (output : Output) : string :=
  let stderr := trim (from_utf8_lossy (out_stderr output)) in
  if negb (is_empty stderr) then stderr
  else
    let stdout := trim (from_utf8_lossy (out_stdout output)) in
    if negb (is_empty stdout) then stdout
    else "command exited with " +:+ out_status output.

Definition path_check (path : string) : io DoctorError CheckResult :=
  exists_ ← path_exists path;
  mret (if exists_ : bool then check CheckStatus.Available path
        else check CheckStatus.Unavailable (path +:+ " not found")).
Definition integer_setting_check (path : string) (maximum : Z) : io DoctorError CheckResult :=
  raw ← read_optional path;
  match raw with
  | None => mret (check CheckStatus.Unknown (path +:+ " not found"))
  | Some raw =>
      value ← lift (ok_or (parse_i32 raw) (DoctorError.InvalidValue path raw));
      mret (check (if value <=? maximum then CheckStatus.Available else CheckStatus.Restricted)
              (i32_to_string value))
  end.
Definition lockdown_check : io DoctorError CheckResult :=
  let path := "/sys/kernel/security/lockdown" in
  value ← read_optional path;
  match value with
  | None => mret (check CheckStatus.Unknown (path +:+ " not found"))
  | Some value =>
      mret (check (if contains "[none]" value then CheckStatus.Available
                   else CheckStatus.Restricted) value)
  end.
Definition nvidia_driver_check : io DoctorError CheckResult :=
  version ← read_optional "/proc/driver/nvidia/version";
  match version with
  | Some version => mret (check CheckStatus.Available (default EmptyString (head (lines version))))
  | None =>
      output ← optional_command "nvidia-smi"
        ["--query-gpu=name,driver_version"; "--format=csv,noheader"]%string;
      match output with
      | None => mret (check CheckStatus.Unavailable "nvidia-smi not found")
      | Some output =>
          if out_success output then
            mret (check CheckStatus.Available (trim (from_utf8_lossy (out_stdout output))))
          else
            control ← path_exists "/dev/nvidiactl";
            device ← (if control : bool then mret true
                      else path_exists "/usr/lib/wsl/lib/libcuda.so.1");
            mret (check (if device : bool then CheckStatus.Restricted else CheckStatus.Unavailable)
                    (command_error_detail output))
      end
  end.
Definition linker_cache_contains (library : string) : io DoctorError bool :=
  output ← optional_command "ldconfig" ["-p"%string];
  match output with
  | None => mret false
  | Some output =>
      if negb (out_success output) then
        lift (Err (DoctorError.Command "ldconfig" (command_error_detail output)))
      else mret (contains library (from_utf8_lossy (out_stdout output)))
  end.
Definition cuda_driver_check (nvidia_driver : CheckResult) : io DoctorError CheckResult :=
  cached ← linker_cache_contains "libcuda.so";
  library_present ← (if cached : bool then mret true
                     else path_exists "/usr/lib/wsl/lib/libcuda.so.1");
  mret (if negb library_present then check CheckStatus.Unavailable "libcuda.so not found"
        else if check_status nvidia_driver == CheckStatus.Available
        then check CheckStatus.Available "libcuda.so found"
        else check CheckStatus.Restricted
               "libcuda.so found, but the NVIDIA runtime is unavailable").
Definition cuda_toolkit_check : io DoctorError CheckResult :=
  output ← optional_command "nvcc" ["--version"%string];
  match output with
  | Some output =>
      mret (if out_success output
            then check CheckStatus.Available
                   (default "nvcc available"%string (last (lines (from_utf8_lossy (out_stdout output)))))
            else check CheckStatus.Unavailable (command_error_detail output))
  | None =>
      installed ← path_exists "/usr/local/cuda/version.json";
      mret (if installed : bool then check CheckStatus.Available "/usr/local/cuda/version.json"
            else check CheckStatus.Unavailable "nvcc not found")
  end.
Definition cupti_check : io DoctorError CheckResult :=
  libraries ← map_io_err DoctorError.Cupti installed_libraries;
  mret (if len libraries =? 0
        then check CheckStatus.Unavailable "libcupti.so.12 and libcupti.so.13 not found"
        else check CheckStatus.Available
               (join "; " ((λ '(major, path), "CUDA " +:+ to_decimal major +:+ ": " +:+ path)
                           <$> libraries))).
Definition container_kind : io DoctorError (option string) :=
  docker ← path_exists "/.dockerenv";
  if docker : bool then mret (Some "docker"%string)
  else
    cgroup ← read_required "/proc/1/cgroup";
    mret (find_map (λ kind, if contains kind cgroup then Some kind else None)
            ["kubepods"; "containerd"; "docker"; "lxc"]%string).

(** [doctor::run], built for Linux on x86_64. *)
Definition doctor_run : io DoctorError CapabilityReport :=
  proc_status ← read_required "/proc/self/status";
  effective_uid ← lift (parse_status_u32 proc_status "Uid:" "/proc/self/status");
  effective_capabilities ← lift (parse_status_hex proc_status "CapEff:" "/proc/self/status");
  kernel_release ← read_required "/proc/sys/kernel/osrelease";
  pid_namespace ← call (fs_read_link "/proc/self/ns/pid") (DoctorError.Io "/proc/self/ns/pid");
  btf ← path_check "/sys/kernel/btf/vmlinux";
  perf_event_paranoid ← integer_setting_check "/proc/sys/kernel/perf_event_paranoid" 1;
  ptrace_scope ← integer_setting_check "/proc/sys/kernel/yama/ptrace_scope" 0;
  kernel_lockdown ← lockdown_check;
  let ebpf_permissions := ebpf_permission_check effective_uid effective_capabilities in
  nvidia_driver ← nvidia_driver_check;
  cuda_driver ← cuda_driver_check nvidia_driver;
  cuda_toolkit ← cuda_toolkit_check;
  cupti ← cupti_check;
  let host_probe_available := (check_status ebpf_permissions == CheckStatus.Available)
    && (check_status kernel_lockdown != CheckStatus.Restricted) in
  let cuda_available := (check_status nvidia_driver == CheckStatus.Available)
    && (check_status cuda_driver == CheckStatus.Available)
    && (check_status cupti == CheckStatus.Available) in
  let runtime_injection := (effective_uid =? 0)
    || has_capability effective_capabilities CAP_SYS_PTRACE
    || (check_status ptrace_scope == CheckStatus.Available) in
  let checks := BuildSystemChecks btf ebpf_permissions kernel_lockdown perf_event_paranoid
    ptrace_scope nvidia_driver cuda_driver cuda_toolkit cupti in
  container ← container_kind;
  mret (BuildCapabilityReport SchemaVersion.V2 true
          (BuildCapabilities host_probe_available host_probe_available host_probe_available
             cuda_available cuda_available runtime_injection)
          (BuildEnvironment "linux" "x86_64" kernel_release effective_uid container pid_namespace)
          checks (warnings_for checks)).

(** [Display], and [inspect::run] with the doctor's capabilities. *)
Definition doctor_error_display (e : DoctorError) : string :=
  match e with
  | DoctorError.Io path source => "failed to read " +:+ path +:+ ": " +:+ io_message source
  | DoctorError.InvalidValue path value => "invalid value in " +:+ path +:+ ": " +:+ debug_str value
  | DoctorError.Command program detail => program +:+ " failed: " +:+ detail
  | DoctorError.Cupti error => cupti_error_display error
  end.
Definition inspect_process (pid : Z) : io InspectError ProcessReport :=
  inspect_run (report ← map_io_err doctor_error_display doctor_run; mret (cr_capabilities report))
    pid.

(** ** Lemmas *)
Lemma has_capability_testbit capabilities capability :
  0 ≤ capability → has_capability capabilities capability = Z.testbit capabilities capability.
Proof.
  intros Hc. unfold has_capability. rewrite Z.shiftl_1_l.
  destruct (Z.testbit capabilities capability) eqn:E.
  - apply negb_true_iff, Z.eqb_neq. intros Hz.
    assert (Z.testbit (Z.land capabilities (2 ^ capability)) capability = false) as Hf
      by (rewrite Hz; apply Z.testbit_0_l).
    rewrite Z.land_spec, E, Z.pow2_bits_true in Hf by done. done.
  - apply negb_false_iff, Z.eqb_eq. apply Z.bits_inj'. intros i Hi.
    rewrite Z.land_spec, Z.testbit_0_l. destruct (decide (i = capability)) as [->|Hne].
    + by rewrite E.
    + rewrite Z.pow2_bits_false by done. apply andb_false_r.
Qed.

Lemma parse_four_ids_first status field path pid a b c d :
  parse_four_ids status field pid = Ok (a, b, c, d) →
  parse_status_u32 status field path = Ok a.
Proof.
  unfold parse_four_ids, parse_status_u32.
  destruct (find_map (strip_prefix field) (lines status)) as [rest|]; [|done]. simpl.
  destruct (split_whitespace rest) as [|value words]; [done|]. simpl.
  destruct (parse_u32 value) as [uid|]; [|done]. simpl.
  destruct (res_mapM _ words) as [values| |]; simpl; [|done..].
  destruct values as [|? [|? [|? [|]]]]; try done. by intros [= -> -> -> ->].
Qed.

Lemma ebpf_permission_available effective_uid capabilities :
  check_status (ebpf_permission_check effective_uid capabilities) = CheckStatus.Available
  ↔ effective_uid = 0
    ∨ (Z.testbit capabilities 39 = true ∧ Z.testbit capabilities 38 = true)
    ∨ Z.testbit capabilities 21 = true.
Proof.
  unfold ebpf_permission_check.
  rewrite !has_capability_testbit by done. unfold CAP_BPF, CAP_PERFMON, CAP_SYS_ADMIN.
  destruct (Z.eqb_spec effective_uid 0), (Z.testbit capabilities 39),
    (Z.testbit capabilities 38), (Z.testbit capabilities 21); simpl; naive_solver.
Qed.

Lemma parse_status_u32_error status field path :
  match parse_status_u32 status field path with
  | Ok _ => True
  | Err e => ∃ value, e = DoctorError.InvalidValue path value
  | Panic => False
  end.
Proof.
  unfold parse_status_u32.
  destruct (find_map (strip_prefix field) (lines status) ≫= _) as [value|]; simpl; [|by eauto].
  destruct (parse_u32 value); simpl; eauto.
Qed.
Lemma parse_status_hex_error status field path :
  match parse_status_hex status field path with
  | Ok _ => True
  | Err e => ∃ value, e = DoctorError.InvalidValue path value
  | Panic => False
  end.
Proof.
  unfold parse_status_hex. destruct (trim <$> _) as [value|]; simpl; [|by eauto].
  destruct (from_str_radix_16 value); simpl; eauto.
Qed.

(** The doctor never panics, whatever the system answers. *)
Lemma doctor_run_total : total doctor_run.
Proof.
  unfold doctor_run, path_check, integer_setting_check, lockdown_check, nvidia_driver_check,
    cuda_driver_check, linker_cache_contains, cuda_toolkit_check, cupti_check, container_kind,
    read_required, read_optional, path_exists, optional_command, parse_status_u32, parse_status_hex.
  total_steps. apply installed_libraries_total.
Qed.

(** The capabilities reported for the machine.  The doctor never panics.
    Host probes of all three kinds are reported together, exactly for user 0 or
    with bits 39 and 38 (CAP_BPF and CAP_PERFMON) or bit 21 (CAP_SYS_ADMIN) of
    the capability mask, outside kernel lockdown; injection exactly for user 0,
    with bit 19 (CAP_SYS_PTRACE) or an open ptrace scope; CUDA exactly when the
    driver, its library and CUPTI are there; and there is no warning exactly
    when host probes, the driver and CUPTI are available. *)
Theorem doctor_capabilities (w : World) :
  match doctor_run w with
  | (Ok report, _) =>
      ∃ status w1 mask,
        let uid := env_effective_uid (cr_environment report) in
        let c := cr_capabilities report in
        let available f := check_status (f (cr_checks report)) = CheckStatus.Available in
        fs_read_to_string "/proc/self/status" w = (inr status, w1)
        ∧ parse_status_u32 (trim status) "Uid:" "/proc/self/status" = Ok uid
        ∧ parse_status_hex (trim status) "CapEff:" "/proc/self/status" = Ok mask
        ∧ (cap_uprobe c = true ↔
           (uid = 0 ∨ (Z.testbit mask 39 = true ∧ Z.testbit mask 38 = true)
            ∨ Z.testbit mask 21 = true)
           ∧ check_status (sc_kernel_lockdown (cr_checks report)) ≠ CheckStatus.Restricted)
        ∧ cap_uretprobe c = cap_uprobe c ∧ cap_tracepoint c = cap_uprobe c
        ∧ (cap_runtime_injection c = true ↔
           uid = 0 ∨ Z.testbit mask 19 = true ∨ available sc_ptrace_scope)
        ∧ cap_cuda_activity c = cap_cuda_callback c
        ∧ (cap_cuda_callback c = true ↔
           available sc_nvidia_driver ∧ available sc_cuda_driver ∧ available sc_cupti)
        ∧ (cr_warnings report = [] ↔
           cap_uprobe c = true ∧ available sc_nvidia_driver ∧ available sc_cupti)
  | (Err _, _) => True
  | (Panic, _) => False
  end.
Proof.
  pose proof (doctor_run_total w) as Ht.
  destruct (doctor_run w) as [[report|e|] w'] eqn:Hrun; [|done|by apply Ht]. clear Ht.
  unfold doctor_run, read_required in Hrun. io_steps.
  match goal with Hs : call (fs_read_to_string "/proc/self/status") _ w = _ |- _ =>
    apply call_ok in Hs; rename Hs into Hio end.
  eexists _, _, _. cbn [cr_environment env_effective_uid cr_capabilities cr_checks cr_warnings].
  split; [exact Hio|]. split; [eassumption|]. split; [eassumption|].
  match goal with Hm : parse_status_hex _ _ _ = Ok ?m, Hu : parse_status_u32 _ _ _ = Ok ?u |- _ =>
    pose proof (ebpf_permission_available u m) as He end.
  rewrite has_capability_testbit by done. change CAP_SYS_PTRACE with 19. cbn.
  split; [by rewrite andb_true_iff, negb_true_iff, bool_decide_eq_true,
            bool_decide_eq_false, He|].
  split; [done|]. split; [done|]. split.
  { rewrite !orb_true_iff, bool_decide_eq_true, Z.eqb_eq. tauto. }
  split; [done|]. split; [rewrite !andb_true_iff, !bool_decide_eq_true; tauto|].
  unfold warnings_for. cbn. repeat case_bool_decide; cbn;
    (split; [intros Hw; by try discriminate Hw|by intros (? & ? & ?)]).
Qed.
End doctor.

(** The user the doctor calls effective is the real one.  On every status
    text from which inspection reads credentials, the doctor's [effective_uid]
    is the first number of the [Uid:] line, the real user, and not the second,
    the effective one that inspection reports. *)
Theorem doctor_uid_is_real (status path : string) (pid : Z) (credentials : ProcessCredentials)
    (Hok : parse_credentials status pid = Ok credentials) :
  parse_status_u32 status "Uid:" path = Ok (cred_real_uid credentials).
Proof.
  unfold parse_credentials in Hok. res_steps. destruct a as [[[ru eu] su] fu].
  destruct (parse_four_ids status "Gid:" pid) as [[[[rg eg] sg] fg]| |]; simplify_eq/=.
  by eapply parse_four_ids_first.
Qed.
