(* ===== verification/Discover.v ===== *)
(** * Discovering CUDA processes

    [xprobe/core/src/discover.rs]: the processes that [nvidia-smi] lists as holding a compute
    context, at or below a root process. *)
From S2P Require Import Prelude BTree RustString Text Protocol Os Process Inspect CuptiCompat Doctor.
#[local] Open Scope Z_scope.

(** ** Errors *)
Module DiscoverError.
Inductive DiscoverError : Type :=
| Inspect (error : InspectError)
| InvalidLimit
| NvmlCommand (error : IoError)
| NvmlFailed (status : option Z) (stderr : string)
| InvalidNvmlOutput (line : string).
End DiscoverError.
Abbreviation DiscoverError := DiscoverError.DiscoverError.
(** [Display]; an exit status is shown as an option. *)
Definition debug_status (status : option Z) : string :=
  match status with Some code => "Some(" +:+ i32_to_string code +:+ ")" | None => "None" end.
Definition discover_error_display (e : DiscoverError) : string :=
  match e with
  | DiscoverError.Inspect error => inspect_error_display error
  | DiscoverError.InvalidLimit => "discover limit must be greater than zero"
  | DiscoverError.NvmlCommand error => "failed to execute nvidia-smi: " +:+ io_message error
  | DiscoverError.NvmlFailed status stderr =>
      "nvidia-smi compute-process query failed with status " +:+ debug_status status +:+ ": "
        +:+ stderr
  | DiscoverError.InvalidNvmlOutput line =>
      "nvidia-smi returned an invalid compute-process row: " +:+ debug_str line
  end.
Definition discover_error_code (e : DiscoverError) : ErrorCode :=
  match e with
  | DiscoverError.Inspect error => inspect_error_code error
  | DiscoverError.InvalidLimit => ErrorCode.SessionLimitExceeded
  | DiscoverError.NvmlCommand _ | DiscoverError.NvmlFailed _ _ => ErrorCode.CuptiNotAvailable
  | DiscoverError.InvalidNvmlOutput _ => ErrorCode.Internal
  end.
Definition discover_error_recoverable (e : DiscoverError) : bool :=
  match e with
  | DiscoverError.Inspect error => inspect_error_recoverable error
  | DiscoverError.InvalidNvmlOutput _ => false
  | _ => true
  end.

(** ** Rows *)

(** A [BTreeSet<String>] is a map to nothing. *)
Definition parse_compute_row (processes : btree Z (btree string ())) (line : string) :
    res DiscoverError (btree Z (btree string ())) :=
  '(pid, uuid) ← ok_or (split_once "," line) (DiscoverError.InvalidNvmlOutput line);
  pid ← ok_or (parse_u32 (trim pid)) (DiscoverError.InvalidNvmlOutput line);
  let uuid := trim uuid in
  if is_empty uuid then Err (DiscoverError.InvalidNvmlOutput line)
  else Ok (bt_insert pid (bt_insert uuid () (default [] (bt_get pid processes))) processes).
Fixpoint parse_compute_rows (processes : btree Z (btree string ())) (rows : list string) :
    res DiscoverError (btree Z (btree string ())) :=
  match rows with
  | [] => Ok processes
  | line :: rows =>
      if is_empty (trim line) then parse_compute_rows processes rows
      else processes ← parse_compute_row processes line; parse_compute_rows processes rows
  end.
Definition parse_compute_processes (output : string) :
    res DiscoverError (btree Z (btree string ())) :=
  parse_compute_rows [] (lines output).

Section discover.
Context `{SerdeJson, Os}.

(** ** Descendants *)

(** One round of the loop, with the set of visited processes: an answer, or the parent. *)
Inductive Walk : Type := Answer (found : bool) | Parent (pid : Z) (visited : btree Z ()).
Definition walk_step (root pid : Z) (visited : btree Z ()) : io DiscoverError Walk :=
  if pid =? root then mret (Answer true)
  else if (pid =? 0) || bool_decide (is_Some (bt_get pid visited)) then mret (Answer false)
  else
    parent ← map_io_err DiscoverError.Inspect (read_parent_pid pid);
    mret (Parent parent (bt_insert pid () visited)).
(** At most [2 ^ depth] rounds. *)
Fixpoint walk (depth : nat) (root pid : Z) (visited : btree Z ()) : io DiscoverError Walk :=
  match depth with
  | O => walk_step root pid visited
  | S depth =>
      r ← walk depth root pid visited;
      match r with
      | Answer found => mret (Answer found)
      | Parent pid visited => walk depth root pid visited
      end
  end.
(** No process is visited twice, and there are fewer than [2 ^ 32] of them, so that the rounds
    are enough; not getting an answer is a panic. *)
Definition is_descendant (pid root : Z) : io DiscoverError bool :=
  r ← walk 32 root pid [];
  lift match r with Answer found => Ok found | Parent _ _ => Panic end.

(** ** The candidates *)
Record CudaProcessCandidate := BuildCudaProcessCandidate {
  cand_target : TargetIdentity;
  cand_parent_pid : Z;
  cand_executable : string;
  cand_command_line : list string;
  cand_gpu_uuids : list string }.
Record DiscoveryResult := BuildDiscoveryResult {
  dr_schema_version : SchemaVersion;
  dr_ok : bool;
  dr_root : TargetIdentity;
  dr_limit : Z;
  dr_total_candidates : Z;
  dr_truncated : bool;
  dr_candidates : list CudaProcessCandidate;
  dr_warnings : list Warning }.
Fixpoint find_candidates (root : Z) (processes : list (Z * btree string ())) :
    io DiscoverError (list CudaProcessCandidate) :=
  match processes with
  | [] => mret []
  | (pid, gpu_uuids) :: processes =>
      descendant ← is_descendant pid root;
      if negb descendant then find_candidates root processes
      else
        report ← map_io_err DiscoverError.Inspect (inspect_process pid);
        parent_pid ← map_io_err DiscoverError.Inspect (read_parent_pid pid);
        rest ← find_candidates root processes;
        mret (BuildCudaProcessCandidate (pr_target report) parent_pid (pr_executable report)
                (pr_command_line report) (bt_keys gpu_uuids) :: rest)
  end.
Definition discover_run (report : ProcessReport) (limit : Z) : io DiscoverError DiscoveryResult :=
  if limit =? 0 then lift (Err DiscoverError.InvalidLimit)
  else
    _ ← map_io_err DiscoverError.Inspect (verify_target (pr_target report));
    output ← call (command_output "nvidia-smi"
      ["--query-compute-apps=pid,gpu_uuid"; "--format=csv,noheader,nounits"]%string)
      DiscoverError.NvmlCommand;
    _ ← lift (if negb (out_success output)
              then Err (DiscoverError.NvmlFailed (out_code output)
                          (trim (from_utf8_lossy (out_stderr output)))) else Ok ());
    rows ← lift (ok_or (from_utf8 (out_stdout output))
                   (DiscoverError.InvalidNvmlOutput (utf8_error (out_stdout output))));
    processes ← lift (parse_compute_processes rows);
    candidates ← find_candidates (target_pid (pr_target report)) processes;
    let candidates := sort_by_key (λ c, target_pid (cand_target c)) candidates in
    let kept := take (Z.to_nat limit) candidates in
    _ ← map_io_err DiscoverError.Inspect (verify_target (pr_target report));
    mret (BuildDiscoveryResult SchemaVersion.V2 true (pr_target report) limit (len candidates)
            (len kept <? len candidates) kept []).

(** ** The walk ends *)
Lemma visited_bound (visited : btree Z ()) :
  bt_wf visited → Forall (λ p, 1 ≤ p ≤ u32_max) (bt_keys visited) → len visited ≤ u32_max.
Proof.
  intros Hwf Hall. apply bt_wf_NoDup in Hwf.
  assert (length (bt_keys visited) ≤ length (seqZ 1 u32_max))%nat as Hle.
  { apply submseteq_length, NoDup_submseteq; [exact Hwf|]. intros p Hp.
    eapply Forall_forall in Hall; [|exact Hp]. apply elem_of_seqZ. lia. }
  unfold bt_keys in Hle. rewrite length_fmap, length_seqZ in Hle. unfold len, u32_max in *. lia.
Qed.

(** The set grows by one process a round, all of them 32-bit and not zero. *)
Definition walk_wf (pid : Z) (visited : btree Z ()) : Prop :=
  in_u32 pid ∧ bt_wf visited ∧ Forall (λ p, 1 ≤ p ≤ u32_max) (bt_keys visited).
Lemma read_parent_u32 pid w parent w' : read_parent_pid pid w = (Ok parent, w') → in_u32 parent.
Proof.
  unfold read_parent_pid. intros Hr. io_steps. unfold parse_parent_pid in Hr. res_steps.
  repeat case_match; simplify_eq/=.
  match goal with Hp : parse_u32 _ = Some _ |- _ => by apply parse_unsigned_range in Hp end.
Qed.
Lemma walk_step_wf root pid visited w pid' visited' w' :
  walk_wf pid visited → walk_step root pid visited w = (Ok (Parent pid' visited'), w') →
  walk_wf pid' visited' ∧ len visited' = len visited + 1.
Proof.
  intros (Hp & Hwf & Hall). unfold walk_step. destruct (pid =? root); [done|].
  destruct (Z.eqb_spec pid 0); [done|]. case_bool_decide as Hv; [done|]. cbn [orb]. intros Hs.
  io_steps. apply read_parent_u32 in Hio. split.
  - split; [done|]. split; [by apply bt_wf_insert|]. apply Forall_forall.
    intros x [->|Hx]%bt_keys_insert; [unfold in_u32 in Hp; lia|]. by eapply Forall_forall in Hall.
  - rewrite bt_len_insert. destruct (bt_get pid visited); [by destruct Hv|lia].
Qed.
Lemma walk_parents depth : ∀ root pid visited w pid' visited' w',
  walk_wf pid visited → walk depth root pid visited w = (Ok (Parent pid' visited'), w') →
  walk_wf pid' visited' ∧ len visited' = len visited + 2 ^ Z.of_nat depth.
Proof.
  induction depth as [|depth IH]; intros root pid visited w pid' visited' w' Hwf; cbn [walk].
  { change (2 ^ Z.of_nat 0) with 1. by apply walk_step_wf. }
  intros Hs. apply io_bind_ok in Hs as ([found|pid1 visited1] & w1 & Hs1 & Hs2); [done|].
  apply IH in Hs1 as [Hwf1 Hl1]; [|done]. apply IH in Hs2 as [Hwf2 Hl2]; [|done].
  split; [done|]. rewrite Hl2, Hl1, Nat2Z.inj_succ, Z.pow_succ_r by lia. lia.
Qed.
Lemma read_parent_total pid : total (read_parent_pid pid).
Proof. unfold read_parent_pid, parse_parent_pid. total_steps. Qed.
Lemma walk_total depth : ∀ root pid visited, total (walk depth root pid visited).
Proof.
  induction depth as [|depth IH]; intros root pid visited; cbn [walk].
  - unfold walk_step. total_steps. apply read_parent_total.
  - apply total_bind; [apply IH|]. intros w [found|pid' visited'] w' _; [apply total_ret|apply IH].
Qed.
Lemma is_descendant_total pid root : in_u32 pid → total (is_descendant pid root).
Proof.
  intros Hp. unfold is_descendant. apply total_bind; [apply walk_total|].
  intros w [found|pid' visited'] w' Hw; apply total_lift; [done|].
  apply walk_parents in Hw as [(_ & Hwf & Hall) Hl]; [|by split; [|split; [apply bt_wf_nil|]]].
  pose proof (visited_bound _ Hwf Hall). change (len []) with 0 in Hl.
  unfold u32_max in *. change (2 ^ Z.of_nat 32) with 4294967296 in Hl. lia.
Qed.

(** ** Descendants of a process

    While processes keep their parents, [parent pid] being what [/proc] says. *)
Section stable.
Context (parent : Z → res InspectError Z) (Hstable : ∀ p w, read_parent_pid p w = (parent p, w)).

Inductive below (root : Z) : Z → Prop :=
| below_root : below root root
| below_parent pid q : pid ≠ 0 → parent pid = Ok q → below root q → below root pid.

(** A set that is closed under parents and misses the root is not below it. *)
Lemma closed_not_below root (S : Z → Prop) pid :
  (∀ v, S v → v ≠ root ∧ ∃ q, parent v = Ok q ∧ S q) → below root pid → ¬ S pid.
Proof.
  intros Hclosed Hb. induction Hb as [|pid q Hne Hq Hb IH]; intros HS.
  - by destruct (Hclosed _ HS) as [? _].
  - destruct (Hclosed _ HS) as (_ & q' & Hq' & HSq). rewrite Hq in Hq'. by simplify_eq.
Qed.
(** What the visited processes know: they are not the root, and lead to the current one. *)
Definition visited_inv (root pid : Z) (visited : btree Z ()) : Prop :=
  bt_wf visited ∧ ∀ v, is_Some (bt_get v visited) →
    v ≠ root ∧ ∃ q, parent v = Ok q ∧ (q = pid ∨ is_Some (bt_get q visited)).
Lemma walk_step_below root pid visited w r w' :
  visited_inv root pid visited → walk_step root pid visited w = (Ok r, w') →
  match r with
  | Answer found => found = true ↔ below root pid
  | Parent pid' visited' =>
      visited_inv root pid' visited' ∧ (below root pid ↔ below root pid')
  end.
Proof.
  intros [Hwf Hinv]. unfold walk_step. destruct (Z.eqb_spec pid root) as [->|Hne].
  { intros [= <- _]. split; [intros _; constructor|done]. }
  destruct (Z.eqb_spec pid 0) as [->|Hz].
  { intros [= <- _]. split; [done|]. by inversion 1. }
  cbn [orb]. case_bool_decide as Hv.
  { intros [= <- _]. split; [done|]. intros Hb.
    assert (∀ v, is_Some (bt_get v visited) →
      v ≠ root ∧ ∃ q, parent v = Ok q ∧ is_Some (bt_get q visited)) as Hclosed.
    { intros v (Hr & q & Hq & [->|Hs])%Hinv; eauto. }
    by destruct (closed_not_below root _ pid Hclosed Hb). }
  rewrite io_bind_ok. intros (q & w1 & Hq%map_io_err_ok & [= <- _]). rewrite Hstable in Hq.
  injection Hq as Hq _. split; [split; [by apply bt_wf_insert|]|].
  - intros v. destruct (decide (v = pid)) as [->|Hvp].
    + intros _. split; [done|]. exists q. split; [done|by left].
    + rewrite bt_get_insert_ne by done. intros (Hr & q' & Hq' & Hlead)%Hinv. split; [done|].
      exists q'. split; [done|]. right.
      destruct (decide (q' = pid)) as [->|Hqp]; [rewrite bt_get_insert_eq; eauto|].
      rewrite bt_get_insert_ne by done. destruct Hlead; done.
  - split; [|by apply below_parent]. inversion 1; simplify_eq; by congruence.
Qed.
Lemma walk_below depth : ∀ root pid visited w r w',
  visited_inv root pid visited → walk depth root pid visited w = (Ok r, w') →
  match r with
  | Answer found => found = true ↔ below root pid
  | Parent pid' visited' =>
      visited_inv root pid' visited' ∧ (below root pid ↔ below root pid')
  end.
Proof.
  induction depth as [|depth IH]; intros root pid visited w r w' Hinv; cbn [walk].
  { by apply walk_step_below. }
  rewrite io_bind_ok. intros ([found|pid1 visited1] & w1 & Hs1 & Hs2).
  - injection Hs2 as <- _. by apply (IH _ _ _ _ _ _ Hinv Hs1).
  - destruct (IH _ _ _ _ _ _ Hinv Hs1) as [Hinv1 Hiff]. apply (IH _ _ _ _ _ _ Hinv1) in Hs2.
    destruct r as [found|pid2 visited2]; [by rewrite Hs2|].
    destruct Hs2 as [? ?]. split; [done|]. by rewrite Hiff.
Qed.
Lemma is_descendant_below pid root w b w' :
  is_descendant pid root w = (Ok b, w') → b = true ↔ below root pid.
Proof.
  unfold is_descendant. rewrite io_bind_ok. intros (r & w1 & Hw & Hr%lift_ok).
  destruct Hr as [Hr _]. destruct r as [found|]; [|done]. injection Hr as <-.
  apply (walk_below _ _ _ _ _ _ _) in Hw; [exact Hw|].
  split; [apply bt_wf_nil|]. by intros v [].
Qed.

Lemma find_candidates_spec root processes : ∀ w candidates w',
  find_candidates root processes w = (Ok candidates, w') →
  let pids := (λ c, target_pid (cand_target c)) <$> candidates in
  pids `sublist_of` processes.*1
  ∧ (∀ pid, pid ∈ processes.*1 → below root pid → pid ∈ pids)
  ∧ Forall (λ c, below root (target_pid (cand_target c)) ∧ ∃ gpus,
      (target_pid (cand_target c), gpus) ∈ processes ∧ cand_gpu_uuids c = bt_keys gpus) candidates.
Proof.
  induction processes as [|[pid gpus] processes IH]; intros w candidates w'; cbn [find_candidates].
  { intros [= <- _]. split_and!; [done|by intros ? ?%not_elem_of_nil|constructor]. }
  rewrite io_bind_ok. intros (found & w1 & Hfound%is_descendant_below & Hs).
  destruct found; cbn [negb] in Hs.
  - io_steps. unfold inspect_process in Hio. apply inspect_run_identity in Hio as [Hpid _].
    apply IH in Hio1 as (Hsub & Hin & Hall). rewrite fmap_cons. cbn [cand_target]. rewrite Hpid.
    split_and!.
    + cbn. by apply sublist_skip.
    + intros p [->|Hp]%elem_of_cons Hb; [by left|]. right. by apply Hin.
    + constructor.
      * cbn [cand_target cand_gpu_uuids]. rewrite Hpid. split; [by apply Hfound|].
        exists gpus. split; [by left|done].
      * eapply Forall_impl; [exact Hall|]. cbn beta. intros c (Hb & g & Hg & Hu).
        split; [done|]. exists g. split; [by right|done].
  - apply IH in Hs as (Hsub & Hin & Hall). split_and!.
    + cbn. by apply sublist_cons.
    + intros p [->|Hp]%elem_of_cons Hb; [by apply Hfound in Hb|]. by apply Hin.
    + eapply Forall_impl; [exact Hall|]. cbn beta. intros c (Hb & g & Hg & Hu).
      split; [done|]. exists g. split; [by right|done].
Qed.

Lemma parse_compute_rows_wf rows : ∀ processes processes',
  parse_compute_rows processes rows = Ok processes' → bt_wf processes →
  Forall in_u32 (bt_keys processes) → bt_wf processes' ∧ Forall in_u32 (bt_keys processes').
Proof.
  induction rows as [|line rows IH]; intros processes processes'; cbn [parse_compute_rows];
    [by intros [= <-]|].
  destruct (is_empty (trim line)); [by apply IH|].
  destruct (parse_compute_row processes line) as [p1| |] eqn:E; [|done..]. intros Hr Hwf Hu.
  unfold parse_compute_row in E. res_steps. repeat case_match; simplify_eq/=.
  match goal with Hp : parse_u32 _ = Some _ |- _ => apply parse_unsigned_range in Hp; [|done] end.
  eapply IH; [exact Hr|by apply bt_wf_insert|].
  apply Forall_forall. intros x [->|Hx]%bt_keys_insert; [done|]. by eapply Forall_forall in Hx.
Qed.
(** C36: discovery.  While processes keep their parents, the candidates are, by increasing
    process id, exactly the first ones of the processes that [nvidia-smi] listed and that the
    root can be reached from by following parents, each once and with the devices it was
    listed for; the total counts all of them, and the result is called truncated exactly when
    the limit cut some off. *)
Theorem discovery_exact (report : ProcessReport) (limit : Z) (w w' : World) (r : DiscoveryResult)
    (Hlimit : 0 ≤ limit) (Hok : discover_run report limit w = (Ok r, w')) :
  let root := target_pid (pr_target report) in
  ∃ output rows processes all w1 w2,
    command_output "nvidia-smi"
      ["--query-compute-apps=pid,gpu_uuid"; "--format=csv,noheader,nounits"]%string w1
      = (inr output, w2)
    ∧ from_utf8 (out_stdout output) = Some rows ∧ parse_compute_processes rows = Ok processes
    ∧ StronglySorted (<) all
    ∧ (∀ pid, pid ∈ all ↔ pid ∈ bt_keys processes ∧ below root pid)
    ∧ (λ c, target_pid (cand_target c)) <$> dr_candidates r = take (Z.to_nat limit) all
    ∧ Forall (λ c, ∃ gpus, bt_get (target_pid (cand_target c)) processes = Some gpus
                           ∧ cand_gpu_uuids c = bt_keys gpus) (dr_candidates r)
    ∧ dr_total_candidates r = len all
    ∧ (dr_truncated r = true ↔ limit < len all).
Proof.
  cbn zeta. unfold discover_run in Hok. destruct (limit =? 0); [done|]. io_steps.
  repeat match goal with u : unit |- _ => destruct u end.
  match goal with Ho : call (command_output _ _) _ _ = (Ok ?o, _), Hc : find_candidates _ ?ps _ = (Ok ?c, _),
    Hp : parse_compute_processes ?rows = Ok ?ps |- _ =>
    apply call_ok in Ho; apply find_candidates_spec in Hc as (Hsub & Hin & Hall);
    rename Hp into Hparse; rename Ho into Hout; rename c into candidates; rename ps into processes;
    rename rows into text end.
  assert (bt_wf processes) as Hwf.
  { eapply parse_compute_rows_wf; [exact Hparse|apply bt_wf_nil|constructor]. }
  set (all := (λ c, target_pid (cand_target c)) <$> candidates) in *.
  assert (StronglySorted (<) all) as Hsorted.
  { eapply sublist_sorted; [exact Hsub|]. eapply StronglySorted_impl; [|exact Hwf].
    intros x y Hxy. unfold klt in Hxy. cbn in Hxy. by apply Z.compare_lt_iff. }
  assert (sort_by_key (λ c, target_pid (cand_target c)) candidates = candidates) as ->.
  { by apply sorted_keys_id. }
  eexists _, text, processes, all, _, _. split; [exact Hout|].
  match goal with Hu : ok_or (from_utf8 _) _ = Ok _ |- _ => rename Hu into Hutf end.
  split; [by destruct (from_utf8 _); simplify_eq/=|]. split; [exact Hparse|]. split; [exact Hsorted|].
  cbn [dr_candidates dr_total_candidates dr_truncated]. split_and!.
  - intros pid. split; [|by intros [? ?]; apply Hin].
    intros Hp. split; [by eapply elem_of_sublist|].
    apply list_elem_of_fmap in Hp as (c & -> & Hc). eapply Forall_forall in Hall; [|exact Hc].
    by destruct Hall.
  - apply fmap_take.
  - apply Forall_take. eapply Forall_impl; [exact Hall|]. intros c (_ & gpus & Hg & Hu).
    exists gpus. by rewrite bt_get_elem.
  - unfold all. by rewrite len_fmap.
  - unfold all. rewrite len_fmap, Z.ltb_lt. unfold len. rewrite length_take. lia.
Qed.
End stable.
End discover.
