(* ===== verification/Resolve.v ===== *)
(** * Resolving a userspace probe

    [xprobe/core/src/resolve.rs]: from a selector text and a running process to
    a file offset and a runtime address.  The [object] crate, which parses ELF
    files, and [cpp_demangle] are parameters: class [ObjectCrate]. *)
From S2P Require Import Prelude BTree RustString Text Protocol Selector Os Process Inspect.
#[local] Open Scope Z_scope.

(** What the code looks at in a parsed object file. *)
Module ObjectKind.
Inductive ObjectKind : Set := Executable | Dynamic | Other.
End ObjectKind.
Abbreviation ObjectKind := ObjectKind.ObjectKind.
Record ObjectSymbol := BuildObjectSymbol {
  sym_is_definition : bool;
  sym_is_text : bool;
  sym_name : option string;
  sym_address : Z;
  sym_size : Z }.
Record ObjectSegment := BuildObjectSegment {
  seg_address : Z;
  seg_file_offset : Z;
  seg_file_size : Z }.
Record ObjectFile := BuildObjectFile {
  obj_kind : ObjectKind;
  obj_build_id : string + option (list Z);
  obj_dynamic_symbols : list ObjectSymbol;
  obj_symbols : list ObjectSymbol;
  obj_segments : list ObjectSegment }.

Class ObjectCrate := {
  object_parse : list Z → string + ObjectFile;
  cpp_demangle : string → option string }.

(** ** Errors *)
Module ResolveError.
Inductive ResolveError : Type :=
| Inspect (error : InspectError)
| InvalidSelector (reason : string)
| BinaryNotMapped (path : string) (pid : Z)
| SymbolNotFound (symbol path : string)
| AmbiguousSymbol (symbol path : string)
| OffsetNotLoadable (offset : Z) (path : string)
| AddressNotMapped (offset : Z) (path : string)
| Io (path : string) (source : IoError)
| InvalidMaps (path reason : string)
| InvalidElf (path reason : string)
| UnsupportedElf (path : string).
End ResolveError.
Abbreviation ResolveError := ResolveError.ResolveError.

Definition resolve_error_display (e : ResolveError) : string :=
  match e with
  | ResolveError.Inspect error => inspect_error_display error
  | ResolveError.InvalidSelector reason => "invalid event selector: " +:+ reason
  | ResolveError.BinaryNotMapped path pid =>
      path +:+ " is not mapped by target PID " +:+ to_decimal pid
  | ResolveError.SymbolNotFound symbol path =>
      "symbol " +:+ debug_str symbol +:+ " was not found in " +:+ path
  | ResolveError.AmbiguousSymbol symbol path =>
      "symbol " +:+ debug_str symbol +:+ " resolves to multiple addresses in " +:+ path
  | ResolveError.OffsetNotLoadable offset path =>
      "file offset 0x" +:+ to_hex offset +:+ " is not in a loadable segment of " +:+ path
  | ResolveError.AddressNotMapped offset path =>
      "file offset 0x" +:+ to_hex offset +:+ " in " +:+ path +:+ " is not mapped by the target"
  | ResolveError.Io path source => "failed to read " +:+ path +:+ ": " +:+ io_message source
  | ResolveError.InvalidMaps path reason =>
      "invalid procfs maps data in " +:+ path +:+ ": " +:+ reason
  | ResolveError.InvalidElf path reason => "failed to parse ELF " +:+ path +:+ ": " +:+ reason
  | ResolveError.UnsupportedElf path =>
      path +:+ " is not a supported ELF executable or shared library"
  end.
Definition resolve_error_code (e : ResolveError) : ErrorCode :=
  match e with
  | ResolveError.Inspect error => inspect_error_code error
  | ResolveError.InvalidSelector _ | ResolveError.OffsetNotLoadable _ _ =>
      ErrorCode.InvalidEventSelector
  | ResolveError.BinaryNotMapped _ _ | ResolveError.AddressNotMapped _ _ =>
      ErrorCode.BinaryNotMapped
  | ResolveError.SymbolNotFound _ _ => ErrorCode.SymbolNotFound
  | ResolveError.AmbiguousSymbol _ _ => ErrorCode.AmbiguousTarget
  | ResolveError.Io _ _ | ResolveError.InvalidMaps _ _ | ResolveError.InvalidElf _ _
  | ResolveError.UnsupportedElf _ => ErrorCode.Internal
  end.
Definition resolve_error_recoverable (e : ResolveError) : bool :=
  match e with
  | ResolveError.Inspect error => inspect_error_recoverable error
  | ResolveError.InvalidSelector _ | ResolveError.BinaryNotMapped _ _
  | ResolveError.SymbolNotFound _ _ | ResolveError.AmbiguousSymbol _ _
  | ResolveError.OffsetNotLoadable _ _ | ResolveError.AddressNotMapped _ _ => true
  | _ => false
  end.

(** ** The selector *)
Module Boundary.
Inductive Boundary : Set := Entry | Return.
End Boundary.
Abbreviation Boundary := Boundary.Boundary.
Module ProbeTarget.
Inductive ProbeTarget : Type := Symbol (name : string) | FileOffset (offset : Z).
End ProbeTarget.
Abbreviation ProbeTarget := ProbeTarget.ProbeTarget.
Record ProbeSelector := BuildProbeSelector {
  ps_binary : string;
  ps_target : ProbeTarget;
  ps_boundary : Boundary }.

Local Abbreviation bad reason := (ResolveError.InvalidSelector reason).

(** [resolve::parse_selector]. *)
Definition parse_selector (text : string) : res ResolveError ProbeSelector :=
  rest ← ok_or (strip_prefix "uprobe:" text) (bad "expected uprobe: prefix");
  '(binary_and_target, boundary) ← ok_or (rsplit_once ":" rest)
    (bad "expected :entry or :return suffix");
  boundary ←
    (if boundary == "entry" then Ok Boundary.Entry
     else if boundary == "return" then Ok Boundary.Return
     else Err (bad "probe boundary must be entry or return"));
  '(binary, target) ←
    match split_once ":symbol=" binary_and_target with
    | Some parts => Ok parts
    | None => ok_or (rsplit_once ":" binary_and_target)
        (bad "expected binary path and symbol or offset")
    end;
  if is_empty binary || is_empty target then
    Err (bad "binary path and probe target must not be empty")
  else
    target ←
      match strip_prefix "+0x" target with
      | Some hex =>
          offset ← ok_or (from_str_radix_16 hex) (bad "offset must be hexadecimal after +0x");
          Ok (ProbeTarget.FileOffset offset)
      | None =>
          if starts_with "+" target then Err (bad "offset must use +0x hexadecimal syntax")
          else Ok (ProbeTarget.Symbol target)
      end;
    Ok (BuildProbeSelector binary target boundary).

(** ** Process maps *)
Record MapRegion := BuildMapRegion {
  mr_start : Z;
  mr_end : Z;
  mr_file_offset : Z;
  mr_path : string }.

Definition invalid_maps (path reason : string) : ResolveError :=
  ResolveError.InvalidMaps path reason.
Definition parse_hex (value path reason : string) : res ResolveError Z :=
  ok_or (from_str_radix_16 value) (invalid_maps path reason).

Definition parse_map_region (path line : string) : res ResolveError MapRegion :=
  let fields := split_whitespace line in
  range ← ok_or (fields !! 0%nat) (invalid_maps path "missing address range");
  _ ← ok_or (fields !! 1%nat) (invalid_maps path "missing permissions");
  offset ← ok_or (fields !! 2%nat) (invalid_maps path "missing file offset");
  _ ← ok_or (fields !! 3%nat) (invalid_maps path "missing device");
  _ ← ok_or (fields !! 4%nat) (invalid_maps path "missing inode");
  let mapped_path := join " " (drop 5 fields) in
  '(start, finish) ← ok_or (split_once "-" range) (invalid_maps path "invalid address range");
  start ← parse_hex start path "invalid mapping start";
  finish ← parse_hex finish path "invalid mapping end";
  file_offset ← parse_hex offset path "invalid mapping file offset";
  if (finish <=? start) || is_empty mapped_path then
    Err (invalid_maps path "invalid file-backed mapping")
  else Ok (BuildMapRegion start finish file_offset mapped_path).

Definition parse_maps (text path : string) : res ResolveError (list MapRegion) :=
  res_mapM (parse_map_region path)
    (filter (λ line, match split_whitespace line !! 5%nat with
                     | Some value => starts_with "/" value
                     | None => false
                     end = true) (lines text)).

Definition map_path_matches (mapped binary : string) : bool :=
  path_eq (default mapped (strip_suffix " (deleted)" mapped)) binary.

Definition region_contains_offset (region : MapRegion) (offset : Z) : bool :=
  let length := mr_end region - mr_start region in
  (mr_file_offset region <=? offset) && (offset - mr_file_offset region <? length).

(** [hex_encode]. *)
Definition hex_encode (bytes : list Z) : string :=
  foldr (λ byte s, String (hex_char (byte / 16)) (String (hex_char (byte mod 16)) s))
    EmptyString bytes.

(** ** Symbols and segments *)
Record ResolvedSymbol := BuildResolvedSymbol {
  rs_mangled : string;
  rs_demangled : option string;
  rs_address : Z;
  rs_size : Z }.

Section resolve.
Context `{Os, ObjectCrate}.

Definition classify_object (file : ObjectFile) (binary executable : string) :
    res ResolveError ElfObjectKind :=
  match obj_kind file with
  | ObjectKind.Executable => Ok ElfObjectKind.Executable
  | ObjectKind.Dynamic =>
      if map_path_matches executable binary then Ok ElfObjectKind.PositionIndependentExecutable
      else Ok ElfObjectKind.SharedLibrary
  | ObjectKind.Other => Err (ResolveError.UnsupportedElf binary)
  end.

Definition demangle_cpp (name : string) : option string :=
  if starts_with "_Z" name then cpp_demangle name else None.

(** The symbol matches [name], in the way the pass compares. *)
Definition symbol_matches (name : string) (match_demangled : bool) (symbol : ObjectSymbol) :
    option string :=
  if negb (sym_is_definition symbol) || negb (sym_is_text symbol) then None
  else
    mangled ← sym_name symbol;
    if (if match_demangled then demangle_cpp mangled == Some name else mangled == name)
    then Some mangled else None.

(** [collect_symbol_matches]: matches by address; a second symbol at the same
    address only enlarges the size. *)
Definition collect_symbol_matches (symbols : list ObjectSymbol) (name : string)
    (match_demangled : bool) : btree Z ResolvedSymbol :=
  foldl (λ matches symbol,
    match symbol_matches name match_demangled symbol with
    | None => matches
    | Some mangled =>
        match bt_get (sym_address symbol) matches with
        | Some resolved =>
            bt_insert (sym_address symbol)
              (BuildResolvedSymbol (rs_mangled resolved) (rs_demangled resolved)
                 (rs_address resolved) (Z.max (rs_size resolved) (sym_size symbol))) matches
        | None =>
            bt_insert (sym_address symbol)
              (BuildResolvedSymbol mangled (demangle_cpp mangled) (sym_address symbol)
                 (sym_size symbol)) matches
        end
    end) [] symbols.

Definition select_symbol_match (matches : btree Z ResolvedSymbol) (name path : string) :
    res ResolveError (option ResolvedSymbol) :=
  match bt_values matches with
  | [] => Ok None
  | [resolved] => Ok (Some resolved)
  | _ => Err (ResolveError.AmbiguousSymbol name path)
  end.

Definition resolve_symbol (file : ObjectFile) (name path : string) :
    res ResolveError ResolvedSymbol :=
  found ← select_symbol_match
    (collect_symbol_matches (obj_dynamic_symbols file ++ obj_symbols file) name false) name path;
  match found with
  | Some resolved => Ok resolved
  | None =>
      found ← select_symbol_match
        (collect_symbol_matches (obj_dynamic_symbols file) name true) name path;
      match found with
      | Some resolved => Ok resolved
      | None =>
          found ← select_symbol_match
            (collect_symbol_matches (obj_symbols file) name true) name path;
          ok_or found (ResolveError.SymbolNotFound name path)
      end
  end.

(** The first segment that contains the address; the outer [None] is the
    overflow of the sum, which a segment within 64 bits excludes. *)
Fixpoint virtual_address_to_file_offset (segments : list ObjectSegment) (address : Z) :
    option (option Z) :=
  match segments with
  | [] => Some None
  | segment :: segments =>
      match checked_sub_u64 address (seg_address segment) with
      | None => virtual_address_to_file_offset segments address
      | Some delta =>
          if delta <? seg_file_size segment then
            sum ← checked_add_u64 (seg_file_offset segment) delta; Some (Some sum)
          else virtual_address_to_file_offset segments address
      end
  end.

Fixpoint file_offset_to_virtual_address (segments : list ObjectSegment) (offset : Z) :
    option (option Z) :=
  match segments with
  | [] => Some None
  | segment :: segments =>
      match checked_sub_u64 offset (seg_file_offset segment) with
      | None => file_offset_to_virtual_address segments offset
      | Some delta =>
          if delta <? seg_file_size segment then
            sum ← checked_add_u64 (seg_address segment) delta; Some (Some sum)
          else file_offset_to_virtual_address segments offset
      end
  end.

(** Symbol, demangled symbol, address, size and file offset. *)
Definition ResolvedProbeTarget : Type :=
  option string * option string * option Z * option Z * Z.

Definition resolve_probe_target (file : ObjectFile) (target : ProbeTarget) (path : string) :
    res ResolveError ResolvedProbeTarget :=
  match target with
  | ProbeTarget.Symbol name =>
      resolved ← resolve_symbol file name path;
      found ← or_panic
        (virtual_address_to_file_offset (obj_segments file) (rs_address resolved));
      offset ← ok_or found (ResolveError.OffsetNotLoadable (rs_address resolved) path);
      Ok (Some (rs_mangled resolved), rs_demangled resolved, Some (rs_address resolved),
          Some (rs_size resolved), offset)
  | ProbeTarget.FileOffset offset =>
      found ← or_panic (file_offset_to_virtual_address (obj_segments file) offset);
      match found with
      | None => Err (ResolveError.OffsetNotLoadable offset path)
      | Some _ => Ok (None, None, None, None, offset)
      end
  end.

Definition list_find_bool {A} (f : A → bool) (l : list A) : option A :=
  find_map (λ x, if f x then Some x else None) l.

(** [resolve::run]. *)
Definition resolve_run (report : ProcessReport) (selector_text : string) :
    io ResolveError ResolvedProbe :=
  _ ← map_io_err ResolveError.Inspect (verify_target (pr_target report));
  selector ← lift (parse_selector selector_text);
  binary ← call (fs_canonicalize (ps_binary selector)) (ResolveError.Io (ps_binary selector));
  let maps_path := proc_path (target_pid (pr_target report)) "maps" in
  maps_text ← call (fs_read_to_string maps_path) (ResolveError.Io maps_path);
  maps ← lift (parse_maps maps_text maps_path);
  let binary_maps := filter (λ region, map_path_matches (mr_path region) binary = true) maps in
  _ ← lift (match binary_maps with
            | [] => Err (ResolveError.BinaryNotMapped binary (target_pid (pr_target report)))
            | _ => Ok ()
            end);
  bytes ← call (fs_read binary) (ResolveError.Io binary);
  file ← lift (match object_parse bytes with
               | inl reason => Err (ResolveError.InvalidElf binary reason)
               | inr file => Ok file
               end);
  object_kind ← lift (classify_object file binary (pr_executable report));
  build_id ← lift (match obj_build_id file with
                   | inl reason => Err (ResolveError.InvalidElf binary reason)
                   | inr build_id => Ok (hex_encode <$> build_id)
                   end);
  '(symbol, symbol_demangled, symbol_virtual_address, symbol_size, file_offset) ←
    lift (resolve_probe_target file (ps_target selector) binary);
  map ← lift (ok_or (list_find_bool (λ region, region_contains_offset region file_offset)
                       binary_maps)
                (ResolveError.AddressNotMapped file_offset binary));
  runtime_address ← lift (or_panic
    (delta ← sub_u64 file_offset (mr_file_offset map); checked_add_u64 (mr_start map) delta));
  let probe_kind := match ps_boundary selector with
                    | Boundary.Entry => HostProbeKind.Uprobe
                    | Boundary.Return => HostProbeKind.Uretprobe
                    end in
  _ ← map_io_err ResolveError.Inspect (verify_target (pr_target report));
  mret (BuildResolvedProbe SchemaVersion.V2 true (pr_target report) selector_text binary
          build_id object_kind probe_kind symbol symbol_demangled symbol_virtual_address
          symbol_size file_offset runtime_address
          (BuildProcessMapping (mr_start map) (mr_end map) (mr_file_offset map))).

(** ** Map regions *)
Lemma hex_digits_range acc s z : 0 ≤ acc ≤ u64_max → hex_digits acc s = Some z → in_u64 z.
Proof.
  revert acc. induction s as [|c s IH]; simpl; intros acc Hacc; [by intros [= <-]|].
  destruct (hex_digit c) as [d|] eqn:E; [|done]. simpl.
  destruct (Z.leb_spec (acc * 16 + d) u64_max); [|done]. apply IH.
  assert (0 ≤ d); [|lia]. unfold hex_digit in E. repeat case_match; bool_props; simplify_eq; lia.
Qed.
Lemma from_str_radix_16_range s z : from_str_radix_16 s = Some z → in_u64 z.
Proof.
  destruct s as [|c s]; simpl; [done|]. case_bool_decide.
  - destruct (is_empty s); [done|]. by apply hex_digits_range.
  - intros Hd. apply (hex_digits_range 0 (String c s)); [done|]. exact Hd.
Qed.

(** A parsed region is a nonempty range of 64-bit addresses. *)
Definition region_wf (r : MapRegion) : Prop :=
  in_u64 (mr_start r) ∧ in_u64 (mr_end r) ∧ in_u64 (mr_file_offset r)
  ∧ mr_start r < mr_end r ∧ mr_path r ≠ EmptyString.
Lemma parse_map_region_wf path line r : parse_map_region path line = Ok r → region_wf r.
Proof.
  unfold parse_map_region, parse_hex. intros Hr.
  repeat match goal with
  | H : (ok_or ?o _ ≫= _) = Ok _ |- _ => destruct o eqn:?; simpl in H; [|done]
  | H : (let '(_, _) := ?p in _) = Ok _ |- _ => destruct p
  | H : (if ?b then _ else _) = Ok _ |- _ => destruct b eqn:?; [done|]
  end.
  simplify_eq. unfold region_wf. simpl. bool_props.
  repeat match goal with H : from_str_radix_16 _ = Some _ |- _ =>
    apply from_str_radix_16_range in H end.
  split_and!; try done; [lia|]. intros E. by rewrite E in *.
Qed.
Lemma parse_maps_wf text path maps : parse_maps text path = Ok maps → Forall region_wf maps.
Proof. apply res_mapM_Forall. intros line r. apply parse_map_region_wf. Qed.

Lemma list_find_bool_Some {A} (f : A → bool) l x :
  list_find_bool f l = Some x → x ∈ l ∧ f x = true.
Proof.
  intros (l1 & y & l2 & -> & Hy & _)%find_map_Some. destruct (f y) eqn:E; simplify_eq.
  split; [|done]. apply elem_of_app. right. by left.
Qed.


(** What a resolved probe keeps of its selector. *)
Lemma resolve_run_kind report text w probe w' :
  resolve_run report text w = (Ok probe, w') →
  ∃ s file address size, parse_selector text = Ok s
    ∧ rp_probe_kind probe = match ps_boundary s with
                            | Boundary.Entry => HostProbeKind.Uprobe
                            | Boundary.Return => HostProbeKind.Uretprobe
                            end
    ∧ resolve_probe_target file (ps_target s) (rp_binary_path probe)
      = Ok (rp_symbol probe, rp_symbol_demangled probe, address, size, rp_file_offset probe).
Proof.
  unfold resolve_run. intros Hok. io_steps.
  destruct a9 as [[[[symbol demangled] address] size] offset]. io_steps. eauto 10.
Qed.

(** ** Symbol resolution *)

(** Addresses of the matching symbols of a table. *)
Definition match_at (symbols : list ObjectSymbol) (name : string) (match_demangled : bool)
    (address : Z) : Prop :=
  ∃ symbol mangled, symbol ∈ symbols ∧ sym_address symbol = address
    ∧ symbol_matches name match_demangled symbol = Some mangled.

Lemma collect_wf symbols name d : bt_wf (collect_symbol_matches symbols name d).
Proof.
  unfold collect_symbol_matches. induction symbols as [|s l IH] using rev_ind; [apply bt_wf_nil|].
  rewrite foldl_snoc. destruct (symbol_matches _ _ _); [|done].
  destruct (bt_get _ _); by apply bt_wf_insert.
Qed.
(** The map has a match exactly at the addresses of matching symbols, and each
    entry is the first of them there, with the largest size. *)
Lemma collect_get symbols name d address :
  match bt_get address (collect_symbol_matches symbols name d) with
  | Some r => rs_address r = address ∧ match_at symbols name d address
              ∧ (∃ symbol, symbol ∈ symbols ∧ sym_address symbol = address
                   ∧ symbol_matches name d symbol = Some (rs_mangled r))
              ∧ rs_demangled r = demangle_cpp (rs_mangled r)
  | None => ¬ match_at symbols name d address
  end.
Proof.
  unfold match_at, collect_symbol_matches.
  induction symbols as [|s l IH] using rev_ind.
  { simpl. by intros (? & ? & ?%elem_of_nil & _). }
  assert (∀ x, x ∈ l ++ [s] ↔ x ∈ l ∨ x = s) as Hsnoc
    by (intros x; by rewrite elem_of_app, list_elem_of_singleton).
  assert (∀ x, x ∈ l → x ∈ l ++ [s]) as Hl by (intros x Hx; apply Hsnoc; auto).
  assert (s ∈ l ++ [s]) as Hs by (apply Hsnoc; auto).
  rewrite foldl_snoc. set (m := foldl _ _ l) in *.
  destruct (symbol_matches name d s) as [mangled|] eqn:Es.
  - destruct (decide (address = sym_address s)) as [->|Hne].
    + destruct (bt_get (sym_address s) m) as [r|]; rewrite bt_get_insert_eq; simpl.
      * destruct IH as (Ha & _ & (s' & Hs' & Ha' & Hm) & Hd). split_and!; eauto 10.
      * split_and!; eauto 10.
    + assert (∀ r, bt_get address (bt_insert (sym_address s) r m) = bt_get address m) as Hget
        by (intros r; by rewrite bt_get_insert_ne by done).
      destruct (bt_get (sym_address s) m); rewrite Hget;
        (destruct (bt_get address m) as [r1|];
         [destruct IH as (? & (s1 & m1 & ? & ? & ?) & (s2 & ? & ? & ?) & ?); split_and!; eauto 10
         |intros (s' & mangled' & [Hin| ->]%Hsnoc & Ha & Hm); [apply IH; eauto|congruence]]).
  - destruct (bt_get address m) as [r|].
    + destruct IH as (? & (s1 & m1 & ? & ? & ?) & (s2 & ? & ? & ?) & ?). split_and!; eauto 10.
    + intros (s' & mangled' & [Hin| ->]%Hsnoc & Ha & Hm); [apply IH; eauto|congruence].
Qed.

Lemma select_spec symbols name d path :
  match select_symbol_match (collect_symbol_matches symbols name d) name path with
  | Ok None => ∀ a, ¬ match_at symbols name d a
  | Ok (Some r) => (∀ a, match_at symbols name d a ↔ a = rs_address r)
      ∧ (∃ symbol, symbol ∈ symbols ∧ sym_address symbol = rs_address r
           ∧ symbol_matches name d symbol = Some (rs_mangled r))
      ∧ rs_demangled r = demangle_cpp (rs_mangled r)
  | Err e => e = ResolveError.AmbiguousSymbol name path
      ∧ ∃ a b, match_at symbols name d a ∧ match_at symbols name d b ∧ a ≠ b
  | Panic => False
  end.
Proof.
  pose proof (collect_get symbols name d) as Hget. pose proof (collect_wf symbols name d) as Hwf.
  unfold select_symbol_match.
  destruct (collect_symbol_matches symbols name d) as [|[k r] [|[k' r'] m]]; simpl.
  - intros a. by specialize (Hget a).
  - pose proof (Hget k) as Hk. simpl in Hk. rewrite Z.compare_refl in Hk.
    destruct Hk as (<- & Hm & Hex & Hd). split; [|done]. intros a. split; [|by intros ->].
    intros Ha. specialize (Hget a). simpl in Hget.
    destruct (Z.compare_spec a (rs_address r)); [done|..]; by destruct Hget.
  - split; [done|]. apply bt_wf_cons in Hwf as [Hlt _]. apply Forall_cons in Hlt as [Hlt _].
    exists k, k'. pose proof (Hget k) as Hk. pose proof (Hget k') as Hk'. simpl in Hk, Hk'.
    assert (k < k') as Hkk by by apply Z.compare_lt_iff.
    rewrite Z.compare_refl in Hk. destruct (Z.compare_spec k' k) as [| |]; [lia|lia|].
    rewrite Z.compare_refl in Hk'. split; [apply Hk|]. split; [apply Hk'|lia].
Qed.

(** The name or the demangled name of the symbol found is the one asked for. *)
Lemma symbol_matches_name name d symbol mangled :
  symbol_matches name d symbol = Some mangled →
  mangled = name ∨ demangle_cpp mangled = Some name.
Proof.
  unfold symbol_matches. destruct (_ || _); [done|].
  destruct (sym_name symbol) as [m|]; simpl; [|done].
  destruct d; case_bool_decide; [|done| |done]; intros [= <-]; auto.
Qed.
Lemma resolve_symbol_name file name path r :
  resolve_symbol file name path = Ok r →
  rs_mangled r = name ∨ rs_demangled r = Some name.
Proof.
  assert (∀ symbols d, select_symbol_match (collect_symbol_matches symbols name d) name path
      = Ok (Some r) → rs_mangled r = name ∨ rs_demangled r = Some name) as Hsel.
  { intros symbols d Hs. pose proof (select_spec symbols name d path) as H'.
    rewrite Hs in H'. destruct H' as (_ & (symbol & _ & _ & Hm) & ->).
    by eapply symbol_matches_name. }
  unfold resolve_symbol.
  destruct (select_symbol_match (collect_symbol_matches (_ ++ _) _ _) _ _)
    as [[r1|]|e|] eqn:E1; simpl; try done.
  { intros [= ->]. eauto. }
  destruct (select_symbol_match (collect_symbol_matches (obj_dynamic_symbols file) _ _) _ _)
    as [[r2|]|e|] eqn:E2; simpl; try done.
  { intros [= ->]. eauto. }
  destruct (select_symbol_match (collect_symbol_matches (obj_symbols file) _ _) _ _)
    as [[r3|]|e|] eqn:E3; simpl; try done.
  intros [= ->]. eauto.
Qed.
(** The names or the offset of a resolved target are those of the selector. *)
Lemma resolve_probe_target_spec file target path symbol demangled address size offset :
  resolve_probe_target file target path = Ok (symbol, demangled, address, size, offset) →
  match target with
  | ProbeTarget.Symbol name =>
      is_Some symbol ∧ (symbol = Some name ∨ demangled = Some name)
  | ProbeTarget.FileOffset requested => symbol = None ∧ offset = requested
  end.
Proof.
  destruct target as [name|requested]; simpl.
  - destruct (resolve_symbol file name path) as [r|e|] eqn:Er; simpl; [|done..].
    apply resolve_symbol_name in Er.
    destruct (virtual_address_to_file_offset _ _) as [[o|]|]; simpl; [|done..].
    intros. simplify_eq. split; [by eauto|]. destruct Er as [->|]; auto.
  - destruct (file_offset_to_virtual_address _ _) as [[a|]|]; simpl; [|done..].
    by intros; simplify_eq.
Qed.

(** The passes [resolve_symbol] makes, in order. *)
Definition symbol_passes (file : ObjectFile) : list (list ObjectSymbol * bool) :=
  [(obj_dynamic_symbols file ++ obj_symbols file, false);
   (obj_dynamic_symbols file, true); (obj_symbols file, true)].

(** Symbol resolution.  The symbol found is a defined text symbol of the
    first pass that matches anything (the exact name in both tables, then the
    demangled name in the dynamic table, then in the other one), and the only
    address that pass matches; ambiguity is reported exactly when that pass
    matches several addresses, and "not found" when no pass matches. *)
Theorem resolve_symbol_spec (file : ObjectFile) (name path : string) :
  match resolve_symbol file name path with
  | Ok r => ∃ before symbols d after, symbol_passes file = before ++ (symbols, d) :: after
      ∧ Forall (λ '(table, demangled), ∀ a, ¬ match_at table name demangled a) before
      ∧ (∀ a, match_at symbols name d a ↔ a = rs_address r)
      ∧ (∃ symbol, symbol ∈ symbols ∧ sym_is_definition symbol = true
           ∧ sym_is_text symbol = true ∧ sym_name symbol = Some (rs_mangled r)
           ∧ sym_address symbol = rs_address r)
  | Err e =>
      (e = ResolveError.AmbiguousSymbol name path
       ∧ ∃ before symbols d after, symbol_passes file = before ++ (symbols, d) :: after
           ∧ Forall (λ '(table, demangled), ∀ a, ¬ match_at table name demangled a) before
           ∧ ∃ a b, match_at symbols name d a ∧ match_at symbols name d b ∧ a ≠ b)
      ∨ (e = ResolveError.SymbolNotFound name path
         ∧ Forall (λ '(table, demangled), ∀ a, ¬ match_at table name demangled a)
             (symbol_passes file))
  | Panic => False
  end.
Proof.
  assert (∀ d symbol mangled, symbol_matches name d symbol = Some mangled →
    sym_is_definition symbol = true ∧ sym_is_text symbol = true
    ∧ sym_name symbol = Some mangled) as Hmatch.
  { intros d symbol mangled. unfold symbol_matches.
    destruct (sym_is_definition symbol), (sym_is_text symbol); simpl; try done.
    destruct (sym_name symbol); simpl; [|done]. case_match; [|done]. by intros [= ->]. }
  unfold resolve_symbol, symbol_passes.
  set (t1 := obj_dynamic_symbols file ++ obj_symbols file).
  pose proof (select_spec t1 name false path) as H1.
  pose proof (select_spec (obj_dynamic_symbols file) name true path) as H2.
  pose proof (select_spec (obj_symbols file) name true path) as H3.
  destruct (select_symbol_match (collect_symbol_matches t1 _ _) _ _) as [[r|]|e|];
    simpl; [| |left; split; [apply H1|];
      exists [], t1, false, [(obj_dynamic_symbols file, true); (obj_symbols file, true)];
      by split_and!; [..|apply H1]|done].
  { exists [], t1, false, [(obj_dynamic_symbols file, true); (obj_symbols file, true)].
    destruct H1 as (Hu & (symbol & ? & ? & Hm) & _). apply Hmatch in Hm as (? & ? & ?).
    split_and!; eauto 10. }
  destruct (select_symbol_match (collect_symbol_matches (obj_dynamic_symbols file) _ _) _ _)
    as [[r|]|e|]; simpl; [| |left; split; [apply H2|];
      exists [(t1, false)], (obj_dynamic_symbols file), true, [(obj_symbols file, true)];
      by split_and!; [..|repeat constructor|apply H2]|done].
  { exists [(t1, false)], (obj_dynamic_symbols file), true, [(obj_symbols file, true)].
    destruct H2 as (Hu & (symbol & ? & ? & Hm) & _). apply Hmatch in Hm as (? & ? & ?).
    split_and!; eauto 10. }
  destruct (select_symbol_match (collect_symbol_matches (obj_symbols file) _ _) _ _)
    as [[r|]|e|]; simpl; [|right; split; [done|]; by repeat constructor|left; split; [apply H3|];
      exists [(t1, false); (obj_dynamic_symbols file, true)], (obj_symbols file), true, [];
      by split_and!; [..|repeat constructor|apply H3]|done].
  exists [(t1, false); (obj_dynamic_symbols file, true)], (obj_symbols file), true, [].
  destruct H3 as (Hu & (symbol & ? & ? & Hm) & _). apply Hmatch in Hm as (? & ? & ?).
  split_and!; eauto 10.
Qed.
End resolve.

(** ** Agreement with the correlator's parser *)
Section agreement.
Context `{RegexEngine}.

Definition host_selector (s : ProbeSelector) : Selector :=
  let target := match ps_target s with
                | ProbeTarget.Symbol name => Symbol name
                | ProbeTarget.FileOffset offset => Offset offset
                end in
  match ps_boundary s with
  | Boundary.Entry => Host EventType.HostFunctionEntry HostProbeKind.Uprobe (ps_binary s) target
  | Boundary.Return =>
      Host EventType.HostFunctionExit HostProbeKind.Uretprobe (ps_binary s) target
  end.

#[local] Arguments from_str_radix_16 : simpl never.
#[local] Arguments strip_prefix : simpl never.

Lemma uprobe_agreement (text : string) :
  match parse_selector text with
  | Ok s => selector_parse text = Ok (host_selector s)
  | Err _ => starts_with "uprobe:" text = true →
      ∃ reason, selector_parse text = Err (MeasureError.InvalidSelector reason)
  | Panic => False
  end.
Proof.
  unfold selector_parse, parse_selector, parse_host, starts_with.
  destruct (strip_prefix "uprobe:" text) as [rest|]; simpl; [|done].
  destruct (rsplit_once ":" rest) as [[binary_and_target boundary]|]; simpl; [|by eauto].
  repeat case_bool_decide; simpl; try by eauto.
  all: destruct (split_once ":symbol=" binary_and_target) as [[binary target]|]; simpl;
    [|destruct (rsplit_once ":" binary_and_target) as [[binary target]|]; simpl; [|by eauto]].
  all: destruct (is_empty binary || is_empty target); [by eauto|].
  all: destruct (strip_prefix "+0x" target) as [hex|]; simpl;
    [destruct (from_str_radix_16 hex); simpl; by eauto|].
  all: destruct (strip_prefix "+" target); simpl; by eauto.
Qed.

(** The two parsers of uprobe selectors agree.  Resolving and correlating
    parse the same text separately; whenever the resolver accepts a text, the
    correlator accepts it with the same binary, target and boundary, and a
    uprobe text the resolver rejects the correlator rejects. *)
Theorem uprobe_parsers_agree (text : string) :
  match parse_selector text with
  | Ok s => selector_parse text = Ok (host_selector s)
  | Err _ => starts_with "uprobe:" text = true →
      ∃ reason, selector_parse text = Err (MeasureError.InvalidSelector reason)
  | Panic => False
  end.
Proof. apply uprobe_agreement. Qed.
End agreement.
