(* ===== verification/Uprobe.v ===== *)
(** * Userspace probe events

    [xprobe/collector/src/uprobe.rs]: decoding the records of the BPF program
    and turning them into events, and the request that
    [xprobe/cli/src/main.rs] builds for a resolved probe.  [BpfCollect] loads and
    attaches the BPF program. *)
From S2P Require Import Prelude BTree RustString Text Bytes Ring Protocol Selector.
From S2P Require Import Os Process Inspect Resolve.
#[local] Open Scope Z_scope.

Definition RAW_EVENT_SIZE : Z := 32.

Record UprobeRequest := BuildUprobeRequest {
  ur_target : TargetIdentity;
  ur_binary : string;
  ur_symbol : option string;
  ur_symbol_demangled : option string;
  ur_offset : Z;
  ur_probe_kind : HostProbeKind;
  ur_probe_id : Z;
  ur_samples : Z;
  ur_timeout : Z }.

Module UprobeError.
Inductive UprobeError : Type :=
| InvalidRequest (reason : string)
| TargetNamespace (path : string) (source : IoError)
| MissingObjectMember (kind name : string)
| Libbpf (operation : string) (source : IoError)
| MalformedEvent (expected actual : Z).
End UprobeError.
Abbreviation UprobeError := UprobeError.UprobeError.

(** [UprobeError::code] and [UprobeError::recoverable]; a libbpf error has a kind and a
    text, as an error of the system. *)
Definition uprobe_error_code (e : UprobeError) : ErrorCode :=
  match e with
  | UprobeError.InvalidRequest _ => ErrorCode.InvalidEventSelector
  | UprobeError.TargetNamespace _ source =>
      if io_kind source == ErrorKind.PermissionDenied then ErrorCode.PermissionDenied
      else if io_kind source == ErrorKind.NotFound then ErrorCode.TargetExited
      else ErrorCode.Internal
  | UprobeError.Libbpf operation source =>
      let kind := io_kind source in
      if kind == ErrorKind.PermissionDenied then ErrorCode.PermissionDenied
      else if ((operation == "attach uprobe") || (operation == "attach uretprobe"))
              && (kind == ErrorKind.NotFound) then ErrorCode.SymbolNotFound
      else ErrorCode.Internal
  | UprobeError.MissingObjectMember _ _ | UprobeError.MalformedEvent _ _ => ErrorCode.Internal
  end.
Definition uprobe_error_recoverable (e : UprobeError) : bool :=
  match uprobe_error_code e with
  | ErrorCode.PermissionDenied | ErrorCode.SymbolNotFound | ErrorCode.TargetExited => true
  | _ => false
  end.
Definition uprobe_error_display (e : UprobeError) : string :=
  match e with
  | UprobeError.InvalidRequest message => message
  | UprobeError.TargetNamespace path source =>
      "failed to inspect target PID namespace at " +:+ path +:+ ": " +:+ io_message source
  | UprobeError.MissingObjectMember kind name =>
      "BPF object is missing " +:+ kind +:+ " " +:+ name
  | UprobeError.Libbpf operation source =>
      "failed to " +:+ operation +:+ ": " +:+ io_message source
  | UprobeError.MalformedEvent expected actual =>
      "BPF ring buffer record has size " +:+ to_decimal actual +:+ ", expected "
        +:+ to_decimal expected
  end.

Record RawEvent := BuildRawEvent {
  raw_timestamp_ns : Z;
  raw_sequence : Z;
  raw_pid : Z;
  raw_tid : Z;
  raw_cpu : Z;
  raw_probe_id : Z }.

(** [RawEvent::decode]. *)
Definition raw_event_decode (bytes : list Z) : res UprobeError RawEvent :=
  if negb (len bytes =? RAW_EVENT_SIZE) then
    Err (UprobeError.MalformedEvent RAW_EVENT_SIZE (len bytes))
  else
    timestamp_ns ← or_panic (field bytes 0 8);
    sequence ← or_panic (field bytes 8 16);
    pid ← or_panic (field bytes 16 20);
    tid ← or_panic (field bytes 20 24);
    cpu ← or_panic (field bytes 24 28);
    probe_id ← or_panic (field bytes 28 32);
    Ok (BuildRawEvent timestamp_ns sequence pid tid cpu probe_id).

(** [validate_request]. *)
Definition validate_request (request : UprobeRequest) : res UprobeError unit :=
  if ur_samples request =? 0 then
    Err (UprobeError.InvalidRequest "samples must be greater than zero")
  else if ur_timeout request =? 0 then
    Err (UprobeError.InvalidRequest "timeout must be greater than zero")
  else if match ur_symbol request with Some symbol => is_empty symbol | None => false end then
    Err (UprobeError.InvalidRequest "symbol must not be empty")
  else
    match ur_probe_kind request with
    | HostProbeKind.Uprobe | HostProbeKind.Uretprobe => Ok ()
    | _ => Err (UprobeError.InvalidRequest
                  "userspace collector requires uprobe or uretprobe kind")
    end.

(** [configure_object] up to the update of the map, for the device and inode of the target's
    PID namespace. *)
Definition uprobe_config_bytes (dev ino : Z) (request : UprobeRequest) : option (list Z) :=
  let config := replicate 24 0 in
  config ← copy_from_slice config 0 (to_le_bytes 8 dev);
  config ← copy_from_slice config 8 (to_le_bytes 8 ino);
  config ← copy_from_slice config 16 (to_le_bytes 4 (target_pid (ur_target request)));
  copy_from_slice config 20 (to_le_bytes 4 (ur_probe_id request)).

(** The request [start_host_collectors] builds for the [index]-th probe of a
    process. *)
Definition capture_request (target : TargetIdentity) (probe : ResolvedProbe)
    (index samples timeout : Z) : UprobeRequest :=
  BuildUprobeRequest target (rp_binary_path probe) (rp_symbol probe)
    (rp_symbol_demangled probe)
    (match rp_symbol probe with Some _ => 0 | None => rp_file_offset probe end)
    (rp_probe_kind probe) (index + 1) samples timeout.

Section uprobe.
Context `{SerdeJson}.

Definition normalize_event (raw : RawEvent) (request : UprobeRequest)
    (session_id binary_path : string) : Event :=
  BuildEvent SchemaVersion.V2 session_id ("evt_" +:+ to_decimal (raw_sequence raw))
    (raw_sequence raw) EventSource.Ebpf
    (if ur_probe_kind request == HostProbeKind.Uretprobe
     then EventType.HostFunctionExit else EventType.HostFunctionEntry)
    (raw_pid raw) (raw_tid raw) (Some (raw_cpu raw)) (raw_timestamp_ns raw)
    (raw_timestamp_ns raw) ClockDomain.HostMonotonic None
    (Some (target_process_start_time (ur_target request)))
    (Some (BuildHostEvent (ur_probe_kind request) (Some binary_path) None (ur_symbol request)
             (ur_symbol_demangled request)
             (match ur_symbol request with None => Some (ur_offset request) | Some _ => None end)
             None []))
    None None [].

(** [capture] after the collection: the result built from the raw events. *)
Record HostCaptureResult := BuildHostCaptureResult {
  hc_schema_version : SchemaVersion;
  hc_ok : bool;
  hc_session_id : string;
  hc_target : TargetIdentity;
  hc_probe_id : Z;
  hc_captured : Z;
  hc_dropped : Z;
  hc_timed_out : bool;
  hc_record_limit_reached : bool;
  hc_events : list Event }.
Definition capture_result (request : UprobeRequest) (session_id : string)
    (raw_events : list RawEvent) (dropped : Z) : HostCaptureResult :=
  let events := (λ raw, normalize_event raw request session_id (ur_binary request))
                <$> raw_events in
  BuildHostCaptureResult SchemaVersion.V2 true session_id (ur_target request)
    (ur_probe_id request) (len events) dropped (len events <? ur_samples request) false events.

(** ** Records *)

(** The layout the BPF program writes. *)
Definition raw_event_fields (raw : RawEvent) : list (nat * Z) :=
  [(8%nat, raw_timestamp_ns raw); (8%nat, raw_sequence raw); (4%nat, raw_pid raw);
   (4%nat, raw_tid raw); (4%nat, raw_cpu raw); (4%nat, raw_probe_id raw)].
Definition raw_event_encode (raw : RawEvent) : list Z := encode_layout (raw_event_fields raw).
Definition raw_event_wf (raw : RawEvent) : Prop := layout_wf (raw_event_fields raw).

Lemma raw_event_encode_len raw : len (raw_event_encode raw) = RAW_EVENT_SIZE.
Proof. apply encode_layout_len. Qed.

Lemma decode_encode raw : raw_event_wf raw → raw_event_decode (raw_event_encode raw) = Ok raw.
Proof.
  intros Hwf. unfold raw_event_decode. rewrite raw_event_encode_len.
  change (negb _) with false. cbv iota. unfold raw_event_encode.
  unfold raw_event_wf, raw_event_fields in *. read_fields Hwf. by destruct raw.
Qed.
Lemma decode_bad_size bytes :
  len bytes ≠ RAW_EVENT_SIZE →
  raw_event_decode bytes = Err (UprobeError.MalformedEvent RAW_EVENT_SIZE (len bytes)).
Proof. intros Hb. unfold raw_event_decode. by rewrite (proj2 (Z.eqb_neq _ _)) by done. Qed.

(** What the ring-buffer callback collects.  Feeding it the records of
    well-formed raw events yields exactly the first [limit] of them, every field
    read back at its width; and a record of any other size that arrives before
    the limit stops the collection there, with the events so far kept and its
    size reported.  Decoding never panics. *)
Theorem uprobe_collection (limit : Z) (raws : list RawEvent) (bad : list Z)
    (rest : list (list Z)) (Hwf : Forall raw_event_wf raws) :
  ring_consume raw_event_decode limit ([], None) (raw_event_encode <$> raws)
  = Some ((take (Z.to_nat limit) raws, None), 0)
  ∧ (len raws < limit → len bad ≠ RAW_EVENT_SIZE →
     ring_consume raw_event_decode limit ([], None) ((raw_event_encode <$> raws) ++ bad :: rest)
     = Some ((raws, Some (UprobeError.MalformedEvent RAW_EVENT_SIZE (len bad))), -1)).
Proof.
  destruct (ring_consume_spec raw_event_decode raw_event_encode raw_event_wf decode_encode limit
    raws bad rest (UprobeError.MalformedEvent RAW_EVENT_SIZE (len bad)) Hwf) as [Hall Hstop].
  split; [done|]. intros Hroom Hbad. by apply Hstop, decode_bad_size.
Qed.
End uprobe.

(** ** From a selector to its events *)
Section end_to_end.
Context `{SerdeJson, RegexEngine, Os, ObjectCrate}.

(** C31: the events collected for a resolved selector against the selector.  An
    event captured for the probe a selector text resolves to is matched by the
    selector the correlator parses from the same text exactly when the path in
    the text already is the canonical one: the kind and the symbol or offset
    always agree, but the collector labels its events with the canonical path
    and the correlator compares the path as written. *)
Theorem collected_events_match (report : ProcessReport) (text : string) (w w' : World)
    (probe : ResolvedProbe) (raw : RawEvent) (session_id : string) (index samples timeout : Z)
    (Hresolved : resolve_run report text w = (Ok probe, w')) :
  ∃ s, parse_selector text = Ok s ∧ selector_parse text = Ok (host_selector s)
    ∧ let request := capture_request (pr_target report) probe index samples timeout in
      let event := normalize_event raw request session_id (ur_binary request) in
      (selector_matches (host_selector s) event = true
       ↔ ps_binary s = rp_binary_path probe).
Proof.
  apply resolve_run_kind in Hresolved as (s & file & address & size & Hs & Hkind & Htarget).
  exists s. split; [done|]. split.
  { pose proof (uprobe_agreement text) as Ha. by rewrite Hs in Ha. }
  apply resolve_probe_target_spec in Htarget.
  unfold normalize_event, capture_request, selector_matches, host_selector. simpl.
  rewrite Hkind. destruct (ps_boundary s); simpl.
  all: repeat (rewrite bool_decide_true by done); simpl.
  all: destruct (ps_target s) as [name|offset]; simpl.
  all: try destruct Htarget as [[n ->] Hname]; try destruct Htarget as [-> <-]; simpl.
  all: rewrite ?andb_true_iff, ?orb_true_iff, !bool_decide_eq_true.
  all: split; [intros [E _]; congruence|intros ->; split; [done|]; auto].
Qed.
End end_to_end.
