(* ===== verification/Usdt.v ===== *)
(** * Static probes of CPython

    [xprobe/core/src/usdt.rs]: finding the binary of the target that exposes
    the [gc__start] and [gc__done] static probes, by parsing its
    [.note.stapsdt] section.  Locating the section is the [object] crate's
    work, a parameter. *)
From S2P Require Import Prelude BTree RustString Text Bytes Protocol Os Process.
#[local] Open Scope Z_scope.

Module UsdtError.
Inductive UsdtError : Type :=
| Read (path : string) (source : IoError)
| ParseObject (path message : string)
| ReadSection (path message : string)
| MalformedNote (path message : string).
End UsdtError.
Abbreviation UsdtError := UsdtError.UsdtError.

Definition usdt_error_code (e : UsdtError) : ErrorCode :=
  match e with
  | UsdtError.Read _ source =>
      if io_kind source == ErrorKind.PermissionDenied then ErrorCode.PermissionDenied
      else ErrorCode.Internal
  | _ => ErrorCode.Internal
  end.
Definition usdt_error_recoverable (e : UsdtError) : bool :=
  match e with UsdtError.Read _ _ => true | _ => false end.

Definition STAPSDT_SECTION : string := ".note.stapsdt".
Definition usdt_error_display (e : UsdtError) : string :=
  match e with
  | UsdtError.Read path source => "failed to read " +:+ path +:+ ": " +:+ io_message source
  | UsdtError.ParseObject path message =>
      "failed to parse " +:+ path +:+ " as an object: " +:+ message
  | UsdtError.ReadSection path message =>
      "failed to read " +:+ STAPSDT_SECTION +:+ " from " +:+ path +:+ ": " +:+ message
  | UsdtError.MalformedNote path message =>
      "malformed " +:+ STAPSDT_SECTION +:+ " in " +:+ path +:+ ": " +:+ message
  end.
Definition STAPSDT_OWNER : list Z := bytes_of_string "stapsdt" ++ [0].

(** ** Notes *)

Definition add_usize (a b : Z) (message : string) : res string Z :=
  ok_or (checked_add_u64 a b) message.

Definition read_u32 (data : list Z) (offset : Z) (little_endian : bool) : res string Z :=
  finish ← add_usize offset 4 "note integer offset overflowed";
  bytes ← ok_or (slice data offset finish) "note header exceeds section bounds";
  Ok (if little_endian then from_le_bytes bytes else from_be_bytes bytes).

Definition align_four (value : Z) : res string Z :=
  value ← add_usize value 3 "note alignment overflowed";
  Ok (Z.land value (Z.lnot 3)).

(** [position(|byte| byte == 0)] and the bytes around it. *)
Fixpoint take_until_nul (data : list Z) : option (list Z * list Z) :=
  match data with
  | [] => None
  | b :: data =>
      if b =? 0 then Some ([], data)
      else '(x, y) ← take_until_nul data; Some (b :: x, y)
  end.
(** The text of the decoding error after "is not UTF-8" is left out. *)
Definition take_c_string (data : list Z) (field : string) : res string (string * list Z) :=
  '(bytes, rest) ← ok_or (take_until_nul data)
    ("descriptor " +:+ field +:+ " is not NUL terminated");
  value ← ok_or (from_utf8 bytes) ("descriptor " +:+ field +:+ " is not UTF-8");
  Ok (value, rest).

Definition parse_stapsdt_descriptor (descriptor : list Z) (is_64 : bool) :
    res string (string * string) :=
  let address_bytes := if is_64 then 24 else 12 in
  strings ← ok_or (slice descriptor address_bytes (len descriptor))
    "descriptor does not contain three addresses"%string;
  '(provider, rest) ← take_c_string strings "provider";
  '(name, _) ← take_c_string rest "name";
  Ok (provider, name).

(** One iteration of the loop: the next offset and the probe found, if any. *)
Definition note_step (data : list Z) (little_endian is_64 : bool) (offset : Z) :
    res string (Z * option (string * string)) :=
  namesz ← read_u32 data offset little_endian;
  descsz ← read_u32 data (offset + 4) little_endian;
  offset ← add_usize offset 12 "note header offset overflowed";
  name_end ← add_usize offset namesz "note owner length overflowed";
  owner ← ok_or (slice data offset name_end) "note owner exceeds section bounds"%string;
  offset ← align_four name_end;
  desc_end ← add_usize offset descsz "note descriptor length overflowed";
  descriptor ← ok_or (slice data offset desc_end)
    "note descriptor exceeds section bounds"%string;
  offset ← align_four desc_end;
  if owner == STAPSDT_OWNER then
    probe ← parse_stapsdt_descriptor descriptor is_64; Ok (offset, Some probe)
  else Ok (offset, None).

(** [while offset < data.len()]; running out of fuel is [Panic], which
    [notes_fuel] excludes for the fuel of [parse_stapsdt_notes]. *)
Fixpoint note_loop (fuel : nat) (data : list Z) (little_endian is_64 : bool) (offset : Z)
    (probes : btree (string * string) ()) : res string (btree (string * string) ()) :=
  if len data <=? offset then Ok probes
  else
    match fuel with
    | O => Panic
    | S fuel =>
        '(offset, probe) ← note_step data little_endian is_64 offset;
        note_loop fuel data little_endian is_64 offset
          (match probe with Some probe => bt_insert probe () probes | None => probes end)
    end.

(** Each note takes at least twelve bytes: as many rounds as bytes are enough. *)
Definition parse_stapsdt_notes (data : list Z) (little_endian is_64 : bool) :
    res string (btree (string * string) ()) :=
  note_loop (length data) data little_endian is_64 0 [].

(** ** Locating the probes *)

(** What the code asks of a parsed object: the section, and the layout. *)
Record NoteObject := BuildNoteObject {
  no_section : option (string + list Z);
  no_little_endian : bool;
  no_is_64 : bool }.
Class NoteParser := note_parse : list Z → string + NoteObject.

Section usdt.
Context `{Os, NoteParser}.

Definition stap_probe_names (path : string) : io UsdtError (btree (string * string) ()) :=
  bytes ← call (fs_read path) (UsdtError.Read path);
  object ← lift (match note_parse bytes with
                 | inl message => Err (UsdtError.ParseObject path message)
                 | inr object => Ok object
                 end);
  match no_section object with
  | None => mret []
  | Some (inl message) => lift (Err (UsdtError.ReadSection path message))
  | Some (inr data) =>
      lift (map_err (UsdtError.MalformedNote path)
              (parse_stapsdt_notes data (no_little_endian object) (no_is_64 object)))
  end.

(** The candidates: the executable and the libpython libraries, a set of paths
    ordered by components. *)
Definition is_libpython (path : string) : bool :=
  match file_name path with
  | Some name => starts_with "libpython" name && contains ".so" name
  | None => false
  end.
Definition insert_path (set : btree (list (Z * string)) string) (path : string) :
    btree (list (Z * string)) string :=
  match bt_get (components path) set with
  | Some _ => set
  | None => bt_insert (components path) path set
  end.
Definition candidates (report : ProcessReport) : list string :=
  bt_values (foldl insert_path []
    (pr_executable report :: filter (λ path, is_libpython path = true)
                               (pr_loaded_libraries report))).

Fixpoint find_in (paths : list string) : io UsdtError (option string) :=
  match paths with
  | [] => mret None
  | path :: paths =>
      names ← stap_probe_names path;
      if bool_decide (is_Some (bt_get ("python", "gc__start")%string names))
         && bool_decide (is_Some (bt_get ("python", "gc__done")%string names))
      then mret (Some path)
      else find_in paths
  end.

(** [find_python_gc_probes]: the path of the binary found. *)
Definition find_python_gc_probes (report : ProcessReport) : io UsdtError (option string) :=
  find_in (candidates report).
End usdt.

(** ** Termination and safety *)
Lemma align_four_ge value r : align_four value = Ok r → value ≤ r.
Proof.
  unfold align_four, add_usize, checked_add_u64. destruct (_ <=? _); [|done].
  simpl. intros [= <-]. change (-4) with (Z.lnot 3).
  assert (Z.land (value + 3) (Z.lnot 3) = (value + 3) - (value + 3) mod 4) as ->.
  { change 4 with (2 ^ 2). rewrite <-Z.land_ones by done.
    change 3 with (Z.ones 2) at 2. rewrite <-Z.ldiff_land, Z.ldiff_ones_r by done.
    rewrite Z.land_ones by done. rewrite Z.shiftl_mul_pow2, Z.shiftr_div_pow2 by done.
    pose proof (Z.div_mod (value + 3) (2 ^ 2)). lia. }
  pose proof (Z.mod_pos_bound (value + 3) 4). lia.
Qed.

Lemma read_u32_nonneg data offset le n :
  Forall (λ b, 0 ≤ b) data → read_u32 data offset le = Ok n → 0 ≤ n.
Proof.
  intros Hd. unfold read_u32. destruct (add_usize _ _ _); simpl; [|done..].
  destruct (slice data offset a) as [bytes|] eqn:E; simpl; [|done].
  apply slice_Forall with (P := λ b, 0 ≤ b) in E; [|done].
  destruct le; intros [= <-]; [by apply from_le_bytes_nonneg|by apply from_be_bytes_nonneg].
Qed.
Lemma add_usize_ok a b message c : add_usize a b message = Ok c → c = a + b.
Proof. unfold add_usize, checked_add_u64. destruct (_ <=? _); simpl; congruence. Qed.

(** A note is at least its header long. *)
Lemma note_step_progress data le is_64 offset next probe :
  Forall (λ b, 0 ≤ b) data → note_step data le is_64 offset = Ok (next, probe) →
  offset + 12 ≤ next.
Proof.
  intros Hd. unfold note_step.
  destruct (read_u32 data offset le) as [namesz| |] eqn:E1; simpl; [|done..].
  destruct (read_u32 data (offset + 4) le) as [descsz| |] eqn:E2; simpl; [|done..].
  apply read_u32_nonneg in E1; [|done]. apply read_u32_nonneg in E2; [|done].
  destruct (add_usize offset 12 _) as [o1| |] eqn:A1; simpl; [|done..]. apply add_usize_ok in A1.
  destruct (add_usize o1 namesz _) as [o2| |] eqn:A2; simpl; [|done..]. apply add_usize_ok in A2.
  destruct (slice data o1 o2) as [owner|]; simpl; [|done].
  destruct (align_four o2) as [o3| |] eqn:A3; simpl; [|done..]. apply align_four_ge in A3.
  destruct (add_usize o3 descsz _) as [o4| |] eqn:A4; simpl; [|done..]. apply add_usize_ok in A4.
  destruct (slice data o3 o4) as [descriptor|]; simpl; [|done].
  destruct (align_four o4) as [o5| |] eqn:A5; simpl; [|done..]. apply align_four_ge in A5.
  case_bool_decide; simpl.
  - destruct (parse_stapsdt_descriptor descriptor is_64); simpl; [|done..].
    intros [= <- _]. lia.
  - intros [= <- _]. lia.
Qed.
Lemma note_step_no_panic data le is_64 offset : note_step data le is_64 offset ≠ Panic.
Proof.
  unfold note_step, read_u32, align_four, add_usize, parse_stapsdt_descriptor, take_c_string.
  no_panic.
Qed.
Lemma note_loop_total fuel data le is_64 offset probes :
  Forall (λ b, 0 ≤ b) data → len data ≤ offset + 12 * Z.of_nat fuel →
  note_loop fuel data le is_64 offset probes ≠ Panic.
Proof.
  intros Hd. revert offset probes. induction fuel as [|fuel IH]; intros offset probes Hf;
    cbn [note_loop]; destruct (Z.leb_spec (len data) offset); try done; [lia|].
  apply res_bind_no_panic; [apply note_step_no_panic|]. intros [next probe] Hs.
  apply note_step_progress in Hs; [|done]. apply IH. lia.
Qed.

(** Parsing the static-probe notes terminates and never panics.  Whatever
    bytes the section holds, in either byte order and word size, the loop stops
    within as many rounds as there are bytes, every slice it takes is in range
    and every sum is checked: the result is a set of probes or an error. *)
Theorem stapsdt_notes_total (data : list Z) (little_endian is_64 : bool)
    (Hbytes : Forall (λ b, 0 ≤ b < 256) data) :
  parse_stapsdt_notes data little_endian is_64 ≠ Panic.
Proof.
  apply note_loop_total.
  - eapply Forall_impl; [exact Hbytes|]. simpl. intros b [Hb _]. exact Hb.
  - unfold len. lia.
Qed.
