(* ===== verification/Syscalls.v ===== *)
(** * System call tables

    [syscall_number] of [xprobe/core/src/validate.rs], from names to x86_64
    numbers, and [syscall_name] of [xprobe/core/src/syscall_aggregate.rs], from
    numbers to names: two tables kept separately in the source. *)
From S2P Require Import Prelude BTree RustString Text.
#[local] Open Scope Z_scope.

(** The arms of [syscall_number], in source order. *)
Definition syscall_numbers : list (string * Z) :=
  [("read", 0); ("write", 1); ("close", 3); ("fstat", 5); ("poll", 7); ("lseek", 8);
   ("mmap", 9); ("mprotect", 10); ("munmap", 11); ("brk", 12); ("ioctl", 16);
   ("pread64", 17); ("pwrite64", 18); ("readv", 19); ("writev", 20); ("sched_yield", 24);
   ("mremap", 25); ("msync", 26); ("mincore", 27); ("madvise", 28); ("nanosleep", 35);
   ("getpid", 39); ("socket", 41); ("connect", 42); ("accept", 43); ("sendto", 44);
   ("recvfrom", 45); ("sendmsg", 46); ("recvmsg", 47); ("clone", 56); ("fork", 57);
   ("vfork", 58); ("execve", 59); ("exit", 60); ("wait4", 61); ("fcntl", 72);
   ("flock", 73); ("fsync", 74); ("fdatasync", 75); ("getdents", 78); ("futex", 202);
   ("sched_setaffinity", 203); ("sched_getaffinity", 204); ("gettid", 186);
   ("epoll_wait", 232); ("epoll_ctl", 233); ("tgkill", 234); ("openat", 257);
   ("newfstatat", 262); ("pselect6", 270); ("ppoll", 271); ("unshare", 272);
   ("splice", 275); ("epoll_pwait", 281); ("accept4", 288); ("eventfd2", 290);
   ("epoll_create1", 291); ("dup3", 292); ("pipe2", 293); ("preadv", 295);
   ("pwritev", 296); ("perf_event_open", 298); ("recvmmsg", 299); ("prlimit64", 302);
   ("sendmmsg", 307); ("getcpu", 309); ("process_vm_readv", 310);
   ("process_vm_writev", 311); ("sched_setattr", 314); ("sched_getattr", 315);
   ("seccomp", 317); ("getrandom", 318); ("memfd_create", 319); ("bpf", 321);
   ("execveat", 322); ("userfaultfd", 323); ("membarrier", 324); ("mlock2", 325);
   ("copy_file_range", 326); ("preadv2", 327); ("pwritev2", 328); ("statx", 332);
   ("rseq", 334); ("pidfd_send_signal", 424); ("io_uring_setup", 425);
   ("io_uring_enter", 426); ("io_uring_register", 427); ("pidfd_open", 434);
   ("clone3", 435); ("close_range", 436); ("openat2", 437); ("pidfd_getfd", 438);
   ("faccessat2", 439); ("process_madvise", 440); ("epoll_pwait2", 441);
   ("futex_waitv", 449)].

(** The arms of [syscall_name], in source order. *)
Definition syscall_names : list (Z * string) :=
  [(0, "read"); (1, "write"); (3, "close"); (5, "fstat"); (7, "poll"); (8, "lseek");
   (9, "mmap"); (10, "mprotect"); (11, "munmap"); (12, "brk"); (16, "ioctl");
   (17, "pread64"); (18, "pwrite64"); (19, "readv"); (20, "writev"); (24, "sched_yield");
   (25, "mremap"); (26, "msync"); (27, "mincore"); (28, "madvise"); (35, "nanosleep");
   (39, "getpid"); (41, "socket"); (42, "connect"); (43, "accept"); (44, "sendto");
   (45, "recvfrom"); (46, "sendmsg"); (47, "recvmsg"); (56, "clone"); (57, "fork");
   (58, "vfork"); (59, "execve"); (60, "exit"); (61, "wait4"); (72, "fcntl");
   (73, "flock"); (74, "fsync"); (75, "fdatasync"); (78, "getdents"); (186, "gettid");
   (202, "futex"); (203, "sched_setaffinity"); (204, "sched_getaffinity");
   (232, "epoll_wait"); (233, "epoll_ctl"); (234, "tgkill"); (257, "openat");
   (262, "newfstatat"); (270, "pselect6"); (271, "ppoll"); (272, "unshare");
   (275, "splice"); (281, "epoll_pwait"); (288, "accept4"); (290, "eventfd2");
   (291, "epoll_create1"); (292, "dup3"); (293, "pipe2"); (295, "preadv");
   (296, "pwritev"); (298, "perf_event_open"); (299, "recvmmsg"); (302, "prlimit64");
   (307, "sendmmsg"); (309, "getcpu"); (310, "process_vm_readv");
   (311, "process_vm_writev"); (314, "sched_setattr"); (315, "sched_getattr");
   (317, "seccomp"); (318, "getrandom"); (319, "memfd_create"); (321, "bpf");
   (322, "execveat"); (323, "userfaultfd"); (324, "membarrier"); (325, "mlock2");
   (326, "copy_file_range"); (327, "preadv2"); (328, "pwritev2"); (332, "statx");
   (334, "rseq"); (424, "pidfd_send_signal"); (425, "io_uring_setup");
   (426, "io_uring_enter"); (427, "io_uring_register"); (434, "pidfd_open");
   (435, "clone3"); (436, "close_range"); (437, "openat2"); (438, "pidfd_getfd");
   (439, "faccessat2"); (440, "process_madvise"); (441, "epoll_pwait2");
   (449, "futex_waitv")].

(** A [match] on literals: the first arm that equals. *)
Fixpoint assoc {A B} `{EqDecision A} (key : A) (arms : list (A * B)) : option B :=
  match arms with
  | [] => None
  | (k, v) :: arms => if key == k then Some v else assoc key arms
  end.

Definition syscall_number (name : string) : option Z := assoc name syscall_numbers.
Definition syscall_name (number : Z) : option string := assoc number syscall_names.

(** ** The tables are inverse to each other *)
Lemma assoc_elem {A B} `{EqDecision A} (arms : list (A * B)) k v :
  NoDup arms.*1 → assoc k arms = Some v ↔ (k, v) ∈ arms.
Proof.
  induction arms as [|[k' v'] arms IH]; simpl; intros Hnd.
  { split; [done|by intros ?%elem_of_nil]. }
  apply NoDup_cons in Hnd as [Hnin Hnd]. rewrite elem_of_cons. case_bool_decide as Hk.
  - subst. split; [intros [= ->]; by left|]. intros [[= ->]|Hin]; [done|].
    destruct Hnin. apply list_elem_of_fmap. by exists (k', v).
  - rewrite IH by done. split; [by right|]. intros [[= ??]|?]; done.
Qed.

Lemma syscall_numbers_NoDup : NoDup syscall_numbers.*1.
Proof. apply (bool_decide_unpack _). by vm_compute. Qed.
Lemma syscall_names_NoDup : NoDup syscall_names.*1.
Proof. apply (bool_decide_unpack _). by vm_compute. Qed.
Lemma syscall_tables_perm : (λ '(name, number), (number, name)) <$> syscall_numbers ≡ₚ syscall_names.
Proof.
  apply NoDup_Permutation.
  - apply (NoDup_fmap_1 fst). rewrite <-list_fmap_compose.
    apply (bool_decide_unpack _). by vm_compute.
  - apply (NoDup_fmap_1 fst), syscall_names_NoDup.
  - intros x. split; revert x; apply Forall_forall, (bool_decide_unpack _); by vm_compute.
Qed.

Lemma syscall_tables_agree name number :
  syscall_name number = Some name ↔ syscall_number name = Some number.
Proof.
  unfold syscall_name, syscall_number.
  rewrite (assoc_elem _ _ _ syscall_names_NoDup), (assoc_elem _ _ _ syscall_numbers_NoDup).
  rewrite <-syscall_tables_perm, list_elem_of_fmap. split.
  - by intros ([n z] & [= -> ->] & Hin).
  - intros Hin. by exists (name, number).
Qed.
