(* ===== verification/Validate.v ===== *)
(** * Validation

    [xprobe/core/src/validate.rs]: whether two selectors can be collected and
    correlated for a target, what that requires, and which policy to use. *)
From S2P Require Import Prelude BTree RustString Text Protocol Selector Measure.
From S2P Require Import Os Process CuptiCompat Inspect Resolve Usdt Syscalls.
From Stdlib Require Import Btauto.
#[local] Open Scope Z_scope.

(** ** Results, from [xprobe/protocol/src/validate.rs] *)
Record ResolvedCudaSelector := BuildResolvedCudaSelector {
  rc_event_type : EventType;
  rc_api_domain : option string;
  rc_api_name : option string;
  rc_kernel_name_regex : option string;
  rc_nvtx_name_regex : option string;
  rc_memcpy_kind : option MemcpyKind }.
Record ResolvedLinuxSelector := BuildResolvedLinuxSelector {
  rl_event_type : EventType;
  rl_probe_kind : HostProbeKind;
  rl_category : string;
  rl_name : string;
  rl_syscall_number : option Z;
  rl_binary_path : option string;
  rl_provider : option string }.
#[export] Instance ResolvedLinuxSelector_eq_dec : EqDecision ResolvedLinuxSelector.
Proof. solve_decision. Defined.
Record ValidatedEndpoint := BuildValidatedEndpoint {
  ve_selector : string;
  ve_source : EndpointSource;
  ve_event_type : EventType;
  ve_collectable : bool;
  ve_host : option ResolvedProbe;
  ve_linux : option ResolvedLinuxSelector;
  ve_cuda : option ResolvedCudaSelector }.
Record ValidationRequirements := BuildValidationRequirements {
  vr_needs_ebpf : bool;
  vr_needs_cupti : bool;
  vr_needs_cupti_callback : bool;
  vr_needs_cupti_activity : bool;
  vr_needs_nvtx : bool;
  vr_needs_clock_alignment : bool;
  vr_agent_activation : AgentActivation;
  vr_target_mutation : bool }.
Record ValidationIssue := BuildValidationIssue {
  vi_code : ErrorCode;
  vi_message : string }.
Record PolicyRecommendation := BuildPolicyRecommendation {
  rec_policy : MatchPolicy;
  rec_reason : PolicyRecommendationReason;
  rec_compatible_policies : list MatchPolicy }.

(** ** Endpoints *)
Module EndpointKind.
Inductive EndpointKind : Type :=
| HostEntry
| HostReturn
| SyscallEntry (name : string)
| SyscallExit (name : string)
| Tracepoint
| PythonGcStart
| PythonGcEnd
| CudaApi (domain name : string)
| Kernel
| Memcpy
| Memset
| NvtxRange (name_regex : string).
End EndpointKind.
Abbreviation EndpointKind := EndpointKind.EndpointKind.

Definition needs_callback (kind : EndpointKind) : bool :=
  match kind with EndpointKind.CudaApi _ _ | EndpointKind.NvtxRange _ => true | _ => false end.
Definition needs_activity (kind : EndpointKind) : bool :=
  match kind with
  | EndpointKind.Kernel | EndpointKind.Memcpy | EndpointKind.Memset => true
  | _ => false
  end.
Definition is_host (kind : EndpointKind) : bool :=
  match kind with
  | EndpointKind.HostEntry | EndpointKind.HostReturn | EndpointKind.SyscallEntry _
  | EndpointKind.SyscallExit _ | EndpointKind.Tracepoint | EndpointKind.PythonGcStart
  | EndpointKind.PythonGcEnd => true
  | _ => false
  end.
Definition uses_host_clock (kind : EndpointKind) : bool :=
  match kind with
  | EndpointKind.HostEntry | EndpointKind.HostReturn | EndpointKind.SyscallEntry _
  | EndpointKind.SyscallExit _ | EndpointKind.Tracepoint | EndpointKind.PythonGcStart
  | EndpointKind.PythonGcEnd | EndpointKind.CudaApi _ _ | EndpointKind.NvtxRange _ => true
  | _ => false
  end.
Definition needs_nvtx (kind : EndpointKind) : bool :=
  match kind with EndpointKind.NvtxRange _ => true | _ => false end.

Record Endpoint := BuildEndpoint {
  ep_public : ValidatedEndpoint;
  ep_kind : EndpointKind }.

(** ** Errors *)
Module ValidateError.
Inductive ValidateError : Type :=
| Inspect (error : InspectError)
| Resolve (endpoint : string) (source : ResolveError)
| Usdt (error : UsdtError)
| InvalidSelector (reason : string)
| InvalidCorrelationPolicy (policy : string).
End ValidateError.
Abbreviation ValidateError := ValidateError.ValidateError.

Definition validate_error_display (e : ValidateError) : string :=
  match e with
  | ValidateError.Inspect error => inspect_error_display error
  | ValidateError.Resolve endpoint source =>
      "failed to resolve " +:+ endpoint +:+ " selector: " +:+ resolve_error_display source
  | ValidateError.Usdt error => usdt_error_display error
  | ValidateError.InvalidSelector reason => "invalid event selector: " +:+ reason
  | ValidateError.InvalidCorrelationPolicy policy =>
      "invalid correlation policy " +:+ debug_str policy
  end.
Definition validate_error_code (e : ValidateError) : ErrorCode :=
  match e with
  | ValidateError.Inspect error => inspect_error_code error
  | ValidateError.Resolve _ source => resolve_error_code source
  | ValidateError.Usdt error => usdt_error_code error
  | ValidateError.InvalidSelector _ => ErrorCode.InvalidEventSelector
  | ValidateError.InvalidCorrelationPolicy _ => ErrorCode.InvalidCorrelationPolicy
  end.
Definition validate_error_recoverable (e : ValidateError) : bool :=
  match e with
  | ValidateError.Inspect error => inspect_error_recoverable error
  | ValidateError.Resolve _ source => resolve_error_recoverable source
  | ValidateError.Usdt error => usdt_error_recoverable error
  | _ => true
  end.

(** ** Parsing selectors *)
Section parsers.
Context `{RegexEngine}.
Local Abbreviation bad reason := (Err (ValidateError.InvalidSelector reason)).

Definition valid_tracepoint_component (value : string) : bool :=
  negb (is_empty value)
  && all_bytes (λ byte, is_ascii_alphanumeric byte || (byte == "_"%char)) value.

(** [parse_linux_selector], on the supported target architecture x86_64. *)
Definition parse_linux_selector (selector : string) :
    res ValidateError (ResolvedLinuxSelector * EndpointKind) :=
  let fields := split ":" selector in
  let syscall_usage :=
    bad "syscall selector must be syscall:<name>:<entry|exit>" in
  let tracepoint_usage :=
    bad "tracepoint selector must be tracepoint:<category>:<name>" in
  match fields with
  | keyword :: fields =>
      if keyword == "syscall" then
        match fields with
        | [name; boundary] =>
            if valid_tracepoint_component name then
              number ← ok_or (syscall_number name)
                (ValidateError.InvalidSelector
                   ("syscall " +:+ debug_str name +:+ " is not supported on x86_64"));
              '(event_type, kind) ←
                (if boundary == "entry"
                 then Ok (EventType.SyscallEntry, EndpointKind.SyscallEntry name)
                 else if boundary == "exit"
                 then Ok (EventType.SyscallExit, EndpointKind.SyscallExit name)
                 else bad "syscall boundary must be entry or exit");
              Ok (BuildResolvedLinuxSelector event_type HostProbeKind.Syscall "syscalls" name
                    (Some number) None None, kind)
            else syscall_usage
        | _ => syscall_usage
        end
      else if keyword == "tracepoint" then
        match fields with
        | [category; name] =>
            if valid_tracepoint_component category && valid_tracepoint_component name then
              Ok (BuildResolvedLinuxSelector EventType.Tracepoint HostProbeKind.Tracepoint
                    category name None None None, EndpointKind.Tracepoint)
            else tracepoint_usage
        | _ => tracepoint_usage
        end
      else bad "expected uprobe:, syscall:, tracepoint:, python:, or cuda: prefix"
  | [] => bad "expected uprobe:, syscall:, tracepoint:, python:, or cuda: prefix"
  end.

Definition cuda_selector (event_type : EventType) (kernel_name_regex nvtx_name_regex : option string)
    (memcpy_kind : option MemcpyKind) : ResolvedCudaSelector :=
  BuildResolvedCudaSelector event_type None None kernel_name_regex nvtx_name_regex memcpy_kind.

Definition parse_kernel_selector (fields : list string) :
    res ValidateError (ResolvedCudaSelector * EndpointKind * bool) :=
  event ← or_panic (fields !! 1%nat);
  event_type ←
    (if event == "kernel_start" then Ok EventType.GpuKernelStart
     else if event == "kernel_end" then Ok EventType.GpuKernelEnd
     else Panic);
  kernel_name_regex ←
    match fields !! 2%nat with
    | None => Ok None
    | Some filter =>
        pattern ← ok_or (strip_prefix "name~" filter)
          (ValidateError.InvalidSelector "kernel filter must use name~<regular-expression>");
        if is_empty pattern then bad "kernel name regular expression must not be empty"
        else
          _ ← map_err (λ error, ValidateError.InvalidSelector
                  ("invalid kernel name regular expression: " +:+ error)) (Regex_new pattern);
          Ok (Some pattern)
    end;
  Ok (cuda_selector event_type kernel_name_regex None None, EndpointKind.Kernel, true).

Definition parse_memcpy_selector (fields : list string) :
    res ValidateError (ResolvedCudaSelector * EndpointKind * bool) :=
  event ← or_panic (fields !! 1%nat);
  event_type ←
    (if event == "memcpy_start" then Ok EventType.GpuMemcpyStart
     else if event == "memcpy_end" then Ok EventType.GpuMemcpyEnd
     else Panic);
  memcpy_kind ←
    match fields !! 2%nat with
    | None => Ok None
    | Some filter =>
        kind ← ok_or (strip_prefix "kind=" filter)
          (ValidateError.InvalidSelector
             "memcpy filter must use kind=<HtoD|DtoH|DtoD|HtoH|PtoP>");
        kind ←
          (if kind == "HtoD" then Ok MemcpyKind.HostToDevice
           else if kind == "DtoH" then Ok MemcpyKind.DeviceToHost
           else if kind == "DtoD" then Ok MemcpyKind.DeviceToDevice
           else if kind == "HtoH" then Ok MemcpyKind.HostToHost
           else if kind == "PtoP" then Ok MemcpyKind.PeerToPeer
           else bad ("unsupported memcpy kind " +:+ debug_str kind));
        Ok (Some kind)
    end;
  Ok (cuda_selector event_type None None memcpy_kind, EndpointKind.Memcpy, true).

Definition parse_memset_selector (selector : string) (fields : list string) :
    res ValidateError (ResolvedCudaSelector * EndpointKind * bool) :=
  if negb (length fields =? 2)%nat then
    bad ("memset selector " +:+ debug_str selector +:+ " does not accept a filter")
  else
    event ← or_panic (fields !! 1%nat);
    event_type ←
      (if event == "memset_start" then Ok EventType.GpuMemsetStart
       else if event == "memset_end" then Ok EventType.GpuMemsetEnd
       else Panic);
    Ok (cuda_selector event_type None None None, EndpointKind.Memset, true).

Definition parse_nvtx_selector (fields : list string) :
    res ValidateError (ResolvedCudaSelector * EndpointKind * bool) :=
  event ← or_panic (fields !! 1%nat);
  event_type ←
    (if event == "nvtx_range_start" then Ok EventType.NvtxRangeStart
     else if event == "nvtx_range_end" then Ok EventType.NvtxRangeEnd
     else Panic);
  filter ← ok_or (fields !! 2%nat)
    (ValidateError.InvalidSelector
       "NVTX range selector requires name~<bounded-regular-expression>");
  pattern ← ok_or (strip_prefix "name~" filter)
    (ValidateError.InvalidSelector
       "NVTX range filter must use name~<bounded-regular-expression>");
  _ ← map_err (λ error, ValidateError.InvalidSelector
          ("invalid NVTX range name regular expression: " +:+ error)) (Regex_new pattern);
  if negb (is_bounded_name_regex pattern) then
    bad "NVTX range name must reduce to one nonempty exact, prefix, suffix, or contains filter shorter than 128 bytes"
  else
    Ok (cuda_selector event_type None (Some pattern) None, EndpointKind.NvtxRange pattern, true).

Definition parse_api_selector (selector : string) :
    res ValidateError (ResolvedCudaSelector * EndpointKind * bool) :=
  match split ":" selector with
  | [_; domain; name; boundary] =>
      if is_empty name then
        bad "CUDA API selector must be cuda:<runtime_api|driver_api>:<name>:<entry|exit>"
      else
        event_type ←
          (if boundary == "entry" then Ok EventType.CudaApiEntry
           else if boundary == "exit" then Ok EventType.CudaApiExit
           else bad "CUDA API boundary must be entry or exit");
        let collectable := (domain == "runtime_api") || (domain == "driver_api") in
        Ok (BuildResolvedCudaSelector event_type (Some domain) (Some name) None None None,
            EndpointKind.CudaApi domain name, collectable)
  | _ => bad "CUDA API selector must be cuda:<runtime_api|driver_api>:<name>:<entry|exit>"
  end.

Definition parse_cuda_selector (selector : string) :
    res ValidateError (ResolvedCudaSelector * EndpointKind * bool) :=
  let fields := splitn 3 ":" selector in
  match fields with
  | cuda :: event :: _ =>
      if cuda != "cuda" then
        bad "expected uprobe:, syscall:, tracepoint:, or cuda: prefix"
      else if (event == "kernel_start") || (event == "kernel_end") then
        parse_kernel_selector fields
      else if (event == "memcpy_start") || (event == "memcpy_end") then
        parse_memcpy_selector fields
      else if (event == "memset_start") || (event == "memset_end") then
        parse_memset_selector selector fields
      else if (event == "nvtx_range_start") || (event == "nvtx_range_end") then
        parse_nvtx_selector fields
      else if (event == "runtime_api") || (event == "driver_api") then
        parse_api_selector selector
      else bad ("unsupported CUDA event " +:+ debug_str event)
  | _ => bad "expected uprobe:, syscall:, tracepoint:, or cuda: prefix"
  end.

Definition parse_match_policy (policy : string) : res ValidateError MatchPolicy :=
  if policy == "exact" then Ok MatchPolicy.Exact
  else if (policy == "first-after") || (policy == "first_after") then Ok MatchPolicy.FirstAfter
  else if policy == "nearest" then Ok MatchPolicy.Nearest
  else if (policy == "stack-nested") || (policy == "stack_nested") then
    Ok MatchPolicy.StackNested
  else if (policy == "stream-order") || (policy == "stream_order") then
    Ok MatchPolicy.StreamOrder
  else Err (ValidateError.InvalidCorrelationPolicy policy).
End parsers.

(** ** Policies two endpoints support *)
Definition endpoints_support_exact (start finish : EndpointKind) : bool :=
  match start, finish with
  | EndpointKind.CudaApi start_domain start_name, EndpointKind.CudaApi end_domain end_name =>
      (start_domain == end_domain) && (start_name == end_name)
  | EndpointKind.Kernel, EndpointKind.Kernel
  | EndpointKind.Memcpy, EndpointKind.Memcpy
  | EndpointKind.Memset, EndpointKind.Memset
  | EndpointKind.PythonGcStart, EndpointKind.PythonGcEnd => true
  | EndpointKind.NvtxRange start_name, EndpointKind.NvtxRange end_name
  | EndpointKind.SyscallEntry start_name, EndpointKind.SyscallExit end_name =>
      start_name == end_name
  | EndpointKind.CudaApi domain name, EndpointKind.Kernel
  | EndpointKind.Kernel, EndpointKind.CudaApi domain name =>
      ((domain == "runtime_api") && (name == "cudaLaunchKernel"))
      || ((domain == "driver_api") && (name == "cuLaunchKernel"))
  | _, _ => false
  end.

(** [None] is the panic of the [expect]s. *)
Definition endpoints_support_stack_nested (start finish : Endpoint) : option bool :=
  match ep_kind start, ep_kind finish with
  | EndpointKind.HostEntry, EndpointKind.HostReturn =>
      start ← ve_host (ep_public start);
      finish ← ve_host (ep_public finish);
      Some ((rp_binary_path start == rp_binary_path finish)
            && (rp_file_offset start =? rp_file_offset finish))
  | _, _ => Some false
  end.

Definition supports_stream_order (start finish : EndpointKind) : bool :=
  needs_activity start && needs_activity finish.

Definition recommend_policy (start finish : Endpoint) : option PolicyRecommendation :=
  stack_nested ← endpoints_support_stack_nested start finish;
  let compatible_policies :=
    (if (stack_nested : bool) then [MatchPolicy.StackNested] else [])
    ++ (if endpoints_support_exact (ep_kind start) (ep_kind finish)
        then [MatchPolicy.Exact] else [])
    ++ (if supports_stream_order (ep_kind start) (ep_kind finish)
        then [MatchPolicy.StreamOrder] else [])
    ++ [MatchPolicy.FirstAfter; MatchPolicy.Nearest] in
  let '(policy, reason) :=
    if bool_decide (MatchPolicy.StackNested ∈ compatible_policies) then
      (MatchPolicy.StackNested, PolicyRecommendationReason.HostCallFrame)
    else if bool_decide (MatchPolicy.Exact ∈ compatible_policies) then
      (MatchPolicy.Exact, PolicyRecommendationReason.DeterministicCorrelationKey)
    else if bool_decide (MatchPolicy.StreamOrder ∈ compatible_policies) then
      (MatchPolicy.StreamOrder, PolicyRecommendationReason.CudaStreamOrder)
    else (MatchPolicy.FirstAfter, PolicyRecommendationReason.TemporalOrderOnly) in
  Some (BuildPolicyRecommendation policy reason compatible_policies).

(** ** Checks; the vectors they extend are returned *)
Definition check_collectability (endpoint : Endpoint) (name : string) : list ValidationIssue :=
  if negb (ve_collectable (ep_public endpoint)) then
    let message :=
      match ep_kind endpoint with
      | EndpointKind.PythonGcStart | EndpointKind.PythonGcEnd =>
          name +:+ " selector " +:+ ve_selector (ep_public endpoint)
            +:+ " requires mapped CPython ELF metadata exposing python:gc__start and python:gc__done USDT probes"
      | _ =>
          name +:+ " selector " +:+ ve_selector (ep_public endpoint)
            +:+ " is recognized but not collected by this build"
      end in
    [BuildValidationIssue ErrorCode.InvalidEventSelector message]
  else [].

Definition needs_uprobe (kind : EndpointKind) : bool :=
  match kind with EndpointKind.HostEntry => true | _ => false end.
Definition needs_uretprobe (kind : EndpointKind) : bool :=
  match kind with EndpointKind.HostReturn => true | _ => false end.
Definition needs_usdt (kind : EndpointKind) : bool :=
  match kind with EndpointKind.PythonGcStart | EndpointKind.PythonGcEnd => true | _ => false end.
Definition needs_tracepoint (kind : EndpointKind) : bool :=
  match kind with
  | EndpointKind.SyscallEntry _ | EndpointKind.SyscallExit _ | EndpointKind.Tracepoint => true
  | _ => false
  end.

Section checks.
Context `{SerdeJson}.

Definition check_capabilities (report : ProcessReport) (start finish : Endpoint)
    (requirements : ValidationRequirements) : list ValidationIssue * list Warning :=
  let either (f : EndpointKind → bool) := f (ep_kind start) || f (ep_kind finish) in
  let capabilities := pr_capabilities report in
  let ebpf_issues :=
    if vr_needs_ebpf requirements
       && (((either needs_uprobe || either needs_usdt) && negb (cap_uprobe capabilities))
           || (either needs_uretprobe && negb (cap_uretprobe capabilities))
           || (either needs_tracepoint && negb (cap_tracepoint capabilities)))
    then [BuildValidationIssue ErrorCode.PermissionDenied
            "required eBPF probe capability is unavailable"]
    else [] in
  let '(activation_issues, warnings) :=
    match vr_agent_activation requirements with
    | AgentActivation.InjectionRequired =>
        ([], [warning "TARGET_PROCESS_WILL_BE_MODIFIED"
                "measure must inject the xprobe CUPTI agent into the target process"])
    | AgentActivation.StartupRequired =>
        ([BuildValidationIssue ErrorCode.CuptiAgentNotLoaded
            "NVTX ranges cannot be enabled by online attach after NVTX initialization; restart the target with NVTX_INJECTION64_PATH set to the xprobe CUPTI agent"], [])
    | _ => ([], [])
    end in
  let cupti_issues :=
    match vr_agent_activation requirements with
    | AgentActivation.NotRequired | AgentActivation.AlreadyLoaded =>
        (if vr_needs_cupti_callback requirements && negb (cap_cuda_callback capabilities)
         then [BuildValidationIssue ErrorCode.CuptiNotAvailable
                 "CUPTI callback collection is unavailable for the target"] else [])
        ++ (if vr_needs_cupti_activity requirements && negb (cap_cuda_activity capabilities)
            then [BuildValidationIssue ErrorCode.CuptiNotAvailable
                    "CUPTI activity collection is unavailable for the target"] else [])
    | _ => []
    end in
  (ebpf_issues ++ activation_issues ++ cupti_issues, warnings).

Definition check_cupti_compatibility (report : ProcessReport)
    (requirements : ValidationRequirements) : list ValidationIssue :=
  if negb (vr_needs_cupti requirements) then []
  else
    match target_major report with
    | Err error => [BuildValidationIssue (cupti_error_code error) (cupti_error_display error)]
    | _ => []
    end.

Definition check_policy (start finish : Endpoint) (policy : MatchPolicy) :
    option (list ValidationIssue * list Warning) :=
  let refuse message := ([BuildValidationIssue ErrorCode.InvalidCorrelationPolicy message], []) in
  match policy with
  | MatchPolicy.Exact =>
      Some (if negb (endpoints_support_exact (ep_kind start) (ep_kind finish))
            then refuse "exact matching requires endpoints that share a deterministic correlation key"
            else ([], []))
  | MatchPolicy.FirstAfter =>
      Some ([], [warning "HEURISTIC_CORRELATION"
                   "first-after matching does not prove request-level causality"])
  | MatchPolicy.Nearest =>
      Some ([], [warning "HEURISTIC_CORRELATION"
                   "nearest-event matching does not prove request-level causality"])
  | MatchPolicy.StackNested =>
      supported ← endpoints_support_stack_nested start finish;
      Some (if negb supported
            then refuse "stack-nested matching requires entry and return probes for the same host function"
            else ([], []))
  | MatchPolicy.StreamOrder =>
      Some (if negb (supports_stream_order (ep_kind start) (ep_kind finish))
            then refuse "stream-order matching requires two GPU activity endpoints"
            else ([], []))
  end.

Definition check_selector_breadth (endpoint : Endpoint) (name : string) : list Warning :=
  let broad_kernel :=
    match ep_kind endpoint, ve_cuda (ep_public endpoint) with
    | EndpointKind.Kernel, Some cuda =>
        match rc_kernel_name_regex cuda with
        | None => true
        | Some pattern => (pattern == ".*") || (pattern == "^.*$")
        end
    | _, _ => false
    end in
  if broad_kernel then
    [warning "BROAD_EVENT_SELECTOR" (name +:+ " selector matches every CUDA kernel activity")]
  else [].
End checks.

(** ** Requirements *)
Definition requirements_of (report : ProcessReport) (start finish : EndpointKind) :
    ValidationRequirements :=
  let needs_ebpf := is_host start || is_host finish in
  let needs_cupti_callback := needs_callback start || needs_callback finish in
  let needs_cupti_activity := needs_activity start || needs_activity finish in
  let needs_nvtx := needs_nvtx start || needs_nvtx finish in
  let needs_cupti := needs_cupti_callback || needs_cupti_activity in
  let needs_clock_alignment := xorb (uses_host_clock start) (uses_host_clock finish) in
  let agent_activation :=
    if negb needs_cupti then AgentActivation.NotRequired
    else if pcs_xprobe_cupti_loaded (pr_cuda report) then AgentActivation.AlreadyLoaded
    else if needs_nvtx then AgentActivation.StartupRequired
    else AgentActivation.InjectionRequired in
  BuildValidationRequirements needs_ebpf needs_cupti needs_cupti_callback needs_cupti_activity
    needs_nvtx needs_clock_alignment agent_activation
    (agent_activation == AgentActivation.InjectionRequired).

(** ** The result and [validate::run] *)
Section validate.
Context `{SerdeJson, RegexEngine, Os, ObjectCrate, NoteParser}.

Record ValidationResult := BuildValidationResult {
  vres_schema_version : SchemaVersion;
  vres_ok : bool;
  vres_valid : bool;
  vres_target : TargetIdentity;
  vres_start : ValidatedEndpoint;
  vres_end : ValidatedEndpoint;
  vres_match_policy : MatchPolicy;
  vres_policy_recommendation : PolicyRecommendation;
  vres_requirements : ValidationRequirements;
  vres_issues : list ValidationIssue;
  vres_warnings : list Warning }.

Definition parse_python_selector (report : ProcessReport) (selector : string) :
    io ValidateError (ResolvedLinuxSelector * EndpointKind * bool) :=
  '(event_type, kind, name) ← lift
    (if selector == "python:gc_start" then
       Ok (EventType.PythonGcStart, EndpointKind.PythonGcStart, "gc__start"%string)
     else if selector == "python:gc_end" then
       Ok (EventType.PythonGcEnd, EndpointKind.PythonGcEnd, "gc__done"%string)
     else Err (ValidateError.InvalidSelector "Python selector must be python:<gc_start|gc_end>"));
  binary_path ← map_io_err ValidateError.Usdt (find_python_gc_probes report);
  let collectable := bool_decide (is_Some binary_path) in
  mret (BuildResolvedLinuxSelector event_type HostProbeKind.Usdt "python" name None binary_path
          (Some "python"%string), kind, collectable).

(** [resolve_endpoint]. *)
Definition resolve_endpoint (report : ProcessReport) (selector endpoint : string) :
    io ValidateError Endpoint :=
  if starts_with "uprobe:" selector then
    host ← map_io_err (ValidateError.Resolve endpoint) (resolve_run report selector);
    '(event_type, kind) ← lift
      match rp_probe_kind host with
      | HostProbeKind.Uprobe => Ok (EventType.HostFunctionEntry, EndpointKind.HostEntry)
      | HostProbeKind.Uretprobe => Ok (EventType.HostFunctionExit, EndpointKind.HostReturn)
      | _ => Panic
      end;
    mret (BuildEndpoint (BuildValidatedEndpoint selector EndpointSource.Host event_type true
                           (Some host) None None) kind)
  else if starts_with "syscall:" selector || starts_with "tracepoint:" selector then
    '(linux, kind) ← lift (parse_linux_selector selector);
    mret (BuildEndpoint (BuildValidatedEndpoint selector EndpointSource.Host
                           (rl_event_type linux) true None (Some linux) None) kind)
  else if starts_with "python:" selector then
    '(linux, kind, collectable) ← parse_python_selector report selector;
    mret (BuildEndpoint (BuildValidatedEndpoint selector EndpointSource.Host
                           (rl_event_type linux) collectable None (Some linux) None) kind)
  else
    '(cuda, kind, collectable) ← lift (parse_cuda_selector selector);
    mret (BuildEndpoint (BuildValidatedEndpoint selector EndpointSource.Cuda
                           (rc_event_type cuda) collectable None None (Some cuda)) kind).

(** [validate::run]. *)
Definition validate_run (report : ProcessReport) (start_selector end_selector match_policy : string) :
    io ValidateError ValidationResult :=
  _ ← map_io_err ValidateError.Inspect (verify_target (pr_target report));
  start ← resolve_endpoint report start_selector "start";
  finish ← resolve_endpoint report end_selector "end";
  match_policy ← lift (parse_match_policy match_policy);
  let requirements := requirements_of report (ep_kind start) (ep_kind finish) in
  let '(capability_issues, capability_warnings) :=
    check_capabilities report start finish requirements in
  '(policy_issues, policy_warnings) ← lift (or_panic (check_policy start finish match_policy));
  policy_recommendation ← lift (or_panic (recommend_policy start finish));
  let issues := check_collectability start "start" ++ check_collectability finish "end"
    ++ capability_issues ++ check_cupti_compatibility report requirements ++ policy_issues in
  let warnings := capability_warnings ++ policy_warnings
    ++ check_selector_breadth start "start" ++ check_selector_breadth finish "end" in
  _ ← map_io_err ValidateError.Inspect (verify_target (pr_target report));
  mret (BuildValidationResult SchemaVersion.V2 true
          (match issues with [] => true | _ => false end) (pr_target report)
          (ep_public start) (ep_public finish) match_policy policy_recommendation requirements
          issues warnings).

(** ** What the correlator makes of an accepted selector *)

(** The kind and event type of a correlator's selector, in the validator's terms. *)
Definition selector_kind (s : Selector) : EndpointKind :=
  match s with
  | Host event_type _ _ _ =>
      match event_type with
      | EventType.HostFunctionEntry => EndpointKind.HostEntry
      | _ => EndpointKind.HostReturn
      end
  | Syscall event_type name =>
      match event_type with
      | EventType.SyscallEntry => EndpointKind.SyscallEntry name
      | _ => EndpointKind.SyscallExit name
      end
  | Tracepoint _ _ => EndpointKind.Tracepoint
  | PythonGc event_type _ =>
      match event_type with
      | EventType.PythonGcStart => EndpointKind.PythonGcStart
      | _ => EndpointKind.PythonGcEnd
      end
  | Api _ domain name => EndpointKind.CudaApi domain name
  | Kernel _ _ => EndpointKind.Kernel
  | Memcpy _ _ => EndpointKind.Memcpy
  | Memset _ => EndpointKind.Memset
  | Nvtx _ _ pattern => EndpointKind.NvtxRange pattern
  end.
Definition selector_event_type (s : Selector) : EventType :=
  match s with
  | Host event_type _ _ _ | Syscall event_type _ | PythonGc event_type _ | Api event_type _ _
  | Kernel event_type _ | Memcpy event_type _ | Memset event_type | Nvtx event_type _ _ =>
      event_type
  | Tracepoint _ _ => EventType.Tracepoint
  end.

(** The correlator's selector reads as the validator's endpoint. *)
Definition reads_as (s : Selector) (kind : EndpointKind) (event_type : EventType) : Prop :=
  selector_kind s = kind ∧ selector_event_type s = event_type.

(** The CUDA endpoint the validator resolves is what the correlator's selector asks for. *)
Definition reads_cuda (s : Selector) (cuda : ResolvedCudaSelector) : Prop :=
  match s with
  | Api event_type domain name =>
      event_type ∈ [EventType.CudaApiEntry; EventType.CudaApiExit]
      ∧ cuda = BuildResolvedCudaSelector event_type (Some domain) (Some name) None None None
  | Kernel event_type name =>
      event_type ∈ [EventType.GpuKernelStart; EventType.GpuKernelEnd]
      ∧ match name with
        | None => cuda = cuda_selector event_type None None None
        | Some regex => ∃ pattern, Regex_new pattern = Ok regex
            ∧ cuda = cuda_selector event_type (Some pattern) None None
        end
  | Memcpy event_type kind =>
      event_type ∈ [EventType.GpuMemcpyStart; EventType.GpuMemcpyEnd]
      ∧ cuda = cuda_selector event_type None None kind
  | Memset event_type =>
      event_type ∈ [EventType.GpuMemsetStart; EventType.GpuMemsetEnd]
      ∧ cuda = cuda_selector event_type None None None
  | Nvtx event_type regex pattern =>
      event_type ∈ [EventType.NvtxRangeStart; EventType.NvtxRangeEnd]
      ∧ Regex_new pattern = Ok regex ∧ is_bounded_name_regex pattern = true
      ∧ cuda = cuda_selector event_type None (Some pattern) None
  | _ => False
  end.
(** The last step of the comparison of the CUDA parsers. *)
Ltac reads_done :=
  intros; simplify_eq; (eexists; split; [reflexivity|]; split; [done|]; simpl;
  repeat match goal with
  | |- _ ∧ _ => split
  | |- ∃ _, _ => eexists
  | |- _ ∈ _ => rewrite list_elem_of_In; simpl; auto
  | |- _ => eassumption || done
  end).

(** Both parsers of a text with this prefix see the keyword first. *)
Lemma split_keyword keyword text :
  contains_char ":" keyword = false → starts_with (keyword +:+ ":") text = true →
  ∃ fields, split ":" text = keyword :: fields.
Proof.
  intros Hk [t ->]%starts_with_true. exists (split ":" t).
  rewrite string_app_assoc. change (":" +:+ t) with (String ":" t).
  by apply split_app.
Qed.

Lemma parse_syscall_agrees selector linux kind :
  starts_with "syscall:" selector = true →
  parse_linux_selector selector = Ok (linux, kind) →
  ∃ s, parse_syscall selector = Ok s ∧ reads_as s kind (rl_event_type linux).
Proof.
  intros Hs. destruct (split_keyword "syscall" selector) as [fields Hf]; [done..|].
  unfold parse_linux_selector, parse_syscall. rewrite Hf. simpl.
  destruct fields as [|name [|boundary []]]; try done.
  change (valid_linux_component name) with (valid_tracepoint_component name).
  destruct (valid_tracepoint_component name); simpl; [|done].
  destruct (syscall_number name); simpl; [|done].
  repeat case_bool_decide; simpl; intros; simplify_eq; by eexists.
Qed.
Lemma parse_tracepoint_agrees selector linux kind :
  starts_with "tracepoint:" selector = true →
  parse_linux_selector selector = Ok (linux, kind) →
  ∃ s, parse_tracepoint selector = Ok s ∧ reads_as s kind (rl_event_type linux).
Proof.
  intros Hs. destruct (split_keyword "tracepoint" selector) as [fields Hf]; [done..|].
  unfold parse_linux_selector, parse_tracepoint. rewrite Hf. simpl.
  destruct fields as [|category [|name []]]; try done.
  change (valid_linux_component category) with (valid_tracepoint_component category).
  change (valid_linux_component name) with (valid_tracepoint_component name).
  destruct (valid_tracepoint_component category), (valid_tracepoint_component name); simpl;
    try done. intros; simplify_eq; by eexists.
Qed.

#[local] Arguments strip_prefix : simpl never.
#[local] Arguments splitn : simpl never.
#[local] Arguments is_bounded_name_regex : simpl never.

(** The filters of the CUDA parsers, compared one parser at a time. *)
Lemma parse_kernel_agrees fields cuda kind collectable :
  parse_kernel_selector fields = Ok (cuda, kind, collectable) →
  ∃ s, parse_kernel fields = Ok s ∧ reads_as s kind (rc_event_type cuda)
    ∧ reads_cuda s cuda.
Proof.
  unfold parse_kernel_selector, parse_kernel. destruct (fields !! 1%nat) as [event|]; [|done].
  simpl. repeat case_bool_decide; simpl; try done;
    (destruct (fields !! 2%nat) as [filter|]; simpl; [|reads_done];
     destruct (strip_prefix "name~" filter) as [pattern|]; simpl; [|done];
     destruct (is_empty pattern); simpl; [done|];
     destruct (Regex_new pattern) eqn:?; simpl; [|done..]; reads_done).
Qed.
Lemma parse_memcpy_agrees fields cuda kind collectable :
  parse_memcpy_selector fields = Ok (cuda, kind, collectable) →
  ∃ s, parse_memcpy fields = Ok s ∧ reads_as s kind (rc_event_type cuda)
    ∧ reads_cuda s cuda.
Proof.
  unfold parse_memcpy_selector, parse_memcpy, parse_memcpy_kind.
  destruct (fields !! 1%nat) as [event|]; [|done].
  simpl. destruct (event == "memcpy_start"), (event == "memcpy_end"); simpl; try done;
    (destruct (fields !! 2%nat) as [filter|]; simpl; [|reads_done];
     destruct (strip_prefix "kind=" filter) as [name|]; simpl; [|done];
     repeat case_bool_decide; simpl; reads_done).
Qed.
Lemma parse_memset_agrees text fields cuda kind collectable :
  parse_memset_selector text fields = Ok (cuda, kind, collectable) →
  ∃ s, parse_memset text fields = Ok s ∧ reads_as s kind (rc_event_type cuda)
    ∧ reads_cuda s cuda.
Proof.
  unfold parse_memset_selector, parse_memset. destruct (negb _); [done|].
  destruct (fields !! 1%nat) as [event|]; [|done]. simpl.
  repeat case_bool_decide; simpl; reads_done.
Qed.
Lemma parse_nvtx_agrees fields cuda kind collectable :
  parse_nvtx_selector fields = Ok (cuda, kind, collectable) →
  ∃ s, parse_nvtx fields = Ok s ∧ reads_as s kind (rc_event_type cuda)
    ∧ reads_cuda s cuda.
Proof.
  unfold parse_nvtx_selector, parse_nvtx. destruct (fields !! 1%nat) as [event|]; [|done].
  simpl. repeat case_bool_decide; simpl; try done;
    (destruct (fields !! 2%nat) as [filter|]; simpl; [|done];
     destruct (strip_prefix "name~" filter) as [pattern|]; simpl; [|done];
     destruct (Regex_new pattern) eqn:?; simpl; [|done..];
     destruct (is_bounded_name_regex pattern) eqn:?; simpl; [|done];
     reads_done).
Qed.
Lemma parse_api_agrees text cuda kind collectable :
  parse_api_selector text = Ok (cuda, kind, collectable) →
  ∃ s, parse_api text = Ok s ∧ reads_as s kind (rc_event_type cuda)
    ∧ reads_cuda s cuda.
Proof.
  unfold parse_api_selector, parse_api.
  destruct (split ":" text) as [|a [|domain [|name [|boundary []]]]]; try done.
  destruct (is_empty name); [done|].
  destruct (boundary == "entry"), (boundary == "exit"); simpl; reads_done.
Qed.

Lemma parse_cuda_agrees text cuda kind collectable :
  starts_with "uprobe:" text = false → starts_with "syscall:" text = false →
  starts_with "tracepoint:" text = false → starts_with "python:" text = false →
  parse_cuda_selector text = Ok (cuda, kind, collectable) →
  ∃ s, selector_parse text = Ok s ∧ reads_as s kind (rc_event_type cuda)
    ∧ reads_cuda s cuda.
Proof.
  unfold selector_parse, parse_cuda_selector. intros -> -> -> ->.
  destruct (splitn 3 ":" text) as [|first [|event rest]]; [done..|].
  destruct (first != "cuda"); [done|].
  set (api := (event == "runtime_api") || (event == "driver_api")).
  set (k := (event == "kernel_start") || (event == "kernel_end")).
  set (c := (event == "memcpy_start") || (event == "memcpy_end")).
  set (m := (event == "memset_start") || (event == "memset_end")).
  set (n := (event == "nvtx_range_start") || (event == "nvtx_range_end")).
  assert (api = true → k = false ∧ c = false ∧ m = false ∧ n = false) as Hapi.
  { unfold api. rewrite orb_true_iff, !bool_decide_eq_true. intros [->| ->]; done. }
  destruct api.
  { destruct Hapi as (-> & -> & -> & ->); [done|]. apply parse_api_agrees. }
  destruct k; [apply parse_kernel_agrees|]. destruct c; [apply parse_memcpy_agrees|].
  destruct m; [apply parse_memset_agrees|]. destruct n; [apply parse_nvtx_agrees|done].
Qed.

(** Host endpoints, and only they, carry a resolved probe. *)
Definition endpoint_wf (e : Endpoint) : Prop :=
  match ep_kind e with
  | EndpointKind.HostEntry | EndpointKind.HostReturn => is_Some (ve_host (ep_public e))
  | _ => ve_host (ep_public e) = None
  end.

Lemma bind_ok_inv {E A B} (m : res E A) (f : A → res E B) b :
  m ≫= f = Ok b → ∃ a, m = Ok a ∧ f a = Ok b.
Proof. destruct m; simpl; try done. eauto. Qed.

Lemma parse_linux_kind selector linux kind :
  parse_linux_selector selector = Ok (linux, kind) → needs_tracepoint kind = true.
Proof.
  unfold parse_linux_selector. destruct (split ":" selector) as [|keyword fields]; [done|].
  destruct (keyword == "syscall").
  - destruct fields as [|name [|boundary []]]; try done.
    destruct (valid_tracepoint_component name); [|done].
    intros (number & _ & Hok)%bind_ok_inv.
    destruct (boundary == "entry"), (boundary == "exit"); simpl in Hok; by simplify_eq.
  - destruct (keyword == "tracepoint"); [|done].
    destruct fields as [|category [|name []]]; try done.
    destruct (_ && _); [|done]. by intros [= <- <-].
Qed.
Lemma parse_cuda_kind selector cuda kind collectable :
  parse_cuda_selector selector = Ok (cuda, kind, collectable) → is_host kind = false.
Proof.
  assert (∀ {A} (m : res ValidateError A) f, (∀ a, f a = Ok (cuda, kind, collectable) →
    is_host kind = false) → m ≫= f = Ok (cuda, kind, collectable) → is_host kind = false)
    as Hbind by (intros A m f Hf (a & _ & Ha)%bind_ok_inv; eauto).
  unfold parse_cuda_selector, parse_kernel_selector, parse_memcpy_selector,
    parse_memset_selector, parse_nvtx_selector, parse_api_selector.
  repeat first
    [ progress intros
    | match goal with
      | H : _ ≫= _ = Ok _ |- _ => revert H; apply Hbind
      | H : (match ?x with _ => _ end) = Ok _ |- _ => destruct x; try done
      end ]; by simplify_eq.
Qed.

Lemma resolve_endpoint_ok report selector endpoint w e w' :
  resolve_endpoint report selector endpoint w = (Ok e, w') →
  endpoint_wf e ∧ ve_selector (ep_public e) = selector
  ∧ ∃ s, selector_parse selector = Ok s
      ∧ reads_as s (ep_kind e) (ve_event_type (ep_public e)).
Proof.
  unfold resolve_endpoint. intros Hok.
  destruct (starts_with "uprobe:" selector) eqn:Eu.
  { io_steps. destruct (resolve_run_kind _ _ _ _ _ Hio) as (s & ? & ? & ? & Hs & Hk & _).
    pose proof (uprobe_agreement selector) as Ha. rewrite Hs in Ha.
    rewrite Hk in Hio0. unfold host_selector in Ha.
    destruct (ps_boundary s); simplify_eq; io_steps; (split; [by eexists|]);
      (split; [done|]); by eexists. }
  destruct (starts_with "syscall:" selector || starts_with "tracepoint:" selector) eqn:Est.
  { io_steps. destruct a as [linux kind]. io_steps. pose proof (parse_linux_kind _ _ _ Hio) as Hk.
    split; [by destruct kind|]. split; [done|]. unfold selector_parse. rewrite Eu. simpl.
    destruct (starts_with "syscall:" selector) eqn:Es; simpl in Est.
    - by apply parse_syscall_agrees.
    - rewrite Est. by apply parse_tracepoint_agrees. }
  apply orb_false_iff in Est as [Es Et].
  destruct (starts_with "python:" selector) eqn:Ep.
  { io_steps. destruct a as [[linux kind] collectable]. io_steps.
    unfold parse_python_selector in Hio. io_steps. destruct a as [[event_type kind'] name].
    io_steps. unfold selector_parse, parse_python. rewrite Eu, Es, Et, Ep.
    repeat case_bool_decide; simplify_eq; (split; [done|]); (split; [done|]); by eexists. }
  io_steps. destruct a as [[cuda kind] collectable]. io_steps.
  pose proof (parse_cuda_kind _ _ _ _ Hio) as Hk.
  split; [by destruct kind|]. split; [done|].
  destruct (parse_cuda_agrees selector cuda kind collectable) as (s & Hs & Hr & _); [done..|].
  by exists s.
Qed.

(** ** A successful validation *)
Lemma validate_run_ok report start_selector end_selector policy w r w' :
  validate_run report start_selector end_selector policy w = (Ok r, w') →
  ∃ start finish p policy_issues policy_warnings recommendation w1 w2 w3 w4,
    verify_target (pr_target report) w = (Ok (), w1)
    ∧ resolve_endpoint report start_selector "start" w1 = (Ok start, w2)
    ∧ resolve_endpoint report end_selector "end" w2 = (Ok finish, w3)
    ∧ parse_match_policy policy = Ok p
    ∧ check_policy start finish p = Some (policy_issues, policy_warnings)
    ∧ recommend_policy start finish = Some recommendation
    ∧ verify_target (pr_target report) w4 = (Ok (), w')
    ∧ let requirements := requirements_of report (ep_kind start) (ep_kind finish) in
      let capabilities := check_capabilities report start finish requirements in
      let issues := check_collectability start "start" ++ check_collectability finish "end"
        ++ capabilities.1 ++ check_cupti_compatibility report requirements ++ policy_issues in
      r = BuildValidationResult SchemaVersion.V2 true
            (match issues with [] => true | _ => false end) (pr_target report)
            (ep_public start) (ep_public finish) p recommendation requirements issues
            (capabilities.2 ++ policy_warnings
             ++ check_selector_breadth start "start" ++ check_selector_breadth finish "end").
Proof.
  unfold validate_run. intros Hok. io_steps.
  destruct (check_capabilities report a0 a1 _) as [cap_issues cap_warnings] eqn:Ecap.
  io_steps. destruct a3 as [policy_issues policy_warnings]. io_steps.
  repeat match goal with u : unit |- _ => destruct u end.
  match goal with Hp : or_panic (check_policy _ _ _) = Ok _ |- _ =>
    destruct (check_policy _ _ _) eqn:?; [|done]; injection Hp as -> end.
  match goal with Hp : or_panic (recommend_policy _ _) = Ok _ |- _ =>
    destruct (recommend_policy _ _) eqn:?; [|done]; injection Hp as -> end.
  eexists a0, a1, a2, policy_issues, policy_warnings, _, _, _, _, _.
  split_and!; try done. by rewrite Ecap.
Qed.

(** What a validation certifies.  Both selectors it accepts are selectors
    the correlator parses, with the event type the result reports; the target's
    identity was confirmed before anything was resolved and again at the end;
    and the result is valid exactly when it lists no issue. *)
Theorem validated_selectors_measurable (report : ProcessReport)
    (start_selector end_selector policy : string) (w w' : World) (r : ValidationResult)
    (Hok : validate_run report start_selector end_selector policy w = (Ok r, w')) :
  (∃ s, selector_parse start_selector = Ok s ∧ selector_wf s
     ∧ selector_event_type s = ve_event_type (vres_start r)
     ∧ ve_selector (vres_start r) = start_selector)
  ∧ (∃ s, selector_parse end_selector = Ok s ∧ selector_wf s
     ∧ selector_event_type s = ve_event_type (vres_end r)
     ∧ ve_selector (vres_end r) = end_selector)
  ∧ (∃ w1, verify_target (pr_target report) w = (Ok (), w1))
  ∧ (∃ w2, verify_target (pr_target report) w2 = (Ok (), w'))
  ∧ (vres_valid r = true ↔ vres_issues r = []).
Proof.
  apply validate_run_ok in Hok
    as (start & finish & p & pi & pw & rec & w1 & w2 & w3 & w4 & Hv & Hs & Hf & _ & _ & _ & Hv' & ->).
  apply resolve_endpoint_ok in Hs as (_ & Hst & s & Hps & _ & Hes).
  apply resolve_endpoint_ok in Hf as (_ & Hft & f & Hpf & _ & Hef).
  simpl. split_and!; eauto 10 using selector_parse_wf.
  by destruct (check_collectability start _ ++ _).
Qed.

(** ** Policies *)
Lemma stack_nested_total start finish :
  endpoint_wf start → endpoint_wf finish →
  is_Some (endpoints_support_stack_nested start finish).
Proof.
  unfold endpoint_wf, endpoints_support_stack_nested.
  destruct (ep_kind start); eauto. destruct (ep_kind finish); eauto.
  intros [? ->] [? ->]. simpl. eauto.
Qed.

Lemma compatible_policies_spec start finish p :
  endpoint_wf start → endpoint_wf finish →
  match recommend_policy start finish with
  | Some r => p ∈ rec_compatible_policies r ↔ ∃ ws, check_policy start finish p = Some ([], ws)
  | None => False
  end.
Proof.
  intros Hstart Hfinish. destruct (stack_nested_total _ _ Hstart Hfinish) as [sn Hsn].
  unfold recommend_policy, check_policy. rewrite Hsn. simpl.
  destruct (if bool_decide _ then _ else _) as [policy reason]. simpl. clear policy reason.
  rewrite !elem_of_app.
  assert (∀ (b : bool) q, p ∈ (if b then [q] else []) ↔ b = true ∧ p = q) as Hif
    by (intros [] q; rewrite ?list_elem_of_singleton, ?elem_of_nil; naive_solver).
  rewrite !Hif, !elem_of_cons, elem_of_nil.
  destruct sn, (endpoints_support_exact _ _), (supports_stream_order _ _), p; simpl;
    (split; [intros Hd; first [by eexists | exfalso; intuition discriminate]
            |intros [ws Hws]; first [discriminate Hws | tauto]]).
Qed.

(** The recommendation.  For endpoints that resolved, a recommendation is
    always made, from the compatible policies; these are exactly the policies
    the policy check raises no issue for, the heuristic ones always among them;
    and a policy is recommended only when every stronger one (call frame, then
    correlation key, then stream order) is incompatible. *)
Theorem recommend_policy_spec (start finish : Endpoint)
    (Hstart : endpoint_wf start) (Hfinish : endpoint_wf finish) :
  ∃ r, recommend_policy start finish = Some r
    ∧ head (rec_compatible_policies r) = Some (rec_policy r)
    ∧ (∀ p, p ∈ rec_compatible_policies r ↔ ∃ ws, check_policy start finish p = Some ([], ws))
    ∧ (rec_policy r = MatchPolicy.FirstAfter ↔
       ∀ p, p ∈ rec_compatible_policies r → p = MatchPolicy.FirstAfter ∨ p = MatchPolicy.Nearest)
    ∧ sublist (rec_compatible_policies r)
        [MatchPolicy.StackNested; MatchPolicy.Exact; MatchPolicy.StreamOrder;
         MatchPolicy.FirstAfter; MatchPolicy.Nearest].
Proof.
  pose proof (λ p, compatible_policies_spec start finish p Hstart Hfinish) as Hcompatible.
  destruct (stack_nested_total _ _ Hstart Hfinish) as [sn Hsn].
  unfold recommend_policy in *. rewrite Hsn in *. simpl in *.
  destruct sn, (endpoints_support_exact _ _), (supports_stream_order _ _).
  all: eexists; (split; [vm_compute; reflexivity|]); cbn [rec_compatible_policies rec_policy].
  all: split; [done|]; split; [|split].
  all: try (intros p; exact (Hcompatible p)).
  all: try (split; [done || (intros _ p; rewrite !elem_of_cons, elem_of_nil; naive_solver)|];
            intros Hp; by destruct (Hp _ (list_elem_of_here _ _))).
  all: repeat (apply sublist_skip || apply sublist_cons || apply sublist_nil).
Qed.

(** Where the correlator is stricter than the validator. *)
Definition policy_gap (start finish : Selector) (policy : MatchPolicy) : Prop :=
  match policy, start, finish with
  | MatchPolicy.Exact, Nvtx start_type _ _, Nvtx end_type _ _ =>
      ¬ (start_type = EventType.NvtxRangeStart ∧ end_type = EventType.NvtxRangeEnd)
  | MatchPolicy.StackNested, Host _ _ start_binary start_target, Host _ _ end_binary end_target =>
      ¬ (start_binary = end_binary ∧ start_target = end_target)
  | _, _, _ => False
  end.

Lemma exact_gap s f :
  selector_wf s → selector_wf f →
  endpoints_support_exact (selector_kind s) (selector_kind f) = true →
  (supports_exact s f = true ↔ ¬ policy_gap s f MatchPolicy.Exact).
Proof.
  destruct s, f; simpl; intros Hs Hf; repeat match goal with
    | H : _ ∨ _ |- _ => destruct H
    | H : _ ∧ _ |- _ => destruct H
    end; subst; simpl; try done; rewrite ?bool_decide_eq_true; naive_solver.
Qed.
Lemma stack_nested_gap s f :
  selector_wf s → selector_wf f →
  selector_kind s = EndpointKind.HostEntry → selector_kind f = EndpointKind.HostReturn →
  (supports_stack_nested s f = true ↔ ¬ policy_gap s f MatchPolicy.StackNested).
Proof.
  destruct s; simpl; try (intros _ _ ?; repeat case_match; done).
  destruct f; simpl; try (intros _ _ _ ?; repeat case_match; done).
  intros [[-> ->]|[-> ->]] [[-> ->]|[-> ->]]; try done. intros _ _.
  rewrite andb_true_iff, !bool_decide_eq_true. split; [tauto|]. by intros H'%dec_stable.
Qed.
Lemma stream_order_agrees s f :
  supports_stream_order (selector_kind s) (selector_kind f) = true →
  is_gpu_activity s = true ∧ is_gpu_activity f = true.
Proof.
  assert (∀ t, needs_activity (selector_kind t) = is_gpu_activity t) as Ha
    by (intros []; simpl; by repeat case_match).
  unfold supports_stream_order. rewrite !Ha. apply andb_true_iff.
Qed.

(** C28: a policy the validator raises no issue for is accepted by the
    correlator for the same two selectors, except in the two cases of
    [policy_gap], where it is refused: exact matching of NVTX ranges that do not
    go from a start to an end (the validator compares only their names), and
    stack nesting of probes written differently (the validator compares the
    resolved binary and offset, the correlator the texts). *)
Theorem accepted_policies (report : ProcessReport) (start_text end_text : string)
    (w1 w1' w2 w2' : World) (start finish : Endpoint) (policy : MatchPolicy) (ws : list Warning)
    (Hstart : resolve_endpoint report start_text "start" w1 = (Ok start, w1'))
    (Hfinish : resolve_endpoint report end_text "end" w2 = (Ok finish, w2'))
    (Hpolicy : check_policy start finish policy = Some ([], ws)) :
  ∃ s f, selector_parse start_text = Ok s ∧ selector_parse end_text = Ok f
    ∧ (validate_policy s f policy = Ok () ↔ ¬ policy_gap s f policy).
Proof.
  apply resolve_endpoint_ok in Hstart as (_ & _ & s & Hs & Hks & _).
  apply resolve_endpoint_ok in Hfinish as (_ & _ & f & Hf & Hkf & _).
  exists s, f. split; [done|]. split; [done|].
  pose proof (selector_parse_wf _ _ Hs) as Hsw. pose proof (selector_parse_wf _ _ Hf) as Hfw.
  unfold validate_policy. destruct policy; simpl in Hpolicy.
  - destruct (endpoints_support_exact _ _) eqn:E; simpl in Hpolicy; [|done].
    rewrite <-Hks, <-Hkf in E. rewrite <-(exact_gap s f Hsw Hfw E).
    by destruct (supports_exact s f).
  - destruct s, f; simpl; tauto.
  - destruct s, f; simpl; tauto.
  - unfold endpoints_support_stack_nested in Hpolicy.
    destruct (ep_kind start); try done. destruct (ep_kind finish); try done.
    rewrite <-(stack_nested_gap s f Hsw Hfw Hks Hkf). by destruct (supports_stack_nested s f).
  - destruct (supports_stream_order _ _) eqn:E; simpl in Hpolicy; [|done].
    rewrite <-Hks, <-Hkf in E. apply stream_order_agrees in E as [-> ->]. destruct s, f; simpl; tauto.
Qed.

(** ** Issues *)

(** The eBPF capabilities the endpoints need are there. *)
Definition ebpf_available (report : ProcessReport) (start finish : EndpointKind) : Prop :=
  let capabilities := pr_capabilities report in
  (∀ k, k ∈ [start; finish] → needs_uprobe k || needs_usdt k = true →
     cap_uprobe capabilities = true)
  ∧ (∀ k, k ∈ [start; finish] → needs_uretprobe k = true → cap_uretprobe capabilities = true)
  ∧ (∀ k, k ∈ [start; finish] → needs_tracepoint k = true → cap_tracepoint capabilities = true).
(** The CUPTI agent is there or can be injected, its library is one for the
    target's CUDA version, and an agent that is there collects what is needed. *)
Definition cupti_available (report : ProcessReport) (start finish : EndpointKind) : Prop :=
  let requirements := requirements_of report start finish in
  let loaded := pcs_xprobe_cupti_loaded (pr_cuda report) in
  vr_needs_cupti requirements = true →
    (loaded = true ∨ vr_needs_nvtx requirements = false)
    ∧ (loaded = true → vr_needs_cupti_callback requirements = true →
       cap_cuda_callback (pr_capabilities report) = true)
    ∧ (loaded = true → vr_needs_cupti_activity requirements = true →
       cap_cuda_activity (pr_capabilities report) = true)
    ∧ (∀ e, target_major report ≠ Err e).

Lemma check_collectability_nil e name :
  check_collectability e name = [] ↔ ve_collectable (ep_public e) = true.
Proof. unfold check_collectability. by destruct (ve_collectable _). Qed.
Lemma missing_capability (f : EndpointKind → bool) a b c :
  (f a || f b) && negb c = false ↔ ∀ k, k ∈ [a; b] → f k = true → c = true.
Proof.
  split.
  - intros Hf k Hk Hfk. rewrite !elem_of_cons, elem_of_nil in Hk.
    destruct Hk as [->|[->|[]]]; rewrite Hfk, ?orb_true_r in Hf; by destruct c.
  - intros Hf. pose proof (Hf a ltac:(by left)). pose proof (Hf b ltac:(right; by left)).
    destruct (f a), (f b), c; naive_solver.
Qed.
Lemma is_host_needs kind :
  is_host kind = (needs_uprobe kind || needs_usdt kind) || needs_uretprobe kind
                 || needs_tracepoint kind.
Proof. by destruct kind. Qed.
Lemma ebpf_check_nil report a b :
  let either (f : EndpointKind → bool) := f a || f b in
  let capabilities := pr_capabilities report in
  either is_host
    && (((either needs_uprobe || either needs_usdt) && negb (cap_uprobe capabilities))
        || (either needs_uretprobe && negb (cap_uretprobe capabilities))
        || (either needs_tracepoint && negb (cap_tracepoint capabilities))) = false
  ↔ ebpf_available report a b.
Proof.
  simpl. unfold ebpf_available.
  rewrite <-(missing_capability (λ k, needs_uprobe k || needs_usdt k)), <-!missing_capability.
  rewrite !is_host_needs. set (c := pr_capabilities report).
  set (u := needs_uprobe a || needs_usdt a || (needs_uprobe b || needs_usdt b)).
  set (r := needs_uretprobe a || needs_uretprobe b).
  set (t := needs_tracepoint a || needs_tracepoint b).
  replace (needs_uprobe a || needs_uprobe b || (needs_usdt a || needs_usdt b)) with u
    by (unfold u; btauto).
  match goal with |- context [?h && _] =>
    replace h with (u || r || t) by (unfold u, r, t; btauto) end.
  destruct u, r, t, (cap_uprobe c), (cap_uretprobe c), (cap_tracepoint c); simpl; tauto.
Qed.
Lemma check_capabilities_nil report start finish :
  let requirements := requirements_of report (ep_kind start) (ep_kind finish) in
  (check_capabilities report start finish requirements).1
    ++ check_cupti_compatibility report requirements = []
  ↔ ebpf_available report (ep_kind start) (ep_kind finish)
    ∧ cupti_available report (ep_kind start) (ep_kind finish).
Proof.
  intros requirements. subst requirements.
  pose proof (ebpf_check_nil report (ep_kind start) (ep_kind finish)) as He. simpl in He.
  rewrite <-He. unfold check_capabilities, check_cupti_compatibility, cupti_available.
  simpl. generalize ((is_host (ep_kind start) || is_host (ep_kind finish))
    && ((needs_uprobe (ep_kind start) || needs_uprobe (ep_kind finish)
         || (needs_usdt (ep_kind start) || needs_usdt (ep_kind finish)))
        && negb (cap_uprobe (pr_capabilities report))
        || (needs_uretprobe (ep_kind start) || needs_uretprobe (ep_kind finish))
        && negb (cap_uretprobe (pr_capabilities report))
        || (needs_tracepoint (ep_kind start) || needs_tracepoint (ep_kind finish))
        && negb (cap_tracepoint (pr_capabilities report)))).
  intros ebpf. set (c := pr_capabilities report).
  destruct (pcs_xprobe_cupti_loaded _), (needs_callback (ep_kind start) || _),
    (needs_activity (ep_kind start) || _), (needs_nvtx (ep_kind start) || _), ebpf; simpl;
    try (split; [done|by intros []]);
  destruct (cap_cuda_callback c), (cap_cuda_activity c), (target_major report); simpl;
    (split; [intros Hnil; first [discriminate Hnil
               | split; [done|]; intros Hc; first [discriminate Hc
                   | split_and!; auto; discriminate]]
            |intros [_ Ha]; first [done
               | exfalso; destruct (Ha eq_refl) as (A & B & C & D);
                 first [by destruct (D _ eq_refl) | discriminate (B eq_refl eq_refl)
                       | discriminate (C eq_refl eq_refl) | by destruct A]]]).
Qed.

End validate.
