(* ===== verification/Linux.v ===== *)
(** * System call, tracepoint and static probe events

    [xprobe/collector/src/linux.rs]: checking a capture request, decoding the
    records of the BPF programs, and turning them into events; and the event
    limit [xprobe/cli/src/main.rs] computes for it.  [BpfCollect] loads, attaches and
    arms the BPF programs. *)
From S2P Require Import Prelude BTree RustString Text Bytes Ring Protocol Selector Measure.
From S2P Require Import Os Process Inspect Resolve Uprobe Usdt Syscalls Validate.
#[local] Open Scope Z_scope.

Definition LINUX_EVENT_SIZE : Z := 80.

Record LinuxCaptureRequest := BuildLinuxCaptureRequest {
  lcr_target : TargetIdentity;
  lcr_probes : list ResolvedLinuxSelector;
  lcr_event_limit : Z;
  lcr_capacity_limit : bool;
  lcr_timeout : Z }.

Module LinuxCaptureError.
Inductive LinuxCaptureError : Type :=
| InvalidRequest (reason : string)
| TargetNamespace (path : string) (source : IoError)
| MissingObjectMember (kind name : string)
| Libbpf (operation : string) (source : IoError)
| MalformedEvent (expected actual : Z)
| UnknownProbeId (probe_id : Z).
End LinuxCaptureError.
Abbreviation LinuxCaptureError := LinuxCaptureError.LinuxCaptureError.

Definition linux_error_code (e : LinuxCaptureError) : ErrorCode :=
  match e with
  | LinuxCaptureError.InvalidRequest _ => ErrorCode.InvalidEventSelector
  | LinuxCaptureError.TargetNamespace _ source =>
      if io_kind source == ErrorKind.PermissionDenied then ErrorCode.PermissionDenied
      else if io_kind source == ErrorKind.NotFound then ErrorCode.TargetExited
      else ErrorCode.Internal
  | LinuxCaptureError.Libbpf operation source =>
      let kind := io_kind source in
      if kind == ErrorKind.PermissionDenied then ErrorCode.PermissionDenied
      else if ((operation == "attach tracepoint") || (operation == "attach USDT"))
              && (kind == ErrorKind.NotFound) then ErrorCode.InvalidEventSelector
      else ErrorCode.Internal
  | LinuxCaptureError.MissingObjectMember _ _ | LinuxCaptureError.MalformedEvent _ _
  | LinuxCaptureError.UnknownProbeId _ => ErrorCode.Internal
  end.
Definition linux_error_recoverable (e : LinuxCaptureError) : bool :=
  match linux_error_code e with
  | ErrorCode.InvalidEventSelector | ErrorCode.PermissionDenied | ErrorCode.TargetExited => true
  | _ => false
  end.
Definition linux_error_display (e : LinuxCaptureError) : string :=
  match e with
  | LinuxCaptureError.InvalidRequest message => message
  | LinuxCaptureError.TargetNamespace path source =>
      "failed to inspect target PID namespace at " +:+ path +:+ ": " +:+ io_message source
  | LinuxCaptureError.MissingObjectMember kind name =>
      "BPF object is missing " +:+ kind +:+ " " +:+ name
  | LinuxCaptureError.Libbpf operation source =>
      "failed to " +:+ operation +:+ ": " +:+ io_message source
  | LinuxCaptureError.MalformedEvent expected actual =>
      "BPF ring buffer record has size " +:+ to_decimal actual +:+ ", expected "
        +:+ to_decimal expected
  | LinuxCaptureError.UnknownProbeId probe_id =>
      "BPF record has unknown Linux probe ID " +:+ to_decimal probe_id
  end.

Record LinuxRawEvent := BuildLinuxRawEvent {
  lre_timestamp_ns : Z;
  lre_sequence : Z;
  lre_values : list Z;
  lre_pid : Z;
  lre_tid : Z;
  lre_cpu : Z;
  lre_probe_id : Z }.

(** [RawEvent::decode]. *)
Definition linux_event_decode (bytes : list Z) : res LinuxCaptureError LinuxRawEvent :=
  if negb (len bytes =? LINUX_EVENT_SIZE) then
    Err (LinuxCaptureError.MalformedEvent LINUX_EVENT_SIZE (len bytes))
  else
    values ← or_panic (mapM (λ index, let start := 16 + Z.of_nat index * 8 in
                         field bytes start (start + 8)) (seq 0 6));
    timestamp_ns ← or_panic (field bytes 0 8);
    sequence ← or_panic (field bytes 8 16);
    pid ← or_panic (field bytes 64 68);
    tid ← or_panic (field bytes 68 72);
    cpu ← or_panic (field bytes 72 76);
    probe_id ← or_panic (field bytes 76 80);
    Ok (BuildLinuxRawEvent timestamp_ns sequence values pid tid cpu probe_id).

(** The consistency check of one probe in [validate_request]. *)
Definition linux_probe_valid (probe : ResolvedLinuxSelector) : bool :=
  match rl_probe_kind probe with
  | HostProbeKind.Syscall =>
      ((rl_event_type probe == EventType.SyscallEntry)
       || (rl_event_type probe == EventType.SyscallExit))
      && (rl_category probe == "syscalls")
      && bool_decide (is_Some (rl_syscall_number probe))
      && (rl_binary_path probe == None) && (rl_provider probe == None)
  | HostProbeKind.Tracepoint =>
      (rl_event_type probe == EventType.Tracepoint) && (rl_syscall_number probe == None)
      && (rl_binary_path probe == None) && (rl_provider probe == None)
  | HostProbeKind.Usdt =>
      ((rl_event_type probe == EventType.PythonGcStart)
       || (rl_event_type probe == EventType.PythonGcEnd))
      && (rl_category probe == "python") && (rl_syscall_number probe == None)
      && match rl_binary_path probe with Some path => negb (is_empty path) | None => false end
      && (rl_provider probe == Some "python"%string)
  | _ => false
  end.
(** [validate_request]. *)
Definition linux_validate_request (request : LinuxCaptureRequest) : res LinuxCaptureError unit :=
  if (len (lcr_probes request) =? 0) || (2 <? len (lcr_probes request)) then
    Err (LinuxCaptureError.InvalidRequest "Linux collector requires one or two endpoints")
  else if lcr_event_limit request =? 0 then
    Err (LinuxCaptureError.InvalidRequest "max-events must be greater than zero")
  else if lcr_timeout request =? 0 then
    Err (LinuxCaptureError.InvalidRequest "timeout must be greater than zero")
  else if existsb (λ probe, negb (linux_probe_valid probe) || is_empty (rl_category probe)
                            || is_empty (rl_name probe)) (lcr_probes request) then
    Err (LinuxCaptureError.InvalidRequest "Linux endpoint metadata is inconsistent")
  else Ok ().

(** ** The configuration of the BPF programs *)
Definition LINUX_CONFIG_SIZE : Z := 56.

(** The size of the ring buffer in [load_object]. *)
Definition next_power_of_two (value : Z) : option Z :=
  let power := if value <=? 1 then 1 else 2 ^ (Z.log2_up value) in
  if power <=? usize_max then Some power else None.
Definition linux_ring_bytes (event_limit : Z) : res LinuxCaptureError Z :=
  let ring_bytes :=
    Z.max (default usize_max (checked_mul_u64 event_limit LINUX_EVENT_SIZE ≫= next_power_of_two))
      (256 * 1024) in
  if ring_bytes <=? u32_max then Ok ring_bytes
  else Err (LinuxCaptureError.InvalidRequest
              "max-events requires a Linux ring buffer larger than u32").

(** One probe of the second loop of [configure_object]. *)
Definition linux_config_probe (index : Z) (probe : ResolvedLinuxSelector) (config : list Z) :
    option (list Z) :=
  match rl_syscall_number probe with
  | None => Some config
  | Some number =>
      match rl_event_type probe with
      | EventType.SyscallEntry =>
          copy_from_slice config (24 + index * 8) (to_le_bytes 8 (i64_bits number))
      | EventType.SyscallExit =>
          copy_from_slice config (40 + index * 8) (to_le_bytes 8 (i64_bits number))
      | _ => Some config
      end
  end.
Fixpoint linux_config_probes (index : Z) (probes : list ResolvedLinuxSelector)
    (config : list Z) : option (list Z) :=
  match probes with
  | [] => Some config
  | probe :: probes =>
      config ← linux_config_probe index probe config;
      linux_config_probes (index + 1) probes config
  end.
(** [configure_object] up to the update of the map, for the device and inode of the
    target's PID namespace. *)
Definition linux_config_bytes (dev ino : Z) (request : LinuxCaptureRequest) :
    option (list Z) :=
  let config := replicate 56 0 in
  config ← copy_from_slice config 0 (to_le_bytes 8 dev);
  config ← copy_from_slice config 8 (to_le_bytes 8 ino);
  config ← copy_from_slice config 16 (to_le_bytes 4 (target_pid (lcr_target request)));
  config ← foldl (λ acc slot, config ← acc;
                    copy_from_slice config (24 + slot * 8) (to_le_bytes 8 (i64_bits (-1))))
             (Some config) [0; 1; 2; 3];
  linux_config_probes 0 (lcr_probes request) config.
(** [arm_object] between the lookup and the update of the map. *)
Definition linux_arm (config : list Z) : res LinuxCaptureError (list Z) :=
  if negb (len config =? LINUX_CONFIG_SIZE) then
    Err (LinuxCaptureError.MalformedEvent LINUX_CONFIG_SIZE (len config))
  else or_panic (copy_from_slice config 20 (to_le_bytes 4 1)).
(** [read_counter] after the lookup of the map. *)
Definition linux_read_counter (value : list Z) : res LinuxCaptureError Z :=
  if len value =? 8 then Ok (from_le_bytes value)
  else Err (LinuxCaptureError.MalformedEvent 8 (len value)).

Section linux.
Context `{SerdeJson}.

(** [normalize_event]; [Panic] is a missing provider or an empty record. *)
Definition linux_normalize_event (raw : LinuxRawEvent) (request : LinuxCaptureRequest)
    (session_id : string) : res LinuxCaptureError Event :=
  let probe_index := saturating_sub (lre_probe_id raw) 1 in
  probe ← ok_or (get_z (lcr_probes request) probe_index)
    (LinuxCaptureError.UnknownProbeId (lre_probe_id raw));
  let arguments :=
    if rl_event_type probe == EventType.SyscallEntry then
      imap (λ index value, BuildArgumentValue (Z.of_nat index) "u64" (Some (value_number value))
                             None) (lre_values raw)
    else [] in
  attributes ←
    (if rl_probe_kind probe == HostProbeKind.Usdt then
       provider ← or_panic (rl_provider probe);
       Ok (bt_insert "usdt_provider"%string (value_string provider) [])
     else Ok (bt_insert "tracepoint_category"%string (value_string (rl_category probe)) []));
  first ← or_panic (get_z (lre_values raw) 0);
  Ok (BuildEvent SchemaVersion.V2 session_id ("evt_" +:+ to_decimal (lre_sequence raw))
        (lre_sequence raw) EventSource.Ebpf (rl_event_type probe) (lre_pid raw) (lre_tid raw)
        (Some (lre_cpu raw)) (lre_timestamp_ns raw) (lre_timestamp_ns raw)
        ClockDomain.HostMonotonic None
        (Some (target_process_start_time (lcr_target request)))
        (Some (BuildHostEvent (rl_probe_kind probe) (rl_binary_path probe) None
                 (Some (rl_name probe)) None None
                 (if rl_event_type probe == EventType.SyscallExit then Some (as_i64 first)
                  else None) arguments))
        None None attributes).

(** [capture] after the collection. *)
Definition linux_capture_result (request : LinuxCaptureRequest) (session_id : string)
    (raw_events : list LinuxRawEvent) (dropped : Z) : res LinuxCaptureError HostCaptureResult :=
  events ← res_mapM (λ raw, linux_normalize_event raw request session_id) raw_events;
  Ok (BuildHostCaptureResult SchemaVersion.V2 true session_id (lcr_target request) 0
        (len events) dropped (len events <? lcr_event_limit request)
        (lcr_capacity_limit request && (len events =? lcr_event_limit request)) events).
End linux.

(** [linux_capture_event_limit]. *)
Definition linux_capture_event_limit (options : MeasureOptions) (endpoint_count : Z) : Z :=
  Z.min (default (opt_max_events options)
           (samples ← opt_samples options;
            events ← checked_mul_u64 samples endpoint_count;
            checked_add_u64 events endpoint_count))
    (opt_max_events options).

(** ** Records *)
Definition linux_event_fields (raw : LinuxRawEvent) : list (nat * Z) :=
  [(8%nat, lre_timestamp_ns raw); (8%nat, lre_sequence raw)]
  ++ (pair 8%nat <$> lre_values raw)
  ++ [(4%nat, lre_pid raw); (4%nat, lre_tid raw); (4%nat, lre_cpu raw);
      (4%nat, lre_probe_id raw)].
Definition linux_event_encode (raw : LinuxRawEvent) : list Z :=
  encode_layout (linux_event_fields raw).
Definition linux_event_wf (raw : LinuxRawEvent) : Prop :=
  length (lre_values raw) = 6%nat ∧ layout_wf (linux_event_fields raw).

Lemma linux_decode_encode raw :
  linux_event_wf raw → linux_event_decode (linux_event_encode raw) = Ok raw.
Proof.
  destruct raw as [t s values p d c i]. intros [Hlen Hwf]. simpl in Hlen.
  do 6 (destruct values as [|? values]; [done|]). destruct values; [|done].
  unfold linux_event_decode, linux_event_encode. rewrite encode_layout_len.
  change (negb _) with false. cbv iota.
  cbn [seq mapM]. unfold linux_event_fields in *. cbn [lre_timestamp_ns lre_sequence lre_values
    lre_pid lre_tid lre_cpu lre_probe_id fmap list_fmap app] in *.
  by read_fields Hwf.
Qed.

(** ** A checked request *)
Lemma linux_valid_probes request :
  linux_validate_request request = Ok () →
  (length (lcr_probes request) ≤ 2)%nat
  ∧ Forall (λ probe, linux_probe_valid probe = true) (lcr_probes request).
Proof.
  unfold linux_validate_request. intros Hok. destruct (_ || _) eqn:Elen; [done|].
  apply orb_false_iff in Elen as [_ Elen]. apply Z.ltb_ge in Elen.
  split; [unfold len in Elen; lia|].
  do 2 (destruct (_ =? _); [done|]). destruct (existsb _ _) eqn:Eex; [done|].
  apply Forall_forall. intros probe Hin. apply not_true_iff_false in Eex.
  destruct (linux_probe_valid probe) eqn:E; [done|]. destruct Eex. apply existsb_exists.
  exists probe. split; [by apply list_elem_of_In|]. by rewrite E.
Qed.
Lemma linux_decode_values bytes raw :
  linux_event_decode bytes = Ok raw → length (lre_values raw) = 6%nat.
Proof.
  unfold linux_event_decode. destruct (negb _); [done|].
  destruct (mapM _ _) as [values|] eqn:Em; [|done]. cbn [or_panic mbind res_bind].
  apply length_mapM in Em. rewrite length_seq in Em.
  destruct (field bytes 0 8), (field bytes 8 16), (field bytes 64 68), (field bytes 68 72),
    (field bytes 72 76), (field bytes 76 80); try done. by intros [= <-].
Qed.
Lemma linux_decode_total bytes : linux_event_decode bytes ≠ Panic.
Proof.
  unfold linux_event_decode. destruct (Z.eqb_spec (len bytes) LINUX_EVENT_SIZE) as [Hlen|]; [|done].
  change LINUX_EVENT_SIZE with 80 in Hlen. cbn [negb].
  assert (∀ a b, 0 ≤ a ≤ b → b ≤ 80 → ∃ v, field bytes a b = Some v) as Hf
    by (intros; apply field_some; lia).
  cbn [seq mapM]. repeat match goal with |- context [field bytes ?a ?b] =>
    destruct (Hf a b ltac:(lia) ltac:(lia)) as [? ->] end. done.
Qed.

(** ** From a selector to its events *)

(** What the validator puts into a resolved endpoint. *)
Definition linux_wf (linux : ResolvedLinuxSelector) : Prop :=
  match rl_probe_kind linux with
  | HostProbeKind.Syscall =>
      (rl_event_type linux = EventType.SyscallEntry
       ∨ rl_event_type linux = EventType.SyscallExit)
      ∧ rl_category linux = "syscalls"%string ∧ is_Some (rl_syscall_number linux)
      ∧ rl_binary_path linux = None ∧ rl_provider linux = None
      ∧ valid_tracepoint_component (rl_name linux) = true
  | HostProbeKind.Tracepoint =>
      rl_event_type linux = EventType.Tracepoint ∧ rl_syscall_number linux = None
      ∧ rl_binary_path linux = None ∧ rl_provider linux = None
      ∧ valid_tracepoint_component (rl_category linux) = true
      ∧ valid_tracepoint_component (rl_name linux) = true
  | HostProbeKind.Usdt =>
      ((rl_event_type linux = EventType.PythonGcStart ∧ rl_name linux = "gc__start"%string)
       ∨ (rl_event_type linux = EventType.PythonGcEnd ∧ rl_name linux = "gc__done"%string))
      ∧ rl_category linux = "python"%string ∧ rl_syscall_number linux = None
      ∧ rl_provider linux = Some "python"%string
  | _ => False
  end.

Section end_to_end.
Context `{SerdeJson, RegexEngine, Os, ObjectCrate, NoteParser}.

(** The correlator's selector for a resolved endpoint. *)
Definition linux_selector (linux : ResolvedLinuxSelector) : Selector :=
  match rl_probe_kind linux with
  | HostProbeKind.Syscall => Syscall (rl_event_type linux) (rl_name linux)
  | HostProbeKind.Tracepoint => Tracepoint (rl_category linux) (rl_name linux)
  | _ => PythonGc (rl_event_type linux) (rl_name linux)
  end.

Lemma syscall_endpoint selector linux kind :
  starts_with "syscall:" selector = true →
  parse_linux_selector selector = Ok (linux, kind) →
  parse_syscall selector = Ok (linux_selector linux) ∧ linux_wf linux.
Proof.
  intros Hs. destruct (split_keyword "syscall" selector) as [fields Hf]; [done..|].
  unfold parse_linux_selector, parse_syscall. rewrite Hf. simpl.
  destruct fields as [|name [|boundary []]]; try done.
  change (valid_linux_component name) with (valid_tracepoint_component name).
  destruct (valid_tracepoint_component name) eqn:Ev; simpl; [|done].
  destruct (syscall_number name); simpl; [|done].
  unfold linux_wf. repeat case_bool_decide; simpl; intros; simplify_eq; simpl;
    (split; [done|]); split_and!; eauto.
Qed.
Lemma tracepoint_endpoint selector linux kind :
  starts_with "tracepoint:" selector = true →
  parse_linux_selector selector = Ok (linux, kind) →
  parse_tracepoint selector = Ok (linux_selector linux) ∧ linux_wf linux.
Proof.
  intros Hs. destruct (split_keyword "tracepoint" selector) as [fields Hf]; [done..|].
  unfold parse_linux_selector, parse_tracepoint. rewrite Hf. simpl.
  destruct fields as [|category [|name []]]; try done.
  change (valid_linux_component category) with (valid_tracepoint_component category).
  change (valid_linux_component name) with (valid_tracepoint_component name).
  destruct (valid_tracepoint_component category) eqn:Ec, (valid_tracepoint_component name) eqn:En;
    simpl; try done.
  intros; simplify_eq. unfold linux_wf. simpl. by split_and!.
Qed.

Lemma linux_endpoint report selector endpoint w e w' linux :
  resolve_endpoint report selector endpoint w = (Ok e, w') →
  ve_linux (ep_public e) = Some linux →
  selector_parse selector = Ok (linux_selector linux) ∧ linux_wf linux.
Proof.
  unfold resolve_endpoint, selector_parse. intros Hok Hl.
  destruct (starts_with "uprobe:" selector) eqn:Eu.
  { io_steps. destruct a0 as [event_type kind]. io_steps. done. }
  destruct (starts_with "syscall:" selector) eqn:Es; simpl in Hok.
  { io_steps. destruct a as [l kind]. io_steps. simpl in Hl. simplify_eq.
    by eapply syscall_endpoint. }
  destruct (starts_with "tracepoint:" selector) eqn:Et.
  { io_steps. destruct a as [l kind]. io_steps. simpl in Hl. simplify_eq.
    by eapply tracepoint_endpoint. }
  destruct (starts_with "python:" selector) eqn:Ep.
  { io_steps. destruct a as [[l kind] collectable]. io_steps. simpl in Hl. simplify_eq.
    unfold parse_python_selector in Hio. io_steps. destruct a as [[event_type kind'] name].
    io_steps. unfold parse_python, linux_wf.
    repeat case_bool_decide; simplify_eq; simpl; (split; [done|]); split_and!; auto. }
  io_steps. destruct a as [[cuda kind] collectable]. io_steps. done.
Qed.

Lemma linux_wf_valid linux :
  linux_wf linux →
  (rl_probe_kind linux = HostProbeKind.Usdt →
     ∃ path, rl_binary_path linux = Some path ∧ is_empty path = false) →
  linux_probe_valid linux = true ∧ is_empty (rl_category linux) = false
  ∧ is_empty (rl_name linux) = false.
Proof.
  assert (∀ value, valid_tracepoint_component value = true → is_empty value = false) as Hv
    by (intros value; unfold valid_tracepoint_component; by destruct (is_empty value)).
  unfold linux_wf, linux_probe_valid. destruct linux as [et kind cat name number path provider].
  simpl. destruct kind; try done.
  - intros (-> & -> & -> & -> & Hc & Hn) _; split_and!; auto.
  - intros ([-> | ->] & -> & [n ->] & -> & -> & Hn) _; split_and!; auto.
  - intros ([[-> ->]|[-> ->]] & -> & -> & ->) Hp; destruct (Hp eq_refl) as (path' & -> & Hpath);
      rewrite Hpath; done.
Qed.

(** Whose event it is: the probe a record was attributed to. *)
Definition same_endpoint (a b : ResolvedLinuxSelector) : Prop :=
  rl_event_type a = rl_event_type b ∧ rl_category a = rl_category b ∧ rl_name a = rl_name b.

Lemma linux_normalize_ok raw request session_id probe :
  get_z (lcr_probes request) (saturating_sub (lre_probe_id raw) 1) = Some probe →
  linux_wf probe → lre_values raw ≠ [] →
  ∃ event host, linux_normalize_event raw request session_id = Ok event
    ∧ ev_event_type event = rl_event_type probe ∧ ev_host event = Some host
    ∧ host_probe_kind host = rl_probe_kind probe ∧ host_symbol host = Some (rl_name probe)
    ∧ attribute_str event "tracepoint_category"
      = (if rl_probe_kind probe == HostProbeKind.Usdt then None else Some (rl_category probe))
    ∧ attribute_str event "usdt_provider"
      = (if rl_probe_kind probe == HostProbeKind.Usdt then Some "python"%string else None).
Proof.
  intros Hget Hwf Hv. unfold linux_normalize_event. rewrite Hget. simpl.
  destruct (lre_values raw) as [|v vs]; [done|]. unfold get_z. simpl.
  unfold linux_wf in Hwf. destruct (rl_probe_kind probe) eqn:Ek; try done; simpl.
  3: destruct Hwf as (_ & _ & _ & ->); simpl.
  all: eexists _, _; split; [reflexivity|]; unfold attribute_str; simpl.
  all: by rewrite ?as_str_string.
Qed.

(** A record of a resolved system call, tracepoint or Python endpoint is always
    normalised, and a start endpoint's selector matches the resulting event exactly when
    the record belongs to an endpoint with the same event type, category and name. *)
Theorem linux_events_match (report : ProcessReport) (text text' : string)
    (w1 w1' w2 w2' : World) (e e' : Endpoint) (linux linux' : ResolvedLinuxSelector)
    (request : LinuxCaptureRequest) (raw : LinuxRawEvent) (session_id : string)
    (Hresolve : resolve_endpoint report text "start" w1 = (Ok e, w1'))
    (Hresolve' : resolve_endpoint report text' "end" w2 = (Ok e', w2'))
    (Hlinux : ve_linux (ep_public e) = Some linux)
    (Hlinux' : ve_linux (ep_public e') = Some linux')
    (Hraw : lre_values raw ≠ [])
    (Hprobe : get_z (lcr_probes request) (saturating_sub (lre_probe_id raw) 1) = Some linux') :
  ∃ s event, selector_parse text = Ok s
    ∧ linux_normalize_event raw request session_id = Ok event
    ∧ (selector_matches s event = true ↔ same_endpoint linux linux').
Proof.
  destruct (linux_endpoint _ _ _ _ _ _ _ Hresolve Hlinux) as [Hs Hwf].
  destruct (linux_endpoint _ _ _ _ _ _ _ Hresolve' Hlinux') as [_ Hwf'].
  destruct (linux_normalize_ok raw request session_id linux' Hprobe Hwf' Hraw)
    as (event & host & Hev & Htype & Hhost & Hkind & Hsym & Hcat & Hprov).
  exists (linux_selector linux), event. split; [done|]. split; [done|].
  unfold same_endpoint, linux_selector, linux_wf in *.
  destruct (rl_probe_kind linux) eqn:Ek; try done; unfold selector_matches;
    rewrite Htype, Hhost, Hkind, Hsym, ?Hcat, ?Hprov.
  all: rewrite ?andb_true_iff, !bool_decide_eq_true.
  all: destruct (rl_probe_kind linux') eqn:Ek'; try done; simpl.
  all: clear -Hwf Hwf'; destruct_and?; destruct_or?; destruct_and?; intuition congruence.
Qed.
End end_to_end.
