(* ===== verification/Bpf.v ===== *)
(** * The BPF programs behind system call and tracepoint events

    [bpf/xprobe.bpf.c], the programs of [linux_events] and of [events]: the C structures read
    from and written to the maps, and the handlers.  A handler's environment
    (current task, clock, CPU, room in the ring buffer, readable registers) is
    an argument; the maps it changes are its state.  The composition with the
    collector of [Linux] ends the file. *)
From S2P Require Import Prelude BTree RustString Text Bytes Ring Protocol Selector Measure.
From S2P Require Import Os Process Inspect Resolve Uprobe Usdt Syscalls Validate Linux.
#[local] Open Scope Z_scope.

Record xprobe_linux_config := Build_xprobe_linux_config {
  xc_pidns_dev : Z;
  xc_pidns_ino : Z;
  xc_target_pid : Z;
  xc_reserved : Z;
  xc_syscall_entry_numbers : Z * Z;
  xc_syscall_exit_numbers : Z * Z }.

(** The value of [linux_config], as the C structure lays it out. *)
Definition read_linux_config (bytes : list Z) : option xprobe_linux_config :=
  dev ← field bytes 0 8; ino ← field bytes 8 16; pid ← field bytes 16 20;
  reserved ← field bytes 20 24; entry1 ← field bytes 24 32; entry2 ← field bytes 32 40;
  exit1 ← field bytes 40 48; exit2 ← field bytes 48 56;
  Some (Build_xprobe_linux_config dev ino pid reserved (as_i64 entry1, as_i64 entry2)
          (as_i64 exit1, as_i64 exit2)).

(** The registers the handlers read. *)
Record xprobe_registers := Build_xprobe_registers {
  reg_r10 : Z; reg_r9 : Z; reg_r8 : Z; reg_dx : Z; reg_si : Z; reg_di : Z; reg_orig_ax : Z }.

Record bpf_env := Build_bpf_env {
  be_ns_current_pid_tgid : Z → Z → option (Z * Z);
  be_ktime_ns : Z;
  be_cpu : Z;
  be_ringbuf_reserve : bool }.

(** The maps [linux_sequence], [linux_dropped] and [linux_events]. *)
Record bpf_linux_state := Build_bpf_linux_state {
  bl_sequence : Z;
  bl_dropped : Z;
  bl_events : list LinuxRawEvent }.

(** [__sync_fetch_and_add(counter, 1) + 1] on a [__u64]. *)
Definition count_u64 (counter : Z) : Z := (counter + 1) mod 2 ^ 64.
Definition xprobe_count_linux_drop (state : bpf_linux_state) : bpf_linux_state :=
  Build_bpf_linux_state (bl_sequence state) (count_u64 (bl_dropped state)) (bl_events state).

(** The guard the handlers share: the thread of the target process, if it is one. *)
Definition linux_target_thread (env : bpf_env) (current : xprobe_linux_config) :
    option (Z * Z) :=
  if xc_reserved current =? 0 then None
  else
    '(tgid, pid) ← be_ns_current_pid_tgid env (xc_pidns_dev current) (xc_pidns_ino current);
    if xc_target_pid current =? tgid then Some (tgid, pid) else None.

Definition xprobe_emit_linux_event (env : bpf_env) (current : xprobe_linux_config)
    (probe_id : Z) (values : option (list Z)) (state : bpf_linux_state) : bpf_linux_state :=
  match linux_target_thread env current with
  | None => state
  | Some (tgid, pid) =>
      if be_ringbuf_reserve env then
        let sequence := count_u64 (bl_sequence state) in
        let event := BuildLinuxRawEvent (be_ktime_ns env) sequence
                       (default (replicate 6 0) values) tgid pid (be_cpu env) probe_id in
        Build_bpf_linux_state sequence (bl_dropped state) (bl_events state ++ [event])
      else xprobe_count_linux_drop state
  end.

(** [xprobe_handle_tracepoint_N], [xprobe_handle_raw_tracepoint_N] and
    [xprobe_handle_usdt_N]. *)
Definition xprobe_handle_slot (slot : Z) (env : bpf_env) (current : xprobe_linux_config) :
    bpf_linux_state → bpf_linux_state :=
  xprobe_emit_linux_event env current slot None.

Definition xprobe_syscall_probe_id (numbers : Z * Z) (syscall_number : Z) : Z :=
  if numbers.1 =? syscall_number then 1
  else if numbers.2 =? syscall_number then 2
  else 0.
Definition xprobe_target_linux_process (env : bpf_env) (current : xprobe_linux_config) : bool :=
  bool_decide (is_Some (linux_target_thread env current)).

(** [registers] is [None] when [bpf_probe_read_kernel] fails. *)
Definition xprobe_handle_syscall_entry (env : bpf_env) (current : xprobe_linux_config)
    (argument : Z) (registers : option xprobe_registers) (state : bpf_linux_state) :
    bpf_linux_state :=
  let syscall_number := as_i64 argument in
  if negb (xprobe_target_linux_process env current) then state
  else
    let probe_id := xprobe_syscall_probe_id (xc_syscall_entry_numbers current) syscall_number in
    if probe_id =? 0 then state
    else
      match registers with
      | None => xprobe_count_linux_drop state
      | Some r =>
          xprobe_emit_linux_event env current probe_id
            (Some [reg_di r; reg_si r; reg_dx r; reg_r10 r; reg_r8 r; reg_r9 r]) state
      end.
Definition xprobe_handle_syscall_exit (env : bpf_env) (current : xprobe_linux_config)
    (argument : Z) (registers : option xprobe_registers) (state : bpf_linux_state) :
    bpf_linux_state :=
  if negb (xprobe_target_linux_process env current) then state
  else
    match registers with
    | None => xprobe_count_linux_drop state
    | Some r =>
        let probe_id :=
          xprobe_syscall_probe_id (xc_syscall_exit_numbers current) (as_i64 (reg_orig_ax r)) in
        if probe_id =? 0 then state
        else xprobe_emit_linux_event env current probe_id (Some [argument; 0; 0; 0; 0; 0]) state
    end.

(** ** The configuration the programs see *)

(** The number a probe puts into the slots of one direction, -1 for none. *)
Definition slot_number (event_type : EventType) (probe : option ResolvedLinuxSelector) : Z :=
  match probe with
  | Some probe =>
      if rl_event_type probe == event_type then default (-1) (rl_syscall_number probe) else -1
  | None => -1
  end.
Definition config_spec (dev ino : Z) (request : LinuxCaptureRequest) : xprobe_linux_config :=
  let probe i := lcr_probes request !! i in
  let numbers event_type :=
    (slot_number event_type (probe 0%nat), slot_number event_type (probe 1%nat)) in
  Build_xprobe_linux_config dev ino (target_pid (lcr_target request)) 1
    (numbers EventType.SyscallEntry) (numbers EventType.SyscallExit).
Definition config_layout (dev ino pid armed entry1 entry2 exit1 exit2 : Z) : list (nat * Z) :=
  [(8%nat, dev); (8%nat, ino); (4%nat, pid); (4%nat, armed); (8%nat, i64_bits entry1);
   (8%nat, i64_bits entry2); (8%nat, i64_bits exit1); (8%nat, i64_bits exit2)].
Definition config_fields (armed : Z) (current : xprobe_linux_config) : list (nat * Z) :=
  config_layout (xc_pidns_dev current) (xc_pidns_ino current) (xc_target_pid current) armed
    (xc_syscall_entry_numbers current).1 (xc_syscall_entry_numbers current).2
    (xc_syscall_exit_numbers current).1 (xc_syscall_exit_numbers current).2.

(** A probe fills the slots of its index. *)
Lemma config_probe_first dev ino pid entry2 exit2 probe :
  linux_config_probe 0 probe (encode_layout (config_layout dev ino pid 0 (-1) entry2 (-1) exit2))
  = Some (encode_layout (config_layout dev ino pid 0
      (slot_number EventType.SyscallEntry (Some probe)) entry2
      (slot_number EventType.SyscallExit (Some probe)) exit2)).
Proof.
  unfold linux_config_probe, slot_number.
  destruct (rl_syscall_number probe) as [number|]; [|by repeat case_bool_decide].
  destruct (rl_event_type probe); try done; by eapply copy_layout.
Qed.
Lemma config_probe_second dev ino pid entry1 exit1 probe :
  linux_config_probe 1 probe (encode_layout (config_layout dev ino pid 0 entry1 (-1) exit1 (-1)))
  = Some (encode_layout (config_layout dev ino pid 0
      entry1 (slot_number EventType.SyscallEntry (Some probe))
      exit1 (slot_number EventType.SyscallExit (Some probe)))).
Proof.
  unfold linux_config_probe, slot_number.
  destruct (rl_syscall_number probe) as [number|]; [|by repeat case_bool_decide].
  destruct (rl_event_type probe); try done; by eapply copy_layout.
Qed.
(** The bytes before the loop over the probes. *)
Lemma config_base dev ino pid :
  (config ← copy_from_slice (replicate 56 0) 0 (to_le_bytes 8 dev);
   config ← copy_from_slice config 8 (to_le_bytes 8 ino);
   config ← copy_from_slice config 16 (to_le_bytes 4 pid);
   foldl (λ acc slot, config ← acc;
            copy_from_slice config (24 + slot * 8) (to_le_bytes 8 (i64_bits (-1))))
     (Some config) [0; 1; 2; 3])
  = Some (encode_layout (config_layout dev ino pid 0 (-1) (-1) (-1) (-1))).
Proof.
  change (replicate 56 0) with (encode_layout (config_layout 0 0 0 0 0 0 0 0)).
  rewrite (copy_layout _ 0 8 0 dev) by done. cbn [mbind option_bind].
  rewrite (copy_layout _ 1 8 0 ino) by done. cbn [mbind option_bind].
  rewrite (copy_layout _ 2 4 0 pid) by done. cbn [mbind option_bind foldl].
  rewrite (copy_layout _ 4 8 0) by done. cbn [mbind option_bind].
  rewrite (copy_layout _ 5 8 0) by done. cbn [mbind option_bind].
  rewrite (copy_layout _ 6 8 0) by done. cbn [mbind option_bind].
  by rewrite (copy_layout _ 7 8 0) by done.
Qed.
Lemma linux_config_fields dev ino request :
  (length (lcr_probes request) ≤ 2)%nat →
  linux_config_bytes dev ino request
  = Some (encode_layout (config_fields 0 (config_spec dev ino request))).
Proof.
  intros Hlen. pose proof (config_base dev ino (target_pid (lcr_target request))) as Hbase.
  unfold linux_config_bytes. cbv zeta in *.
  destruct (copy_from_slice (replicate 56 0) 0 (to_le_bytes 8 dev)); [|done].
  cbn [mbind option_bind] in *. destruct (copy_from_slice _ 8 _); [|done].
  cbn [mbind option_bind] in *. destruct (copy_from_slice _ 16 _); [|done].
  cbn [mbind option_bind] in *. rewrite Hbase. cbn [mbind option_bind].
  unfold config_spec, config_fields.
  destruct (lcr_probes request) as [|p [|q []]]; [done|..|simpl in Hlen; lia];
    cbn [linux_config_probes]; rewrite config_probe_first; cbn [mbind option_bind]; [done|].
  by rewrite config_probe_second.
Qed.

(** The values are in range. *)
Definition config_wf (current : xprobe_linux_config) : Prop :=
  in_u64 (xc_pidns_dev current) ∧ in_u64 (xc_pidns_ino current) ∧ in_u32 (xc_target_pid current)
  ∧ Forall (λ n, - 2 ^ 63 ≤ n < 2 ^ 63)
      [(xc_syscall_entry_numbers current).1; (xc_syscall_entry_numbers current).2;
       (xc_syscall_exit_numbers current).1; (xc_syscall_exit_numbers current).2].

(** What the program reads from the armed bytes. *)
Lemma read_armed current :
  config_wf current → xc_reserved current = 1 →
  ∃ armed, linux_arm (encode_layout (config_fields 0 current)) = Ok armed
    ∧ read_linux_config armed = Some current.
Proof.
  intros (Hd & Hi & Hp & Hn) Hr. exists (encode_layout (config_fields 1 current)). split.
  - unfold linux_arm. rewrite encode_layout_len.
    change (negb (layout_size (config_fields 0 current) =? LINUX_CONFIG_SIZE)) with false.
    by rewrite (copy_layout _ 3 4 0).
  - assert (layout_wf (config_fields 1 current)) as Hwf.
    { unfold layout_wf, config_fields, config_layout, in_u64, in_u32, u64_max, u32_max in *.
      repeat constructor; try lia; apply Z.mod_pos_bound; lia. }
    unfold read_linux_config, config_fields, config_layout in *. read_fields Hwf.
    rewrite !Forall_cons in Hn. destruct Hn as (? & ? & ? & ? & _).
    cbn [mbind option_bind]. rewrite !as_i64_bits by done.
    by destruct current as [? ? ? ? [] []]; simpl in *; subst.
Qed.

(** ** From a system call to its event *)

(** The first probe of a direction and a number. *)
Definition first_slot (event_type : EventType) (number : Z)
    (probes : list ResolvedLinuxSelector) : option (nat * ResolvedLinuxSelector) :=
  list_find (λ p, rl_event_type p = event_type ∧ rl_syscall_number p = Some number) probes.

Lemma slot_number_find event_type number probe :
  0 ≤ number →
  (slot_number event_type (Some probe) =? number)
  = bool_decide (rl_event_type probe = event_type ∧ rl_syscall_number probe = Some number).
Proof.
  intros Hn. unfold slot_number. destruct (rl_syscall_number probe) as [n|]; simpl;
    repeat case_bool_decide; (apply Z.eqb_eq || apply Z.eqb_neq); intuition (congruence || lia).
Qed.
Lemma probe_id_slot event_type number probes :
  0 ≤ number → (length probes ≤ 2)%nat →
  xprobe_syscall_probe_id
    (slot_number event_type (probes !! 0%nat), slot_number event_type (probes !! 1%nat)) number
  = match first_slot event_type number probes with
    | Some (i, _) => Z.of_nat i + 1
    | None => 0
    end.
Proof.
  intros Hn Hlen. unfold xprobe_syscall_probe_id, first_slot.
  assert ((slot_number event_type None =? number) = false) as Hnone
    by (apply Z.eqb_neq; simpl; lia).
  destruct probes as [|p [|q []]]; [..|simpl in Hlen; lia];
    cbn [lookup list_lookup fst snd list_find fmap option_fmap option_map];
    rewrite ?slot_number_find, ?Hnone by done; [done|..].
  all: repeat case_bool_decide; repeat case_decide; done || tauto.
Qed.

Section collection.
Context `{SerdeJson, RegexEngine}.
Context (request : LinuxCaptureRequest) (dev ino : Z).

(** The widths of the request's and the namespace's integers. *)
Definition request_typed : Prop :=
  in_u64 dev ∧ in_u64 ino ∧ in_u32 (target_pid (lcr_target request))
  ∧ Forall (λ p, from_option in_u32 True (rl_syscall_number p)) (lcr_probes request).

Lemma linux_configured :
  linux_validate_request request = Ok () → request_typed →
  (length (lcr_probes request) ≤ 2)%nat
  ∧ ∃ bytes armed, linux_config_bytes dev ino request = Some bytes
    ∧ linux_arm bytes = Ok armed
    ∧ read_linux_config armed = Some (config_spec dev ino request).
Proof.
  intros Hok (Hd & Hi & Hp & Hn).
  destruct (linux_valid_probes request Hok) as [Hlen _].
  split; [done|].
  assert (config_wf (config_spec dev ino request)) as Hwf.
  { unfold config_wf. split_and!; try done. unfold config_spec; cbn.
    assert (∀ event_type i, - 2 ^ 63 ≤ slot_number event_type (lcr_probes request !! i) < 2 ^ 63)
      as Hslot; [|by repeat constructor; apply Hslot].
    intros event_type i. unfold slot_number. destruct (lcr_probes request !! i) as [p|] eqn:El;
      [|lia].
    rewrite Forall_lookup in Hn. specialize (Hn _ _ El). case_bool_decide; [|lia].
    destruct (rl_syscall_number p); simpl in *; [|lia]. unfold in_u32, u32_max in Hn. lia. }
  destruct (read_armed _ Hwf eq_refl) as (armed & Harm & Hread).
  exists (encode_layout (config_fields 0 (config_spec dev ino request))), armed.
  by rewrite linux_config_fields.
Qed.

(** The thread a handler runs in. *)
Record target_task (env : bpf_env) (tid : Z) : Prop := {
  task_ns : be_ns_current_pid_tgid env dev ino = Some (target_pid (lcr_target request), tid);
  task_room : be_ringbuf_reserve env = true;
  task_tid : in_u32 tid;
  task_cpu : in_u32 (be_cpu env);
  task_time : in_u64 (be_ktime_ns env) }.

(** The record of probe [i]. *)
Definition syscall_record (env : bpf_env) (tid : Z) (state : bpf_linux_state) (i : nat)
    (values : list Z) : LinuxRawEvent :=
  BuildLinuxRawEvent (be_ktime_ns env) (count_u64 (bl_sequence state)) values
    (target_pid (lcr_target request)) tid (be_cpu env) (Z.of_nat i + 1).
Definition submit (raw : LinuxRawEvent) (state : bpf_linux_state) : bpf_linux_state :=
  Build_bpf_linux_state (lre_sequence raw) (bl_dropped state) (bl_events state ++ [raw]).

Lemma emit_target env tid i values state :
  target_task env tid →
  xprobe_emit_linux_event env (config_spec dev ino request) (Z.of_nat i + 1) (Some values) state
  = submit (syscall_record env tid state i values) state.
Proof.
  intros [Hns Hroom _ _ _]. unfold xprobe_emit_linux_event, linux_target_thread. simpl.
  by rewrite Hns, Hroom; simpl; rewrite Z.eqb_refl.
Qed.
Lemma target_process env tid :
  target_task env tid → xprobe_target_linux_process env (config_spec dev ino request) = true.
Proof.
  intros [Hns _ _ _ _]. unfold xprobe_target_linux_process, linux_target_thread. simpl.
  rewrite Hns. simpl. by rewrite Z.eqb_refl.
Qed.
Lemma syscall_record_wf env tid state i values :
  request_typed → target_task env tid → (i < 2)%nat →
  length values = 6%nat → Forall in_u64 values →
  linux_event_wf (syscall_record env tid state i values).
Proof.
  intros (_ & _ & Hp & _) [_ _ Ht Hc Htime] Hi Hlen Hv. split; [done|].
  unfold layout_wf, linux_event_fields, in_u64, in_u32, u64_max, u32_max in *. simpl.
  do 6 (destruct values as [|? values]; [done|]). destruct values; [|done].
  rewrite !Forall_cons in Hv. unfold count_u64. simpl.
  repeat constructor; try lia; apply Z.mod_pos_bound; lia.
Qed.

(** What a collected system call event says. *)
Record syscall_event_of (env : bpf_env) (tid : Z) (probe : ResolvedLinuxSelector)
    (event : Event) (host : HostEvent) : Prop := {
  seo_host : ev_host event = Some host;
  seo_thread : ev_pid event = target_pid (lcr_target request) ∧ ev_tid event = tid;
  seo_time : ev_timestamp_ns event = be_ktime_ns env;
  seo_match : selector_matches (Syscall (rl_event_type probe) (rl_name probe)) event = true }.

Lemma valid_syscall_probe i probe event_type number :
  linux_validate_request request = Ok () →
  lcr_probes request !! i = Some probe → rl_event_type probe = event_type →
  event_type = EventType.SyscallEntry ∨ event_type = EventType.SyscallExit →
  rl_syscall_number probe = Some number →
  rl_probe_kind probe = HostProbeKind.Syscall.
Proof.
  intros Hok Hi Htype Hdir Hnum. destruct (linux_valid_probes request Hok) as [_ Hv].
  eapply Forall_lookup_1 in Hv; [|exact Hi].
  unfold linux_probe_valid in Hv. rewrite Htype, Hnum in Hv.
  destruct Hdir as [-> | ->]; by destruct (rl_probe_kind probe).
Qed.

(** A record of a system call probe: the collector reads it back and normalises it. *)
Lemma syscall_record_event env tid state i values session_id probe number :
  linux_validate_request request = Ok () → request_typed → target_task env tid →
  lcr_probes request !! i = Some probe →
  rl_event_type probe = EventType.SyscallEntry ∨ rl_event_type probe = EventType.SyscallExit →
  rl_syscall_number probe = Some number →
  length values = 6%nat → Forall in_u64 values →
  let raw := syscall_record env tid state i values in
  linux_event_decode (linux_event_encode raw) = Ok raw
  ∧ ∃ event host, linux_normalize_event raw request session_id = Ok event
    ∧ syscall_event_of env tid probe event host
    ∧ (rl_event_type probe = EventType.SyscallEntry →
       arg_value <$> host_arguments host = (λ value, Some (value_number value)) <$> values)
    ∧ (rl_event_type probe = EventType.SyscallExit →
       host_return_value host = as_i64 <$> head values).
Proof.
  intros Hok Hty Htask Hi Hdir Hnum Hlen Hv raw.
  pose proof (valid_syscall_probe i probe _ _ Hok Hi eq_refl Hdir Hnum) as Hkind.
  destruct (linux_configured Hok Hty) as [Hmax _].
  pose proof (lookup_lt_Some _ _ _ Hi) as Hlt. split.
  { apply linux_decode_encode, syscall_record_wf; auto. lia. }
  unfold linux_normalize_event. change (lre_probe_id raw) with (Z.of_nat i + 1).
  assert (get_z (lcr_probes request) (saturating_sub (Z.of_nat i + 1) 1) = Some probe) as ->.
  { unfold get_z, saturating_sub. replace (Z.max _ 0) with (Z.of_nat i) by lia.
    rewrite (proj2 (Z.ltb_ge _ 0)) by lia. by rewrite Nat2Z.id. }
  simpl. rewrite Hkind. simpl. destruct values as [|v values]; [done|]. simpl.
  eexists _, _. split; [reflexivity|]. split; [|split].
  - split; [done|done|done|]. unfold selector_matches. simpl.
    by rewrite !bool_decide_eq_true_2.
  - intros ->. simpl. f_equal. rewrite fmap_imap. apply (imap_const _ values).
  - by intros ->.
Qed.

Definition entry_values (r : xprobe_registers) : list Z :=
  [reg_di r; reg_si r; reg_dx r; reg_r10 r; reg_r8 r; reg_r9 r].
Definition exit_values (argument : Z) : list Z := [argument; 0; 0; 0; 0; 0].

(** What one handler run gives: nothing without a probe for the call; otherwise one record,
    which the collector reads back and turns into the event of that probe. *)
Definition collects (event_type : EventType) (number : Z) (values : list Z) (env : bpf_env)
    (tid : Z) (state state' : bpf_linux_state) (session_id : string)
    (P : HostEvent → Prop) : Prop :=
  match first_slot event_type number (lcr_probes request) with
  | None => state' = state
  | Some (i, probe) =>
      let raw := syscall_record env tid state i values in
      state' = submit raw state
      ∧ linux_event_decode (linux_event_encode raw) = Ok raw
      ∧ ∃ event host, linux_normalize_event raw request session_id = Ok event
        ∧ syscall_event_of env tid probe event host ∧ ev_event_type event = event_type ∧ P host
  end.

Lemma collects_record event_type number values env tid state state' session_id
    (P : HostEvent → Prop) :
  linux_validate_request request = Ok () → request_typed → target_task env tid →
  event_type = EventType.SyscallEntry ∨ event_type = EventType.SyscallExit →
  length values = 6%nat → Forall in_u64 values →
  state' = match first_slot event_type number (lcr_probes request) with
           | Some (i, _) => submit (syscall_record env tid state i values) state
           | None => state
           end →
  (∀ host, (event_type = EventType.SyscallEntry →
            arg_value <$> host_arguments host = (λ value, Some (value_number value)) <$> values) →
     (event_type = EventType.SyscallExit → host_return_value host = as_i64 <$> head values) →
     P host) →
  collects event_type number values env tid state state' session_id P.
Proof.
  intros Hok Hty Htask Hdir Hlen Hv Hstate HP. unfold collects.
  destruct (first_slot event_type number (lcr_probes request)) as [[i probe]|] eqn:Ef; [|done].
  split; [done|]. unfold first_slot in Ef. apply list_find_Some in Ef as (Hi & [Ht Hn] & _).
  rewrite <-Ht in Hdir.
  destruct (syscall_record_event env tid state i values session_id probe number)
    as (Hd & event & host & Hev & Hof & He & Hx); [done..|].
  split; [done|]. exists event, host. split; [done|]. split; [done|]. split.
  - destruct Hof as [_ _ _ Hmatch]. unfold selector_matches in Hmatch.
    apply andb_true_iff in Hmatch as [Hmatch _]. apply bool_decide_eq_true in Hmatch. congruence.
  - rewrite Ht in He, Hx. auto.
Qed.


(** A system call with the invalid number -1 is not filtered out: unused slots of the
    configuration hold -1, so with a start endpoint on the entry of a call and an end
    endpoint on the exit of one, its entry becomes an exit event of the end endpoint's call,
    with the first argument register as the return value. *)
Theorem invalid_syscall_misattributed (p q : ResolvedLinuxSelector) (number : Z) (env : bpf_env)
    (tid : Z) (r : xprobe_registers) (state : bpf_linux_state) (session_id : string)
    (Hvalid : linux_validate_request request = Ok ())
    (Htyped : request_typed) (Htask : target_task env tid)
    (Hregs : Forall in_u64 (entry_values r))
    (Hprobes : lcr_probes request = [p; q])
    (Hp : rl_event_type p = EventType.SyscallEntry) (Hp' : is_Some (rl_syscall_number p))
    (Hq : rl_event_type q = EventType.SyscallExit) (Hq' : rl_syscall_number q = Some number) :
  let raw := syscall_record env tid state 1 (entry_values r) in
  xprobe_handle_syscall_entry env (config_spec dev ino request) u64_max (Some r) state
  = submit raw state
  ∧ ∃ event host, linux_normalize_event raw request session_id = Ok event
    ∧ selector_matches (Syscall EventType.SyscallExit (rl_name q)) event = true
    ∧ ev_host event = Some host ∧ host_return_value host = Some (as_i64 (reg_di r)).
Proof.
  assert (lcr_probes request !! 1%nat = Some q) as Hi by by rewrite Hprobes.
  split.
  - unfold xprobe_handle_syscall_entry. rewrite (target_process env tid) by done.
    cbn [negb xc_syscall_entry_numbers config_spec]. rewrite Hprobes. cbn [lookup list_lookup].
    destruct Htyped as (_ & _ & _ & Hn). rewrite Hprobes in Hn.
    apply Forall_cons in Hn as [Hn _]. destruct Hp' as [n Hn']. rewrite Hn' in Hn. simpl in Hn.
    unfold slot_number. rewrite Hp, Hn', Hq. unfold xprobe_syscall_probe_id. simpl.
    change (as_i64 u64_max) with (-1).
    rewrite (proj2 (Z.eqb_neq n (-1))) by (unfold in_u32 in Hn; lia). simpl.
    by apply (emit_target env tid 1).
  - destruct (syscall_record_event env tid state 1 (entry_values r) session_id q number)
      as (_ & event & host & Hev & [Hhost _ _ Hm] & _ & Hx); [done..|by right|done|done|done|].
    exists event, host. rewrite Hq in Hm. split; [done|]. split; [done|]. split; [done|].
    by apply Hx.
Qed.
End collection.

(** ** Userspace probes *)
Record xprobe_config := Build_xprobe_config {
  uc_pidns_dev : Z;
  uc_pidns_ino : Z;
  uc_target_pid : Z;
  uc_probe_id : Z }.
Definition read_uprobe_config (bytes : list Z) : option xprobe_config :=
  dev ← field bytes 0 8; ino ← field bytes 8 16; pid ← field bytes 16 20;
  probe_id ← field bytes 20 24;
  Some (Build_xprobe_config dev ino pid probe_id).
(** The maps [sequence], [dropped] and [events]. *)
Record bpf_uprobe_state := Build_bpf_uprobe_state {
  bu_sequence : Z;
  bu_dropped : Z;
  bu_events : list RawEvent }.
Definition xprobe_handle_uprobe (env : bpf_env) (current : xprobe_config)
    (state : bpf_uprobe_state) : bpf_uprobe_state :=
  match be_ns_current_pid_tgid env (uc_pidns_dev current) (uc_pidns_ino current) with
  | None => state
  | Some (tgid, pid) =>
      if negb (uc_target_pid current =? tgid) then state
      else if be_ringbuf_reserve env then
        let sequence := count_u64 (bu_sequence state) in
        let event := BuildRawEvent (be_ktime_ns env) sequence tgid pid (be_cpu env)
                       (uc_probe_id current) in
        Build_bpf_uprobe_state sequence (bu_dropped state) (bu_events state ++ [event])
      else Build_bpf_uprobe_state (bu_sequence state) (count_u64 (bu_dropped state))
             (bu_events state)
  end.

(** The collector's configuration bytes are what the program reads; a hit of the probe in a
    thread of the target leaves one record, which the collector reads back as it was written,
    or is counted as dropped when there is no room; a hit anywhere else leaves nothing. *)
Theorem uprobe_hits_collected (request : UprobeRequest) (dev ino : Z) (env : bpf_env)
    (state : bpf_uprobe_state)
    (Htyped : in_u64 dev ∧ in_u64 ino ∧ in_u32 (target_pid (ur_target request))
              ∧ in_u32 (ur_probe_id request))
    (Henv : in_u64 (be_ktime_ns env) ∧ in_u32 (be_cpu env)) :
  ∃ bytes current, uprobe_config_bytes dev ino request = Some bytes
    ∧ read_uprobe_config bytes = Some current
    ∧ let after := xprobe_handle_uprobe env current state in
      match be_ns_current_pid_tgid env dev ino with
      | Some (tgid, tid) =>
          if tgid =? target_pid (ur_target request) then
            if be_ringbuf_reserve env then
              ∃ raw, bu_events after = bu_events state ++ [raw]
                ∧ bu_dropped after = bu_dropped state
                ∧ raw_tid raw = tid ∧ raw_timestamp_ns raw = be_ktime_ns env
                ∧ raw_probe_id raw = ur_probe_id request
                ∧ (in_u32 tid → raw_event_decode (raw_event_encode raw) = Ok raw)
            else bu_events after = bu_events state ∧ bu_dropped after = count_u64 (bu_dropped state)
          else after = state
      | None => after = state
      end.
Proof.
  destruct Htyped as (Hd & Hi & Hp & Hid). destruct Henv as [Htime Hcpu].
  set (pid := target_pid (ur_target request)) in *.
  set (layout := λ d i p n : Z, [(8%nat, d); (8%nat, i); (4%nat, p); (4%nat, n)]).
  exists (encode_layout (layout dev ino pid (ur_probe_id request))),
    (Build_xprobe_config dev ino pid (ur_probe_id request)).
  assert (layout_wf (layout dev ino pid (ur_probe_id request))) as Hwf.
  { unfold layout, layout_wf, in_u64, in_u32, u64_max, u32_max in *. repeat constructor; lia. }
  split; [|split].
  - unfold uprobe_config_bytes. cbv zeta. change (replicate 24 0) with (encode_layout (layout 0 0 0 0)).
    rewrite (copy_layout _ 0 8 0 dev) by done. cbn [mbind option_bind].
    rewrite (copy_layout _ 1 8 0 ino) by done. cbn [mbind option_bind].
    rewrite (copy_layout _ 2 4 0 pid) by done. cbn [mbind option_bind].
    by rewrite (copy_layout _ 3 4 0).
  - unfold read_uprobe_config, layout in *. by read_fields Hwf.
  - unfold xprobe_handle_uprobe. cbn. destruct (be_ns_current_pid_tgid env dev ino) as [[tgid tid]|];
      [|done]. rewrite (Z.eqb_sym tgid). destruct (Z.eqb_spec pid tgid) as [<-|]; [|done]. cbn.
    destruct (be_ringbuf_reserve env); [|done]. eexists. repeat (split; [done|]). intros Htid.
    apply decode_encode. unfold raw_event_wf, layout_wf, raw_event_fields, count_u64. cbn.
    unfold in_u64, in_u32, u64_max, u32_max in *.
    pose proof (Z.mod_pos_bound (bu_sequence state + 1) (2 ^ 64)). repeat constructor; lia.
Qed.
