(* ===== verification/Cupti.v ===== *)
(** * The CUPTI agent protocol

    [xprobe/collector/src/cupti.rs]: the control messages the collector sends
    to the agent in the target and the captures it reads back, as bytes; [CuptiClient]
    sends and reads them.  A record is 200 bytes, the header 88; integers are
    little-endian. *)
From S2P Require Import Prelude BTree RustString Text Bytes Protocol Os.
#[local] Open Scope Z_scope.

Definition OUTPUT_MAGIC : list Z := [88; 80; 67; 85; 80; 84; 73; 0].
Definition CONTROL_MAGIC : list Z := [88; 80; 67; 84; 82; 76; 0; 0].
Definition CONTROL_VERSION : Z := 4.
Definition ABI_VERSION : Z := 4.
Definition HEADER_SIZE : Z := 88.
Definition RECORD_SIZE : Z := 200.
Definition CONTROL_SIZE : nat := 328.
Definition FILTER_SIZE : Z := 144.
Definition FILTER_COUNT : Z := 2.
Definition CUPTI_NAME_CAPACITY : Z := 128.
Definition FEATURE_HOST_MONOTONIC_TIMESTAMPS : Z := 1.
Definition FEATURE_TRANSFER_RECORDS : Z := 2.
Definition FEATURE_AGGREGATE_RECORDS : Z := 4.
Definition FEATURE_NVTX_RECORDS : Z := 8.
Definition SUPPORTED_FEATURES : Z := 15.
Definition UNKNOWN_U32 : Z := u32_max.

(** [feature_flags & feature != 0]. *)
Definition has_feature (feature_flags feature : Z) : bool :=
  negb (Z.land feature_flags feature =? 0).

Module CuptiRecordKind.
Inductive CuptiRecordKind : Set :=
| CudaApiEntry
| CudaApiExit
| GpuKernelStart
| GpuKernelEnd
| GpuMemcpyStart
| GpuMemcpyEnd
| GpuMemsetStart
| GpuMemsetEnd
| NvtxRangeStart
| NvtxRangeEnd.
End CuptiRecordKind.
Abbreviation CuptiRecordKind := CuptiRecordKind.CuptiRecordKind.
(** [kind as u32]. *)
Definition record_kind_u32 (kind : CuptiRecordKind) : Z :=
  match kind with
  | CuptiRecordKind.CudaApiEntry => 1
  | CuptiRecordKind.CudaApiExit => 2
  | CuptiRecordKind.GpuKernelStart => 3
  | CuptiRecordKind.GpuKernelEnd => 4
  | CuptiRecordKind.GpuMemcpyStart => 5
  | CuptiRecordKind.GpuMemcpyEnd => 6
  | CuptiRecordKind.GpuMemsetStart => 7
  | CuptiRecordKind.GpuMemsetEnd => 8
  | CuptiRecordKind.NvtxRangeStart => 9
  | CuptiRecordKind.NvtxRangeEnd => 10
  end.

Module CuptiApiDomain.
Inductive CuptiApiDomain : Set := Any | Driver | Runtime.
End CuptiApiDomain.
Abbreviation CuptiApiDomain := CuptiApiDomain.CuptiApiDomain.
Definition api_domain_u32 (domain : CuptiApiDomain) : Z :=
  match domain with
  | CuptiApiDomain.Any => 0
  | CuptiApiDomain.Driver => 1
  | CuptiApiDomain.Runtime => 2
  end.

Module CuptiMemcpyKind.
Inductive CuptiMemcpyKind : Set :=
| Any
| HostToDevice
| DeviceToHost
| DeviceToDevice
| HostToHost
| PeerToPeer.
End CuptiMemcpyKind.
Abbreviation CuptiMemcpyKind := CuptiMemcpyKind.CuptiMemcpyKind.
Definition memcpy_kind_u32 (kind : CuptiMemcpyKind) : Z :=
  match kind with
  | CuptiMemcpyKind.Any => 0
  | CuptiMemcpyKind.HostToDevice => 1
  | CuptiMemcpyKind.DeviceToHost => 2
  | CuptiMemcpyKind.DeviceToDevice => 3
  | CuptiMemcpyKind.HostToHost => 4
  | CuptiMemcpyKind.PeerToPeer => 5
  end.

Module CuptiCaptureMode.
Inductive CuptiCaptureMode : Set := Exact | Aggregate.
End CuptiCaptureMode.
Abbreviation CuptiCaptureMode := CuptiCaptureMode.CuptiCaptureMode.
Definition capture_mode_u32 (mode : CuptiCaptureMode) : Z :=
  match mode with CuptiCaptureMode.Exact => 0 | CuptiCaptureMode.Aggregate => 1 end.

Module CuptiNameFilter.
Inductive CuptiNameFilter : Type :=
| Any
| Exact (name : string)
| Prefix (name : string)
| Suffix (name : string)
| Contains (name : string).
#[global] Instance CuptiNameFilter_eq_dec : EqDecision CuptiNameFilter.
Proof. solve_decision. Defined.
End CuptiNameFilter.
Abbreviation CuptiNameFilter := CuptiNameFilter.CuptiNameFilter.

Record CuptiEventFilter := BuildCuptiEventFilter {
  cf_record_kind : CuptiRecordKind;
  cf_api_domain : CuptiApiDomain;
  cf_memcpy_kind : CuptiMemcpyKind;
  cf_name : CuptiNameFilter }.

Record CuptiArmConfig := BuildCuptiArmConfig {
  ca_record_capacity : Z;
  ca_capture_mode : CuptiCaptureMode;
  ca_filters : list CuptiEventFilter }.

Module CuptiAggregateActivity.
Inductive CuptiAggregateActivity : Set := Kernel | Memcpy | Memset.
#[global] Instance CuptiAggregateActivity_eq_dec : EqDecision CuptiAggregateActivity.
Proof. solve_decision. Defined.
End CuptiAggregateActivity.
Abbreviation CuptiAggregateActivity := CuptiAggregateActivity.CuptiAggregateActivity.

Record CuptiAggregateGroup := BuildCuptiAggregateGroup {
  ag_activity : CuptiAggregateActivity;
  ag_name : option string;
  ag_name_complete : option bool;
  ag_device_id : option Z;
  ag_memcpy_kind : option MemcpyKind;
  ag_count : Z;
  ag_total_duration_ns : Z;
  ag_min_duration_ns : Z;
  ag_max_duration_ns : Z;
  ag_total_bytes : option Z }.

Module CuptiCaptureState.
Inductive CuptiCaptureState : Set := Idle | Active | LimitReached | Stopped | Failed.
#[global] Instance CuptiCaptureState_eq_dec : EqDecision CuptiCaptureState.
Proof. solve_decision. Defined.
End CuptiCaptureState.
Abbreviation CuptiCaptureState := CuptiCaptureState.CuptiCaptureState.

Module CuptiStopReason.
Inductive CuptiStopReason : Set := None | Requested | RecordLimit | CuptiError | OutputError.
#[global] Instance CuptiStopReason_eq_dec : EqDecision CuptiStopReason.
Proof. solve_decision. Defined.
End CuptiStopReason.
Abbreviation CuptiStopReason := CuptiStopReason.CuptiStopReason.

Module CuptiDecodeError.
Inductive CuptiDecodeError : Type :=
| HeaderTooShort (actual : Z)
| InvalidMagic
| UnsupportedAbi (version : Z)
| UnsupportedFeatureFlags (flags : Z)
| InvalidHeaderSize (version actual expected : Z)
| InvalidRecordSize (size : Z)
| CaptureLengthOverflow
| InvalidCaptureLength (expected actual : Z)
| UnknownRecordKind (index kind : Z)
| InvalidName (index : Z)
| InvalidTimestamp (index kind : Z)
| InvalidNvtxRecord (index : Z) (message : string)
| InvalidAggregateRecord (index : Z) (message : string)
| InvalidCaptureState (state : Z)
| InvalidStopReason (reason : Z)
| InvalidCounters (offset records capacity observed : Z)
| CounterOverflow.
End CuptiDecodeError.
Abbreviation CuptiDecodeError := CuptiDecodeError.CuptiDecodeError.

(** [CuptiDecodeError]'s [Display]. *)
Definition cupti_decode_error_display (e : CuptiDecodeError) : string :=
  match e with
  | CuptiDecodeError.HeaderTooShort actual =>
      "CUPTI capture header requires at least 88 bytes, found " +:+ to_decimal actual
  | CuptiDecodeError.InvalidMagic => "CUPTI capture magic is invalid"
  | CuptiDecodeError.UnsupportedAbi version =>
      "unsupported CUPTI capture ABI version " +:+ to_decimal version
  | CuptiDecodeError.UnsupportedFeatureFlags flags =>
      "unsupported CUPTI capture feature flags 0x" +:+ to_hex flags
  | CuptiDecodeError.InvalidHeaderSize version actual expected =>
      "CUPTI capture ABI " +:+ to_decimal version +:+ " header size is " +:+ to_decimal actual
        +:+ ", expected " +:+ to_decimal expected
  | CuptiDecodeError.InvalidRecordSize size =>
      "CUPTI capture record size is " +:+ to_decimal size +:+ ", expected 200"
  | CuptiDecodeError.CaptureLengthOverflow =>
      "CUPTI capture record count exceeds addressable memory"
  | CuptiDecodeError.InvalidCaptureLength expected actual =>
      "CUPTI capture requires " +:+ to_decimal expected +:+ " bytes, found " +:+ to_decimal actual
  | CuptiDecodeError.UnknownRecordKind index kind =>
      "CUPTI record " +:+ to_decimal index +:+ " has unknown kind " +:+ to_decimal kind
  | CuptiDecodeError.InvalidName index =>
      "CUPTI record " +:+ to_decimal index +:+ " name is not valid UTF-8"
  | CuptiDecodeError.InvalidTimestamp index kind =>
      "CUPTI record " +:+ to_decimal index +:+ " of kind " +:+ to_decimal kind
        +:+ " has a zero timestamp"
  | CuptiDecodeError.InvalidNvtxRecord index message =>
      "CUPTI NVTX record " +:+ to_decimal index +:+ " is invalid: " +:+ message
  | CuptiDecodeError.InvalidAggregateRecord index message =>
      "CUPTI aggregate record " +:+ to_decimal index +:+ " is invalid: " +:+ message
  | CuptiDecodeError.InvalidCaptureState state =>
      "CUPTI capture state " +:+ to_decimal state +:+ " is invalid"
  | CuptiDecodeError.InvalidStopReason reason =>
      "CUPTI capture stop reason " +:+ to_decimal reason +:+ " is invalid"
  | CuptiDecodeError.InvalidCounters offset records capacity observed =>
      "CUPTI capture counters are inconsistent: offset=" +:+ to_decimal offset
        +:+ ", records=" +:+ to_decimal records +:+ ", capacity=" +:+ to_decimal capacity
        +:+ ", observed=" +:+ to_decimal observed
  | CuptiDecodeError.CounterOverflow => "CUPTI capture diagnostic counters overflowed"
  end.

Module CuptiSnapshotError.
Inductive CuptiSnapshotError : Type :=
| InvalidControl (message : string)
| Connect (path : string) (source : IoError)
| Configure (source : IoError)
| Write (source : IoError)
| Read (source : IoError)
| Decode (source : CuptiDecodeError).
End CuptiSnapshotError.
Abbreviation CuptiSnapshotError := CuptiSnapshotError.CuptiSnapshotError.

(** ** Control messages *)

(** The name of a filter and how it is compared. *)
Definition name_filter (filter : CuptiNameFilter) : Z * string :=
  match filter with
  | CuptiNameFilter.Any => (0, ""%string)
  | CuptiNameFilter.Exact name => (1, name)
  | CuptiNameFilter.Prefix name => (2, name)
  | CuptiNameFilter.Suffix name => (3, name)
  | CuptiNameFilter.Contains name => (4, name)
  end.
(** One filter of the loop of [encode_control]. *)
Definition encode_filter (index : Z) (filter : CuptiEventFilter) (control : list Z) :
    res CuptiSnapshotError (list Z) :=
  let offset := 40 + index * FILTER_SIZE in
  control ← or_panic (copy_from_slice control offset
                        (to_le_bytes 4 (record_kind_u32 (cf_record_kind filter))));
  control ← or_panic (copy_from_slice control (offset + 4)
                        (to_le_bytes 4 (api_domain_u32 (cf_api_domain filter))));
  control ← or_panic (copy_from_slice control (offset + 8)
                        (to_le_bytes 4 (memcpy_kind_u32 (cf_memcpy_kind filter))));
  let '(name_match, name) := name_filter (cf_name filter) in
  let name_bytes := bytes_of_string name in
  if (CUPTI_NAME_CAPACITY <=? len name_bytes) || existsb (λ byte, byte =? 0) name_bytes then
    Err (CuptiSnapshotError.InvalidControl
           "CUPTI filter name must be a NUL-free string shorter than 128 bytes")
  else
    control ← or_panic (copy_from_slice control (offset + 12) (to_le_bytes 4 name_match));
    or_panic (copy_from_slice control (offset + 16) name_bytes).
Fixpoint encode_filters (index : Z) (filters : list CuptiEventFilter) (control : list Z) :
    res CuptiSnapshotError (list Z) :=
  match filters with
  | [] => Ok control
  | filter :: filters =>
      control ← encode_filter index filter control; encode_filters (index + 1) filters control
  end.
Definition encode_control (command record_offset : Z) (config : option CuptiArmConfig) :
    res CuptiSnapshotError (list Z) :=
  let control := replicate CONTROL_SIZE 0 in
  control ← or_panic (copy_from_slice control 0 CONTROL_MAGIC);
  control ← or_panic (copy_from_slice control 8 (to_le_bytes 4 CONTROL_VERSION));
  control ← or_panic (copy_from_slice control 12 (to_le_bytes 4 command));
  control ← or_panic (copy_from_slice control 24 (to_le_bytes 8 record_offset));
  match config with
  | None => Ok control
  | Some config =>
      if ca_record_capacity config =? 0 then
        Err (CuptiSnapshotError.InvalidControl "CUPTI record capacity must be positive")
      else if (len (ca_filters config) =? 0) || (FILTER_COUNT <? len (ca_filters config)) then
        Err (CuptiSnapshotError.InvalidControl
               ("CUPTI capture requires one or two endpoint filters, found "
                +:+ to_decimal (len (ca_filters config))))
      else if negb (record_offset =? 0) then
        Err (CuptiSnapshotError.InvalidControl "CUPTI ARM record offset must be zero")
      else
        control ← or_panic (copy_from_slice control 16
                              (to_le_bytes 8 (ca_record_capacity config)));
        control ← or_panic (copy_from_slice control 32
                              (to_le_bytes 4 (capture_mode_u32 (ca_capture_mode config))));
        encode_filters 0 (ca_filters config) control
  end.

(** ** Captures *)
Definition read_u32 (bytes : list Z) (offset : Z) : res CuptiDecodeError Z :=
  or_panic (field bytes offset (offset + 4)).
Definition read_u64 (bytes : list Z) (offset : Z) : res CuptiDecodeError Z :=
  or_panic (field bytes offset (offset + 8)).
Definition read_split_u64 (record : list Z) (offset : Z) : res CuptiDecodeError Z :=
  low ← read_u32 record offset;
  high ← read_u32 record (offset + 4);
  Ok (Z.lor low (Z.shiftl high 32)).
Definition optional_unknown (value : Z) : option Z :=
  if value =? UNKNOWN_U32 then None else Some value.
Definition optional_nonzero (value : Z) : option Z := if value =? 0 then None else Some value.
Definition decode_dim (record : list Z) (offset : Z) : res CuptiDecodeError (option Dim3) :=
  x ← read_u32 record offset;
  y ← read_u32 record (offset + 4);
  z ← read_u32 record (offset + 8);
  Ok (if negb (x =? 0) || negb (y =? 0) || negb (z =? 0) then Some (BuildDim3 x y z) else None).
Definition decode_memcpy_kind (kind : Z) : MemcpyKind :=
  if (kind =? 1) || (kind =? 3) then MemcpyKind.HostToDevice
  else if (kind =? 2) || (kind =? 4) then MemcpyKind.DeviceToHost
  else if (5 <=? kind) && (kind <=? 8) then MemcpyKind.DeviceToDevice
  else if kind =? 9 then MemcpyKind.HostToHost
  else if kind =? 10 then MemcpyKind.PeerToPeer
  else MemcpyKind.Unknown.
Definition decode_semantic_memcpy_kind (kind : Z) : MemcpyKind :=
  if kind =? 1 then MemcpyKind.HostToDevice
  else if kind =? 2 then MemcpyKind.DeviceToHost
  else if kind =? 3 then MemcpyKind.DeviceToDevice
  else if kind =? 4 then MemcpyKind.HostToHost
  else if kind =? 5 then MemcpyKind.PeerToPeer
  else MemcpyKind.Unknown.
Definition decode_capture_state (value : Z) : res CuptiDecodeError CuptiCaptureState :=
  if value =? 0 then Ok CuptiCaptureState.Idle
  else if value =? 1 then Ok CuptiCaptureState.Active
  else if value =? 2 then Ok CuptiCaptureState.LimitReached
  else if value =? 3 then Ok CuptiCaptureState.Stopped
  else if value =? 4 then Ok CuptiCaptureState.Failed
  else Err (CuptiDecodeError.InvalidCaptureState value).
Definition decode_stop_reason (value : Z) : res CuptiDecodeError CuptiStopReason :=
  if value =? 0 then Ok CuptiStopReason.None
  else if value =? 1 then Ok CuptiStopReason.Requested
  else if value =? 2 then Ok CuptiStopReason.RecordLimit
  else if value =? 3 then Ok CuptiStopReason.CuptiError
  else if value =? 4 then Ok CuptiStopReason.OutputError
  else Err (CuptiDecodeError.InvalidStopReason value).
(** The bytes up to the first NUL: [name_bytes[..name_length]]. *)
Fixpoint until_nul (bytes : list Z) : list Z :=
  match bytes with
  | [] => []
  | byte :: bytes => if byte =? 0 then [] else byte :: until_nul bytes
  end.
(** The name field of a record, and its length. *)
Definition decode_name (record : list Z) (index : Z) : res CuptiDecodeError (string * Z) :=
  name_bytes ← or_panic (slice record 72 200);
  name ← ok_or (from_utf8 (until_nul name_bytes)) (CuptiDecodeError.InvalidName index);
  Ok (name, len (until_nul name_bytes)).

(** The match on the kind in [decode_aggregate_record]. *)
Definition decode_aggregate_kind (kind index : Z) :
    res CuptiDecodeError (CuptiAggregateActivity * bool * bool) :=
  if kind =? 3 then Ok (CuptiAggregateActivity.Kernel, true, false)
  else if kind =? 5 then Ok (CuptiAggregateActivity.Memcpy, false, true)
  else if kind =? 7 then Ok (CuptiAggregateActivity.Memset, false, true)
  else Err (CuptiDecodeError.InvalidAggregateRecord index "activity kind is unsupported").
Definition decode_aggregate_record (record : list Z) (index : Z) :
    res CuptiDecodeError CuptiAggregateGroup :=
  count ← read_u64 record 0;
  total_duration_ns ← read_u64 record 8;
  min_duration_ns ← read_u64 record 16;
  max_duration_ns ← read_u64 record 24;
  if count =? 0 then Err (CuptiDecodeError.InvalidAggregateRecord index "count is zero")
  else if (max_duration_ns <? min_duration_ns)
          || (total_duration_ns / count <? min_duration_ns)
          || (max_duration_ns <? total_duration_ns / count) then
    Err (CuptiDecodeError.InvalidAggregateRecord index "duration counters are inconsistent")
  else
    kind ← read_u32 record 40;
    layout ← decode_aggregate_kind kind index;
    let '(activity, has_name, has_bytes) := layout : CuptiAggregateActivity * bool * bool in
    '(name, name_length) ← decode_name record index;
    if has_name && is_empty name then
      Err (CuptiDecodeError.InvalidAggregateRecord index "kernel name is empty")
    else
      memcpy_kind ← read_u32 record 48;
      device_id ← read_u32 record 44;
      total_bytes ← read_u64 record 32;
      Ok (BuildCuptiAggregateGroup activity
            (if has_name then Some name else None)
            (if has_name then Some (name_length + 1 <? CUPTI_NAME_CAPACITY) else None)
            (optional_unknown device_id)
            (if activity == CuptiAggregateActivity.Memcpy
             then Some (decode_semantic_memcpy_kind memcpy_kind) else None)
            count total_duration_ns min_duration_ns max_duration_ns
            (if has_bytes then Some total_bytes else None)).

Definition decode_record_kind (kind index feature_flags : Z) :
    res CuptiDecodeError (EventSource * EventType) :=
  let transfer := has_feature feature_flags FEATURE_TRANSFER_RECORDS in
  let nvtx := has_feature feature_flags FEATURE_NVTX_RECORDS in
  if kind =? 1 then Ok (EventSource.CuptiCallback, EventType.CudaApiEntry)
  else if kind =? 2 then Ok (EventSource.CuptiCallback, EventType.CudaApiExit)
  else if kind =? 3 then Ok (EventSource.CuptiActivity, EventType.GpuKernelStart)
  else if kind =? 4 then Ok (EventSource.CuptiActivity, EventType.GpuKernelEnd)
  else if (kind =? 5) && transfer then Ok (EventSource.CuptiActivity, EventType.GpuMemcpyStart)
  else if (kind =? 6) && transfer then Ok (EventSource.CuptiActivity, EventType.GpuMemcpyEnd)
  else if (kind =? 7) && transfer then Ok (EventSource.CuptiActivity, EventType.GpuMemsetStart)
  else if (kind =? 8) && transfer then Ok (EventSource.CuptiActivity, EventType.GpuMemsetEnd)
  else if (kind =? 9) && nvtx then Ok (EventSource.CuptiCallback, EventType.NvtxRangeStart)
  else if (kind =? 10) && nvtx then Ok (EventSource.CuptiCallback, EventType.NvtxRangeEnd)
  else Err (CuptiDecodeError.UnknownRecordKind index kind).

Definition decode_nvtx_event (record : list Z) (index : Z) (is_nvtx : bool) (name : string) :
    res CuptiDecodeError (option NvtxEvent) :=
  if negb is_nvtx then Ok None
  else
    kind ← read_u32 record 52;
    range_kind ←
      (if kind =? 1 then Ok NvtxRangeKind.Thread
       else if kind =? 2 then Ok NvtxRangeKind.Process
       else Err (CuptiDecodeError.InvalidNvtxRecord index
                   "range kind is neither thread nor process"));
    range_id ← read_split_u64 record 44;
    if range_id =? 0 then Err (CuptiDecodeError.InvalidNvtxRecord index "range ID is zero")
    else
      start_tid ← read_u32 record 56;
      if start_tid =? 0 then
        Err (CuptiDecodeError.InvalidNvtxRecord index "start thread ID is zero")
      else
        name_complete ← read_u32 record 60;
        if 1 <? name_complete then
          Err (CuptiDecodeError.InvalidNvtxRecord index "name completeness flag is not boolean")
        else Ok (Some (BuildNvtxEvent name (negb (name_complete =? 0)) range_kind range_id
                         start_tid)).

(** The [CudaEvent] of [decode_record]. *)
Definition decode_cuda_event (record : list Z) (kind timestamp_ns : Z) (name : string) :
    res CuptiDecodeError CudaEvent :=
  let is_kernel := (kind =? 3) || (kind =? 4) in
  let is_memcpy := (kind =? 5) || (kind =? 6) in
  let is_transfer := (5 <=? kind) && (kind <=? 8) in
  let is_start := (kind =? 3) || (kind =? 5) || (kind =? 7) in
  let is_end := (kind =? 4) || (kind =? 6) || (kind =? 8) in
  device_id ← read_u32 record 20;
  context_id ← read_u32 record 24;
  stream_id ← read_u32 record 28;
  correlation_id ← read_u32 record 32;
  runtime_correlation_id ← read_u32 record 68;
  callback_domain ← read_u32 record 36;
  callback_id ← read_u32 record 40;
  grid ← decode_dim record 44;
  block ← decode_dim record 56;
  bytes ← read_split_u64 record 44;
  memcpy_kind ← read_u32 record 52;
  Ok (BuildCudaEvent (optional_unknown device_id) (optional_unknown context_id)
        (optional_unknown stream_id) (optional_nonzero correlation_id)
        (optional_nonzero runtime_correlation_id) (optional_nonzero callback_domain)
        (optional_nonzero callback_id) (if is_kernel then Some name else None) None
        (if is_start then Some timestamp_ns else None)
        (if is_end then Some timestamp_ns else None)
        (if is_kernel then grid else None) (if is_kernel then block else None)
        (if is_transfer then Some bytes else None)
        (if is_memcpy then Some (decode_memcpy_kind memcpy_kind) else None)).

(** The clock of a record. *)
Definition record_clock_domain (kind feature_flags : Z) : ClockDomain :=
  let is_api := (kind =? 1) || (kind =? 2) in
  let is_nvtx := (kind =? 9) || (kind =? 10) in
  if is_api || is_nvtx then ClockDomain.HostMonotonic
  else if has_feature feature_flags FEATURE_HOST_MONOTONIC_TIMESTAMPS then
    ClockDomain.CuptiNormalizedToHostMonotonic
  else ClockDomain.Cupti.

Section capture.
Context `{SerdeJson}.

(** The attributes of [decode_record]. *)
Definition record_attributes (kind callback_domain memset_value : Z) (name : string) :
    btree string Value :=
  let attributes : btree string Value :=
    if (kind =? 1) || (kind =? 2) then
      let domain := if callback_domain =? 1 then "driver_api"%string
                    else if callback_domain =? 2 then "runtime_api"%string
                    else "unknown"%string in
      bt_insert "cuda_api_domain"%string (value_string domain)
        (bt_insert "cuda_api_name"%string (value_string name) [])
    else [] in
  if (kind =? 7) || (kind =? 8) then
    bt_insert "memset_value"%string (value_number memset_value) attributes
  else attributes.

Definition decode_record (record : list Z) (index : Z) (session_id : string)
    (feature_flags : Z) : res CuptiDecodeError Event :=
  kind ← read_u32 record 8;
  '(source, event_type) ← decode_record_kind kind index feature_flags;
  timestamp_raw ← read_u64 record 0;
  if timestamp_raw =? 0 then Err (CuptiDecodeError.InvalidTimestamp index kind)
  else
    '(name, _) ← decode_name record index;
    let is_nvtx := (kind =? 9) || (kind =? 10) in
    callback_domain ← read_u32 record 36;
    memset_value ← read_u32 record 56;
    nvtx ← decode_nvtx_event record index is_nvtx name;
    pid ← read_u32 record 12;
    tid ← read_u32 record 16;
    cuda ← decode_cuda_event record kind timestamp_raw name;
    Ok (BuildEvent SchemaVersion.V2 session_id ""%string 0 source event_type pid tid None
          timestamp_raw timestamp_raw (record_clock_domain kind feature_flags) None None None
          (if is_nvtx then None else Some cuda) nvtx
          (record_attributes kind callback_domain memset_value name)).

(** [chunks_exact(n)]: as many chunks as fit, enumerated. *)
Fixpoint chunks_exact (fuel n : nat) (bytes : list Z) : list (list Z) :=
  match fuel with
  | O => []
  | S fuel =>
      if (n <=? length bytes)%nat then take n bytes :: chunks_exact fuel n (drop n bytes)
      else []
  end.
Definition record_chunks (bytes : list Z) : list (list Z) :=
  chunks_exact (length bytes) 200 (drop 88 bytes).

(** The events of [decode_payload], renumbered in time order. *)
Fixpoint number_events (sequence : Z) (events : list Event) : res CuptiDecodeError (list Event) :=
  match events with
  | [] => Ok []
  | event :: events =>
      let event := event_renumber (ev_session_id event) sequence event in
      sequence ← ok_or (checked_add_u64 sequence 1) CuptiDecodeError.CaptureLengthOverflow;
      events ← number_events sequence events;
      Ok (event :: events)
  end.
Definition decode_payload (bytes : list Z) (record_offset : Z) (session_id : string)
    (feature_flags : Z) : res CuptiDecodeError (list Event * list CuptiAggregateGroup) :=
  let chunks := imap pair (record_chunks bytes) in
  if has_feature feature_flags FEATURE_AGGREGATE_RECORDS then
    groups ← res_mapM (λ c, decode_aggregate_record c.2 (Z.of_nat c.1)) chunks;
    Ok ([], groups)
  else
    events ← res_mapM (λ c, decode_record c.2 (Z.of_nat c.1) session_id feature_flags) chunks;
    events ← number_events record_offset (sort_by_key ev_timestamp_ns events);
    Ok (events, []).

Record CuptiCapture := BuildCuptiCapture {
  cc_nvtx_callbacks_active : bool;
  cc_record_offset : Z;
  cc_state : CuptiCaptureState;
  cc_stop_reason : CuptiStopReason;
  cc_record_capacity : Z;
  cc_observed_records : Z;
  cc_agent_dropped_records : Z;
  cc_cupti_dropped_records : Z;
  cc_dropped_records : Z;
  cc_unknown_records : Z;
  cc_events : list Event;
  cc_aggregate_groups : list CuptiAggregateGroup }.

Definition decode_capture (bytes : list Z) (session_id : string) :
    res CuptiDecodeError CuptiCapture :=
  if len bytes <? HEADER_SIZE then Err (CuptiDecodeError.HeaderTooShort (len bytes))
  else
    magic ← or_panic (slice bytes 0 8);
    if magic != OUTPUT_MAGIC then Err CuptiDecodeError.InvalidMagic
    else
      abi_version ← read_u32 bytes 8;
      if negb (abi_version =? ABI_VERSION) then Err (CuptiDecodeError.UnsupportedAbi abi_version)
      else
        header_size ← read_u32 bytes 12;
        if negb (header_size =? HEADER_SIZE) then
          Err (CuptiDecodeError.InvalidHeaderSize abi_version header_size HEADER_SIZE)
        else
          record_size ← read_u32 bytes 16;
          if negb (record_size =? RECORD_SIZE) then
            Err (CuptiDecodeError.InvalidRecordSize record_size)
          else
            feature_flags ← read_u32 bytes 20;
            let unsupported := Z.ldiff feature_flags SUPPORTED_FEATURES in
            if negb (unsupported =? 0) then
              Err (CuptiDecodeError.UnsupportedFeatureFlags unsupported)
            else
              state ← read_u32 bytes 24 ≫= decode_capture_state;
              stop_reason ← read_u32 bytes 28 ≫= decode_stop_reason;
              record_count ← read_u64 bytes 32;
              record_capacity ← read_u64 bytes 40;
              observed_records ← read_u64 bytes 48;
              record_offset ← read_u64 bytes 80;
              committed_records ← ok_or (checked_add_u64 record_offset record_count)
                CuptiDecodeError.CounterOverflow;
              let counters := CuptiDecodeError.InvalidCounters record_offset record_count
                                record_capacity observed_records in
              if (record_capacity <? committed_records)
                 || (observed_records <? committed_records) then Err counters
              else
                payload_size ← ok_or (checked_mul_u64 record_count RECORD_SIZE)
                  CuptiDecodeError.CaptureLengthOverflow;
                expected_size ← ok_or (checked_add_u64 HEADER_SIZE payload_size)
                  CuptiDecodeError.CaptureLengthOverflow;
                if negb (len bytes =? expected_size) then
                  Err (CuptiDecodeError.InvalidCaptureLength expected_size (len bytes))
                else if has_feature feature_flags FEATURE_AGGREGATE_RECORDS
                        && negb (record_offset =? 0) then Err counters
                else
                  '(events, aggregate_groups) ←
                    decode_payload bytes record_offset session_id feature_flags;
                  agent_dropped ← read_u64 bytes 56;
                  cupti_dropped ← read_u64 bytes 64;
                  dropped ← ok_or (checked_add_u64 agent_dropped cupti_dropped)
                    CuptiDecodeError.CounterOverflow;
                  unknown ← read_u64 bytes 72;
                  Ok (BuildCuptiCapture (has_feature feature_flags FEATURE_NVTX_RECORDS)
                        record_offset state stop_reason record_capacity observed_records
                        agent_dropped cupti_dropped dropped unknown events aggregate_groups).

(** ** No panic *)
Lemma field_no_panic {E} bytes a b :
  0 ≤ a ≤ b → b ≤ len bytes → @or_panic E _ (field bytes a b) ≠ Panic.
Proof.
  intros Ha Hb. unfold field. destruct (slice_some bytes a b) as (k & -> & _); done.
Qed.
Lemma read_u32_no_panic bytes offset :
  0 ≤ offset → offset + 4 ≤ len bytes → read_u32 bytes offset ≠ Panic.
Proof. intros. apply field_no_panic; lia. Qed.
Lemma read_u64_no_panic bytes offset :
  0 ≤ offset → offset + 8 ≤ len bytes → read_u64 bytes offset ≠ Panic.
Proof. intros. apply field_no_panic; lia. Qed.
#[local] Hint Extern 1 (read_u32 _ _ ≠ Panic) => apply read_u32_no_panic; lia : xprobe.
#[local] Hint Extern 1 (read_u64 _ _ ≠ Panic) => apply read_u64_no_panic; lia : xprobe.

Section record_panics.
Context (record : list Z) (Hlen : len record = 200).

Lemma read_split_u64_no_panic offset :
  0 ≤ offset → offset + 8 ≤ 200 → read_split_u64 record offset ≠ Panic.
Proof. intros. unfold read_split_u64. no_panic. Qed.
Lemma decode_dim_no_panic offset :
  0 ≤ offset → offset + 12 ≤ 200 → decode_dim record offset ≠ Panic.
Proof. intros. unfold decode_dim. no_panic. Qed.
Lemma decode_name_no_panic index : decode_name record index ≠ Panic.
Proof.
  unfold decode_name. destruct (slice_some record 72 200) as (k & -> & _); [lia..|]. simpl.
  apply res_bind_no_panic; [apply ok_or_no_panic|done].
Qed.
#[local] Hint Extern 1 (read_split_u64 _ _ ≠ Panic) => apply read_split_u64_no_panic; lia : xprobe.
#[local] Hint Extern 1 (decode_dim _ _ ≠ Panic) => apply decode_dim_no_panic; lia : xprobe.
#[local] Hint Resolve decode_name_no_panic : xprobe.

Lemma decode_aggregate_record_no_panic index : decode_aggregate_record record index ≠ Panic.
Proof. unfold decode_aggregate_record, decode_aggregate_kind. no_panic. Qed.
Lemma decode_nvtx_event_no_panic index is_nvtx name :
  decode_nvtx_event record index is_nvtx name ≠ Panic.
Proof. unfold decode_nvtx_event. no_panic. Qed.
Lemma decode_cuda_event_no_panic kind timestamp_ns name :
  decode_cuda_event record kind timestamp_ns name ≠ Panic.
Proof. unfold decode_cuda_event. no_panic. Qed.
#[local] Hint Resolve decode_nvtx_event_no_panic decode_cuda_event_no_panic : xprobe.
Lemma decode_record_no_panic index session_id flags :
  decode_record record index session_id flags ≠ Panic.
Proof.
  unfold decode_record. apply res_bind_no_panic; [auto with xprobe|]. intros kind _.
  apply res_bind_no_panic; [unfold decode_record_kind; no_panic|]. intros [source event_type] _.
  no_panic.
Qed.
End record_panics.

Lemma chunks_exact_Forall fuel n bytes :
  Forall (λ chunk, length chunk = n ∧ ∀ P, Forall P bytes → Forall P chunk)
    (chunks_exact fuel n bytes).
Proof.
  revert bytes. induction fuel as [|fuel IH]; intros bytes; simpl; [done|].
  destruct (Nat.leb_spec n (length bytes)); [|done]. constructor.
  - split; [rewrite length_take; lia|]. intros P. apply Forall_take.
  - eapply Forall_impl; [apply IH|]. intros chunk [Hl HP]. split; [done|].
    intros P HPb. apply HP. by apply Forall_drop.
Qed.
Lemma chunks_exact_length fuel n bytes k :
  length bytes = (k * n)%nat → (k ≤ fuel)%nat → (0 < n)%nat →
  length (chunks_exact fuel n bytes) = k.
Proof.
  revert bytes k. induction fuel as [|fuel IH]; intros bytes k Hl Hk Hn; simpl; [lia|].
  destruct k as [|k].
  - rewrite (proj2 (Nat.leb_gt _ _)) by lia. done.
  - rewrite (proj2 (Nat.leb_le _ _)) by lia. simpl. f_equal. apply IH; [|lia..].
    rewrite length_drop. lia.
Qed.
Lemma record_chunks_elem bytes i chunk :
  (i, chunk) ∈ imap pair (record_chunks bytes) →
  len chunk = 200 ∧ (Forall is_byte bytes → Forall is_byte chunk).
Proof.
  intros (j & x & [= -> ->] & Hx)%elem_of_lookup_imap.
  pose proof (chunks_exact_Forall (length bytes) 200 (drop 88 bytes)) as Hall.
  rewrite Forall_lookup in Hall. destruct (Hall _ _ Hx) as [Hl HP]. split.
  - unfold len. by rewrite Hl.
  - intros Hb. by apply HP, Forall_drop.
Qed.
Lemma decode_payload_no_panic bytes offset session_id flags :
  decode_payload bytes offset session_id flags ≠ Panic.
Proof.
  unfold decode_payload. destruct (has_feature _ _).
  - apply res_bind_no_panic; [|done]. apply res_mapM_no_panic, Forall_forall.
    intros [i chunk] [Hin _]%record_chunks_elem. by apply decode_aggregate_record_no_panic.
  - apply res_bind_no_panic.
    { apply res_mapM_no_panic, Forall_forall. intros [i chunk] [Hin _]%record_chunks_elem.
      by apply decode_record_no_panic. }
    intros events _. apply res_bind_no_panic; [|done].
    generalize (sort_by_key ev_timestamp_ns events) as l. clear.
    intros l. revert offset. induction l as [|e l IH]; intros offset; [done|]. cbn [number_events].
    apply res_bind_no_panic; [apply ok_or_no_panic|]. intros n _.
    by apply res_bind_no_panic.
Qed.
#[local] Hint Resolve decode_payload_no_panic : xprobe.
Lemma decode_capture_no_panic bytes session_id : decode_capture bytes session_id ≠ Panic.
Proof.
  unfold decode_capture. destruct (Z.ltb_spec (len bytes) HEADER_SIZE) as [|Hlen]; [done|].
  unfold HEADER_SIZE in Hlen.
  destruct (slice_some bytes 0 8) as (magic & -> & _); [lia..|]. cbn [or_panic mbind res_bind].
  unfold decode_capture_state, decode_stop_reason. no_panic.
Qed.

(** ** What a capture contains *)
Lemma read_u32_range bytes offset v :
  0 ≤ offset → Forall is_byte bytes → read_u32 bytes offset = Ok v → in_u32 v.
Proof.
  intros Ho Hb. unfold read_u32. destruct (field _ _ _) as [w|] eqn:E; [|done]. intros [= <-].
  apply field_range in E; [|done..]. replace (offset + 4 - offset) with 4 in E by lia.
  unfold in_u32, u32_max. lia.
Qed.
Lemma read_u64_range bytes offset v :
  0 ≤ offset → Forall is_byte bytes → read_u64 bytes offset = Ok v → in_u64 v.
Proof.
  intros Ho Hb. unfold read_u64. destruct (field _ _ _) as [w|] eqn:E; [|done]. intros [= <-].
  apply field_range in E; [|done..]. replace (offset + 8 - offset) with 8 in E by lia.
  unfold in_u64, u64_max. lia.
Qed.

(** The fields of a decoded record that the collector relies on. *)
Lemma decode_record_typed record index session_id flags e :
  Forall is_byte record → decode_record record index session_id flags = Ok e →
  event_wf e ∧ ev_session_id e = session_id ∧ ev_timestamp_ns e ≠ 0.
Proof.
  intros Hb. unfold decode_record. intros Hok.
  destruct (read_u32 record 8) as [kind| |] eqn:Ek; [|done..]. cbn [mbind res_bind] in Hok.
  destruct (decode_record_kind kind index flags) as [[source event_type]| |]; [|done..].
  cbn [mbind res_bind] in Hok.
  destruct (read_u64 record 0) as [t| |] eqn:Et; [|done..]. cbn [mbind res_bind] in Hok.
  destruct (Z.eqb_spec t 0) as [|Ht]; [done|].
  destruct (decode_name record index) as [[name ?]| |]; [|done..]. res_steps.
  match goal with H : read_u32 record 12 = _, H' : read_u32 record 16 = _ |- _ =>
    apply read_u32_range in H, H'; [|done..] end.
  apply read_u64_range in Et; [|done..].
  unfold event_wf. simpl. unfold in_u64, u64_max in *. split_and!; try done; lia.
Qed.

(** What an aggregate group promises. *)
Definition group_wf (g : CuptiAggregateGroup) : Prop :=
  0 < ag_count g
  ∧ ag_min_duration_ns g ≤ ag_total_duration_ns g / ag_count g ≤ ag_max_duration_ns g
  ∧ (ag_activity g = CuptiAggregateActivity.Kernel ↔ is_Some (ag_name g))
  ∧ (ag_activity g = CuptiAggregateActivity.Memcpy ↔ is_Some (ag_memcpy_kind g))
  ∧ (is_Some (ag_total_bytes g) ↔ ag_name g = None)
  ∧ ag_name g ≠ Some ""%string.

Lemma decode_aggregate_record_typed record index g :
  Forall is_byte record → decode_aggregate_record record index = Ok g → group_wf g.
Proof.
  intros Hb. unfold decode_aggregate_record. intros Hok.
  destruct (read_u64 record 0) as [count| |] eqn:Ec; [|done..]. cbn [mbind res_bind] in Hok.
  apply read_u64_range in Ec; [|done..].
  destruct (read_u64 record 8) as [total| |]; [|done..]. cbn [mbind res_bind] in Hok.
  destruct (read_u64 record 16) as [mn| |]; [|done..]. cbn [mbind res_bind] in Hok.
  destruct (read_u64 record 24) as [mx| |]; [|done..]. cbn [mbind res_bind] in Hok.
  destruct (Z.eqb_spec count 0); [done|].
  destruct (_ || _) eqn:Et; [done|]. bool_props.
  repeat match goal with H : (_ <? _) = false |- _ => apply Z.ltb_ge in H end.
  destruct (read_u32 record 40) as [kind| |]; [|done..]. cbn [mbind res_bind] in Hok.
  unfold decode_aggregate_kind in Hok.
  assert (0 < count) by (unfold in_u64 in Ec; lia).
  assert (∀ name, is_empty name = false → Some name ≠ Some ""%string) as Hname
    by (intros name He [= ->]; done).
  destruct (decode_name record index) as [[name l]| |];
    (do 3 (destruct (kind =? _); [res_steps; unfold group_wf; simpl; split_and!; naive_solver|]));
    done.
Qed.

Lemma number_events_imap sequence events k :
  number_events sequence events = Ok k →
  k = imap (λ i e, event_renumber (ev_session_id e) (sequence + Z.of_nat i) e) events.
Proof.
  revert sequence k. induction events as [|e events IH]; intros sequence k; cbn [number_events].
  { by intros [= <-]. }
  unfold checked_add_u64. destruct (_ <=? _); [|done]. cbn [ok_or mbind res_bind].
  destruct (number_events (sequence + 1) events) as [l| |] eqn:E; [|done..].
  intros [= <-]. rewrite (IH _ _ E). cbn [imap]. f_equal; [by rewrite Z.add_0_r|].
  apply imap_ext. intros i x _. simpl. f_equal. lia.
Qed.

(** Events in the order of their time, numbered from the offset. *)
Definition events_in_order (session_id : string) (offset : Z) (events : list Event) : Prop :=
  StronglySorted (λ a b, ev_timestamp_ns a ≤ ev_timestamp_ns b) events
  ∧ ∀ i e, events !! i = Some e →
      ev_session_id e = session_id ∧ ev_sequence e = offset + Z.of_nat i
      ∧ ev_event_id e = ("evt_" +:+ to_decimal (ev_sequence e))%string
      ∧ in_u32 (ev_pid e) ∧ in_u32 (ev_tid e) ∧ in_u64 (ev_timestamp_raw e)
      ∧ in_u64 (ev_timestamp_ns e) ∧ ev_timestamp_ns e ≠ 0.

Lemma renumber_sorted (f : nat → Event → Event) events :
  (∀ i e, ev_timestamp_ns (f i e) = ev_timestamp_ns e) →
  StronglySorted (λ a b, ev_timestamp_ns a ≤ ev_timestamp_ns b) events →
  StronglySorted (λ a b, ev_timestamp_ns a ≤ ev_timestamp_ns b) (imap f events).
Proof.
  intros Hf Hs. revert f Hf. induction Hs as [|e l _ IH Hall]; intros f Hf; [constructor|].
  cbn [imap]. constructor.
  - apply IH. intros. apply Hf.
  - apply Forall_forall. intros x (i & y & -> & Hy)%elem_of_lookup_imap. simpl.
    rewrite !Hf. rewrite Forall_forall in Hall. apply Hall. by apply list_elem_of_lookup_2 in Hy.
Qed.
Lemma number_events_in_order session_id offset events k :
  Forall (λ e, event_wf e ∧ ev_session_id e = session_id ∧ ev_timestamp_ns e ≠ 0) events →
  number_events offset (sort_by_key ev_timestamp_ns events) = Ok k →
  events_in_order session_id offset k.
Proof.
  intros Hall ->%number_events_imap. split.
  - apply renumber_sorted; [done|]. apply sort_by_key_sorted.
  - intros i e. rewrite list_lookup_imap. intros (x & Hx & ->)%fmap_Some.
    apply list_elem_of_lookup_2 in Hx. rewrite sort_by_key_elem in Hx.
    rewrite Forall_forall in Hall. destruct (Hall _ Hx) as ((? & ? & ? & ? & ?) & ? & ?).
    by split_and!.
Qed.

Lemma decode_payload_ok bytes offset session_id flags events groups :
  Forall is_byte bytes →
  decode_payload bytes offset session_id flags = Ok (events, groups) →
  events_in_order session_id offset events ∧ Forall group_wf groups
  ∧ (events = [] ∨ groups = [])
  ∧ len (record_chunks bytes) = len events + len groups.
Proof.
  intros Hb. unfold decode_payload.
  assert (∀ i chunk, (i, chunk) ∈ imap pair (record_chunks bytes) → Forall is_byte chunk) as Hc
    by (intros i chunk [_ H']%record_chunks_elem; auto).
  assert (length (imap pair (record_chunks bytes)) = length (record_chunks bytes)) as Hl
    by apply length_imap.
  destruct (has_feature _ _).
  - destruct (res_mapM _ _) as [l| |] eqn:E; [|done..]. intros [= <- <-].
    apply res_mapM_Forall2 in E. split_and!; [|..|by left|].
    + split; [constructor|]. intros i e He. done.
    + apply Forall_forall. intros g (i & Hg)%list_elem_of_lookup.
      destruct (Forall2_lookup_r _ _ _ _ _ E Hg) as ([j chunk] & Hx & Hf).
      eapply decode_aggregate_record_typed; [|exact Hf].
      eapply Hc. by eapply list_elem_of_lookup_2.
    + apply Forall2_length in E. unfold len. simpl. lia.
  - destruct (res_mapM _ _) as [l| |] eqn:E; [|done..]. cbn [mbind res_bind].
    destruct (number_events _ _) as [k| |] eqn:En; [|done..]. intros [= <- <-].
    apply res_mapM_Forall2 in E.
    assert (len k = len l) as Hk.
    { apply number_events_imap in En. rewrite En. unfold len at 1.
      rewrite length_imap. apply (sort_by_key_len ev_timestamp_ns). }
    split_and!; [|done|by right|].
    + eapply number_events_in_order; [|exact En].
      apply Forall_forall. intros e (i & He)%list_elem_of_lookup.
      destruct (Forall2_lookup_r _ _ _ _ _ E He) as ([j chunk] & Hx & Hf).
      eapply decode_record_typed; [|exact Hf].
      eapply Hc. by eapply list_elem_of_lookup_2.
    + apply Forall2_length in E. rewrite Hk. unfold len. simpl. lia.
Qed.

Lemma decode_capture_ok bytes session_id c :
  Forall is_byte bytes → decode_capture bytes session_id = Ok c →
  events_in_order session_id (cc_record_offset c) (cc_events c)
  ∧ Forall group_wf (cc_aggregate_groups c)
  ∧ (cc_events c = [] ∨ cc_aggregate_groups c = [])
  ∧ len bytes = HEADER_SIZE + RECORD_SIZE * (len (cc_events c) + len (cc_aggregate_groups c))
  ∧ cc_record_offset c + len (cc_events c) + len (cc_aggregate_groups c)
    ≤ Z.min (cc_record_capacity c) (cc_observed_records c)
  ∧ cc_dropped_records c = cc_agent_dropped_records c + cc_cupti_dropped_records c
  ∧ cc_dropped_records c ≤ u64_max.
Proof.
  intros Hbytes Hok. unfold decode_capture in Hok.
  res_steps. destruct a15 as [events groups]. res_steps.
  destruct (decode_payload_ok _ _ _ _ _ _ Hbytes Hstep19) as (He & Hg & Hor & Hlen).
  unfold checked_add_u64, checked_mul_u64 in *. res_steps. bool_props.
  repeat match goal with
  | H : (_ <=? _) = true |- _ => apply Z.leb_le in H
  | H : (_ =? _) = true |- _ => apply Z.eqb_eq in H
  | H : (_ <? _) = false |- _ => apply Z.ltb_ge in H
  end.
  apply read_u64_range in Hstep7; [|done..]. unfold HEADER_SIZE, RECORD_SIZE in *.
  assert (len (record_chunks bytes) = a6) as Hcount.
  { unfold record_chunks, len in *. rewrite (chunks_exact_length _ _ _ (Z.to_nat a6)).
    - unfold in_u64 in Hstep7. lia.
    - rewrite length_drop. lia.
    - lia.
    - lia. }
  split_and!; [done..|lia|lia|done|done].
Qed.

(** C25: decoding a capture never panics, whatever the bytes; a decoded capture has exactly
    the records its length says, either events or groups, within the agent's capacity and
    observed count; its events are in time order, numbered without gaps from the requested
    offset, with integers in their ranges and non-zero times; its groups are consistent. *)
Theorem decode_capture_typed (bytes : list Z) (session_id : string)
    (Hbytes : Forall is_byte bytes) :
  decode_capture bytes session_id ≠ Panic
  ∧ ∀ c, decode_capture bytes session_id = Ok c →
      events_in_order session_id (cc_record_offset c) (cc_events c)
      ∧ Forall group_wf (cc_aggregate_groups c)
      ∧ (cc_events c = [] ∨ cc_aggregate_groups c = [])
      ∧ len bytes = HEADER_SIZE + RECORD_SIZE * (len (cc_events c) + len (cc_aggregate_groups c))
      ∧ cc_record_offset c + len (cc_events c) + len (cc_aggregate_groups c)
        ≤ Z.min (cc_record_capacity c) (cc_observed_records c)
      ∧ cc_dropped_records c = cc_agent_dropped_records c + cc_cupti_dropped_records c
      ∧ cc_dropped_records c ≤ u64_max.
Proof.
  split; [apply decode_capture_no_panic|]. intros c Hok. by apply decode_capture_ok.
Qed.
End capture.
