(* ===== verification/CuptiFilter.v ===== *)
(** * Filtering in the CUPTI agent

    The collector tells the agent which records its two endpoints need:
    [cupti_event_filter] of [xprobe/cli/src/main.rs] reduces a validated CUDA
    selector to a filter, [encode_control] of [Cupti] writes it, and the agent
    ([cupti/src/cupti_agent.c]) drops every record that no filter accepts.
    The theorem of this file: a record whose event the correlator's selector
    matches is never dropped, given what the regex crate documents about
    patterns of literal text. *)
From S2P Require Import Prelude BTree RustString Text Bytes Protocol Selector.
From S2P Require Import Os Process Inspect Resolve Usdt Syscalls Validate Cupti.
#[local] Open Scope Z_scope.

Module MeasurementMode.
Inductive MeasurementMode : Set := Exact | Aggregate.
#[global] Instance MeasurementMode_eq_dec : EqDecision MeasurementMode.
Proof. solve_decision. Defined.
End MeasurementMode.
Abbreviation MeasurementMode := MeasurementMode.MeasurementMode.

(** ** Failures of a command *)
Section command.
Context `{SerdeJson}.

Record CommandFailure := BuildCommandFailure {
  fail_code : ErrorCode;
  fail_message : string;
  fail_recoverable : bool;
  fail_details : btree string Value;
  fail_hints : list string;
  fail_artifact_events : option (list Event) }.
(** [CommandFailure::new], [with_detail] and [with_hint]. *)
Definition failure (code : ErrorCode) (message : string) (recoverable : bool) : CommandFailure :=
  BuildCommandFailure code message recoverable [] [] None.
Definition with_detail (key : string) (value : Value) (f : CommandFailure) : CommandFailure :=
  BuildCommandFailure (fail_code f) (fail_message f) (fail_recoverable f)
    (bt_insert key value (fail_details f)) (fail_hints f) (fail_artifact_events f).
Definition with_hint (hint : string) (f : CommandFailure) : CommandFailure :=
  BuildCommandFailure (fail_code f) (fail_message f) (fail_recoverable f)
    (fail_details f) (fail_hints f ++ [hint]) (fail_artifact_events f).

(** ** From a selector to a filter *)

(** The filter a candidate kind of [bounded_kernel_name_filter] gives. *)
Definition filter_candidates : list (string * string * (string → CuptiNameFilter)) :=
  [("^", "$", CuptiNameFilter.Exact); ("^", ".*", CuptiNameFilter.Prefix);
   (".*", "$", CuptiNameFilter.Suffix); (".*", ".*", CuptiNameFilter.Contains);
   ("^", "", CuptiNameFilter.Prefix); ("", "$", CuptiNameFilter.Suffix);
   (".*", "", CuptiNameFilter.Contains); ("", "", CuptiNameFilter.Contains)]%string.
Definition bounded_kernel_name_filter (pattern : string) : CuptiNameFilter :=
  if pattern == ".*" then CuptiNameFilter.Any
  else
    default CuptiNameFilter.Any
      (find_map (λ '(prefix, suffix, filter),
         inner ← strip_prefix prefix pattern ≫= strip_suffix suffix;
         literal ← regex_literal inner;
         if is_empty literal || (CUPTI_NAME_CAPACITY <=? str_len literal) then None
         else Some (filter literal)) filter_candidates).

Definition cupti_record_kind (event_type : EventType) : option CuptiRecordKind :=
  match event_type with
  | EventType.CudaApiEntry => Some CuptiRecordKind.CudaApiEntry
  | EventType.CudaApiExit => Some CuptiRecordKind.CudaApiExit
  | EventType.GpuKernelStart => Some CuptiRecordKind.GpuKernelStart
  | EventType.GpuKernelEnd => Some CuptiRecordKind.GpuKernelEnd
  | EventType.GpuMemcpyStart => Some CuptiRecordKind.GpuMemcpyStart
  | EventType.GpuMemcpyEnd => Some CuptiRecordKind.GpuMemcpyEnd
  | EventType.GpuMemsetStart => Some CuptiRecordKind.GpuMemsetStart
  | EventType.GpuMemsetEnd => Some CuptiRecordKind.GpuMemsetEnd
  | EventType.NvtxRangeStart => Some CuptiRecordKind.NvtxRangeStart
  | EventType.NvtxRangeEnd => Some CuptiRecordKind.NvtxRangeEnd
  | _ => None
  end.
(** The matches on the copy kind and on the names in [cupti_event_filter]. *)
Definition memcpy_kind_filter (kind : option MemcpyKind) : CuptiMemcpyKind :=
  match kind with
  | None | Some MemcpyKind.Unknown => CuptiMemcpyKind.Any
  | Some MemcpyKind.HostToDevice => CuptiMemcpyKind.HostToDevice
  | Some MemcpyKind.DeviceToHost => CuptiMemcpyKind.DeviceToHost
  | Some MemcpyKind.DeviceToDevice => CuptiMemcpyKind.DeviceToDevice
  | Some MemcpyKind.HostToHost => CuptiMemcpyKind.HostToHost
  | Some MemcpyKind.PeerToPeer => CuptiMemcpyKind.PeerToPeer
  end.
Definition cuda_name_filter (selector : ResolvedCudaSelector) : CuptiNameFilter :=
  match rc_api_name selector, rc_kernel_name_regex selector, rc_nvtx_name_regex selector with
  | Some name, _, _ => CuptiNameFilter.Exact name
  | None, Some pattern, _ => bounded_kernel_name_filter pattern
  | None, None, Some pattern => bounded_kernel_name_filter pattern
  | None, None, None => CuptiNameFilter.Any
  end.
Definition cupti_event_filter (selector : ResolvedCudaSelector) :
    res CommandFailure CuptiEventFilter :=
  record_kind ← ok_or (cupti_record_kind (rc_event_type selector))
    (failure ErrorCode.InvalidEventSelector
       "validated CUDA endpoint has a non-CUDA event type" false);
  api_domain ←
    match rc_api_domain selector with
    | None => Ok CuptiApiDomain.Any
    | Some domain =>
        if domain == "driver_api" then Ok CuptiApiDomain.Driver
        else if domain == "runtime_api" then Ok CuptiApiDomain.Runtime
        else Err (failure ErrorCode.InvalidEventSelector
               ("validated CUDA endpoint has unsupported API domain " +:+ debug_str domain) false)
    end;
  Ok (BuildCuptiEventFilter record_kind api_domain (memcpy_kind_filter (rc_memcpy_kind selector))
        (cuda_name_filter selector)).

(** [cupti_arm_config]; [max_events] is a [usize], which fits in 64 bits. *)
Definition cupti_arm_config (validation : ValidationResult) (max_events : Z)
    (mode : MeasurementMode) : res CommandFailure (option CuptiArmConfig) :=
  if negb (vr_needs_cupti (vres_requirements validation)) then Ok None
  else
    filters ← res_mapM cupti_event_filter
      (omap ve_cuda [vres_start validation; vres_end validation]);
    Ok (Some (BuildCuptiArmConfig max_events
                match mode with
                | MeasurementMode.Exact => CuptiCaptureMode.Exact
                | MeasurementMode.Aggregate => CuptiCaptureMode.Aggregate
                end filters)).
End command.

(** ** The agent *)

(** [struct xprobe_cupti_filter], [struct xprobe_cupti_control_request] and
    [struct xprobe_cupti_record]. *)
Record xprobe_cupti_filter := Build_xprobe_cupti_filter {
  xf_record_kind : Z;
  xf_api_domain : Z;
  xf_memcpy_kind : Z;
  xf_name_match : Z;
  xf_name : list Z }.
Record xprobe_cupti_control_request := Build_xprobe_cupti_control_request {
  xr_magic : list Z;
  xr_version : Z;
  xr_command : Z;
  xr_record_capacity : Z;
  xr_record_offset : Z;
  xr_capture_mode : Z;
  xr_reserved : Z;
  xr_filters : list xprobe_cupti_filter }.
Record xprobe_cupti_record := Build_xprobe_cupti_record {
  xp_timestamp_ns : Z;
  xp_kind : Z;
  xp_pid : Z;
  xp_tid : Z;
  xp_device_id : Z;
  xp_context_id : Z;
  xp_stream_id : Z;
  xp_correlation_id : Z;
  xp_callback_domain : Z;
  xp_callback_id : Z;
  xp_grid : Z * Z * Z;
  xp_block : Z * Z * Z;
  xp_runtime_correlation_id : Z;
  xp_name : list Z }.

(** The bytes of the structures. *)
Definition read_filter (bytes : list Z) (offset : Z) : option xprobe_cupti_filter :=
  kind ← field bytes offset (offset + 4);
  domain ← field bytes (offset + 4) (offset + 8);
  memcpy ← field bytes (offset + 8) (offset + 12);
  name_match ← field bytes (offset + 12) (offset + 16);
  name ← slice bytes (offset + 16) (offset + 144);
  Some (Build_xprobe_cupti_filter kind domain memcpy name_match name).
Definition read_control (bytes : list Z) : option xprobe_cupti_control_request :=
  if negb (len bytes =? 328) then None
  else
    magic ← slice bytes 0 8;
    version ← field bytes 8 12; command ← field bytes 12 16;
    capacity ← field bytes 16 24; offset ← field bytes 24 32;
    mode ← field bytes 32 36; reserved ← field bytes 36 40;
    first ← read_filter bytes 40; second ← read_filter bytes 184;
    Some (Build_xprobe_cupti_control_request magic version command capacity offset mode reserved
            [first; second]).
Definition record_fields (r : xprobe_cupti_record) : list (nat * Z) :=
  let '(grid_x, grid_y, grid_z) := xp_grid r in
  let '(block_x, block_y, block_z) := xp_block r in
  [(8, xp_timestamp_ns r); (4, xp_kind r); (4, xp_pid r); (4, xp_tid r); (4, xp_device_id r);
   (4, xp_context_id r); (4, xp_stream_id r); (4, xp_correlation_id r);
   (4, xp_callback_domain r); (4, xp_callback_id r); (4, grid_x); (4, grid_y); (4, grid_z);
   (4, block_x); (4, block_y); (4, block_z); (4, xp_runtime_correlation_id r)]%nat.
Definition record_encode (r : xprobe_cupti_record) : list Z :=
  encode_layout (record_fields r) ++ xp_name r.
Definition record_wf (r : xprobe_cupti_record) : Prop :=
  layout_wf (record_fields r) ∧ len (xp_name r) = 128.

(** The checks of [serve_snapshots] on a control message. *)
Definition control_accepted (request : xprobe_cupti_control_request) : bool :=
  (xr_magic request == CONTROL_MAGIC) && (xr_version request =? 4)
  && (1 <=? xr_command request) && (xr_command request <=? 4)
  && (xr_capture_mode request <=? 1) && (xr_reserved request =? 0).

(** [bounded_name_length]; the name ends at a NUL or after 128 bytes. *)
Definition bounded_name_length (name : list Z) : Z := len (until_nul (take 128 name)).
(** [memcmp(a, b, n) == 0] for buffers of at least [n] bytes. *)
Definition memcmp_eq (a b : list Z) (n : Z) : bool :=
  take (Z.to_nat n) a == take (Z.to_nat n) b.
Definition name_matches (filter : xprobe_cupti_filter) (record_name : list Z) : bool :=
  if xf_name_match filter =? 0 then true
  else
    let filter_length := bounded_name_length (xf_name filter) in
    let record_length := bounded_name_length record_name in
    let at_offset offset :=
      memcmp_eq (xf_name filter) (drop (Z.to_nat offset) record_name) filter_length in
    if filter_length =? 128 then false
    else if xf_name_match filter =? 1 then
      (record_length <? 128) && (filter_length =? record_length) && at_offset 0
    else if xf_name_match filter =? 2 then
      (filter_length <=? record_length) && at_offset 0
    else if xf_name_match filter =? 3 then
      (record_length <? 128) && (filter_length <=? record_length)
      && at_offset (record_length - filter_length)
    else if xf_name_match filter =? 4 then
      if filter_length =? 0 then true
      else existsb (λ offset, (Z.of_nat offset + filter_length <=? record_length)
                              && at_offset (Z.of_nat offset)) (seq 0 (S (Z.to_nat record_length)))
    else false.
Definition semantic_memcpy_kind (cupti_kind : Z) : Z :=
  if (cupti_kind =? 1) || (cupti_kind =? 3) then 1
  else if (cupti_kind =? 2) || (cupti_kind =? 4) then 2
  else if (cupti_kind =? 5) || (cupti_kind =? 6) || (cupti_kind =? 7) || (cupti_kind =? 8) then 3
  else if cupti_kind =? 9 then 4
  else if cupti_kind =? 10 then 5
  else 0.
Definition filter_matches_values (filter : xprobe_cupti_filter)
    (record_kind api_domain memcpy_kind : Z) (name : list Z) : bool :=
  if (xf_record_kind filter =? 0) || negb (xf_record_kind filter =? record_kind) then false
  else if negb (xf_api_domain filter =? 0) && negb (xf_api_domain filter =? api_domain) then false
  else if negb (xf_memcpy_kind filter =? 0) && negb (xf_memcpy_kind filter =? memcpy_kind) then
    false
  else name_matches filter name.
Definition record_matches_filter (record : xprobe_cupti_record) (filter : xprobe_cupti_filter) :
    bool :=
  let '(_, _, grid_z) := xp_grid record in
  filter_matches_values filter (xp_kind record) (xp_callback_domain record)
    (semantic_memcpy_kind grid_z) (xp_name record).
(** [capture_filter_matches] after [arm_capture] enabled the filters. *)
Definition capture_filter_matches (filters : list xprobe_cupti_filter)
    (record : xprobe_cupti_record) : bool :=
  existsb (record_matches_filter record) filters.

(** ** The control message the agent reads *)
Definition filter_fields (x : xprobe_cupti_filter) : list (nat * Z) :=
  [(4, xf_record_kind x); (4, xf_api_domain x); (4, xf_memcpy_kind x); (4, xf_name_match x)]%nat.
Definition filter_encode (x : xprobe_cupti_filter) : list Z :=
  encode_layout (filter_fields x) ++ xf_name x.
Definition no_filter : xprobe_cupti_filter := Build_xprobe_cupti_filter 0 0 0 0 (replicate 128 0).
(** The structure a filter of the collector becomes. *)
Definition filter_struct (f : CuptiEventFilter) : xprobe_cupti_filter :=
  let '(name_match, name) := name_filter (cf_name f) in
  let bytes := bytes_of_string name in
  Build_xprobe_cupti_filter (record_kind_u32 (cf_record_kind f)) (api_domain_u32 (cf_api_domain f))
    (memcpy_kind_u32 (cf_memcpy_kind f)) name_match (bytes ++ replicate (128 - length bytes) 0).

Lemma encode_filter_struct pre rest index f control :
  len pre = 40 + index * FILTER_SIZE →
  encode_filter index f (pre ++ filter_encode no_filter ++ rest) = Ok control →
  control = pre ++ filter_encode (filter_struct f) ++ rest
  ∧ len (bytes_of_string (name_filter (cf_name f)).2) < 128
  ∧ Forall (λ b, b ≠ 0) (bytes_of_string (name_filter (cf_name f)).2).
Proof.
  intros Hpre. unfold encode_filter, filter_encode, filter_struct, filter_fields.
  destruct (name_filter (cf_name f)) as [name_match name].
  cbn [no_filter xf_record_kind xf_api_domain xf_memcpy_kind xf_name_match xf_name fst snd].
  rewrite <-Hpre, <-app_assoc.
  rewrite (copy_layout_mid _ _ _ 0 4 0) by (done || simpl; lia).
  cbn [or_panic mbind res_bind list_insert insert].
  rewrite (copy_layout_mid _ _ _ 1 4 0) by (done || simpl; lia).
  cbn [or_panic mbind res_bind list_insert insert].
  rewrite (copy_layout_mid _ _ _ 2 4 0) by (done || simpl; lia).
  cbn [or_panic mbind res_bind list_insert insert].
  destruct (_ || _) eqn:E; [done|]. apply orb_false_iff in E as [E1%Z.leb_gt E2].
  rewrite (copy_layout_mid _ _ _ 3 4 0) by (done || simpl; lia).
  cbn [or_panic mbind res_bind list_insert insert].
  set (bytes := bytes_of_string name) in *. unfold CUPTI_NAME_CAPACITY in E1.
  assert (replicate 128 0 = replicate (length bytes) 0 ++ replicate (128 - length bytes) 0) as ->.
  { rewrite <-replicate_add. f_equal. unfold len in E1. lia. }
  match goal with |- context [encode_layout ?l] =>
    pose proof (encode_layout_len l) as Hh; set (h := encode_layout l) in * end.
  rewrite <-(app_assoc (replicate _ _)), (app_assoc pre h).
  rewrite (copy_app (pre ++ h) (replicate (length bytes) 0) bytes);
    [|rewrite len_app, Hh; done|unfold len; by rewrite length_replicate].
  cbn [or_panic]. intros [= <-]. split; [by rewrite <-!app_assoc|]. split; [done|].
  apply Forall_forall. intros b Hb ->. apply not_true_iff_false in E2. apply E2.
  apply existsb_exists. exists 0. by rewrite <-list_elem_of_In.
Qed.
Lemma read_filter_encode pre x rest offset :
  len pre = offset → layout_wf (filter_fields x) → len (xf_name x) = 128 →
  read_filter (pre ++ filter_encode x ++ rest) offset = Some x.
Proof.
  intros <- Hwf Hname. unfold read_filter, filter_encode.
  rewrite <-!app_assoc.
  rewrite (layout_field_mid pre (filter_fields x) _ 0 4 _ (len pre) (len pre + 4) eq_refl Hwf)
    by (simpl; lia). cbn [mbind option_bind].
  rewrite (layout_field_mid pre (filter_fields x) _ 1 4 _ (len pre + 4) (len pre + 8) eq_refl Hwf)
    by (simpl; lia). cbn [mbind option_bind].
  rewrite (layout_field_mid pre (filter_fields x) _ 2 4 _ (len pre + 8) (len pre + 12) eq_refl Hwf)
    by (simpl; lia). cbn [mbind option_bind].
  rewrite (layout_field_mid pre (filter_fields x) _ 3 4 _ (len pre + 12) (len pre + 16) eq_refl Hwf)
    by (simpl; lia). cbn [mbind option_bind].
  rewrite app_assoc, slice_app by (rewrite len_app, encode_layout_len; simpl; lia).
  cbn [mbind option_bind]. by destruct x.
Qed.

(** A filter the agent can apply: its name is shorter than the field and NUL-free. *)
Definition filter_fits (f : CuptiEventFilter) : Prop :=
  len (bytes_of_string (name_filter (cf_name f)).2) < 128
  ∧ Forall (λ b, b ≠ 0) (bytes_of_string (name_filter (cf_name f)).2).

Lemma filter_struct_wf f :
  filter_fits f → layout_wf (filter_fields (filter_struct f)) ∧ len (xf_name (filter_struct f)) = 128.
Proof.
  intros [Hlen _]. unfold filter_struct, filter_fields.
  assert (∃ m name, name_filter (cf_name f) = (m, name) ∧ 0 ≤ m ≤ 4) as (m & name & Hn & Hm).
  { destruct (cf_name f); eexists _, _; (split; [reflexivity|lia]). }
  rewrite Hn in *. simpl in *. split.
  - assert (0 ≤ record_kind_u32 (cf_record_kind f) ≤ 10) by (destruct (cf_record_kind f); simpl; lia).
    assert (0 ≤ api_domain_u32 (cf_api_domain f) ≤ 2) by (destruct (cf_api_domain f); simpl; lia).
    assert (0 ≤ memcpy_kind_u32 (cf_memcpy_kind f) ≤ 5) by (destruct (cf_memcpy_kind f); simpl; lia).
    unfold layout_wf. rewrite !Forall_cons, Forall_nil. simpl. lia.
  - rewrite len_app. unfold len in *. rewrite length_replicate. lia.
Qed.

Definition header_fields (version command capacity offset mode : Z) : list (nat * Z) :=
  [(4%nat, version); (4%nat, command); (8%nat, capacity); (8%nat, offset); (4%nat, mode);
   (4%nat, 0)].

Lemma encode_filters_structs header filters bytes :
  len header = 40 → (0 < length filters ≤ 2)%nat →
  encode_filters 0 filters (header ++ filter_encode no_filter ++ filter_encode no_filter)
  = Ok bytes →
  Forall filter_fits filters
  ∧ ∃ x y, [x; y] = (filter_struct <$> filters) ++ replicate (2 - length filters) no_filter
      ∧ bytes = header ++ filter_encode x ++ filter_encode y.
Proof.
  intros Hh Hlen. destruct filters as [|f [|g []]]; simpl in Hlen; [lia|..|lia];
    cbn [encode_filters]; intros Hok.
  - destruct (encode_filter 0 f _) as [c| |] eqn:E; [|done..]. simpl in Hok. simplify_eq.
    apply encode_filter_struct in E as (-> & Hfit); [|done]. split; [by constructor|].
    by eexists _, _.
  - destruct (encode_filter 0 f _) as [c| |] eqn:E; [|done..]. cbn [mbind res_bind] in Hok.
    apply encode_filter_struct in E as (-> & Hfit); [|done].
    destruct (encode_filter (0 + 1) g _) as [c| |] eqn:E; [|done..].
    cbn [mbind res_bind] in Hok. simplify_eq.
    rewrite app_assoc, <-(app_nil_r (filter_encode no_filter)) in E.
    apply encode_filter_struct in E as (-> & Hfit').
    + split; [by repeat constructor; apply Hfit || apply Hfit'|]. eexists _, _.
      split; [reflexivity|]. by rewrite app_nil_r, <-app_assoc.
    + rewrite len_app, Hh. unfold filter_encode. rewrite len_app, encode_layout_len.
      rewrite (proj2 (filter_struct_wf f Hfit)). done.
Qed.
Lemma read_control_encode version command capacity offset mode x y :
  layout_wf (header_fields version command capacity offset mode) →
  layout_wf (filter_fields x) → len (xf_name x) = 128 →
  layout_wf (filter_fields y) → len (xf_name y) = 128 →
  read_control (CONTROL_MAGIC ++ encode_layout (header_fields version command capacity offset mode)
                ++ filter_encode x ++ filter_encode y)
  = Some (Build_xprobe_cupti_control_request CONTROL_MAGIC version command capacity offset mode 0
            [x; y]).
Proof.
  intros Hwf Hx Hx' Hy Hy'. unfold read_control.
  assert (len (filter_encode x) = 144 ∧ len (filter_encode y) = 144) as [Hlx Hly]
    by (unfold filter_encode; rewrite !len_app, !encode_layout_len, Hx', Hy'; done).
  rewrite !len_app, encode_layout_len, Hlx, Hly. cbn [Z.eqb negb].
  set (rest := filter_encode x ++ filter_encode y).
  change (negb (_ =? 328)) with false. cbn match.
  rewrite (slice_app [] CONTROL_MAGIC _ 0 8 eq_refl eq_refl : slice (CONTROL_MAGIC ++ _) 0 8 = _).
  cbn [mbind option_bind]. unfold header_fields in Hwf |- *. read_fields Hwf.
  cbn [mbind option_bind]. rewrite app_assoc. unfold rest.
  rewrite (read_filter_encode _ x _ 40) by (done || rewrite len_app, encode_layout_len; done).
  cbn [mbind option_bind]. rewrite (app_assoc _ (filter_encode x)), <-(app_nil_r (filter_encode y)).
  rewrite (read_filter_encode _ y [] 184); [done| |done|done].
  by rewrite !len_app, encode_layout_len, Hlx.
Qed.
Lemma encode_control_arm config bytes :
  in_u64 (ca_record_capacity config) → encode_control 1 0 (Some config) = Ok bytes →
  Forall filter_fits (ca_filters config)
  ∧ read_control bytes
    = Some (Build_xprobe_cupti_control_request CONTROL_MAGIC CONTROL_VERSION 1
        (ca_record_capacity config) 0 (capture_mode_u32 (ca_capture_mode config)) 0
        ((filter_struct <$> ca_filters config)
         ++ replicate (2 - length (ca_filters config)) no_filter)).
Proof.
  intros Hcap. unfold encode_control.
  set (zeros := filter_encode no_filter ++ filter_encode no_filter).
  change (replicate CONTROL_SIZE 0) with
    ([] ++ replicate 8 0 ++ encode_layout (header_fields 0 0 0 0 0) ++ zeros).
  rewrite (copy_app [] (replicate 8 0) CONTROL_MAGIC) by done. cbn [app or_panic mbind res_bind].
  rewrite (copy_layout_mid _ _ _ 0 4 0) by done. cbn [or_panic mbind res_bind].
  rewrite (copy_layout_mid _ _ _ 1 4 0) by done. cbn [or_panic mbind res_bind].
  rewrite (copy_layout_mid _ _ _ 3 8 0) by done. cbn [or_panic mbind res_bind].
  destruct (_ =? 0); [done|]. destruct (_ || _) eqn:E; [done|].
  apply orb_false_iff in E as [E1%Z.eqb_neq E2%Z.ltb_ge]. cbn [Z.eqb negb].
  rewrite (copy_layout_mid _ _ _ 2 8 0) by done. cbn [or_panic mbind res_bind].
  rewrite (copy_layout_mid _ _ _ 4 4 0) by done. cbn [or_panic mbind res_bind].
  set (mode := capture_mode_u32 (ca_capture_mode config)).
  set (cap := ca_record_capacity config) in *.
  assert (layout_wf (header_fields CONTROL_VERSION 1 cap 0 mode)) as Hwf.
  { assert (0 ≤ mode ≤ 1) by (unfold mode; destruct (ca_capture_mode config); simpl; lia).
    unfold layout_wf, header_fields, in_u64, u64_max in *.
    rewrite !Forall_cons, Forall_nil. unfold CONTROL_VERSION. simpl. lia. }
  intros Hok. rewrite app_assoc in Hok.
  apply encode_filters_structs in Hok as (Hfit & x & y & Hxy & ->);
    [|done|unfold len, FILTER_COUNT in *; lia].
  change (<[4%nat := (4%nat, mode)]> _) with (header_fields CONTROL_VERSION 1 cap 0 mode).
  split; [done|]. rewrite <-Hxy.
  assert (∀ z, z ∈ [x; y] → layout_wf (filter_fields z) ∧ len (xf_name z) = 128) as Hz.
  { rewrite Hxy. intros z [Hz|Hz]%elem_of_app.
    - apply list_elem_of_fmap in Hz as (f & -> & Hf). apply filter_struct_wf.
      rewrite Forall_forall in Hfit. by apply Hfit.
    - apply elem_of_replicate in Hz as [-> _]. split; [|done].
      unfold layout_wf, filter_fields. rewrite !Forall_cons, Forall_nil. simpl. lia. }
  destruct (Hz x) as [Hx Hx']; [by left|]. destruct (Hz y) as [Hy Hy']; [by right; left|].
  rewrite <-app_assoc. by apply read_control_encode.
Qed.

(** ** Patterns of literal text

    What the regex crate documents of them: a character that is no operator
    stands for itself, as does an escaped ASCII character that is neither
    alphanumeric nor [<] or [>] (which are word boundaries when escaped); [^]
    and [$] anchor the match; [.*] matches any text without a line break. *)
Inductive quoted : string → string → Prop :=
| quoted_nil : quoted "" ""
| quoted_plain c p s :
    contains_char c "\.+*?()|[]{}^$" = false → quoted p s → quoted (String c p) (String c s)
| quoted_escape c p s :
    is_ascii_alphanumeric c = false → contains_char c "<>" = false → quoted p s →
    quoted (String backslash (String c p)) (String c s).

Inductive edge : Set := Free | Anchored | Dots.
Definition lead (e : edge) : string :=
  match e with Free => "" | Anchored => "^" | Dots => ".*" end.
Definition trail (e : edge) : string :=
  match e with Free => "" | Anchored => "$" | Dots => ".*" end.

Class RegexLiterals `{RegexEngine} : Prop :=
  literal_match : ∀ a z pattern literal regex text,
    quoted pattern literal →
    Regex_new (lead a +:+ pattern +:+ trail z) = Ok regex → is_match regex text = true →
    ∃ before after, text = before +:+ literal +:+ after
      ∧ (a = Anchored → before = ""%string) ∧ (z = Anchored → after = ""%string).

(** An escaped [<] or [>]. *)
Fixpoint word_boundaries (pattern : string) : bool :=
  match pattern with
  | EmptyString => false
  | String c rest =>
      if c == backslash then
        match rest with
        | EmptyString => false
        | String escaped rest => contains_char escaped "<>" || word_boundaries rest
        end
      else word_boundaries rest
  end.

Lemma string_pair_ind (P : string → Prop) :
  P ""%string → (∀ c, P (String c "")) →
  (∀ c d s, P s → P (String d s) → P (String c (String d s))) → ∀ s, P s.
Proof.
  intros H0 H1 H2 s. assert (P s ∧ ∀ c, P (String c s)) as [? _]; [|done].
  induction s as [|d s [IH1 IH2]]; auto.
Qed.
#[local] Arguments contains_char : simpl never.
Lemma plain_character c :
  c ≠ backslash → contains_char c ".+*?()|[]{}^$" = false →
  contains_char c "\.+*?()|[]{}^$" = false.
Proof.
  intros Hc Hp. change ((backslash == c) || contains_char c ".+*?()|[]{}^$" = false).
  rewrite Hp, bool_decide_eq_false_2; [done|congruence].
Qed.
Lemma regex_literal_quoted pattern literal rest :
  regex_literal pattern = Some literal → word_boundaries (pattern +:+ rest) = false →
  quoted pattern literal.
Proof.
  revert literal. induction pattern as [|c|c d pattern IH1 IH2] using string_pair_ind;
    intros literal; simpl.
  - intros [= <-] _. constructor.
  - case_bool_decide; [done|]. destruct (contains_char c _) eqn:E; [done|]. intros [= <-] _.
    apply quoted_plain; [by apply plain_character|constructor].
  - case_bool_decide as Hc.
    + destruct (is_ascii_alphanumeric d) eqn:Ed; [done|].
      intros (s & Hs & ->)%fmap_Some [Hb Hw]%orb_false_iff. subst c. constructor; auto.
    + destruct (contains_char c ".+*?()|[]{}^$") eqn:E; [done|].
      intros (s & Hs & ->)%fmap_Some Hw. apply quoted_plain.
      * by apply plain_character.
      * by apply IH2.
Qed.

(** The texts a name filter accepts. *)
Definition accepts (filter : CuptiNameFilter) (text : string) : Prop :=
  match filter with
  | CuptiNameFilter.Any => True
  | CuptiNameFilter.Exact name => text = name
  | CuptiNameFilter.Prefix name => ∃ after, text = name +:+ after
  | CuptiNameFilter.Suffix name => ∃ before, text = before +:+ name
  | CuptiNameFilter.Contains name => ∃ before after, text = before +:+ name +:+ after
  end.

Section names.
Context `{RegexLiterals}.

Lemma candidate_sound a z inner literal regex text rest :
  Regex_new (lead a +:+ inner +:+ trail z) = Ok regex → is_match regex text = true →
  regex_literal inner = Some literal → word_boundaries (inner +:+ rest) = false →
  ∃ before after, text = before +:+ literal +:+ after
    ∧ (a = Anchored → before = ""%string) ∧ (z = Anchored → after = ""%string).
Proof.
  intros Hnew Hm Hl Hw. eapply literal_match; [|done|done]. by eapply regex_literal_quoted.
Qed.

(** The name filter accepts every text the pattern matches. *)
Lemma bounded_filter_sound pattern regex text :
  word_boundaries pattern = false → Regex_new pattern = Ok regex → is_match regex text = true →
  accepts (bounded_kernel_name_filter pattern) text.
Proof.
  intros Hw Hnew Hm. unfold bounded_kernel_name_filter. case_bool_decide; [done|].
  destruct (find_map _ _) as [f|] eqn:Ef; [|done]. simpl.
  apply find_map_Some in Ef as (l1 & [[prefix suffix] filter] & l2 & Hin & Hf & _).
  assert ((prefix, suffix, filter) ∈ filter_candidates) as Hc
    by (rewrite Hin; apply elem_of_app; right; left).
  clear Hin. destruct (strip_prefix prefix pattern) as [rest|] eqn:Ep; [|done]. simpl in Hf.
  destruct (strip_suffix suffix rest) as [inner|] eqn:Es; [|done]. simpl in Hf.
  destruct (regex_literal inner) as [literal|] eqn:El; [|done]. simpl in Hf.
  destruct (_ || _); simplify_eq.
  apply strip_prefix_Some in Ep as ->. apply strip_suffix_Some in Es as ->.
  assert (∃ a z, prefix = lead a ∧ suffix = trail z
    ∧ ∀ before after, text = before +:+ literal +:+ after →
        (a = Anchored → before = ""%string) → (z = Anchored → after = ""%string) →
        accepts (filter literal) text) as (a & z & -> & -> & Hacc).
  { unfold filter_candidates in Hc. rewrite !elem_of_cons, elem_of_nil in Hc.
    destruct Hc as [[= -> -> ->]|[[= -> -> ->]|[[= -> -> ->]|[[= -> -> ->]|[[= -> -> ->]|
      [[= -> -> ->]|[[= -> -> ->]|[[= -> -> ->]|[]]]]]]]]];
      [exists Anchored, Anchored|exists Anchored, Dots|exists Dots, Anchored|exists Dots, Dots|
       exists Anchored, Free|exists Free, Anchored|exists Dots, Free|exists Free, Free];
      (split; [done|]); (split; [done|]); intros before after -> Ha Hz; simpl;
      try rewrite (Ha eq_refl); try rewrite (Hz eq_refl); rewrite ?string_app_nil_r; by eauto. }
  edestruct (candidate_sound a z inner literal regex text (trail z)) as (before & after & ? & ? & ?);
    [done..| |by eapply Hacc]. by destruct a.
Qed.
End names.

(** ** Names as the agent compares them *)
Lemma until_nul_prefix l : ∃ rest, l = until_nul l ++ rest.
Proof.
  induction l as [|b l [rest IH]]; simpl; [by exists []|].
  destruct (b =? 0); [by eexists|]. exists rest. simpl. by f_equal.
Qed.
Lemma until_nul_stop t r : Forall (λ b, b ≠ 0) t → until_nul (t ++ 0 :: r) = t.
Proof.
  induction 1 as [|b t Hb _ IH]; [done|]. simpl. rewrite IH.
  by rewrite (proj2 (Z.eqb_neq _ _)).
Qed.
Lemma until_nul_take n l : len (until_nul l) < Z.of_nat n → until_nul (take n l) = until_nul l.
Proof.
  revert n. induction l as [|b l IH]; intros [|n]; try done.
  - simpl. destruct (b =? 0); [done|]. rewrite len_cons. intros.
    pose proof (len_nonneg (until_nul l)). lia.
  - simpl. destruct (b =? 0); [done|]. rewrite len_cons. intros. rewrite IH; [done|lia].
Qed.

(** A NUL-terminated name of 128 bytes, and the text it holds. *)
Definition names (buffer : list Z) (text : string) : Prop :=
  len (bytes_of_string text) < 128 ∧ until_nul buffer = bytes_of_string text.

Lemma bounded_length_names buffer text :
  names buffer text → bounded_name_length buffer = len (bytes_of_string text).
Proof.
  intros [Hl Ht]. unfold bounded_name_length. rewrite until_nul_take; rewrite Ht; [done|].
  simpl. lia.
Qed.
Lemma names_at buffer text before literal after :
  names buffer text → text = before +:+ literal +:+ after →
  take (length (bytes_of_string literal)) (drop (length (bytes_of_string before)) buffer)
  = bytes_of_string literal.
Proof.
  intros [_ Ht] ->. destruct (until_nul_prefix buffer) as [rest ->]. rewrite Ht.
  rewrite !bytes_of_string_app, <-!app_assoc, drop_app_length. apply take_app_length.
Qed.

(** The structure of a name filter compares like the filter. *)
Lemma filter_struct_name f text :
  filter_fits f → ∃ m name, name_filter (cf_name f) = (m, name)
    ∧ xf_name_match (filter_struct f) = m ∧ names (xf_name (filter_struct f)) name
    ∧ (cf_name f = CuptiNameFilter.Any ∨ accepts (cf_name f) text →
       m = 0 ∨ (m = 1 ∧ text = name) ∨ (m = 2 ∧ ∃ after, text = name +:+ after)
       ∨ (m = 3 ∧ ∃ before, text = before +:+ name)
       ∨ (m = 4 ∧ ∃ before after, text = before +:+ name +:+ after)).
Proof.
  intros [Hlen Hnul]. unfold filter_struct.
  destruct (name_filter (cf_name f)) as [m name] eqn:E. simpl in *.
  exists m, name. split; [done|]. split; [done|]. split.
  - split; [done|]. unfold len in Hlen.
    destruct (128 - length (bytes_of_string name))%nat as [|k] eqn:Ek; [lia|].
    by apply until_nul_stop.
  - destruct (cf_name f); simpl in *; simplify_eq; intros [?|?]; naive_solver.
Qed.
Lemma name_matches_accepts f buffer text :
  filter_fits f → names buffer text → accepts (cf_name f) text →
  name_matches (filter_struct f) buffer = true.
Proof.
  intros Hfit Hbuf Hacc. destruct (filter_struct_name f text Hfit) as (m & name & _ & Hm & Hn & Hcase).
  specialize (Hcase (or_intror Hacc)). unfold name_matches. rewrite Hm.
  destruct Hcase as [-> | Hcase]; [done|].
  rewrite (bounded_length_names _ _ Hn), (bounded_length_names _ _ Hbuf).
  assert (∀ before after, text = before +:+ name +:+ after →
    memcmp_eq (xf_name (filter_struct f)) (drop (length (bytes_of_string before)) buffer)
      (len (bytes_of_string name)) = true) as Hat.
  { intros before after Ht. unfold memcmp_eq, len. rewrite Nat2Z.id.
    rewrite (names_at buffer text before name after Hbuf Ht), bool_decide_eq_true.
    rewrite <-(drop_0 (xf_name _)). apply (names_at _ name "" name ""); [done|].
    by rewrite string_app_nil_r. }
  destruct Hn as [Hn _]. destruct Hbuf as [Hb _].
  rewrite (proj2 (Z.eqb_neq (len (bytes_of_string name)) 128)) by lia.
  destruct Hcase as [[-> Ht]|[[-> [after Ht]]|[[-> [before Ht]]|[-> (before & after & Ht)]]]].
  - subst text. simpl. rewrite (proj2 (Z.ltb_lt _ _)), Z.eqb_refl by done.
    apply (Hat ""%string ""%string). by rewrite string_app_nil_r.
  - simpl. apply andb_true_iff. split; [|apply (Hat ""%string after Ht)].
    rewrite Ht, bytes_of_string_app, len_app. apply Z.leb_le.
    pose proof (len_nonneg (bytes_of_string after)). lia.
  - simpl. rewrite (proj2 (Z.ltb_lt _ _)) by done. rewrite andb_true_l.
    assert (len (bytes_of_string text) = len (bytes_of_string before) + len (bytes_of_string name))
      as -> by by rewrite Ht, bytes_of_string_app, len_app.
    pose proof (len_nonneg (bytes_of_string before)).
    rewrite (proj2 (Z.leb_le _ _)) by lia. rewrite Z.add_simpl_r. unfold len at 1.
    rewrite Nat2Z.id. simpl. apply (Hat before ""%string). by rewrite string_app_nil_r.
  - cbn [Z.eqb Pos.eqb]. destruct (_ =? 0); [done|]. apply existsb_exists.
    exists (length (bytes_of_string before)). rewrite Nat2Z.id, (Hat before after) by done.
    pose proof (f_equal len (f_equal bytes_of_string Ht)) as Hl.
    rewrite !bytes_of_string_app, !len_app in Hl. pose proof (len_nonneg (bytes_of_string after)).
    pose proof (len_nonneg (bytes_of_string name)).
    unfold len in *. rewrite (proj2 (Z.leb_le _ _)) by lia. split; [|done].
    apply in_seq. lia.
Qed.

(** ** Records *)
Section records.
Context `{SerdeJson}.

Definition grid_z (r : xprobe_cupti_record) : Z := let '(_, _, z) := xp_grid r in z.

(** What the collector reads out of a record of the agent. *)
Lemma decode_record_encode r index session_id flags event :
  record_wf r → decode_record (record_encode r) index session_id flags = Ok event →
  ∃ name source memset_value, from_utf8 (until_nul (xp_name r)) = Some name
    ∧ decode_record_kind (xp_kind r) index flags = Ok (source, ev_event_type event)
    ∧ ev_attributes event
      = record_attributes (xp_kind r) (xp_callback_domain r) memset_value name
    ∧ (∀ cuda, ev_cuda event = Some cuda →
        cuda_kernel_name cuda
        = (if (xp_kind r =? 3) || (xp_kind r =? 4) then Some name else None)
        ∧ cuda_memcpy_kind cuda
        = (if (xp_kind r =? 5) || (xp_kind r =? 6) then Some (decode_memcpy_kind (grid_z r))
           else None))
    ∧ (∀ nvtx, ev_nvtx event = Some nvtx → nvtx_name nvtx = name).
Proof.
  destruct r as [t kind pid tid dev ctx stream corr cdom cid [[gx gy] gz] [[bx b_y] bz] rcorr nm].
  intros [Hwf Hname]. simpl in Hname. unfold record_encode, record_fields, grid_z in *.
  cbn [xp_timestamp_ns xp_kind xp_pid xp_tid xp_device_id xp_context_id xp_stream_id
    xp_correlation_id xp_callback_domain xp_callback_id xp_grid xp_block
    xp_runtime_correlation_id xp_name] in *.
  unfold decode_record, decode_nvtx_event, decode_cuda_event, decode_dim, decode_name,
    read_split_u64, read_u32, read_u64.
  match goal with |- context [encode_layout ?l] => set (layout := l) in * end.
  assert (slice (encode_layout layout ++ nm) 72 200 = Some nm) as Hslice.
  { rewrite <-(app_nil_r nm) at 1.
    apply slice_app; rewrite encode_layout_len; [done|]. by rewrite Hname. }
  rewrite Hslice.
  assert (∀ i n z a b, layout !! i = Some (n, z) → a = layout_size (take i layout) →
    b = a + Z.of_nat n → field (encode_layout layout ++ nm) a b = Some z) as Hf
    by (intros; by eapply layout_field_app).
  rewrite (Hf 1%nat _ _ 8 (8 + 4) eq_refl eq_refl eq_refl),
    (Hf 0%nat _ _ 0 (0 + 8) eq_refl eq_refl eq_refl),
    (Hf 8%nat _ _ 36 (36 + 4) eq_refl eq_refl eq_refl),
    (Hf 13%nat _ _ 56 (56 + 4) eq_refl eq_refl eq_refl),
    (Hf 12%nat _ _ 52 (52 + 4) eq_refl eq_refl eq_refl).
  clearbody layout. cbn [or_panic mbind res_bind]. intros Hok.
  destruct (decode_record_kind kind index flags) as [[source event_type]| |] eqn:Ek; [|done..].
  cbn [or_panic mbind res_bind] in Hok. destruct (t =? 0); [done|].
  destruct (from_utf8 (until_nul nm)) as [name|] eqn:En; [|done].
  cbn [ok_or or_panic mbind res_bind] in Hok.
  exists name, source, bx. split; [done|].
  res_steps; (split; [done|]); (split; [done|]); split; intros ? Hc;
    try (destruct (_ || _) in Hc); by simplify_eq.
Qed.
End records.

(** ** No matching record is dropped *)
Section kept.
Context `{SerdeJson} `{!RegexEngine} `{!RegexLiterals} `{!Os} `{!ObjectCrate} `{!NoteParser}.

Lemma cuda_endpoint report selector endpoint w e w' cuda :
  resolve_endpoint report selector endpoint w = (Ok e, w') →
  ve_cuda (ep_public e) = Some cuda →
  ∃ s, selector_parse selector = Ok s ∧ reads_cuda s cuda.
Proof.
  unfold resolve_endpoint. intros Hok Hc.
  destruct (starts_with "uprobe:" selector) eqn:Eu.
  { io_steps. destruct a0 as [event_type kind]. io_steps. done. }
  destruct (starts_with "syscall:" selector || starts_with "tracepoint:" selector) eqn:Est.
  { io_steps. destruct a as [linux kind]. io_steps. done. }
  apply orb_false_iff in Est as [Es Et].
  destruct (starts_with "python:" selector) eqn:Ep.
  { io_steps. destruct a as [[linux kind] collectable]. io_steps. done. }
  io_steps. destruct a as [[cuda' kind] collectable]. io_steps. simpl in Hc. simplify_eq.
  destruct (parse_cuda_agrees selector cuda kind collectable) as (s & Hs & _ & Hr); [done..|].
  by exists s.
Qed.

(** The pattern of an endpoint. *)
Definition cuda_pattern (cuda : ResolvedCudaSelector) : option string :=
  match rc_kernel_name_regex cuda with
  | Some pattern => Some pattern
  | None => rc_nvtx_name_regex cuda
  end.

Lemma record_kind_agrees kind index flags source event_type record_kind :
  decode_record_kind kind index flags = Ok (source, event_type) →
  cupti_record_kind event_type = Some record_kind → record_kind_u32 record_kind = kind.
Proof.
  unfold decode_record_kind. cbv zeta. intros Hk Hr.
  repeat match type of Hk with
  | (if ?b then _ else _) = _ =>
      destruct b eqn:?; [simplify_eq/=; bool_props;
        match goal with H : (kind =? _) = true |- _ => by apply Z.eqb_eq in H end|]
  end. done.
Qed.
Lemma memcpy_kind_agrees cupti_kind :
  decode_memcpy_kind cupti_kind ≠ MemcpyKind.Unknown →
  memcpy_kind_u32 (memcpy_kind_filter (Some (decode_memcpy_kind cupti_kind)))
  = semantic_memcpy_kind cupti_kind.
Proof.
  intros Hu. unfold decode_memcpy_kind, semantic_memcpy_kind in *.
  destruct (_ || _); [done|]. destruct (_ || _); [done|].
  destruct ((5 <=? cupti_kind) && _) eqn:E.
  - apply andb_true_iff in E as [E1%Z.leb_le E2%Z.leb_le].
    assert (cupti_kind = 5 ∨ cupti_kind = 6 ∨ cupti_kind = 7 ∨ cupti_kind = 8)
      as [->|[->|[->| ->]]] by lia; done.
  - apply andb_false_iff in E. rewrite !Z.leb_gt in E.
    rewrite (proj2 (Z.eqb_neq cupti_kind 5)), (proj2 (Z.eqb_neq cupti_kind 6)),
      (proj2 (Z.eqb_neq cupti_kind 7)), (proj2 (Z.eqb_neq cupti_kind 8)) by lia. simpl.
    by repeat (destruct (_ =? _); [done|]).
Qed.

Lemma selector_matches_type s event :
  selector_matches s event = true → ev_event_type event = selector_event_type s.
Proof.
  unfold selector_matches. destruct s; simpl; rewrite ?andb_true_iff, bool_decide_eq_true;
    intros; destruct_and?; done.
Qed.

(** A filter and a record it is about. *)
Lemma filter_matches_record f r text :
  filter_fits f → record_kind_u32 (cf_record_kind f) = xp_kind r →
  (cf_api_domain f = CuptiApiDomain.Any ∨ api_domain_u32 (cf_api_domain f) = xp_callback_domain r) →
  (cf_memcpy_kind f = CuptiMemcpyKind.Any
   ∨ memcpy_kind_u32 (cf_memcpy_kind f) = semantic_memcpy_kind (grid_z r)) →
  names (xp_name r) text → accepts (cf_name f) text →
  record_matches_filter r (filter_struct f) = true.
Proof.
  intros Hfit Hk Hd Hm Hn Ha. unfold record_matches_filter, grid_z in *.
  destruct (xp_grid r) as [[gx gy] gz]. unfold filter_matches_values.
  assert (xf_record_kind (filter_struct f) = record_kind_u32 (cf_record_kind f)
    ∧ xf_api_domain (filter_struct f) = api_domain_u32 (cf_api_domain f)
    ∧ xf_memcpy_kind (filter_struct f) = memcpy_kind_u32 (cf_memcpy_kind f)) as (-> & -> & ->)
    by (unfold filter_struct; by destruct (name_filter _)).
  rewrite Hk, Z.eqb_refl, <-Hk.
  assert (record_kind_u32 (cf_record_kind f) ≠ 0) by by destruct (cf_record_kind f).
  rewrite (proj2 (Z.eqb_neq _ 0)) by done. cbn [orb negb].
  assert (∀ x y, x = 0 ∨ x = y → negb (x =? 0) && negb (x =? y) = false) as Hand.
  { intros x y [->| ->]; [done|]. by rewrite Z.eqb_refl, andb_false_r. }
  rewrite Hand by (destruct Hd as [->|Hd]; [by left|by right]).
  rewrite Hand by (destruct Hm as [->|Hm]; [by left|by right]).
  by eapply name_matches_accepts.
Qed.

Lemma cupti_event_filter_inv cuda f :
  cupti_event_filter cuda = Ok f →
  cupti_record_kind (rc_event_type cuda) = Some (cf_record_kind f)
  ∧ cf_memcpy_kind f = memcpy_kind_filter (rc_memcpy_kind cuda)
  ∧ cf_name f = cuda_name_filter cuda
  ∧ match rc_api_domain cuda with
    | None => cf_api_domain f = CuptiApiDomain.Any
    | Some domain =>
        (domain = "driver_api" ∧ cf_api_domain f = CuptiApiDomain.Driver)
        ∨ (domain = "runtime_api" ∧ cf_api_domain f = CuptiApiDomain.Runtime)
    end%string.
Proof.
  unfold cupti_event_filter. destruct (cupti_record_kind _) as [kind|]; [|done].
  destruct (rc_api_domain cuda) as [domain|].
  - repeat case_bool_decide; intros Hok; simplify_eq/=; split_and!; auto.
  - intros Hok. by simplify_eq/=.
Qed.

(** What the event of a record says, for a selector that matches it. *)
Section selected.
Context (r : xprobe_cupti_record) (event : Event) (s : Selector) (cuda : ResolvedCudaSelector)
  (name : string) (memset : Z).
Context (Hreads : reads_cuda s cuda) (Hm : selector_matches s event = true).
Context (Hattr : ev_attributes event
  = record_attributes (xp_kind r) (xp_callback_domain r) memset name).
Context (Hcuda : ∀ cuda, ev_cuda event = Some cuda →
  cuda_kernel_name cuda = (if (xp_kind r =? 3) || (xp_kind r =? 4) then Some name else None)
  ∧ cuda_memcpy_kind cuda
    = (if (xp_kind r =? 5) || (xp_kind r =? 6) then Some (decode_memcpy_kind (grid_z r))
       else None)).
Context (Hnvtx : ∀ nvtx, ev_nvtx event = Some nvtx → nvtx_name nvtx = name).

Lemma reads_event_type : ev_event_type event = rc_event_type cuda.
Proof using Hreads Hm.
  rewrite (selector_matches_type _ _ Hm). clear Hm Hcuda Hnvtx Hattr.
  destruct s as [| | | | |? [] | | |]; simpl in *; naive_solver.
Qed.

Lemma attribute_name :
  (∃ value, attribute_str event "cuda_api_name" = Some value) →
  (xp_kind r = 1 ∨ xp_kind r = 2) ∧ attribute_str event "cuda_api_name" = Some name
  ∧ attribute_str event "cuda_api_domain"
    = Some (if xp_callback_domain r =? 1 then "driver_api"%string
            else if xp_callback_domain r =? 2 then "runtime_api"%string else "unknown"%string).
Proof using Hattr.
  unfold attribute_str. rewrite Hattr. unfold record_attributes.
  destruct ((xp_kind r =? 1) || _) eqn:E.
  - intros _. assert (xp_kind r = 1 ∨ xp_kind r = 2) as [Hk|Hk]
      by (apply orb_true_iff in E; rewrite !Z.eqb_eq in E; done).
    all: rewrite Hk; split; [auto|]; simpl; by rewrite !as_str_string.
  - intros [value Hv]. by destruct ((xp_kind r =? 7) || (xp_kind r =? 8)).
Qed.
Lemma selected_domain :
  (∀ domain, rc_api_domain cuda = Some domain →
     (domain = "driver_api"%string ∧ xp_callback_domain r = 1)
     ∨ (domain = "runtime_api"%string ∧ xp_callback_domain r = 2)
     ∨ (domain ≠ "driver_api"%string ∧ domain ≠ "runtime_api"%string)).
Proof using Hreads Hm Hattr.
  intros domain Hdom.
  assert (∃ event_type api_name, s = Api event_type domain api_name) as (event_type & api & Hs)
    by (clear -Hreads Hdom; destruct s as [| | | |? d n|? []| | |]; naive_solver).
  rewrite Hs in Hm. unfold selector_matches in Hm. rewrite !andb_true_iff, !bool_decide_eq_true in Hm.
  destruct Hm as [[_ Hname] Hdomain]. destruct attribute_name as (_ & _ & Hd); [by eexists|].
  rewrite Hdomain in Hd. simplify_eq.
  destruct (Z.eqb_spec (xp_callback_domain r) 1); [by left|].
  destruct (Z.eqb_spec (xp_callback_domain r) 2); [by right; left|]. by right; right.
Qed.
Lemma selected_memcpy :
  memcpy_kind_filter (rc_memcpy_kind cuda) = CuptiMemcpyKind.Any
  ∨ memcpy_kind_u32 (memcpy_kind_filter (rc_memcpy_kind cuda)) = semantic_memcpy_kind (grid_z r).
Proof using Hreads Hm Hcuda.
  destruct (rc_memcpy_kind cuda) as [kind|] eqn:Ek; [|by left].
  assert (∃ event_type, s = Memcpy event_type (Some kind)) as (event_type & Hs)
    by (clear -Hreads Ek; destruct s as [| | | | |? []| | |]; naive_solver).
  rewrite Hs in Hm. unfold selector_matches in Hm.
  rewrite andb_true_iff, !bool_decide_eq_true in Hm. destruct Hm as [_ Hkind].
  destruct (ev_cuda event) as [c|] eqn:Ec; [|done]. simpl in Hkind.
  destruct (Hcuda c eq_refl) as [_ Hc]. rewrite Hkind in Hc.
  destruct (decide (kind = MemcpyKind.Unknown)) as [->|Hu]; [by left|]. right.
  destruct ((xp_kind r =? 5) || (xp_kind r =? 6)); [|done]. injection Hc as ->.
  by apply memcpy_kind_agrees.
Qed.
Lemma selected_name :
  (∀ pattern, cuda_pattern cuda = Some pattern → word_boundaries pattern = false) →
  accepts (cuda_name_filter cuda) name.
Proof using Hreads Hm Hattr Hcuda Hnvtx H1.
  intros Hplain. unfold selector_matches in Hm.
  destruct s as [| | | |? domain' name'|? [regex|]|? kind| |? regex pattern]; simpl in Hreads;
    try done; destruct Hreads as [_ Hr].
  - subst cuda. rewrite !andb_true_iff, !bool_decide_eq_true in Hm. destruct Hm as [[_ Hname] _].
    destruct attribute_name as (_ & Hn & _); [by eexists|]. rewrite Hname in Hn. by simplify_eq.
  - destruct Hr as (pattern & Hnew & ->). apply andb_true_iff in Hm as [_ Hm'].
    destruct (ev_cuda event) as [c|] eqn:Ec; [|done]. simpl in Hm'.
    destruct (Hcuda c eq_refl) as [Hc _]. destruct (cuda_kernel_name c) as [kernel|]; [|done].
    destruct ((xp_kind r =? 3) || (xp_kind r =? 4)); simplify_eq.
    eapply bounded_filter_sound; [by apply Hplain|done..].
  - by subst cuda.
  - by subst cuda.
  - by subst cuda.
  - destruct Hr as (Hnew & _ & ->). apply andb_true_iff in Hm as [_ Hm'].
    destruct (ev_nvtx event) as [n|] eqn:En; [|done]. rewrite (Hnvtx n eq_refl) in Hm'.
    eapply bounded_filter_sound; [by apply Hplain|done..].
Qed.
End selected.

Lemma selected_record_kept s cuda f r index session_id flags event :
  reads_cuda s cuda → cupti_event_filter cuda = Ok f → filter_fits f →
  (∀ pattern, cuda_pattern cuda = Some pattern → word_boundaries pattern = false) →
  record_wf r → Forall is_byte (xp_name r) → bounded_name_length (xp_name r) < 128 →
  decode_record (record_encode r) index session_id flags = Ok event →
  selector_matches s event = true → record_matches_filter r (filter_struct f) = true.
Proof.
  intros Hreads Hf Hfit Hplain Hwf Hbytes Hterm Hd Hm.
  destruct (decode_record_encode _ _ _ _ _ Hwf Hd)
    as (name & source & memset & Hname & Hkind & Hattr & Hcuda & Hnvtx).
  destruct (cupti_event_filter_inv _ _ Hf) as (Hrk & Hmk & Hnf & Hdom).
  assert (names (xp_name r) name) as Hn.
  { unfold from_utf8 in Hname. destruct (utf8_valid _); [|done]. injection Hname as <-.
    destruct (until_nul_prefix (xp_name r)) as [rest Hrest].
    assert (Forall is_byte (until_nul (xp_name r))) as Hb
      by (rewrite Hrest in Hbytes at 1; by apply Forall_app in Hbytes as [? _]).
    assert (bytes_of_string (string_of_bytes (until_nul (xp_name r))) = until_nul (xp_name r))
      as Hbs by by apply bytes_of_string_of_bytes.
    split; rewrite Hbs; [|done]. unfold bounded_name_length in Hterm.
    destruct Hwf as [_ Hlen]. rewrite take_ge in Hterm; [done|]. unfold len in Hlen. lia. }
  eapply filter_matches_record; [done| | | |exact Hn|].
  - eapply record_kind_agrees; [exact Hkind|].
    by rewrite (reads_event_type event s cuda Hreads Hm).
  - destruct (rc_api_domain cuda) as [domain|] eqn:Ed; [|by left].
    destruct (selected_domain r event s cuda name memset Hreads Hm Hattr domain Ed)
      as [[-> ->]|[[-> ->]|[? ?]]]; right; destruct Hdom as [[? ->]|[? ->]]; done.
  - rewrite Hmk. by eapply selected_memcpy.
  - rewrite Hnf. by eapply selected_name.
Qed.

End kept.
