(* ===== verification/CuptiClient.v ===== *)
(** * Talking to the CUPTI agent

    [xprobe/collector/src/cupti.rs], [request] and its callers: one control message is written
    to the agent's socket, the sending side is closed, and the answer is read to the end and
    decoded.  Unix sockets are a parameter, class [UnixSocket]. *)
From S2P Require Import Prelude BTree RustString Text Bytes Protocol Os Cupti.
#[local] Open Scope Z_scope.

Class UnixSocket `{Os} := {
  Stream : Type;
  socket_connect : string → World → syscall_result Stream * World;
  set_read_timeout : Stream → Z → World → syscall_result unit * World;
  set_write_timeout : Stream → Z → World → syscall_result unit * World;
  socket_write_all : Stream → list Z → World → syscall_result unit * World;
  shutdown_write : Stream → World → syscall_result unit * World;
  read_to_end : Stream → World → syscall_result (list Z) * World }.

Definition snapshot_error_display (e : CuptiSnapshotError) : string :=
  match e with
  | CuptiSnapshotError.InvalidControl message => message
  | CuptiSnapshotError.Connect path source =>
      "failed to connect to " +:+ path +:+ ": " +:+ io_message source
  | CuptiSnapshotError.Configure source =>
      "failed to configure CUPTI snapshot socket: " +:+ io_message source
  | CuptiSnapshotError.Write source =>
      "failed to request CUPTI snapshot: " +:+ io_message source
  | CuptiSnapshotError.Read source => "failed to read CUPTI snapshot: " +:+ io_message source
  | CuptiSnapshotError.Decode source =>
      "failed to decode CUPTI snapshot: " +:+ cupti_decode_error_display source
  end.

Section client.
Context `{SerdeJson, Os, !UnixSocket}.

Definition read_snapshot (stream : Stream) : io CuptiSnapshotError (list Z) :=
  call (read_to_end stream) CuptiSnapshotError.Read.
Definition cupti_request (socket_path : string) (timeout : Z) (session_id : string)
    (command record_offset : Z) (config : option CuptiArmConfig) :
    io CuptiSnapshotError CuptiCapture :=
  control ← lift (encode_control command record_offset config);
  stream ← call (socket_connect socket_path) (CuptiSnapshotError.Connect socket_path);
  _ ← call (set_read_timeout stream timeout) CuptiSnapshotError.Configure;
  _ ← call (set_write_timeout stream timeout) CuptiSnapshotError.Configure;
  _ ← call (socket_write_all stream control) CuptiSnapshotError.Write;
  _ ← call (shutdown_write stream) CuptiSnapshotError.Write;
  bytes ← read_snapshot stream;
  lift (map_err CuptiSnapshotError.Decode (decode_capture bytes session_id)).
Definition cupti_arm (socket_path : string) (timeout : Z) (session_id : string)
    (config : CuptiArmConfig) : io CuptiSnapshotError CuptiCapture :=
  cupti_request socket_path timeout session_id 1 0 (Some config).
Definition cupti_snapshot (socket_path : string) (timeout : Z) (session_id : string)
    (record_offset : Z) : io CuptiSnapshotError CuptiCapture :=
  cupti_request socket_path timeout session_id 2 record_offset None.
Definition cupti_stop (socket_path : string) (timeout : Z) (session_id : string)
    (record_offset : Z) : io CuptiSnapshotError CuptiCapture :=
  cupti_request socket_path timeout session_id 3 record_offset None.
Definition cupti_close (socket_path : string) (timeout : Z) (session_id : string)
    (record_offset : Z) : io CuptiSnapshotError CuptiCapture :=
  cupti_request socket_path timeout session_id 4 record_offset None.

(** A request that succeeds wrote one whole control message, closed its side and decoded what
    the agent sent until it closed; a request whose message cannot be encoded sends nothing. *)
Theorem request_exchange (socket_path : string) (timeout : Z) (session_id : string)
    (command record_offset : Z) (config : option CuptiArmConfig) (w : World) :
  (∀ capture w', cupti_request socket_path timeout session_id command record_offset config w
                 = (Ok capture, w') →
   ∃ control stream bytes w1 w2 w3,
     encode_control command record_offset config = Ok control
     ∧ socket_write_all stream control w1 = (inr (), w2)
     ∧ shutdown_write stream w2 = (inr (), w3)
     ∧ read_to_end stream w3 = (inr bytes, w')
     ∧ decode_capture bytes session_id = Ok capture)
  ∧ (∀ e, encode_control command record_offset config = Err e →
     cupti_request socket_path timeout session_id command record_offset config w = (Err e, w)).
Proof.
  unfold cupti_request. split.
  - intros capture w' Hok. io_steps.
    repeat match goal with H : call _ _ _ = (Ok _, _) |- _ => apply call_ok in H end.
    match goal with H : read_snapshot _ _ = _ |- _ => apply call_ok in H end.
    repeat match goal with u : unit |- _ => destruct u end.
    destruct (decode_capture _ session_id) eqn:Ed; try done.
    match goal with H : map_err _ _ = _ |- _ => injection H as <- end.
    do 6 eexists. eauto.
  - intros e He. rewrite He. done.
Qed.
End client.
