(* ===== verification/Completed.v ===== *)
(** * Completed captures

    [xprobe/collector/src/completed.rs]: reading one completed capture, binary
    or JSON, and merging captures of one target into the event stream that is
    measured.  The JSON parser is a parameter. *)
From S2P Require Import Prelude BTree RustString Text Bytes Protocol Ring Uprobe Cupti.
#[local] Open Scope Z_scope.

Record CompletedCuptiStatistics := BuildCompletedCuptiStatistics {
  cs_complete : bool;
  cs_record_capacity : Z;
  cs_observed_records : Z;
  cs_dropped_records : Z }.

Section completed.
Context `{SerdeJson}.

Record CompletedCapture := BuildCompletedCapture {
  cap_dropped_records : Z;
  cap_unknown_records : Z;
  cap_record_limit_reached : option Z;
  cap_capture_failed : bool;
  cap_cupti : option CompletedCuptiStatistics;
  cap_events : list Event }.

Inductive CompletedCaptureError : Type :=
| EmptyInput
| CuptiError (error : CuptiDecodeError)
| JsonError (error : string)
| HostCaptureFollowedByAnotherDocument
| HostCaptureInsideEventStream
| CounterOverflow
| TargetMismatch (expected actual : Z).

(** ** Reading a capture *)

(** What [serde_json] reads: the documents of a text, a member of an object, and the two
    protocol types. *)
Class JsonReader := {
  json_documents : list Z → list (res string Value);
  json_get : Value → string → option Value;
  capture_from_value : Value → res string HostCaptureResult;
  event_from_value : Value → res string Event }.
Context `{!JsonReader}.

Definition is_ascii_whitespace (byte : Z) : bool :=
  (byte =? 32) || (byte =? 9) || (byte =? 10) || (byte =? 12) || (byte =? 13).

(** The loop over the documents of an event stream. *)
Fixpoint decode_events (documents : list (res string Value)) :
    res CompletedCaptureError (list Event) :=
  match documents with
  | [] => Ok []
  | document :: documents =>
      document ← map_err JsonError document;
      if bool_decide (is_Some (json_get document "events")) then Err HostCaptureInsideEventStream
      else
        event ← map_err JsonError (event_from_value document);
        events ← decode_events documents;
        Ok (event :: events)
  end.
Definition decode_json (bytes : list Z) : res CompletedCaptureError CompletedCapture :=
  match json_documents bytes with
  | [] => Err EmptyInput
  | first :: documents =>
      first ← map_err JsonError first;
      if bool_decide (is_Some (json_get first "events")) then
        _ ← match documents with
            | [] => Ok ()
            | document :: _ =>
                _ ← map_err JsonError document; Err HostCaptureFollowedByAnotherDocument
            end;
        capture ← map_err JsonError (capture_from_value first);
        Ok (BuildCompletedCapture (hc_dropped capture) 0
              (if hc_record_limit_reached capture then Some (hc_captured capture) else None)
              false None (hc_events capture))
      else
        event ← map_err JsonError (event_from_value first);
        events ← decode_events documents;
        Ok (BuildCompletedCapture 0 0 None false None (event :: events))
  end.
Definition completed_decode (bytes : list Z) (session_id : string) :
    res CompletedCaptureError CompletedCapture :=
  first ← ok_or (find_map (λ byte, if is_ascii_whitespace byte then None else Some byte) bytes) EmptyInput;
  if first =? 123 then decode_json bytes
  else
    capture ← map_err CuptiError (decode_capture bytes session_id);
    let state := cc_state capture in
    Ok (BuildCompletedCapture (cc_dropped_records capture) (cc_unknown_records capture)
          (if state == CuptiCaptureState.LimitReached then Some (cc_record_capacity capture)
           else None)
          ((state == CuptiCaptureState.Idle) || (state == CuptiCaptureState.Failed))
          (Some (BuildCompletedCuptiStatistics (state == CuptiCaptureState.Stopped)
                   (cc_record_capacity capture) (cc_observed_records capture)
                   (cc_dropped_records capture)))
          (cc_events capture)).

(** ** Merging captures *)
Definition add_counter (a b : Z) : res CompletedCaptureError Z :=
  ok_or (checked_add_u64 a b) CounterOverflow.
(** [Option::max]: nothing is below everything. *)
Definition option_max (a b : option Z) : option Z :=
  match a, b with
  | Some a, Some b => Some (Z.max a b)
  | Some a, None => Some a
  | None, b => b
  end.
Definition merge_cupti (merged cupti : option CompletedCuptiStatistics) :
    res CompletedCaptureError (option CompletedCuptiStatistics) :=
  match cupti, merged with
  | None, _ => Ok merged
  | Some cupti, None => Ok (Some cupti)
  | Some cupti, Some existing =>
      capacity ← add_counter (cs_record_capacity existing) (cs_record_capacity cupti);
      observed ← add_counter (cs_observed_records existing) (cs_observed_records cupti);
      dropped ← add_counter (cs_dropped_records existing) (cs_dropped_records cupti);
      Ok (Some (BuildCompletedCuptiStatistics (cs_complete existing && cs_complete cupti)
                  capacity observed dropped))
  end.
(** The inner loop: the target's PID is the first event's. *)
Fixpoint merge_events (target_pid : option Z) (merged events : list Event) :
    res CompletedCaptureError (option Z * list Event) :=
  match events with
  | [] => Ok (target_pid, merged)
  | event :: events =>
      match target_pid with
      | Some expected =>
          if ev_pid event =? expected then merge_events target_pid (merged ++ [event]) events
          else Err (TargetMismatch expected (ev_pid event))
      | None => merge_events (Some (ev_pid event)) (merged ++ [event]) events
      end
  end.
Fixpoint merge_loop (target_pid : option Z) (merged : CompletedCapture)
    (captures : list CompletedCapture) : res CompletedCaptureError CompletedCapture :=
  match captures with
  | [] => Ok merged
  | capture :: captures =>
      dropped ← add_counter (cap_dropped_records merged) (cap_dropped_records capture);
      unknown ← add_counter (cap_unknown_records merged) (cap_unknown_records capture);
      cupti ← merge_cupti (cap_cupti merged) (cap_cupti capture);
      '(target_pid, events) ← merge_events target_pid (cap_events merged) (cap_events capture);
      merge_loop target_pid
        (BuildCompletedCapture dropped unknown
           (option_max (cap_record_limit_reached merged) (cap_record_limit_reached capture))
           (cap_capture_failed merged || cap_capture_failed capture) cupti events) captures
  end.
(** [merge]; an index fits in 64 bits. *)
Definition merge (captures : list CompletedCapture) (session_id : string) :
    res CompletedCaptureError CompletedCapture :=
  merged ← merge_loop None (BuildCompletedCapture 0 0 None false None []) captures;
  Ok (BuildCompletedCapture (cap_dropped_records merged) (cap_unknown_records merged)
        (cap_record_limit_reached merged) (cap_capture_failed merged) (cap_cupti merged)
        (imap (λ index, event_renumber session_id (Z.of_nat index))
           (sort_by_key ev_timestamp_ns (cap_events merged)))).

(** ** What merging computes *)

(** The captures merged so far: sums of the counters, the largest limit, any failure,
    the statistics added up and the events in order. *)
Definition largest (l : list (option Z)) : option Z := foldr option_max None l.
Definition statistics_sum (l : list CompletedCuptiStatistics) : option CompletedCuptiStatistics :=
  match l with
  | [] => None
  | _ => Some (BuildCompletedCuptiStatistics (forallb cs_complete l) (sum_by cs_record_capacity l)
                 (sum_by cs_observed_records l) (sum_by cs_dropped_records l))
  end.
Definition all_events (captures : list CompletedCapture) : list Event :=
  concat (cap_events <$> captures).
Record merged_from (m : CompletedCapture) (captures : list CompletedCapture) : Prop := {
  mf_dropped : cap_dropped_records m = sum_by cap_dropped_records captures;
  mf_unknown : cap_unknown_records m = sum_by cap_unknown_records captures;
  mf_limit : cap_record_limit_reached m = largest (cap_record_limit_reached <$> captures);
  mf_failed : cap_capture_failed m = existsb cap_capture_failed captures;
  mf_cupti : cap_cupti m = statistics_sum (omap cap_cupti captures);
  mf_events : cap_events m = all_events captures }.

(** The counters that have to fit. *)
Definition statistics_fit (s : CompletedCuptiStatistics) : Prop :=
  cs_record_capacity s ≤ u64_max ∧ cs_observed_records s ≤ u64_max
  ∧ cs_dropped_records s ≤ u64_max.
Definition counters_fit (captures : list CompletedCapture) : Prop :=
  sum_by cap_dropped_records captures ≤ u64_max ∧ sum_by cap_unknown_records captures ≤ u64_max
  ∧ ∀ s, statistics_sum (omap cap_cupti captures) = Some s → statistics_fit s.
(** Counters are unsigned. *)
Definition statistics_wf (s : CompletedCuptiStatistics) : Prop :=
  in_u64 (cs_record_capacity s) ∧ in_u64 (cs_observed_records s) ∧ in_u64 (cs_dropped_records s).
Definition capture_wf (c : CompletedCapture) : Prop :=
  in_u64 (cap_dropped_records c) ∧ in_u64 (cap_unknown_records c)
  ∧ ∀ s, cap_cupti c = Some s → statistics_wf s.

Lemma largest_snoc l x : largest (l ++ [x]) = option_max (largest l) x.
Proof.
  unfold largest. induction l as [|y l IH]; simpl; [by destruct x|]. rewrite IH.
  destruct y, (foldr option_max None l), x; simpl; try done; f_equal; lia.
Qed.
Lemma forallb_snoc {A} (f : A → bool) l x : forallb f (l ++ [x]) = forallb f l && f x.
Proof. rewrite forallb_app. simpl. by rewrite andb_true_r. Qed.
Lemma existsb_snoc {A} (f : A → bool) l x : existsb f (l ++ [x]) = existsb f l || f x.
Proof. rewrite existsb_app. simpl. by rewrite orb_false_r. Qed.
Lemma add_counter_ok a b c : add_counter a b = Ok c ↔ c = a + b ∧ a + b ≤ u64_max.
Proof.
  unfold add_counter, checked_add_u64. destruct (Z.leb_spec (a + b) u64_max); simpl; split.
  - intros [= <-]. done.
  - by intros [-> _].
  - done.
  - lia.
Qed.
Lemma add_counter_cases a b :
  (add_counter a b = Ok (a + b) ∧ a + b ≤ u64_max)
  ∨ (add_counter a b = Err CounterOverflow ∧ u64_max < a + b).
Proof.
  unfold add_counter, checked_add_u64. destruct (Z.leb_spec (a + b) u64_max); simpl; auto.
Qed.

Lemma merge_cupti_sum l c :
  (∀ s, statistics_sum l = Some s → statistics_fit s) → (∀ s, c = Some s → statistics_wf s) →
  match merge_cupti (statistics_sum l) c with
  | Ok s => s = statistics_sum (l ++ option_list c) ∧ ∀ x, s = Some x → statistics_fit x
  | Err e => e = CounterOverflow
      ∧ ∃ s, statistics_sum (l ++ option_list c) = Some s ∧ ¬ statistics_fit s
  | Panic => False
  end.
Proof.
  intros Hfit Hwf. unfold statistics_fit in *.
  destruct c as [c|]; simpl; [|by rewrite app_nil_r].
  assert (statistics_sum (l ++ [c])
    = Some (BuildCompletedCuptiStatistics (forallb cs_complete l && cs_complete c)
        (sum_by cs_record_capacity l + cs_record_capacity c)
        (sum_by cs_observed_records l + cs_observed_records c)
        (sum_by cs_dropped_records l + cs_dropped_records c))) as ->.
  { rewrite <-forallb_snoc, <-!sum_by_snoc. by destruct (l ++ [c]) eqn:E; [destruct l|]. }
  destruct l as [|x l].
  - simpl. split; [f_equal; by destruct c|]. intros x [= <-].
    destruct (Hwf c eq_refl) as ([? ?] & [? ?] & [? ?]). done.
  - unfold statistics_sum, merge_cupti.
    cbn [cs_complete cs_record_capacity cs_observed_records cs_dropped_records].
    destruct (add_counter_cases (sum_by cs_record_capacity (x :: l)) (cs_record_capacity c))
      as [[-> ?]|[-> ?]]; cbn [mbind res_bind];
      [|split; [done|]; eexists; split; [done|]; simpl in *; lia].
    destruct (add_counter_cases (sum_by cs_observed_records (x :: l)) (cs_observed_records c))
      as [[-> ?]|[-> ?]]; cbn [mbind res_bind];
      [|split; [done|]; eexists; split; [done|]; simpl in *; lia].
    destruct (add_counter_cases (sum_by cs_dropped_records (x :: l)) (cs_dropped_records c))
      as [[-> ?]|[-> ?]]; cbn [mbind res_bind];
      [|split; [done|]; eexists; split; [done|]; simpl in *; lia].
    split; [done|]. by intros y [= <-].
Qed.

(** The target of events: the known one, or the first event's. *)
Definition target_of (target_pid : option Z) (events : list Event) : option Z :=
  match target_pid with Some pid => Some pid | None => ev_pid <$> head events end.
Definition one_target (target_pid : option Z) (events : list Event) : Prop :=
  Forall (λ e, target_of target_pid events = Some (ev_pid e)) events.
Definition mismatch (target_pid : option Z) (events : list Event) (e : CompletedCaptureError) :
    Prop :=
  ∃ expected event, e = TargetMismatch expected (ev_pid event)
    ∧ target_of target_pid events = Some expected ∧ event ∈ events ∧ ev_pid event ≠ expected.

Lemma merge_events_spec target_pid merged events :
  match merge_events target_pid merged events with
  | Ok (t, l) => one_target target_pid events ∧ t = target_of target_pid events
      ∧ l = merged ++ events
  | Err e => mismatch target_pid events e
  | Panic => False
  end.
Proof.
  unfold mismatch. revert target_pid merged.
  induction events as [|event events IH]; intros target_pid merged; cbn [merge_events].
  { rewrite app_nil_r. split_and!; [constructor|by destruct target_pid|done]. }
  assert (∀ expected, target_of target_pid (event :: events) = Some expected →
    ev_pid event = expected →
    match merge_events (Some expected) (merged ++ [event]) events with
    | Ok (t, l) => one_target target_pid (event :: events)
        ∧ t = target_of target_pid (event :: events) ∧ l = merged ++ event :: events
    | Err e => ∃ expected event0, e = TargetMismatch expected (ev_pid event0)
        ∧ target_of target_pid (event :: events) = Some expected
        ∧ event0 ∈ event :: events ∧ ev_pid event0 ≠ expected
    | Panic => False
    end) as Hnext.
  { intros expected Ht Hpid. specialize (IH (Some expected) (merged ++ [event])).
    destruct (merge_events _ _ _) as [[t l]|e|]; [| |done].
    - destruct IH as (Hone & -> & ->). unfold one_target. rewrite Ht, <-app_assoc. simpl in *.
      split_and!; [|done|done]. constructor; [by rewrite Hpid|exact Hone].
    - destruct IH as (x & ev & -> & [= <-] & Hin & Hne). exists expected, ev.
      split_and!; [done|done|by right|done]. }
  destruct target_pid as [expected|].
  - destruct (Z.eqb_spec (ev_pid event) expected) as [Heq|Hne]; [by apply Hnext|].
    exists expected, event. split_and!; [done|done|by left|done].
  - by apply Hnext.
Qed.

(** One capture more. *)
Lemma merge_step_merged m done c dropped unknown cupti :
  merged_from m done →
  dropped = cap_dropped_records m + cap_dropped_records c →
  unknown = cap_unknown_records m + cap_unknown_records c →
  cupti = statistics_sum (omap cap_cupti done ++ option_list (cap_cupti c)) →
  merged_from
    (BuildCompletedCapture dropped unknown
       (option_max (cap_record_limit_reached m) (cap_record_limit_reached c))
       (cap_capture_failed m || cap_capture_failed c) cupti (cap_events m ++ cap_events c))
    (done ++ [c]).
Proof.
  intros [Hd Hu Hl Hf Hc He] -> -> ->. split; simpl.
  - by rewrite sum_by_snoc, Hd.
  - by rewrite sum_by_snoc, Hu.
  - rewrite fmap_app. simpl. by rewrite largest_snoc, Hl.
  - by rewrite existsb_snoc, Hf.
  - rewrite omap_app. simpl. by destruct (cap_cupti c).
  - unfold all_events in *. rewrite fmap_app, concat_app, He. simpl. by rewrite app_nil_r.
Qed.
Lemma all_events_cons c captures : all_events (c :: captures) = cap_events c ++ all_events captures.
Proof. done. Qed.
Lemma all_events_snoc captures c : all_events (captures ++ [c]) = all_events captures ++ cap_events c.
Proof. unfold all_events. rewrite fmap_app, concat_app. simpl. by rewrite app_nil_r. Qed.
Lemma target_of_app target_pid l k :
  target_of (target_of target_pid l) k = target_of target_pid (l ++ k).
Proof. destruct target_pid, l; simpl; done. Qed.
Lemma one_target_app target_pid l k :
  one_target target_pid (l ++ k) ↔ one_target target_pid l ∧ one_target (target_of target_pid l) k.
Proof.
  unfold one_target. rewrite Forall_app, target_of_app. destruct l as [|e l].
  - simpl. rewrite !Forall_nil. tauto.
  - by destruct target_pid.
Qed.
Lemma mismatch_app target_pid l k e :
  mismatch (target_of target_pid l) k e → mismatch target_pid (l ++ k) e.
Proof.
  intros (x & ev & -> & Ht & Hin & Hne). rewrite target_of_app in Ht. exists x, ev.
  split_and!; [done|done|apply elem_of_app; by right|done].
Qed.

(** Counters only grow. *)
Lemma counters_fit_mono done rest :
  Forall capture_wf rest → counters_fit (done ++ rest) → counters_fit done.
Proof.
  intros Hwf (Hd & Hu & Hc).
  assert (∀ f : CompletedCapture → Z, (∀ c, capture_wf c → 0 ≤ f c) →
    sum_by f done ≤ sum_by f (done ++ rest)) as Hmono.
  { intros f Hf. apply sum_by_mono. eapply Forall_impl; [exact Hwf|]. apply Hf. }
  split_and!.
  - etransitivity; [apply Hmono|done]. by intros c [[? _] _].
  - etransitivity; [apply Hmono|done]. by intros c (_ & [? _] & _).
  - intros s Hs. rewrite omap_app in Hc. destruct (omap cap_cupti done) as [|x l] eqn:El; [done|].
    simpl in Hs. injection Hs as <-. simpl in Hc. destruct (Hc _ eq_refl) as (H1 & H2 & H3).
    assert (∀ f : CompletedCuptiStatistics → Z, (∀ s, statistics_wf s → 0 ≤ f s) →
      sum_by f (x :: l) ≤ sum_by f ((x :: l) ++ omap cap_cupti rest)) as Hmono'.
    { intros f Hf. apply sum_by_mono, Forall_forall. intros s (c & Hin & Hs)%list_elem_of_omap.
      rewrite Forall_forall in Hwf. destruct (Hwf c Hin) as (_ & _ & Hw). auto. }
    simpl in *. split_and!.
    + etransitivity; [apply Hmono'|exact H1]. by intros ? [[? _] _].
    + etransitivity; [apply Hmono'|exact H2]. by intros ? (_ & [? _] & _).
    + etransitivity; [apply Hmono'|exact H3]. by intros ? (_ & _ & [? _]).
Qed.

Lemma merge_loop_spec target_pid m done rest :
  merged_from m done → counters_fit done → Forall capture_wf rest →
  match merge_loop target_pid m rest with
  | Ok r => merged_from r (done ++ rest) ∧ counters_fit (done ++ rest)
      ∧ one_target target_pid (all_events rest)
  | Err e => (e = CounterOverflow ∧ ¬ counters_fit (done ++ rest))
      ∨ mismatch target_pid (all_events rest) e
  | Panic => False
  end.
Proof.
  revert target_pid m done. induction rest as [|c rest IH]; intros target_pid m done Hm Hfit Hwf.
  { simpl. rewrite app_nil_r. split_and!; [done..|constructor]. }
  apply Forall_cons in Hwf as [Hc Hwf]. cbn [merge_loop].
  replace (done ++ c :: rest) with ((done ++ [c]) ++ rest) by by rewrite <-app_assoc.
  assert (¬ counters_fit (done ++ [c]) →
    (CounterOverflow = CounterOverflow ∧ ¬ counters_fit ((done ++ [c]) ++ rest))
    ∨ mismatch target_pid (all_events (c :: rest)) CounterOverflow) as Hover.
  { intros Hno. left. split; [done|]. by intros ?%counters_fit_mono. }
  pose proof Hm as [Hd Hu _ _ Hcu He]. rewrite Hd, Hu, Hcu.
  destruct (add_counter_cases (sum_by cap_dropped_records done) (cap_dropped_records c))
    as [[-> Hfd]|[-> Hfd]]; cbn [mbind res_bind];
    [|apply Hover; intros [? _]; rewrite sum_by_snoc in *; lia].
  destruct (add_counter_cases (sum_by cap_unknown_records done) (cap_unknown_records c))
    as [[-> Hfu]|[-> Hfu]]; cbn [mbind res_bind];
    [|apply Hover; intros (_ & ? & _); rewrite sum_by_snoc in *; lia].
  pose proof (merge_cupti_sum (omap cap_cupti done) (cap_cupti c)) as Hs.
  assert (omap cap_cupti done ++ option_list (cap_cupti c) = omap cap_cupti (done ++ [c])) as Hom
    by (rewrite omap_app; simpl; by destruct (cap_cupti c)).
  destruct Hfit as (Hfd' & Hfu' & Hfs). destruct Hc as (_ & _ & Hcs).
  specialize (Hs Hfs Hcs). rewrite Hom in Hs.
  destruct (merge_cupti _ _) as [cupti|e|]; [| |done]; cbn [mbind res_bind].
  2: { destruct Hs as (-> & s & Hsum & Hno). apply Hover. intros (_ & _ & Hall). by apply Hno, Hall. }
  destruct Hs as [Hcupti Hfs'].
  assert (counters_fit (done ++ [c])) as Hfit'.
  { split; [by rewrite sum_by_snoc|]. split; [by rewrite sum_by_snoc|].
    intros s Hs. apply Hfs'. by rewrite Hcupti. }
  pose proof (merge_events_spec target_pid (cap_events m) (cap_events c)) as Hev.
  rewrite all_events_cons.
  destruct (merge_events _ _ _) as [[t events]|e|]; [| |done]; cbn [mbind res_bind].
  2: { right. destruct Hev as (x & ev & -> & Ht & Hin & Hne). exists x, ev.
       split_and!; [done| |apply elem_of_app; by left|done].
       destruct target_pid; [done|]. by destruct (cap_events c). }
  destruct Hev as (Hone & -> & ->). rewrite <-Hom in Hcupti.
  specialize (IH (target_of target_pid (cap_events c)) _ (done ++ [c])
    (merge_step_merged m done c _ _ cupti Hm (f_equal (λ x, x + _) (eq_sym Hd))
      (f_equal (λ x, x + _) (eq_sym Hu)) Hcupti) Hfit' Hwf).
  destruct (merge_loop _ _ _) as [r|e|]; [| |done].
  - destruct IH as (Hr & Hf & Ho). split; [done|]. split; [done|]. by apply one_target_app.
  - destruct IH as [?|?]; [by left|]. right. by apply mismatch_app.
Qed.

(** A merged capture is complete only when every capture in it is. *)
Definition stopped (capture : CompletedCapture) : Prop :=
  ∀ s, cap_cupti capture = Some s → cs_complete s = true.
Lemma merge_cupti_stopped a b m s :
  merge_cupti a b = Ok m → (a = Some s ∨ b = Some s) →
  (∀ x, m = Some x → cs_complete x = true) → cs_complete s = true.
Proof.
  intros Hm Hs Hc. destruct a as [x|], b as [y|];
    cbn [merge_cupti] in Hm; cycle 1.
  1-3: simplify_eq; destruct Hs; simplify_eq; by apply Hc.
  destruct (add_counter (cs_record_capacity x) _); [|done..]. cbn [mbind res_bind] in Hm.
  destruct (add_counter (cs_observed_records x) _); [|done..]. cbn [mbind res_bind] in Hm.
  destruct (add_counter _ _); [|done..]. cbn [mbind res_bind] in Hm.
  simplify_eq. specialize (Hc _ eq_refl). simpl in Hc. apply andb_true_iff in Hc as [Hx Hy].
  destruct Hs; by simplify_eq.
Qed.
Lemma merge_loop_stopped captures target_pid m r :
  merge_loop target_pid m captures = Ok r → stopped r → stopped m ∧ Forall stopped captures.
Proof.
  revert target_pid m. induction captures as [|c captures IH]; intros target_pid m Hok Hr;
    cbn [merge_loop] in Hok.
  { simplify_eq. split; [done|constructor]. }
  destruct (add_counter (cap_dropped_records m) _); [|done..]. cbn [mbind res_bind] in Hok.
  destruct (add_counter (cap_unknown_records m) _); [|done..]. cbn [mbind res_bind] in Hok.
  destruct (merge_cupti (cap_cupti m) (cap_cupti c)) as [cupti| |] eqn:Ec; [|done..].
  cbn [mbind res_bind] in Hok. destruct (merge_events _ _ _) as [[t l]| |]; [|done..].
  cbn [mbind res_bind] in Hok. destruct (IH _ _ Hok Hr) as [Hm Hcs].
  unfold stopped in Hm. simpl in Hm.
  split; [|constructor; [|done]]; intros s Hs; eapply merge_cupti_stopped; eauto.
Qed.
Lemma merge_stopped captures session_id r :
  merge captures session_id = Ok r → stopped r → Forall stopped captures.
Proof.
  unfold merge. destruct (merge_loop _ _ _) as [m| |] eqn:E; [|done..]. intros [= <-] Hr.
  by eapply merge_loop_stopped in E as [_ ?].
Qed.

(** The events of a merged capture are of one process and in time order. *)
Lemma merge_loop_target captures : ∀ t m r,
  merge_loop t m captures = Ok r → Forall (λ e, t = Some (ev_pid e)) (cap_events m) →
  ∃ t', Forall (λ e, t' = Some (ev_pid e)) (cap_events r).
Proof.
  induction captures as [|c captures IH]; intros t m r; cbn [merge_loop]; [intros [= <-]; eauto|].
  destruct (add_counter (cap_dropped_records m) _); [|done..]. cbn [mbind res_bind].
  destruct (add_counter (cap_unknown_records m) _); [|done..]. cbn [mbind res_bind].
  destruct (merge_cupti _ _); [|done..]. cbn [mbind res_bind].
  pose proof (merge_events_spec t (cap_events m) (cap_events c)) as Hev.
  destruct (merge_events _ _ _) as [[t1 l]|e|]; [|done..]. destruct Hev as (Hone & -> & ->).
  cbn [mbind res_bind]. intros Hok Hm. apply IH in Hok; [done|]. cbn [cap_events].
  apply Forall_app. split; [|done]. eapply Forall_impl; [exact Hm|]. by intros e ->.
Qed.
Lemma Forall_imap_impl {A B} (P : A → Prop) (Q : B → Prop) (l : list A) : ∀ f : nat → A → B,
  (∀ i x, P x → Q (f i x)) → Forall P l → Forall Q (imap f l).
Proof.
  induction l as [|x l IH]; intros f Hf; [constructor|]. intros [Hx Hl]%Forall_cons.
  constructor; [by apply Hf|]. apply IH; [|done]. intros i y. apply Hf.
Qed.
Lemma sorted_renumbered session_id l :
  StronglySorted (λ x y, ev_timestamp_ns x ≤ ev_timestamp_ns y) l →
  StronglySorted (λ x y, ev_timestamp_ns x ≤ ev_timestamp_ns y)
    (imap (λ i, event_renumber session_id (Z.of_nat i)) l).
Proof.
  assert (∀ f : nat → Event → Event, (∀ i e, ev_timestamp_ns (f i e) = ev_timestamp_ns e) →
    StronglySorted (λ x y, ev_timestamp_ns x ≤ ev_timestamp_ns y) l →
    StronglySorted (λ x y, ev_timestamp_ns x ≤ ev_timestamp_ns y) (imap f l)) as Hgen.
  { induction l as [|x l IH]; intros f Hf; [by constructor|]. intros [Hx Hl]%StronglySorted_cons.
    constructor; [apply IH; [intros i e; apply Hf|done]|]. eapply Forall_imap_impl; [|exact Hx].
    intros i y. cbn. by rewrite !Hf. }
  by apply Hgen.
Qed.
Lemma merge_shape captures session_id r :
  merge captures session_id = Ok r →
  (∃ t, Forall (λ e, t = Some (ev_pid e)) (cap_events r))
  ∧ StronglySorted (λ x y, ev_timestamp_ns x ≤ ev_timestamp_ns y) (cap_events r).
Proof.
  unfold merge. destruct (merge_loop _ _ _) as [m| |] eqn:E; [|done..]. intros [= <-].
  apply merge_loop_target in E as [t Ht]; [|constructor]. cbn [cap_events]. split.
  - exists t. eapply Forall_imap_impl; [|by rewrite sort_by_key_perm; exact Ht]. done.
  - apply sorted_renumbered, sort_by_key_sorted.
Qed.
(** Merging a single capture without losses only renumbers its events. *)
Lemma merge_single events session_id t :
  Forall (λ e, t = Some (ev_pid e)) events →
  StronglySorted (λ x y, ev_timestamp_ns x ≤ ev_timestamp_ns y) events →
  merge [BuildCompletedCapture 0 0 None false None events] session_id
  = Ok (BuildCompletedCapture 0 0 None false None
          (imap (λ i, event_renumber session_id (Z.of_nat i)) events)).
Proof.
  intros Ht Hs. unfold merge. cbn [merge_loop cap_dropped_records cap_unknown_records cap_cupti
    cap_events merge_cupti]. change (add_counter 0 0) with (Ok (E := CompletedCaptureError) 0).
  cbn [mbind res_bind].
  pose proof (merge_events_spec None [] events) as Hev.
  destruct (merge_events None [] events) as [[t1 l]|e|]; [|exfalso|done].
  - destruct Hev as (_ & _ & ->). cbn. do 3 f_equal. apply sort_by_id; [apply _|].
    eapply StronglySorted_impl; [|exact Hs]. intros x y Hxy. by apply Z.leb_le.
  - destruct Hev as (x & ev & -> & Hx & Hin & Hne). destruct events as [|e0 events]; [done|].
    cbn in Hx. injection Hx as <-. apply Forall_cons in Ht as [-> Ht].
    apply elem_of_cons in Hin as [->|Hin]; [done|]. eapply Forall_forall in Ht; [|exact Hin]. congruence.
Qed.

(** C20: merging captures succeeds exactly when all events are of one process and every
    counter sum fits in 64 bits; the result then has the sums of the counters, the largest
    record limit and all the events, in time order with ties in input order, renumbered
    from zero for the session. *)
Theorem merge_refines (captures : list CompletedCapture) (session_id : string)
    (Hwf : Forall capture_wf captures) :
  match merge captures session_id with
  | Ok m => counters_fit captures ∧ one_target None (all_events captures)
      ∧ cap_events m = imap (λ i, event_renumber session_id (Z.of_nat i))
                         (sort_by_key ev_timestamp_ns (all_events captures))
      ∧ cap_dropped_records m = sum_by cap_dropped_records captures
      ∧ cap_unknown_records m = sum_by cap_unknown_records captures
      ∧ cap_record_limit_reached m = largest (cap_record_limit_reached <$> captures)
      ∧ cap_capture_failed m = existsb cap_capture_failed captures
      ∧ cap_cupti m = statistics_sum (omap cap_cupti captures)
  | Err CounterOverflow => ¬ counters_fit captures
  | Err e => mismatch None (all_events captures) e
  | Panic => False
  end.
Proof.
  unfold merge. pose proof (merge_loop_spec None (BuildCompletedCapture 0 0 None false None []) []
    captures ltac:(done) ltac:(by split_and!) Hwf) as Hloop. cbn [app] in Hloop.
  destruct (merge_loop _ _ _) as [m|e|]; cbn [mbind res_bind].
  - destruct Hloop as (Hm & Hfit & Hone). destruct Hm as [Hd Hu Hl Hf Hc He].
    simpl. rewrite He. by split_and!.
  - destruct Hloop as [[-> Hno]|Hmis]; [done|]. by destruct Hmis as (x & ev & -> & Hmis); exists x, ev.
  - done.
Qed.
End completed.
