(* ===== verification/Live.v ===== *)
(** * Measuring captures

    The measuring commands of [xprobe/cli/src/main.rs]: completed captures are
    merged, refused when incomplete, and measured; a live measurement collects
    CUDA records incrementally and host captures until enough samples matched,
    the duration passed or the deadline is reached.  The clock, the collector
    threads and the agent's answers are the inputs of each turn of the loop. *)
From S2P Require Import Prelude BTree RustString Text Bytes Protocol Selector Correlate.
From S2P Require Import Lifecycle GroupPairs Exact Greedy Nearest StackNested Measure.
From S2P Require Import Os Process Inspect Resolve Ring Uprobe Usdt Syscalls Validate.
From S2P Require Import Cupti CuptiFilter Completed.
#[local] Open Scope Z_scope.

Definition match_policy_name (policy : MatchPolicy) : string :=
  match policy with
  | MatchPolicy.Exact => "exact"
  | MatchPolicy.FirstAfter => "first-after"
  | MatchPolicy.Nearest => "nearest"
  | MatchPolicy.StackNested => "stack-nested"
  | MatchPolicy.StreamOrder => "stream-order"
  end.
Definition clock_domain_name (domain : ClockDomain) : string :=
  match domain with
  | ClockDomain.HostMonotonic => "host_monotonic"
  | ClockDomain.Cupti => "cupti"
  | ClockDomain.CuptiNormalizedToHostMonotonic => "cupti_normalized_to_host_monotonic"
  end.
(** [{:?}] of a clock domain and [MeasureError]'s [Display]. *)
Definition clock_domain_debug (domain : ClockDomain) : string :=
  match domain with
  | ClockDomain.HostMonotonic => "HostMonotonic"
  | ClockDomain.Cupti => "Cupti"
  | ClockDomain.CuptiNormalizedToHostMonotonic => "CuptiNormalizedToHostMonotonic"
  end.
Definition measure_error_display (e : MeasureError) : string :=
  match e with
  | MeasureError.InvalidSelector reason => "invalid event selector: " +:+ reason
  | MeasureError.InvalidPolicy reason => "invalid correlation policy: " +:+ reason
  | MeasureError.InvalidLimit reason => "invalid measurement limit: " +:+ reason
  | MeasureError.EventLimitExceeded actual maximum =>
      "capture contains " +:+ to_decimal actual +:+ " events, exceeding the maximum of "
        +:+ to_decimal maximum
  | MeasureError.EventsDropped count =>
      "capture dropped " +:+ to_decimal count +:+ " events before correlation"
  | MeasureError.ClockDomainsDiffer start finish =>
      "cannot subtract unaligned " +:+ clock_domain_debug start +:+ " and "
        +:+ clock_domain_debug finish +:+ " timestamps"
  | MeasureError.NoMatchedSamples => "no event pairs matched the selectors"
  end.
Definition utilization (retained capacity : Z) : f64 :=
  if capacity =? 0 then f64_of_int 0 else f64_div (f64_of_int retained) (f64_of_int capacity).

Section live.
Context `{SerdeJson} `{!RegexEngine}.

Definition with_artifact_events (events : list Event) (f : CommandFailure) : CommandFailure :=
  BuildCommandFailure (fail_code f) (fail_message f) (fail_recoverable f)
    (fail_details f) (fail_hints f) (Some events).

(** ** Refusing and measuring a capture *)
Definition measurement_failure (error : MeasureError) (options : MeasureOptions)
    (events : list Event) (preserve_artifact : bool) : CommandFailure :=
  let base :=
    with_detail "match_policy" (value_string (match_policy_name (opt_match_policy options)))
      (with_detail "end_selector" (value_string (opt_end_selector options))
         (with_detail "start_selector" (value_string (opt_start_selector options))
            (failure (measure_error_code error) (measure_error_display error)
               (measure_error_recoverable error)))) in
  let base := if preserve_artifact then with_artifact_events events base else base in
  match error with
  | MeasureError.InvalidSelector _ =>
      with_hint "run xprobe validate with the exact selector text" base
  | MeasureError.InvalidPolicy _ =>
      with_hint "use policy_recommendation.compatible_policies from xprobe validate" base
  | MeasureError.InvalidLimit _ =>
      with_hint "set positive samples or duration, timeout, and max-events bounds" base
  | MeasureError.EventLimitExceeded actual maximum =>
      with_hint "narrow the selectors or explicitly increase max-events"
        (with_detail "max_events" (value_number maximum)
           (with_detail "observed_events" (value_number actual) base))
  | MeasureError.EventsDropped count =>
      with_hint "reduce the event rate or explicitly increase the capture capacity"
        (with_detail "dropped_events" (value_number count) base)
  | MeasureError.ClockDomainsDiffer start finish =>
      with_hint "use endpoints in one clock domain or a CUPTI capture normalized to host monotonic time"
        (with_detail "end_clock" (value_string (clock_domain_name finish))
           (with_detail "start_clock" (value_string (clock_domain_name start)) base))
  | MeasureError.NoMatchedSamples =>
      let host_events := len (filter (λ event, ev_source event = EventSource.Ebpf) events) in
      with_hint "inspect the events-out artifact, then adjust selectors or choose an explicitly compatible policy"
        (with_detail "cuda_events" (value_number (len events - host_events))
           (with_detail "host_events" (value_number host_events)
              (with_detail "captured_events" (value_number (len events)) base)))
  end.

Definition reject_incomplete_capture (capture : CompletedCapture)
    (live require_complete : bool) : res CommandFailure unit :=
  let prefix := if live then "live "%string else ""%string in
  if cap_capture_failed capture then
    Err (with_hint "inspect target CUDA/CUPTI compatibility and retry a fresh bounded capture"
           (with_detail "capture_state" (value_string "failed")
              (failure ErrorCode.CuptiNotAvailable
                 (prefix +:+ "CUPTI capture entered a failed state") true)))
  else
    match cap_record_limit_reached capture with
    | Some capacity =>
        let base :=
          with_hint "narrow the selectors or explicitly increase max-events"
            (with_detail "record_capacity" (value_number capacity)
               (failure ErrorCode.EventRateTooHigh
                  ("capture reached its configured limit of " +:+ to_decimal capacity
                     +:+ " records") true)) in
        Err match cap_cupti capture with
            | Some cupti =>
                with_detail "dropped_records" (value_number (cs_dropped_records cupti))
                  (with_detail "retained_records" (value_number (len (cap_events capture)))
                     (with_detail "observed_records" (value_number (cs_observed_records cupti))
                        base))
            | None => base
            end
    | None =>
        if require_complete
           && match cap_cupti capture with Some cupti => negb (cs_complete cupti) | None => false end
        then
          Err (with_hint "stop the CUPTI capture before using it as completed input"
                 (with_detail "capture_state" (value_string "active")
                    (failure ErrorCode.CuptiNotAvailable
                       (prefix +:+ "CUPTI capture was not stopped before measurement") true)))
        else Ok ()
    end.

Definition apply_collection_summary (result : MeasurementResult) (capture : CompletedCapture) :
    MeasurementResult :=
  match cap_cupti capture with
  | None => result
  | Some cupti =>
      let collection := mr_collection result in
      let retained := coll_cuda_events collection in
      BuildMeasurementResult (mr_schema_version result) (mr_ok result) (mr_session_id result)
        (mr_status result) (mr_measurement result) (mr_correlation result) (mr_clock result)
        (BuildCollectionSummary (coll_completeness collection) (coll_host_events collection)
           (coll_cuda_events collection) (coll_dropped_events collection)
           (Some (BuildCuptiCollectionSummary (cs_record_capacity cupti)
                    (cs_observed_records cupti) retained (cs_dropped_records cupti)
                    (utilization retained (cs_record_capacity cupti)))))
        (mr_evidence result) (mr_warnings result)
  end.
Definition with_status (status : SessionStatus) (result : MeasurementResult) : MeasurementResult :=
  BuildMeasurementResult (mr_schema_version result) (mr_ok result) (mr_session_id result) status
    (mr_measurement result) (mr_correlation result) (mr_clock result) (mr_collection result)
    (mr_evidence result) (mr_warnings result).

Record MeasurementExecution := BuildMeasurementExecution {
  ex_result : MeasurementResult;
  ex_events : list Event }.

Definition with_dropped (dropped : Z) (options : MeasureOptions) : MeasureOptions :=
  BuildMeasureOptions (opt_session_id options) (opt_name options) (opt_start_selector options)
    (opt_end_selector options) (opt_match_policy options) (opt_samples options)
    (opt_duration options) (opt_max_events options) dropped.

(** The part [measure_live_capture] and [measure_completed_inputs] share, from the merged
    capture on; the message of the unknown records starts with [prefix]. *)
Definition measure_capture (capture : CompletedCapture) (options : MeasureOptions)
    (live require_complete : bool) : res CommandFailure MeasurementExecution :=
  _ ← map_err (with_artifact_events (cap_events capture))
        (reject_incomplete_capture capture live require_complete);
  if negb (cap_unknown_records capture =? 0) then
    Err (with_artifact_events (cap_events capture)
           (with_hint "rebuild xprobe and the CUPTI Agent from the same release"
              (with_detail "unknown_records" (value_number (cap_unknown_records capture))
                 (failure ErrorCode.TraceExportFailed
                    ((if live then "live "%string else ""%string) +:+ "capture contains "
                       +:+ to_decimal (cap_unknown_records capture)
                       +:+ " unknown CUPTI activity records") false))))
  else
    let options := with_dropped (cap_dropped_records capture) options in
    result ← map_err (λ error, measurement_failure error options (cap_events capture)
                                 require_complete)
               (measure (cap_events capture) options);
    Ok (BuildMeasurementExecution (apply_collection_summary result capture) (cap_events capture)).

(** ** Incremental CUDA captures *)

(** The part of [LiveCollection] the captures go into. *)
Record LiveCollection := BuildLiveCollection {
  lc_socket : bool;
  lc_deadline : Z;
  lc_collection_end : option Z;
  lc_baseline_timestamp : option Z;
  lc_baseline_dropped : Z;
  lc_baseline_unknown : Z;
  lc_baseline_observed : Z;
  lc_host_captures : option (list HostCaptureResult);
  lc_latest_cuda : option CuptiCapture;
  lc_cuda_record_offset : Z }.
Definition set_cuda (collection : LiveCollection) (cuda : option CuptiCapture) (offset : Z) :
    LiveCollection :=
  BuildLiveCollection (lc_socket collection) (lc_deadline collection)
    (lc_collection_end collection) (lc_baseline_timestamp collection)
    (lc_baseline_dropped collection) (lc_baseline_unknown collection)
    (lc_baseline_observed collection) (lc_host_captures collection) cuda offset.
Definition set_hosts (collection : LiveCollection) (hosts : list HostCaptureResult) :
    LiveCollection :=
  BuildLiveCollection (lc_socket collection) (lc_deadline collection)
    (lc_collection_end collection) (lc_baseline_timestamp collection)
    (lc_baseline_dropped collection) (lc_baseline_unknown collection)
    (lc_baseline_observed collection) (Some hosts) (lc_latest_cuda collection)
    (lc_cuda_record_offset collection).

Local Abbreviation export_failed message :=
  (Err (failure ErrorCode.TraceExportFailed message false)).

Definition append_cuda_capture (collection : LiveCollection) (capture : CuptiCapture) :
    res CommandFailure LiveCollection :=
  if negb (cc_record_offset capture =? lc_cuda_record_offset collection) then
    export_failed ("CUPTI incremental capture started at record "
      +:+ to_decimal (cc_record_offset capture) +:+ ", expected "
      +:+ to_decimal (lc_cuda_record_offset collection))
  else
    next_offset ← ok_or (checked_add_u64 (cc_record_offset capture) (len (cc_events capture)))
      (failure ErrorCode.TraceExportFailed "CUPTI incremental record offset overflowed" false);
    match lc_latest_cuda collection with
    | Some accumulated =>
        if negb (cc_record_capacity accumulated =? cc_record_capacity capture) then
          export_failed ("CUPTI record capacity changed from "
            +:+ to_decimal (cc_record_capacity accumulated) +:+ " to "
            +:+ to_decimal (cc_record_capacity capture) +:+ " during capture")
        else if (cc_observed_records capture <? cc_observed_records accumulated)
                || (cc_agent_dropped_records capture <? cc_agent_dropped_records accumulated)
                || (cc_cupti_dropped_records capture <? cc_cupti_dropped_records accumulated)
                || (cc_unknown_records capture <? cc_unknown_records accumulated) then
          export_failed "CUPTI incremental counters moved backwards"
        else
          Ok (set_cuda collection
                (Some (BuildCuptiCapture (cc_nvtx_callbacks_active accumulated)
                         (cc_record_offset accumulated) (cc_state capture)
                         (cc_stop_reason capture) (cc_record_capacity accumulated)
                         (cc_observed_records capture) (cc_agent_dropped_records capture)
                         (cc_cupti_dropped_records capture) (cc_dropped_records capture)
                         (cc_unknown_records capture)
                         (cc_events accumulated ++ cc_events capture)
                         (cc_aggregate_groups accumulated))) next_offset)
    | None =>
        Ok (set_cuda collection
              (Some (BuildCuptiCapture (cc_nvtx_callbacks_active capture) 0 (cc_state capture)
                       (cc_stop_reason capture) (cc_record_capacity capture)
                       (cc_observed_records capture) (cc_agent_dropped_records capture)
                       (cc_cupti_dropped_records capture) (cc_dropped_records capture)
                       (cc_unknown_records capture) (cc_events capture)
                       (cc_aggregate_groups capture))) next_offset)
    end.

(** The captures [completed_live_capture] merges. *)
Definition host_completed (capture : HostCaptureResult) : CompletedCapture :=
  BuildCompletedCapture (hc_dropped capture) 0
    (if hc_record_limit_reached capture then Some (hc_captured capture) else None)
    false None (hc_events capture).
Definition after_baseline (collection : LiveCollection) (event : Event) : bool :=
  match lc_baseline_timestamp collection with
  | Some start => start <? ev_timestamp_ns event
  | None => true
  end.
Definition cuda_completed (collection : LiveCollection) (cuda : CuptiCapture) :
    res CommandFailure CompletedCapture :=
  dropped ← ok_or (checked_sub_u64 (cc_dropped_records cuda) (lc_baseline_dropped collection))
    (failure ErrorCode.TraceExportFailed "CUPTI dropped-record counter moved backwards" false);
  unknown ← ok_or (checked_sub_u64 (cc_unknown_records cuda) (lc_baseline_unknown collection))
    (failure ErrorCode.TraceExportFailed "CUPTI unknown-record counter moved backwards" false);
  observed ← ok_or (checked_sub_u64 (cc_observed_records cuda) (lc_baseline_observed collection))
    (failure ErrorCode.TraceExportFailed "CUPTI observed-record counter moved backwards" false);
  let state := cc_state cuda in
  Ok (BuildCompletedCapture dropped unknown
        (if state == CuptiCaptureState.LimitReached then Some (cc_record_capacity cuda) else None)
        ((state == CuptiCaptureState.Idle) || (state == CuptiCaptureState.Failed))
        (Some (BuildCompletedCuptiStatistics (state == CuptiCaptureState.Stopped)
                 (cc_record_capacity cuda) observed dropped))
        (filter (λ event, after_baseline collection event) (cc_events cuda))).
Definition completed_error_display (e : CompletedCaptureError) : string :=
  match e with
  | EmptyInput => "completed capture input is empty"
  | CuptiError error => cupti_decode_error_display error
  | JsonError error => "completed capture JSON is invalid: " +:+ error
  | HostCaptureFollowedByAnotherDocument =>
      "a host capture result must be the only JSON document in its input"
  | HostCaptureInsideEventStream =>
      "a host capture result cannot appear inside an Event JSON stream"
  | CounterOverflow => "completed capture counters exceed the supported range"
  | TargetMismatch expected actual =>
      "completed capture mixes target PIDs " +:+ to_decimal expected +:+ " and "
        +:+ to_decimal actual
  end.
Definition merge_captures (captures : list CompletedCapture) (session_id : string) :
    res CommandFailure CompletedCapture :=
  map_err (λ error, failure ErrorCode.TraceExportFailed (completed_error_display error) false)
    (merge captures session_id).
Definition completed_live_capture (hosts : list HostCaptureResult) (collection : LiveCollection)
    (session_id : string) : res CommandFailure CompletedCapture :=
  cuda ← match lc_latest_cuda collection with
         | None => Ok []
         | Some cuda => capture ← cuda_completed collection cuda; Ok [capture]
         end;
  merge_captures ((host_completed <$> hosts) ++ cuda) session_id.
Definition measure_live_capture (hosts : list HostCaptureResult) (collection : LiveCollection)
    (options : MeasureOptions) (require_complete : bool) :
    res CommandFailure MeasurementExecution :=
  capture ← completed_live_capture hosts collection (opt_session_id options);
  measure_capture capture options true require_complete.

(** ** The live loop *)

(** What one turn of the loop sees: the results of the host collectors, if their threads
    have finished; the time at which the sources are refreshed and the answer of the agent;
    the time of the evaluation; whether the target is still the same process; and what
    joining the cancelled collectors would give. *)
Record Tick := BuildTick {
  tick_finished : option (res CommandFailure (list HostCaptureResult));
  tick_refresh : Z;
  tick_snapshot : res CommandFailure CuptiCapture;
  tick_now : Z;
  tick_verify : res CommandFailure unit;
  tick_join : res CommandFailure (list HostCaptureResult) }.

Definition SNAPSHOT_QUIET_PERIOD : Z := 100000000.

(** Each operation gives the collection it leaves behind, also when it fails. *)
Definition refresh_live_sources (collection : LiveCollection) (tick : Tick) :
    LiveCollection * res CommandFailure unit :=
  match lc_host_captures collection, tick_finished tick with
  | None, Some (Err e) => (collection, Err e)
  | None, Some Panic => (collection, Panic)
  | hosts, finished =>
      let collection :=
        match hosts, finished with
        | None, Some (Ok hosts) => set_hosts collection hosts
        | _, _ => collection
        end in
      if negb (lc_socket collection) then (collection, Ok ())
      else if saturating_sub (lc_deadline collection) (tick_refresh tick)
              <=? SNAPSHOT_QUIET_PERIOD then (collection, Ok ())
      else
        match capture ← tick_snapshot tick; append_cuda_capture collection capture with
        | Ok collection => (collection, Ok ())
        | Err e => (collection, Err e)
        | Panic => (collection, Panic)
        end
  end.

Definition evaluate_live_result (collection : LiveCollection) (options : MeasureOptions)
    (tick : Tick) : res CommandFailure (option MeasurementExecution) :=
  match lc_host_captures collection with
  | None => Ok None
  | Some hosts =>
      if lc_socket collection && bool_decide (lc_latest_cuda collection = None) then Ok None
      else
        match measure_live_capture hosts collection options false with
        | Ok execution =>
            let matched :=
              samples_matched (meas_samples (mr_measurement (ex_result execution))) in
            let reached_samples :=
              match opt_samples options with Some samples => samples <=? matched | None => false end in
            let reached_duration :=
              match lc_collection_end collection with
              | Some collection_end => collection_end <=? tick_now tick
              | None => false
              end in
            if reached_samples || reached_duration then
              _ ← tick_verify tick; Ok (Some execution)
            else if lc_deadline collection <=? tick_now tick then
              Ok (Some (BuildMeasurementExecution
                          (with_status SessionStatus.TimedOut (ex_result execution))
                          (ex_events execution)))
            else Ok None
        | Err error =>
            if fail_code error == ErrorCode.NoMatchedSamples then Ok None else Err error
        | Panic => Panic
        end
  end.

Definition timeout_failure (collection : LiveCollection) (hosts : list HostCaptureResult)
    (error : CommandFailure) : CommandFailure :=
  if fail_code error == ErrorCode.NoMatchedSamples then
    let host_events := sum_by (λ capture, len (hc_events capture)) hosts in
    let cuda_events :=
      match lc_latest_cuda collection with
      | Some cuda => len (filter (λ event, after_baseline collection event) (cc_events cuda))
      | None => 0
      end in
    with_detail "cuda_events" (value_number cuda_events)
      (with_detail "host_events" (value_number host_events)
         (with_detail "timed_out" (value_bool true)
            (BuildCommandFailure (fail_code error)
               ("no event pairs matched before the live measurement timeout (host events: "
                  +:+ to_decimal host_events +:+ ", CUDA events: " +:+ to_decimal cuda_events
                  +:+ ")")
               (fail_recoverable error) (fail_details error) (fail_hints error)
               (fail_artifact_events error))))
  else error.
Definition finish_live_timeout (collection : LiveCollection) (options : MeasureOptions)
    (tick : Tick) : LiveCollection * res CommandFailure MeasurementExecution :=
  match match lc_host_captures collection with
        | Some hosts => Ok hosts
        | None => tick_join tick
        end with
  | Ok hosts =>
      let collection := set_hosts collection hosts in
      (collection,
       execution ← map_err (timeout_failure collection hosts)
                     (measure_live_capture hosts collection options true);
       Ok (BuildMeasurementExecution (with_status SessionStatus.TimedOut (ex_result execution))
             (ex_events execution)))
  | Err e => (collection, Err e)
  | Panic => (collection, Panic)
  end.

(** The loop of [collect_live_measurement]: [None] while it has not returned. *)
Fixpoint live_loop (collection : LiveCollection) (options : MeasureOptions)
    (ticks : list Tick) : option (LiveCollection * res CommandFailure MeasurementExecution) :=
  match ticks with
  | [] => None
  | tick :: ticks =>
      let '(collection, refreshed) := refresh_live_sources collection tick in
      match refreshed with
      | Err e => Some (collection, Err e)
      | Panic => Some (collection, Panic)
      | Ok _ =>
          match evaluate_live_result collection options tick with
          | Ok (Some execution) => Some (collection, Ok execution)
          | Ok None =>
              if lc_deadline collection <=? tick_now tick then
                Some (finish_live_timeout collection options tick)
              else live_loop collection options ticks
          | Err e => Some (collection, Err e)
          | Panic => Some (collection, Panic)
          end
      end
  end.

(** [stop_cupti_agent], with the agent's last answer; its errors are cleanup errors. *)
Definition stop_cupti_agent (collection : LiveCollection) (armed : bool)
    (answer : res string CuptiCapture) : LiveCollection * res CommandFailure unit :=
  if negb armed then (collection, Ok ())
  else
    match capture ← map_err (λ error,
              with_hint "verify the target state before starting another measurement"
                (with_detail "cleanup_phase" (value_string "stop_cupti")
                   (failure ErrorCode.CleanupFailed error true))) answer;
          append_cuda_capture collection capture with
    | Ok collection => (collection, Ok ())
    | Err e => (collection, Err e)
    | Panic => (collection, Panic)
    end.

(** The end of [collect_live_measurement]: stop the agent, and measure again what it sent
    last. *)
Definition finish_live_measurement (collection : LiveCollection) (armed : bool)
    (options : MeasureOptions) (outcome : res CommandFailure MeasurementExecution)
    (answer : res string CuptiCapture) : res CommandFailure MeasurementExecution :=
  let '(collection, stopped) := stop_cupti_agent collection armed answer in
  let again := measure_live_capture (default [] (lc_host_captures collection)) collection options
                 true in
  let remeasure := armed && bool_decide (is_Some (lc_host_captures collection)) in
  match outcome, stopped with
  | Ok execution, Ok _ =>
      if remeasure then
        final ← again;
        Ok (BuildMeasurementExecution
              (with_status (mr_status (ex_result execution)) (ex_result final))
              (ex_events final))
      else Ok execution
  | Err error, Ok _ =>
      if remeasure then
        match again with Ok _ => Err error | Err final => Err final | Panic => Panic end
      else Err error
  | Ok execution, Err cleanup => Err (with_artifact_events (ex_events execution) cleanup)
  | Err error, Err cleanup =>
      let base :=
        with_hint "verify the target state before starting another measurement"
          (with_detail "cleanup_error_code" (value_string (as_code_str (fail_code cleanup)))
             (with_detail "original_error_code" (value_string (as_code_str (fail_code error)))
                (with_detail "cleanup_phase" (value_string "stop_cupti")
                   (failure ErrorCode.CleanupFailed
                      (fail_message cleanup +:+ "; original measurement error: "
                         +:+ fail_message error) (fail_recoverable cleanup))))) in
      Err match fail_artifact_events error with
          | Some events => with_artifact_events events base
          | None => base
          end
  | _, _ => Panic
  end.

(** ** Nothing is lost or read twice *)

(** The accumulated events are numbered as the agent recorded them. *)
Definition cuda_inv (collection : LiveCollection) : Prop :=
  match lc_latest_cuda collection with
  | None => lc_cuda_record_offset collection = 0
  | Some cuda =>
      lc_cuda_record_offset collection = len (cc_events cuda) ∧ cc_record_offset cuda = 0
      ∧ ∀ i e, cc_events cuda !! i = Some e → ev_sequence e = Z.of_nat i
  end.
Definition cuda_events (collection : LiveCollection) : list Event :=
  match lc_latest_cuda collection with Some cuda => cc_events cuda | None => [] end.

Lemma append_cuda_inv collection capture session_id collection' :
  cuda_inv collection → events_in_order session_id (cc_record_offset capture) (cc_events capture) →
  append_cuda_capture collection capture = Ok collection' →
  cuda_inv collection' ∧ cuda_events collection' = cuda_events collection ++ cc_events capture.
Proof.
  unfold append_cuda_capture, cuda_inv, cuda_events. intros Hinv [_ Hseq] Hok.
  destruct (Z.eqb_spec (cc_record_offset capture) (lc_cuda_record_offset collection))
    as [Ho|]; [|done]. cbn [negb] in Hok.
  unfold checked_add_u64 in Hok. destruct (_ <=? _); [|done]. cbn [ok_or mbind res_bind] in Hok.
  destruct (lc_latest_cuda collection) as [acc|].
  - destruct (negb _); [done|]. destruct (_ || _); [done|]. injection Hok as <-. simpl.
    destruct Hinv as (Hoff & Hzero & Hacc). split; [|done]. rewrite len_app.
    split; [lia|]. split; [done|]. intros i e He.
    apply lookup_app_Some in He as [He|[Hi He]]; [by apply Hacc|].
    destruct (Hseq _ _ He) as (_ & -> & _). rewrite Ho, Hoff. unfold len. lia.
  - injection Hok as <-. simpl. split; [|done]. split; [lia|]. split; [done|].
    intros i e He. destruct (Hseq _ _ He) as (_ & -> & _). lia.
Qed.

(** The answers of the agent, appended in turn. *)
Fixpoint append_captures (collection : LiveCollection) (captures : list CuptiCapture) :
    res CommandFailure LiveCollection :=
  match captures with
  | [] => Ok collection
  | capture :: captures =>
      collection ← append_cuda_capture collection capture; append_captures collection captures
  end.

(** C13: the incremental captures of a live measurement fit together: starting with none,
    after any sequence of decoded answers that was accepted the collected CUDA events are
    those of all the answers in order, numbered without a gap or a repetition from zero,
    and the next request asks for the record after them. *)
Theorem incremental_captures (collection final : LiveCollection) (session_id : string)
    (answers : list (list Z)) (captures : list CuptiCapture)
    (Hstart : lc_latest_cuda collection = None) (Hoffset : lc_cuda_record_offset collection = 0)
    (Hbytes : Forall (Forall is_byte) answers)
    (Hdecoded : Forall2 (λ bytes c, decode_capture bytes session_id = Ok c) answers captures)
    (Happend : append_captures collection captures = Ok final) :
  cuda_events final = concat (cc_events <$> captures)
  ∧ lc_cuda_record_offset final = len (cuda_events final)
  ∧ ∀ i e, cuda_events final !! i = Some e → ev_sequence e = Z.of_nat i.
Proof.
  assert (Forall (λ c, events_in_order session_id (cc_record_offset c) (cc_events c)) captures)
    as Hall.
  { clear -Hbytes Hdecoded. induction Hdecoded as [|bytes c answers captures Hc _ IH];
      apply Forall_cons in Hbytes || constructor.
    destruct Hbytes as [Hb Hbytes]. constructor; [|by apply IH].
    by destruct (decode_capture_ok bytes session_id c Hb Hc) as [? _]. }
  assert (cuda_inv collection) as Hinv by (unfold cuda_inv; by rewrite Hstart).
  assert (cuda_events collection = []) as Hnone by (unfold cuda_events; by rewrite Hstart).
  assert (cuda_inv final
    ∧ cuda_events final = cuda_events collection ++ concat (cc_events <$> captures)) as [Hf He].
  { clear -Hall Hinv Happend. revert collection Hinv Happend.
    induction Hall as [|c captures Hc _ IH]; intros collection Hinv Happend; cbn in Happend.
    - simplify_eq. rewrite app_nil_r. done.
    - destruct (append_cuda_capture collection c) as [next| |] eqn:E; [|done..].
      destruct (append_cuda_inv _ _ _ _ Hinv Hc E) as [Hnext Hev].
      destruct (IH next Hnext Happend) as [Hf Hfe]. split; [done|].
      rewrite Hfe, Hev. simpl. by rewrite app_assoc. }
  rewrite Hnone in He. split; [done|]. unfold cuda_inv, cuda_events in *.
  destruct (lc_latest_cuda final) as [cuda|]; [|done]. by destruct Hf as (? & _ & ?).
Qed.

(** ** Only complete captures are measured *)
Lemma measure_not_dropped events options r :
  measure events options = Ok r → opt_dropped_events options = 0.
Proof.
  unfold measure, measure_correlate. intros Hok.
  destruct (validate_options options); [|done..]. cbn [mbind res_bind] in Hok.
  destruct (_ <? _); [done|]. destruct (Z.eqb_spec (opt_dropped_events options) 0); [done|].
  done.
Qed.
(** What is checked before the events of a capture are measured. *)
Record measurable (capture : CompletedCapture) : Prop := {
  ms_failed : cap_capture_failed capture = false;
  ms_limit : cap_record_limit_reached capture = None;
  ms_unknown : cap_unknown_records capture = 0;
  ms_dropped : cap_dropped_records capture = 0 }.

Lemma measure_capture_ok capture options live require_complete execution :
  measure_capture capture options live require_complete = Ok execution →
  measurable capture ∧ (require_complete = true → stopped capture)
  ∧ ∃ result, measure (cap_events capture) (with_dropped 0 options) = Ok result
      ∧ execution = BuildMeasurementExecution (apply_collection_summary result capture)
                      (cap_events capture).
Proof.
  unfold measure_capture, reject_incomplete_capture, stopped. intros Hok.
  destruct (cap_capture_failed capture) eqn:Ef; [done|].
  destruct (cap_record_limit_reached capture) eqn:El; [done|].
  destruct (require_complete && _) eqn:Ec; [done|]. cbn [map_err mbind res_bind] in Hok.
  destruct (Z.eqb_spec (cap_unknown_records capture) 0) as [Hu|]; [|done]. cbn [negb] in Hok.
  destruct (measure _ _) as [r| |] eqn:Em; [|done..]. cbn [map_err mbind res_bind] in Hok.
  pose proof (measure_not_dropped _ _ _ Em) as Hd. simpl in Hd. rewrite Hd in Em. simplify_eq.
  split; [done|]. split; [|by exists r].
  intros -> s Hs. rewrite Hs in Ec. simpl in Ec. by destruct (cs_complete s).
Qed.

Lemma append_cuda_keeps collection capture collection' :
  append_cuda_capture collection capture = Ok collection' →
  lc_socket collection' = lc_socket collection ∧ lc_deadline collection' = lc_deadline collection
  ∧ lc_host_captures collection' = lc_host_captures collection
  ∧ is_Some (lc_latest_cuda collection').
Proof.
  unfold append_cuda_capture. destruct (negb _); [done|].
  destruct (checked_add_u64 _ _); [|done]. cbn [ok_or mbind res_bind].
  destruct (lc_latest_cuda collection) as [acc|].
  - destruct (negb _); [done|]. destruct (_ || _); [done|]. by intros [= <-].
  - by intros [= <-].
Qed.
Lemma refresh_keeps collection tick :
  lc_socket (refresh_live_sources collection tick).1 = lc_socket collection
  ∧ lc_deadline (refresh_live_sources collection tick).1 = lc_deadline collection.
Proof.
  unfold refresh_live_sources.
  destruct (lc_host_captures collection), (tick_finished tick) as [[]|]; try done; cbn beta iota zeta;
    (destruct (negb _); [done|]); (destruct (_ <=? _); [done|]);
    (destruct (tick_snapshot tick) as [c| |]; cbn [mbind res_bind]; [|done..]);
    match goal with |- context [append_cuda_capture ?x ?y] =>
      pose proof (append_cuda_keeps x y) as Hk; destruct (append_cuda_capture x y); [|done..] end;
    destruct (Hk _ eq_refl) as (Hs & Hd & _); cbn [fst]; rewrite Hs, Hd; done.
Qed.
Lemma measure_status events options r :
  measure events options = Ok r → mr_status r = SessionStatus.Completed.
Proof.
  unfold measure. destruct (measure_correlate events options) as [[]| |]; [|done..].
  cbn [mbind res_bind]. destruct (denominator _); [|done]. cbn [or_panic mbind res_bind].
  destruct (correlation_metadata _ _). destruct (collection_event_counts events).
  destruct (statistics _); [|done]. cbn [or_panic mbind res_bind]. by intros [= <-].
Qed.

(** A capture of the collection, measured. *)
Definition measured (collection : LiveCollection) (options : MeasureOptions)
    (require_complete : bool) (execution : MeasurementExecution) : Prop :=
  ∃ hosts before status, lc_host_captures collection = Some hosts
    ∧ measure_live_capture hosts collection options require_complete = Ok before
    ∧ execution = BuildMeasurementExecution (with_status status (ex_result before))
                    (ex_events before)
    ∧ (status = SessionStatus.Completed ∨ status = SessionStatus.TimedOut).

Lemma measure_live_ok hosts collection options require_complete execution :
  measure_live_capture hosts collection options require_complete = Ok execution →
  ∃ capture result, completed_live_capture hosts collection (opt_session_id options) = Ok capture
    ∧ measurable capture ∧ (require_complete = true → stopped capture)
    ∧ measure (cap_events capture) (with_dropped 0 options) = Ok result
    ∧ execution = BuildMeasurementExecution (apply_collection_summary result capture)
                    (cap_events capture).
Proof.
  unfold measure_live_capture. destruct (completed_live_capture _ _ _) as [capture| |]; [|done..].
  intros (Hm & Hc & result & Hr & ->)%measure_capture_ok. by exists capture, result.
Qed.
Lemma measure_live_status hosts collection options require_complete execution :
  measure_live_capture hosts collection options require_complete = Ok execution →
  mr_status (ex_result execution) = SessionStatus.Completed.
Proof.
  intros (capture & result & _ & _ & _ & Hr & ->)%measure_live_ok. simpl.
  unfold apply_collection_summary. apply measure_status in Hr. by destruct (cap_cupti capture).
Qed.
Lemma with_status_same result : with_status (mr_status result) result = result.
Proof. by destruct result. Qed.

Lemma evaluate_measured collection options tick execution :
  evaluate_live_result collection options tick = Ok (Some execution) →
  measured collection options false execution.
Proof.
  unfold evaluate_live_result, measured. destruct (lc_host_captures collection) as [hosts|]; [|done].
  destruct (_ && _); [done|].
  destruct (measure_live_capture _ _ _ _) as [ex|error|] eqn:Em; [|by destruct (_ == _)|done].
  cbv zeta. destruct (match opt_samples options with _ => _ end || _).
  - destruct (tick_verify tick); [|done..]. cbn [mbind res_bind]. intros [= <-].
    exists hosts, ex, SessionStatus.Completed. split; [done|]. split; [done|].
    split; [|by left]. rewrite <-(measure_live_status _ _ _ _ _ Em), with_status_same.
    by destruct ex.
  - destruct (_ <=? _); [|done]. intros [= <-]. exists hosts, ex, SessionStatus.TimedOut. auto.
Qed.
Lemma live_loop_measured collection options ticks last execution :
  live_loop collection options ticks = Some (last, Ok execution) →
  lc_socket last = lc_socket collection
  ∧ (measured last options false execution ∨ measured last options true execution).
Proof.
  revert collection. induction ticks as [|tick ticks IH]; intros collection; [done|].
  cbn [live_loop]. destruct (refresh_keeps collection tick) as [Hs _].
  destruct (refresh_live_sources collection tick) as [next refreshed]. simpl in Hs.
  destruct refreshed as [[]| |]; [|by intros|by intros].
  destruct (evaluate_live_result next options tick) as [[ex|]| |] eqn:Ee; [|..|by intros|by intros].
  - intros [= <- <-]. split; [done|]. left. by eapply evaluate_measured.
  - destruct (_ <=? _); [|by intros [Hk ?]%IH; rewrite Hk].
    unfold finish_live_timeout.
    destruct (match lc_host_captures next with Some _ => _ | None => _ end) as [hosts| |];
      [|by intros|by intros].
    cbv zeta. intros [= <- Hex]. split; [done|]. right.
    destruct (measure_live_capture _ _ _ _) as [before| |] eqn:Em; [|done..].
    cbn [map_err mbind res_bind] in Hex. simplify_eq.
    exists hosts, before, SessionStatus.TimedOut. auto.
Qed.

(** ** The deadline ends the loop *)
Lemma live_loop_ends collection options before tick after :
  lc_deadline collection ≤ tick_now tick →
  is_Some (live_loop collection options (before ++ [tick]))
  ∧ live_loop collection options (before ++ tick :: after)
    = live_loop collection options (before ++ [tick]).
Proof.
  revert collection. induction before as [|first before IH]; intros collection Hd;
    cbn [app live_loop].
  - destruct (refresh_keeps collection tick) as [_ Hk].
    destruct (refresh_live_sources collection tick) as [next refreshed]. simpl in Hk.
    destruct refreshed; [|by eauto..].
    destruct (evaluate_live_result next options tick) as [[]| |]; [by eauto| |by eauto..].
    rewrite Hk. destruct (Z.leb_spec (lc_deadline collection) (tick_now tick)); [by eauto|lia].
  - destruct (refresh_keeps collection first) as [_ Hk].
    destruct (refresh_live_sources collection first) as [next refreshed]. simpl in Hk.
    destruct refreshed; [|by eauto..].
    destruct (evaluate_live_result next options first) as [[]| |]; [by eauto| |by eauto..].
    destruct (_ <=? _); [by eauto|]. apply IH. by rewrite Hk.
Qed.
End live.
