(* ===== verification/Session.v ===== *)
(** * Live measuring sessions

    The commands that collect from a running process, in [xprobe/cli/src/main.rs]: the
    limits of a request are checked, the target is inspected and its selectors validated,
    the CUPTI agent is armed and the host collectors are started; the loop of [Live] then
    runs, the agent is stopped and what it sent last is measured.  What the operating
    system, the injection and the agent answer are inputs. *)
From S2P Require Import Prelude BTree RustString Text Bytes Protocol Selector Correlate.
From S2P Require Import Lifecycle GroupPairs Exact Greedy Nearest StackNested Measure.
From S2P Require Import Os Process Inspect Resolve Ring Uprobe Usdt Syscalls Validate Linux.
From S2P Require Import Cupti CuptiFilter Completed Live.
#[local] Open Scope Z_scope.

(** [{:?}] of a capture state. *)
Definition capture_state_debug (state : CuptiCaptureState) : string :=
  match state with
  | CuptiCaptureState.Idle => "Idle"
  | CuptiCaptureState.Active => "Active"
  | CuptiCaptureState.LimitReached => "LimitReached"
  | CuptiCaptureState.Stopped => "Stopped"
  | CuptiCaptureState.Failed => "Failed"
  end.
(** A match policy as JSON. *)
Definition match_policy_json (policy : MatchPolicy) : string :=
  match policy with
  | MatchPolicy.Exact => "exact"
  | MatchPolicy.FirstAfter => "first_after"
  | MatchPolicy.Nearest => "nearest"
  | MatchPolicy.StackNested => "stack_nested"
  | MatchPolicy.StreamOrder => "stream_order"
  end.

(** [Instant::checked_add]: seconds are kept in 64 signed bits. *)
Definition instant_checked_add (instant duration : Z) : option Z :=
  if (instant + duration) / 1000000000 <? 2 ^ 63 then Some (instant + duration) else None.

Section session.
Context `{SerdeJson} `{!RegexEngine}.

(** ** Requests *)
Record LiveMeasureRequest := BuildLiveMeasureRequest {
  lm_pid : Z;
  lm_options : MeasureOptions;
  lm_match_policy_text : string;
  lm_timeout : Z;
  lm_mode : MeasurementMode;
  lm_cupti_socket : option string;
  lm_expected_target : option TargetIdentity }.

Definition validate_live_limits (request : LiveMeasureRequest) : res CommandFailure unit :=
  let options := lm_options request in
  if lm_timeout request =? 0 then
    Err (failure ErrorCode.SessionLimitExceeded "timeout must be greater than zero" true)
  else if (opt_samples options == Some 0)
          || match opt_duration options with Some duration => duration =? 0 | None => false end
          || (opt_max_events options =? 0)
          || ((opt_samples options == None) && (opt_duration options == None)) then
    Err (failure ErrorCode.SessionLimitExceeded
           "live measurement requires positive samples or duration and max-events limits" true)
  else if lm_mode request == MeasurementMode.Aggregate then
    if negb (opt_samples options == None) || (opt_duration options == None)
       || negb (opt_match_policy options == MatchPolicy.Exact) then
      Err (failure ErrorCode.InvalidCorrelationPolicy
             "aggregate measurement requires duration, exact activity endpoints, and no samples limit"
             true)
    else if match opt_duration options with
            | Some duration => lm_timeout request <? duration
            | None => false
            end then
      Err (failure ErrorCode.SessionLimitExceeded "aggregate duration must not exceed timeout"
             true)
    else Ok ()
  else Ok ().

Definition validate_aggregate_selection (validation : ValidationResult) :
    res CommandFailure unit :=
  match ve_cuda (vres_start validation), ve_cuda (vres_end validation) with
  | Some start, Some finish =>
      let paired :=
        match rc_event_type start, rc_event_type finish with
        | EventType.GpuKernelStart, EventType.GpuKernelEnd
        | EventType.GpuMemcpyStart, EventType.GpuMemcpyEnd
        | EventType.GpuMemsetStart, EventType.GpuMemsetEnd => true
        | _, _ => false
        end in
      if negb paired || negb (rc_api_domain start == rc_api_domain finish)
         || negb (rc_api_name start == rc_api_name finish)
         || negb (rc_kernel_name_regex start == rc_kernel_name_regex finish)
         || negb (rc_memcpy_kind start == rc_memcpy_kind finish) then
        Err (failure ErrorCode.InvalidEventSelector
               "aggregate measurement requires matching kernel, memcpy, or memset start/end selectors"
               true)
      else
        match rc_kernel_name_regex start with
        | Some pattern =>
            if negb (pattern == ".*"%string)
               && (bounded_kernel_name_filter pattern == CuptiNameFilter.Any) then
              Err (with_hint "use ^literal$, ^literal.*, .*literal$, or .*literal.*"
                     (failure ErrorCode.InvalidEventSelector
                        "aggregate kernel regex must be an exact, prefix, suffix, or contains pattern that the CUPTI Agent can apply"
                        true))
            else Ok ()
        | None => Ok ()
        end
  | _, _ =>
      Err (failure ErrorCode.InvalidEventSelector
             "aggregate measurement supports CUPTI activity endpoints only" true)
  end.

(** ** The agent *)
Record CuptiActivation := BuildCuptiActivation {
  act_socket : option string;
  act_managed : bool;
  act_injected : bool;
  act_major : option Z;
  act_agent_path : option string;
  act_cupti_path : option string }.

(** [prepare_cupti_activation]; [activate] is what selecting and injecting an agent gives. *)
Definition prepare_cupti_activation (validation : ValidationResult)
    (request : LiveMeasureRequest) (activate : res CommandFailure CuptiActivation) :
    res CommandFailure CuptiActivation :=
  if negb (vr_needs_cupti (vres_requirements validation)) then
    if bool_decide (is_Some (lm_cupti_socket request)) then
      Err (failure ErrorCode.InvalidEventSelector
             "--cupti-socket is only valid when a CUDA endpoint is selected" true)
    else Ok (BuildCuptiActivation None false false None None None)
  else
    match lm_cupti_socket request with
    | Some socket => Ok (BuildCuptiActivation (Some socket) false false None None None)
    | None => activate
    end.

(** The commands that change the state of the agent, as they are sent. *)
Inductive AgentCommand : Set := ARM | STOP | CLOSE.
Definition sent (E A : Type) : Type := (list AgentCommand * res E A)%type.

(** [cleanup_failed_arm]; [closed] is the answer to CLOSE. *)
Definition cleanup_failed_arm {A} (activation : CuptiActivation) (closed : res string CuptiCapture)
    (f : CommandFailure) : sent CommandFailure A :=
  if negb (act_managed activation) then ([], Err f)
  else
    match act_socket activation, closed with
    | Some _, Ok _ => ([CLOSE], Err f)
    | Some _, Err cleanup =>
        ([CLOSE],
         Err (with_hint "verify the target state before starting another measurement"
                (with_detail "original_error_code" (value_string (as_code_str (fail_code f)))
                   (with_detail "cleanup_phase" (value_string "close_after_arm_failure")
                      (failure ErrorCode.CleanupFailed
                         ("failed to close CUPTI agent after ARM error: " +:+ cleanup
                            +:+ "; original error: " +:+ fail_message f) true)))))
    | _, _ => ([], Panic)
    end.
(** [arm_cupti_capture]; [armed] and [closed] are the answers to ARM and CLOSE. *)
Definition arm_cupti_capture (activation : CuptiActivation) (config : option CuptiArmConfig)
    (needs_nvtx : bool) (armed closed : res string CuptiCapture) :
    sent CommandFailure (option CuptiCapture) :=
  let cleanup f :=
    let '(commands, r) := cleanup_failed_arm activation closed f in (ARM :: commands, r) in
  match act_socket activation, config with
  | Some _, Some _ =>
      match armed with
      | Err error => cleanup (failure ErrorCode.CuptiNotAvailable error true)
      | Panic => ([ARM], Panic)
      | Ok capture =>
          if needs_nvtx && negb (cc_nvtx_callbacks_active capture) then
            cleanup
              (with_hint "online CUDA injection cannot retrofit an initialized NVTX dispatch table"
                 (failure ErrorCode.CuptiNotAvailable
                    "the mapped CUPTI agent was not initialized through NVTX; restart the target with NVTX_INJECTION64_PATH set to the same agent before the first NVTX call"
                    true))
          else if negb (cc_state capture == CuptiCaptureState.Active) then
            cleanup
              (failure ErrorCode.CuptiNotAvailable
                 ("CUPTI Agent did not enter active state after ARM: "
                    +:+ capture_state_debug (cc_state capture)) true)
          else ([ARM], Ok (Some capture))
      end
  | None, None => ([], Ok None)
  | _, _ => ([], Panic)
  end.

(** ** The host collectors *)

(** The collectors that run: one per userspace probe, and one for all the kernel probes. *)
Record HostCollectors := BuildHostCollectors {
  hs_uprobes : list UprobeRequest;
  hs_linux : option LinuxCaptureRequest }.
Definition collector_count (collectors : HostCollectors) : nat :=
  (length (hs_uprobes collectors) + length (option_list (hs_linux collectors)))%nat.

(** The endpoints' probes, each once. *)
Definition add_probe (probes : list ResolvedProbe) (probe : ResolvedProbe) : list ResolvedProbe :=
  if existsb (λ existing, rp_selector existing == rp_selector probe) probes then probes
  else probes ++ [probe].
Definition add_linux_probe (probes : list ResolvedLinuxSelector) (probe : ResolvedLinuxSelector) :
    list ResolvedLinuxSelector :=
  if existsb (λ existing, existing == probe) probes then probes else probes ++ [probe].
Definition host_collectors (report : ProcessReport) (validation : ValidationResult)
    (request : LiveMeasureRequest) : HostCollectors :=
  let endpoints := [vres_start validation; vres_end validation] in
  let probes := foldl add_probe [] (omap ve_host endpoints) in
  let linux_probes := foldl add_linux_probe [] (omap ve_linux endpoints) in
  let options := lm_options request in
  let host_timeout :=
    match opt_duration options with
    | Some duration => Z.min duration (lm_timeout request)
    | None => lm_timeout request
    end in
  let host_samples := default (opt_max_events options) (opt_samples options) in
  BuildHostCollectors
    (imap (λ index probe,
       BuildUprobeRequest (pr_target report) (rp_binary_path probe) (rp_symbol probe)
         (rp_symbol_demangled probe)
         (match rp_symbol probe with Some _ => 0 | None => rp_file_offset probe end)
         (rp_probe_kind probe) (Z.of_nat index + 1) host_samples host_timeout) probes)
    (match linux_probes with
     | [] => None
     | _ => Some (BuildLinuxCaptureRequest (pr_target report) linux_probes
                    (linux_capture_event_limit options (len linux_probes))
                    (opt_samples options == None) host_timeout)
     end).

(** What waiting for a collector's readiness gives. *)
Inductive Readiness : Set := Ready | Disconnected | TimedOut.
Fixpoint wait_for_host_collectors (receivers : list Readiness)
    (join : res CommandFailure (list HostCaptureResult)) : res CommandFailure unit :=
  match receivers with
  | [] => Ok ()
  | Ready :: receivers => wait_for_host_collectors receivers join
  | Disconnected :: _ =>
      _ ← join;
      Err (failure ErrorCode.Internal "host collector exited before reporting readiness" false)
  | TimedOut :: _ =>
      _ ← join;
      Err (failure ErrorCode.SessionLimitExceeded
             "timed out waiting for host collector readiness" true)
  end.
(** [start_host_collectors]; the target is verified before and after. *)
Definition start_host_collectors (report : ProcessReport) (validation : ValidationResult)
    (request : LiveMeasureRequest) (verify_before verify_after : res CommandFailure unit)
    (ready : nat → Readiness) (join : res CommandFailure (list HostCaptureResult)) :
    res CommandFailure HostCollectors :=
  _ ← verify_before;
  let collectors := host_collectors report validation request in
  _ ← wait_for_host_collectors (ready <$> seq 0 (collector_count collectors)) join;
  match verify_after with
  | Err error => _ ← join; Err error
  | Panic => Panic
  | Ok _ => Ok collectors
  end.

(** ** Preparing a collection *)

(** What the outside answers while a collection is prepared. *)
Record Setup := BuildSetup {
  su_inspected : res CommandFailure ProcessReport;
  su_validated : ProcessReport → res CommandFailure ValidationResult;
  su_activated : res CommandFailure CuptiActivation;
  su_armed : res string CuptiCapture;
  su_closed : res string CuptiCapture;
  su_started : Z;
  su_verify_before : res CommandFailure unit;
  su_verify_after : res CommandFailure unit;
  su_ready : nat → Readiness;
  su_join : res CommandFailure (list HostCaptureResult) }.

(** The checks before the agent is touched. *)
Definition check_target (request : LiveMeasureRequest) (report : ProcessReport) :
    res CommandFailure unit :=
  match lm_expected_target request with
  | Some expected =>
      if negb (expected == pr_target report) then
        Err (failure ErrorCode.TargetReused
               "trace specification target identity no longer matches the process" true)
      else Ok ()
  | None => Ok ()
  end.
Definition check_issues (validation : ValidationResult) : res CommandFailure unit :=
  match vres_issues validation with
  | issue :: _ =>
      let recommendation := vres_policy_recommendation validation in
      Err (with_hint "rerun validate with an explicitly compatible policy"
             (with_detail "compatible_policies"
                (value_array ((λ policy, value_string (match_policy_json policy))
                                <$> rec_compatible_policies recommendation))
                (with_detail "recommended_policy"
                   (value_string (match_policy_name (rec_policy recommendation)))
                   (failure (vi_code issue) (vi_message issue) true))))
  | [] => Ok ()
  end.
Definition check_request (request : LiveMeasureRequest) (setup : Setup) :
    res CommandFailure
      (ProcessReport * ValidationResult * CuptiActivation * option CuptiArmConfig) :=
  report ← su_inspected setup;
  _ ← check_target request report;
  validation ← su_validated setup report;
  _ ← check_issues validation;
  _ ← (if lm_mode request == MeasurementMode.Aggregate then
         validate_aggregate_selection validation
       else Ok ());
  activation ← prepare_cupti_activation validation request (su_activated setup);
  config ← cupti_arm_config validation (opt_max_events (lm_options request)) (lm_mode request);
  Ok (report, validation, activation, config).

Definition start_collection (request : LiveMeasureRequest) (setup : Setup)
    (report : ProcessReport) (validation : ValidationResult) (activation : CuptiActivation)
    (baseline : option CuptiCapture) : res CommandFailure LiveCollection :=
  let options := lm_options request in
  deadline ← ok_or (instant_checked_add (su_started setup) (lm_timeout request))
    (failure ErrorCode.SessionLimitExceeded "timeout exceeds Instant range" true);
  let collection_end := opt_duration options ≫= instant_checked_add (su_started setup) in
  collectors ← start_host_collectors report validation request (su_verify_before setup)
    (su_verify_after setup) (su_ready setup) (su_join setup);
  let counter f := match baseline with Some capture => f capture | None => 0 end in
  Ok (BuildLiveCollection (bool_decide (is_Some (act_socket activation))) deadline collection_end
        (capture ← baseline; ev_timestamp_ns <$> last (cc_events capture))
        (counter cc_dropped_records) (counter cc_unknown_records) (counter cc_observed_records)
        (if (collector_count collectors =? 0)%nat then Some [] else None) None 0).

(** [prepare_live_collection], with the commands it sent to the agent. *)
Definition prepare_live_collection (request : LiveMeasureRequest) (setup : Setup) :
    sent CommandFailure (LiveCollection * CuptiActivation * bool) :=
  match check_request request setup with
  | Ok (report, validation, activation, config) =>
      let '(commands, armed) :=
        arm_cupti_capture activation config (vr_needs_nvtx (vres_requirements validation))
          (su_armed setup) (su_closed setup) in
      (commands,
       baseline ← armed;
       collection ← start_collection request setup report validation activation baseline;
       Ok (collection, activation, bool_decide (is_Some baseline)))
  | Err e => ([], Err e)
  | Panic => ([], Panic)
  end.

(** ** Sessions *)
Definition injection_warning (activation : CuptiActivation) : Warning :=
  let insert key (value : option Value) details :=
    match value with Some value => bt_insert key value details | None => details end in
  BuildWarning "CUPTI_AGENT_INJECTED"
    "xprobe injected the CUPTI agent and left the shared object mapped"
    (insert "cupti_path"%string (value_string <$> act_cupti_path activation)
       (insert "agent_path"%string (value_string <$> act_agent_path activation)
          (insert "cuda_major"%string (value_number <$> act_major activation) []))).
Definition with_warning (warning : Warning) (result : MeasurementResult) : MeasurementResult :=
  BuildMeasurementResult (mr_schema_version result) (mr_ok result) (mr_session_id result)
    (mr_status result) (mr_measurement result) (mr_correlation result) (mr_clock result)
    (mr_collection result) (mr_evidence result) (mr_warnings result ++ [warning]).
Definition warn_injected (activation : CuptiActivation) (result : MeasurementResult) :
    MeasurementResult :=
  if act_injected activation then with_warning (injection_warning activation) result else result.

(** The command that ends a capture. *)
Definition stop_command (activation : CuptiActivation) : AgentCommand :=
  if act_managed activation then CLOSE else STOP.

(** [collect_live_measurement]: [None] while the loop runs. *)
Definition collect_live_measurement (request : LiveMeasureRequest) (setup : Setup)
    (ticks : list Tick) (answer : res string CuptiCapture) :
    option (sent CommandFailure MeasurementExecution) :=
  if negb (lm_mode request == MeasurementMode.Exact) then Some ([], Panic)
  else
    match validate_live_limits request with
    | Err e => Some ([], Err e)
    | Panic => Some ([], Panic)
    | Ok _ =>
        match prepare_live_collection request setup with
        | (commands, Err e) => Some (commands, Err e)
        | (commands, Panic) => Some (commands, Panic)
        | (commands, Ok (collection, activation, armed)) =>
            '(collection, outcome) ← live_loop collection (lm_options request) ticks;
            Some (commands ++ (if armed then [stop_command activation] else []),
                  execution ← finish_live_measurement collection armed (lm_options request)
                                outcome answer;
                  Ok (BuildMeasurementExecution
                        (warn_injected activation (ex_result execution))
                        (ex_events execution)))
        end
    end.

(** ** A result comes from a complete, stopped capture *)
Lemma cuda_completed_state collection cuda capture :
  cuda_completed collection cuda = Ok capture → stopped capture →
  cc_state cuda = CuptiCaptureState.Stopped.
Proof.
  unfold cuda_completed.
  destruct (checked_sub_u64 (cc_dropped_records cuda) _); [|done]. cbn [ok_or mbind res_bind].
  destruct (checked_sub_u64 (cc_unknown_records cuda) _); [|done]. cbn [ok_or mbind res_bind].
  destruct (checked_sub_u64 _ _); [|done]. cbn [ok_or mbind res_bind].
  intros [= <-] Hs. specialize (Hs _ eq_refl). simpl in Hs. by apply bool_decide_eq_true in Hs.
Qed.
Lemma live_capture_stopped hosts collection session_id capture cuda :
  completed_live_capture hosts collection session_id = Ok capture → stopped capture →
  lc_latest_cuda collection = Some cuda → cc_state cuda = CuptiCaptureState.Stopped.
Proof.
  unfold completed_live_capture, merge_captures. intros Hok Hs Hcuda. rewrite Hcuda in Hok.
  destruct (cuda_completed collection cuda) as [c| |] eqn:Ec; [|done..].
  cbn [mbind res_bind] in Hok. destruct (merge _ _) as [m| |] eqn:Em; [|done..].
  cbn [map_err] in Hok. simplify_eq.
  apply (merge_stopped _ _ _ Em) in Hs. rewrite Forall_app, Forall_cons in Hs.
  destruct Hs as (_ & Hc & _). by eapply cuda_completed_state.
Qed.
Lemma stop_agent_ok collection armed answer final :
  stop_cupti_agent collection armed answer = (final, Ok ()) →
  lc_host_captures final = lc_host_captures collection
  ∧ if armed then is_Some (lc_latest_cuda final) else final = collection.
Proof.
  unfold stop_cupti_agent. destruct armed; cbn [negb]; [|by intros [= <-]].
  destruct answer as [c| |]; cbn [map_err mbind res_bind]; [|done..].
  destruct (append_cuda_capture collection c) as [next| |] eqn:E; [|done..].
  intros [= <-]. by apply append_cuda_keeps in E as (_ & _ & -> & ?).
Qed.

(** What a result is made from: a capture of the collection [final], complete, and stopped
    when an agent was armed. *)
Definition from_complete_capture (final : LiveCollection) (armed : bool) (options : MeasureOptions)
    (execution : MeasurementExecution) : Prop :=
  ∃ hosts capture result status,
    lc_host_captures final = Some hosts
    ∧ completed_live_capture hosts final (opt_session_id options) = Ok capture
    ∧ measurable capture
    ∧ (armed = true →
       ∃ cuda, lc_latest_cuda final = Some cuda ∧ cc_state cuda = CuptiCaptureState.Stopped)
    ∧ measure (cap_events capture) (with_dropped 0 options) = Ok result
    ∧ (status = SessionStatus.Completed ∨ status = SessionStatus.TimedOut)
    ∧ execution = BuildMeasurementExecution
                    (with_status status (apply_collection_summary result capture))
                    (cap_events capture).

Lemma measured_status collection options b execution :
  measured collection options b execution →
  mr_status (ex_result execution) = SessionStatus.Completed
  ∨ mr_status (ex_result execution) = SessionStatus.TimedOut.
Proof. intros (? & ? & status & _ & _ & -> & Hs). done. Qed.
Lemma measured_capture collection options b execution :
  measured collection options b execution →
  from_complete_capture collection false options execution.
Proof.
  intros (hosts & before & status & Hh & Hm & -> & Hs).
  apply measure_live_ok in Hm as (capture & result & Hc & Hm & _ & Hr & ->).
  exists hosts, capture, result, status. by split_and!.
Qed.
Lemma finish_measured collection armed options answer before execution b :
  measured collection options b before →
  finish_live_measurement collection armed options (Ok before) answer = Ok execution →
  ∃ final, stop_cupti_agent collection armed answer = (final, Ok ())
    ∧ from_complete_capture final armed options execution.
Proof.
  intros Hb. unfold finish_live_measurement.
  destruct (stop_cupti_agent collection armed answer) as [final r] eqn:Es.
  destruct r as [[]| |]; [|done..].
  pose proof (stop_agent_ok _ _ _ _ Es) as [Hh Hc]. intros Hok. exists final. split; [done|].
  destruct armed; cbn [andb] in Hok.
  - destruct Hb as (hosts & ? & status & Hhosts & Hm & -> & Hs). rewrite Hh, Hhosts in Hok.
    rewrite bool_decide_eq_true_2 in Hok by done. cbn [default from_option id] in Hok.
    destruct (measure_live_capture hosts final options true) as [again| |] eqn:Ea; [|done..].
    cbn [mbind res_bind] in Hok. simplify_eq.
    apply measure_live_ok in Ea as (capture & result & Hcap & Hms & Hstop & Hr & ->).
    exists hosts, capture, result, status. split; [congruence|].
    split_and!; [done..| |done|done|done]. intros _. destruct Hc as [cuda Hcuda].
    exists cuda. split; [done|]. by eapply live_capture_stopped; [exact Hcap|apply Hstop|].
  - simplify_eq. by eapply measured_capture.
Qed.

(** What happened before the loop. *)
Lemma collect_prepared request setup ticks answer commands execution :
  collect_live_measurement request setup ticks answer = Some (commands, Ok execution) →
  ∃ sent0 collection activation armed last before,
    prepare_live_collection request setup = (sent0, Ok (collection, activation, armed))
    ∧ live_loop collection (lm_options request) ticks = Some (last, Ok before)
    ∧ ∃ finished, finish_live_measurement last armed (lm_options request) (Ok before) answer
        = Ok finished
      ∧ execution = BuildMeasurementExecution (warn_injected activation (ex_result finished))
                      (ex_events finished).
Proof.
  unfold collect_live_measurement. destruct (negb _); [done|].
  destruct (validate_live_limits request) as [[]| |]; [|done..].
  destruct (prepare_live_collection request setup) as [sent0 prepared].
  destruct prepared as [[[collection activation] armed]| |]; [|done..].
  destruct (live_loop collection (lm_options request) ticks) as [[last outcome]|] eqn:El;
    [|done]. cbn [mbind option_bind]. intros [= _ Hex].
  destruct (finish_live_measurement _ _ _ outcome _) as [finished| |] eqn:Ef; [|done..].
  cbn [mbind res_bind] in Hex. simplify_eq.
  destruct outcome as [before| |]; [|exfalso..].
  - by eexists sent0, collection, activation, armed, last, before; eauto.
  - unfold finish_live_measurement in Ef. destruct (stop_cupti_agent _ _ _) as [c []]; try done.
    destruct (_ && _); [|done]. by destruct (measure_live_capture _ _ _ _).
  - unfold finish_live_measurement in Ef. by destruct (stop_cupti_agent _ _ _) as [c []].
Qed.

(** C1: a live measurement that reports a result measured a complete capture: the loop
    ended with a result, the agent, when one was armed, was stopped and says so, no record
    was dropped, unknown or cut off by a limit, and the result is what [measure] gives for
    all the host and CUDA events merged, with the status of the loop. *)
Theorem live_measurement_complete (request : LiveMeasureRequest) (setup : Setup)
    (ticks : list Tick) (answer : res string CuptiCapture) (commands : list AgentCommand)
    (execution : MeasurementExecution)
    (Hrun : collect_live_measurement request setup ticks answer = Some (commands, Ok execution)) :
  ∃ sent0 collection activation armed last before final finished,
    prepare_live_collection request setup = (sent0, Ok (collection, activation, armed))
    ∧ live_loop collection (lm_options request) ticks = Some (last, Ok before)
    ∧ stop_cupti_agent last armed answer = (final, Ok ())
    ∧ from_complete_capture final armed (lm_options request) finished
    ∧ execution = BuildMeasurementExecution (warn_injected activation (ex_result finished))
                    (ex_events finished).
Proof.
  apply collect_prepared in Hrun
    as (sent0 & collection & activation & armed & last & before & Hp & Hl & finished & Hf & ->).
  destruct (live_loop_measured _ _ _ _ _ Hl) as [_ Hm].
  assert (∃ final, stop_cupti_agent last armed answer = (final, Ok ())
    ∧ from_complete_capture final armed (lm_options request) finished) as (final & Hs & Hc)
    by (destruct Hm; by eapply finish_measured).
  by exists sent0, collection, activation, armed, last, before, final, finished.
Qed.

(** ** Sessions end *)
Lemma prepared_deadline request setup sent0 collection activation armed :
  prepare_live_collection request setup = (sent0, Ok (collection, activation, armed)) →
  lc_deadline collection = su_started setup + lm_timeout request.
Proof.
  unfold prepare_live_collection.
  destruct (check_request request setup) as [[[[report validation] act] config]| |]; [|done..].
  destruct (arm_cupti_capture _ _ _ _ _) as [commands r].
  destruct r as [baseline| |]; cbn [mbind res_bind]; [|done..].
  unfold start_collection, instant_checked_add. destruct (_ <? _); [|done].
  cbn [ok_or mbind res_bind]. destruct (start_host_collectors _ _ _ _ _ _ _); [|done..].
  cbn [mbind res_bind]. by intros [= _ <- _ _].
Qed.

(** C24: a live measurement does not outlive its timeout: the first turn of the loop whose
    clock has reached the start plus the timeout returns, whatever the collectors and the
    agent answered, and nothing after it is looked at. *)
Theorem live_measurement_ends (request : LiveMeasureRequest) (setup : Setup)
    (before after : list Tick) (tick : Tick) (answer : res string CuptiCapture)
    (Hdeadline : su_started setup + lm_timeout request ≤ tick_now tick) :
  is_Some (collect_live_measurement request setup (before ++ [tick]) answer)
  ∧ collect_live_measurement request setup (before ++ tick :: after) answer
    = collect_live_measurement request setup (before ++ [tick]) answer.
Proof.
  unfold collect_live_measurement. destruct (negb _); [by eauto|].
  destruct (validate_live_limits request) as [[]| |]; [|by eauto..].
  destruct (prepare_live_collection request setup) as [sent0 prepared] eqn:Ep.
  destruct prepared as [[[collection activation] armed]| |]; [|by eauto..].
  apply prepared_deadline in Ep.
  destruct (live_loop_ends collection (lm_options request) before tick after ltac:(lia))
    as [[[last outcome] Hs] ->].
  rewrite Hs. cbn [mbind option_bind]. by eauto.
Qed.

(** ** The agent is released *)
Lemma arm_commands activation config needs_nvtx armed closed baseline commands :
  arm_cupti_capture activation config needs_nvtx armed closed = (commands, Ok baseline) →
  commands = if bool_decide (is_Some baseline) then [ARM] else [].
Proof.
  unfold arm_cupti_capture, cleanup_failed_arm.
  destruct (act_socket activation), config; [|done..|by intros [= <- <-]].
  destruct armed as [capture| |]; [|destruct (negb _); [done|by destruct closed]|done].
  destruct (_ && _); [destruct (negb _); [done|by destruct closed]|].
  destruct (negb (_ == _)); [destruct (negb _); [done|by destruct closed]|].
  by intros [= <- <-].
Qed.
Lemma prepared_commands request setup sent0 collection activation armed :
  prepare_live_collection request setup = (sent0, Ok (collection, activation, armed)) →
  sent0 = if armed then [ARM] else [].
Proof.
  unfold prepare_live_collection.
  destruct (check_request request setup) as [[[[report validation] act] config]| |]; [|done..].
  destruct (arm_cupti_capture _ _ _ _ _) as [commands r] eqn:Ea.
  destruct r as [baseline| |]; cbn [mbind res_bind]; [|done..].
  destruct (start_collection _ _ _ _ _ _); [|done..]. cbn [mbind res_bind].
  intros [= <- _ _ <-]. by eapply arm_commands.
Qed.


(** When the host collectors do not start, the agent that was armed for the same
    measurement is left armed: the command fails after ARM and sends neither STOP nor
    CLOSE. *)
Theorem failed_start_leaves_agent_armed (request : LiveMeasureRequest) (setup : Setup)
    (ticks : list Tick) (answer : res string CuptiCapture)
    (report : ProcessReport) (validation : ValidationResult) (activation : CuptiActivation)
    (config : option CuptiArmConfig) (baseline : CuptiCapture) (sent0 : list AgentCommand)
    (e : CommandFailure)
    (Hmode : lm_mode request = MeasurementMode.Exact)
    (Hlimits : validate_live_limits request = Ok ())
    (Hchecked : check_request request setup = Ok (report, validation, activation, config))
    (Harmed : arm_cupti_capture activation config (vr_needs_nvtx (vres_requirements validation))
                (su_armed setup) (su_closed setup) = (sent0, Ok (Some baseline)))
    (Hrange : is_Some (instant_checked_add (su_started setup) (lm_timeout request)))
    (Hstart : start_host_collectors report validation request (su_verify_before setup)
                (su_verify_after setup) (su_ready setup) (su_join setup) = Err e) :
  collect_live_measurement request setup ticks answer = Some ([ARM], Err e).
Proof.
  unfold collect_live_measurement, prepare_live_collection, start_collection.
  rewrite Hmode, Hlimits, Hchecked, Harmed, Hstart. destruct Hrange as [deadline ->]. simpl.
  by apply arm_commands in Harmed as ->.
Qed.

(** ** Timing out with a capture that is still active *)
Lemma active_rejected capture live :
  measurable capture → ¬ stopped capture →
  ∃ e, reject_incomplete_capture capture live true = Err e
    ∧ fail_code e = ErrorCode.CuptiNotAvailable.
Proof.
  intros [Hf Hl _ _] Hs. unfold reject_incomplete_capture, stopped in *. rewrite Hf, Hl.
  destruct (cap_cupti capture) as [s|]; [|by destruct Hs].
  destruct (cs_complete s) eqn:Ec; [destruct Hs; by intros ? [= <-]|]. simpl. by eexists.
Qed.

(** A CUDA measurement whose deadline passes before a pair matched fails even when the
    records the agent sends as it stops do match: the timeout is judged on a capture that
    is still active, which is refused as not stopped, and that error is kept although the
    final capture can be measured. *)
Theorem timed_out_active_capture_fails (collection final : LiveCollection)
    (options : MeasureOptions) (tick : Tick) (answer : res string CuptiCapture)
    (hosts : list HostCaptureResult) (cuda : CuptiCapture) (capture : CompletedCapture)
    (execution : MeasurementExecution)
    (Hhosts : lc_host_captures collection = Some hosts)
    (Hcuda : lc_latest_cuda collection = Some cuda)
    (Hactive : cc_state cuda = CuptiCaptureState.Active)
    (Hcapture : completed_live_capture hosts (set_hosts collection hosts)
                  (opt_session_id options) = Ok capture)
    (Hmeasurable : measurable capture)
    (Hstop : stop_cupti_agent (set_hosts collection hosts) true answer = (final, Ok ()))
    (Hfinal : measure_live_capture hosts final options true = Ok execution) :
  ∃ e, finish_live_measurement (finish_live_timeout collection options tick).1 true options
         (finish_live_timeout collection options tick).2 answer = Err e
    ∧ fail_code e = ErrorCode.CuptiNotAvailable.
Proof.
  assert (¬ stopped capture) as Hns.
  { intros Hs. pose proof (live_capture_stopped hosts (set_hosts collection hosts) _ _ cuda
      Hcapture Hs Hcuda). congruence. }
  destruct (active_rejected capture true Hmeasurable Hns) as (e & He & Hcode).
  unfold finish_live_timeout. rewrite Hhosts. cbn [fst snd].
  unfold measure_live_capture at 1. rewrite Hcapture. cbn [mbind res_bind].
  unfold measure_capture. rewrite He. cbn [map_err mbind res_bind].
  unfold finish_live_measurement. rewrite Hstop.
  pose proof (stop_agent_ok _ _ _ _ Hstop) as [Hh _]. simpl in Hh. rewrite Hh. simpl.
  rewrite Hfinal. eexists. split; [done|]. unfold timeout_failure. simpl.
  by rewrite Hcode.
Qed.
End session.
