(* ===== verification/Export.v ===== *)
(** * Exporting events

    [xprobe/exporter/src/lib.rs], and of [xprobe/cli/src/main.rs] the commands that write an
    artifact: reading completed inputs, replacing a file atomically, [export].  Writing JSON
    and the file system are parameters.  Paths are valid UTF-8, so that displaying one gives
    its text. *)
From S2P Require Import Prelude BTree RustString Text Protocol Os Completed CuptiFilter Live.
#[local] Open Scope Z_scope.

(** ** Texts *)
Definition event_category (source : EventSource) : string :=
  match source with
  | EventSource.Ebpf => "host"
  | EventSource.CuptiCallback => "cuda.api"
  | EventSource.CuptiActivity => "cuda.activity"
  | EventSource.Marker => "marker"
  end.
Definition event_type_name (event_type : EventType) : string :=
  match event_type with
  | EventType.HostFunctionEntry => "host_function_entry"
  | EventType.HostFunctionExit => "host_function_exit"
  | EventType.KernelFunctionEntry => "kernel_function_entry"
  | EventType.KernelFunctionExit => "kernel_function_exit"
  | EventType.Tracepoint => "tracepoint"
  | EventType.SyscallEntry => "syscall_entry"
  | EventType.SyscallExit => "syscall_exit"
  | EventType.CudaApiEntry => "cuda_api_entry"
  | EventType.CudaApiExit => "cuda_api_exit"
  | EventType.GpuKernelStart => "gpu_kernel_start"
  | EventType.GpuKernelEnd => "gpu_kernel_end"
  | EventType.GpuMemcpyStart => "gpu_memcpy_start"
  | EventType.GpuMemcpyEnd => "gpu_memcpy_end"
  | EventType.GpuMemsetStart => "gpu_memset_start"
  | EventType.GpuMemsetEnd => "gpu_memset_end"
  | EventType.NvtxRangeStart => "nvtx_range_start"
  | EventType.NvtxRangeEnd => "nvtx_range_end"
  | EventType.PythonGcStart => "python_gc_start"
  | EventType.PythonGcEnd => "python_gc_end"
  | EventType.Marker => "marker"
  end.

Section exporter.
Context `{SerdeJson}.

(** What [serde_json] writes: the compact text of an event, objects, the values of two
    protocol types and a document. *)
Class JsonWriter := {
  event_to_string : Event → res string string;
  value_null : Value;
  value_object : list (string * Value) → Value;
  clock_domain_value : ClockDomain → Value;
  nvtx_value : NvtxEvent → Value;
  to_string_pretty : Value → res string string }.
Context `{!JsonWriter}.

Fixpoint events_to_jsonl (events : list Event) : res string string :=
  match events with
  | [] => Ok EmptyString
  | event :: events =>
      text ← event_to_string event;
      output ← events_to_jsonl events;
      Ok (text +:+ String newline output)
  end.

Definition event_name (event : Event) : string :=
  match host ← ev_host event; host_symbol host with
  | Some symbol => symbol
  | None =>
      match attribute_str event "cuda_api_name" with
      | Some name => name
      | None =>
          match cuda ← ev_cuda event; cuda_kernel_name cuda with
          | Some name => name
          | None =>
              match ev_nvtx event with
              | Some nvtx => nvtx_name nvtx
              | None => event_type_name (ev_event_type event)
              end
          end
      end
  end.
Definition number_or_null (z : option Z) : Value :=
  match z with Some z => value_number z | None => value_null end.
Definition chrome_event (event : Event) : Value :=
  let cuda_field f := cuda ← ev_cuda event; f cuda in
  value_object
    [("name", value_string (event_name event));
     ("cat", value_string (event_category (ev_source event)));
     ("ph", value_string "i");
     ("s", value_string "t");
     ("ts", value_number (ev_timestamp_ns event / 1000));
     ("pid", value_number (ev_pid event));
     ("tid", value_number (default (ev_tid event) (cuda_field cuda_stream_id)));
     ("args", value_object
        [("event_id", value_string (ev_event_id event));
         ("event_type", value_string (event_type_name (ev_event_type event)));
         ("timestamp_ns", value_number (ev_timestamp_ns event));
         ("timestamp_raw", value_number (ev_timestamp_raw event));
         ("clock_domain", clock_domain_value (ev_clock_domain event));
         ("correlation_id", number_or_null (cuda_field cuda_correlation_id));
         ("context_id", number_or_null (cuda_field cuda_context_id));
         ("stream_id", number_or_null (cuda_field cuda_stream_id));
         ("nvtx", match ev_nvtx event with Some nvtx => nvtx_value nvtx | None => value_null end);
         ("attributes", value_object (ev_attributes event))])]%string.
Definition events_to_chrome_trace (events : list Event) : res string string :=
  to_string_pretty (value_object
    [("displayTimeUnit", value_string "ns");
     ("traceEvents", value_array (chrome_event <$> events))]%string).
End exporter.

(** ** Paths *)

(** [Path::parent]: the text before the last component, without separators and [.]
    components at its end, unless they are its root or its leading [.]. *)
Fixpoint trim_pieces (pieces : list string) : list string :=
  match pieces with
  | [] => []
  | piece :: pieces =>
      match trim_pieces pieces, path_component piece with
      | [], None => []
      | trimmed, _ => piece :: trimmed
      end
  end.
Definition parent (s : string) : option string :=
  let pieces := split "/" s in
  match last (components s) with
  | None | Some (0, _) => None
  | Some (1, _) => Some EmptyString
  | Some _ =>
      match trim_pieces (take (Nat.pred (length (trim_pieces pieces))) pieces) with
      | [] =>
          Some (if starts_with "/" s then "/"%string
                else if bool_decide (head pieces = Some "."%string) then "."%string
                else EmptyString)
      | pieces => Some (join "/" pieces)
      end
  end.
(** [Path::join]. *)
Definition path_join (base name : string) : string :=
  if starts_with "/" name then name
  else if is_empty base || ends_with "/" base then base +:+ name
  else base +:+ "/" +:+ name.

(** ** Files

    The calls that write, as worlds over [Os]; a file is created, written and synchronized
    through the handle of the path it was created at. *)
Class Files `{Os} := {
  create_new : string → World → syscall_result unit * World;
  write_all : string → list Z → World → syscall_result unit * World;
  sync_all : string → World → syscall_result unit * World;
  rename : string → string → World → syscall_result unit * World;
  remove_file : string → World → syscall_result unit * World;
  sync_directory : string → World → syscall_result unit * World }.

Section files.
Context `{Files}.

(** A computation that keeps every world it goes through: what is there if the program or
    the machine stops between two calls. *)
Definition traced (E A : Type) : Type := World → res E A * World * list World.
#[global] Instance traced_ret {E} : MRet (traced E) := λ A a w, (Ok a, w, []).
#[global] Instance traced_bind {E} : MBind (traced E) := λ A B f m w,
  match m w with
  | (Ok a, w, before) => let '(r, w, after) := f a w in (r, w, before ++ after)
  | (Err e, w, before) => (Err e, w, before)
  | (Panic, w, before) => (Panic, w, before)
  end.
Definition traced_fail {E A} (e : E) : traced E A := λ w, (Err e, w, []).
Definition traced_call {E A} (f : World → syscall_result A * World) :
    traced E (syscall_result A) := λ w, let '(r, w) := f w in (Ok r, w, [w]).
(** The result and the last world only. *)
Definition untraced {E A} (m : traced E A) : io E A := λ w, (m w).1.

Definition remove_temporary_artifact {E} (path original : string) : traced E string :=
  removed ← traced_call (remove_file path);
  match removed with
  | inr _ => mret original
  | inl cleanup =>
      mret (original +:+ "; failed to remove temporary artifact " +:+ path +:+ ": "
              +:+ io_message cleanup)
  end.

(** The name of the temporary file: [own_pid] is the process's, [sequence] the artifacts it
    has written before. *)
Definition artifact_parent (path : string) : string :=
  match parent path with
  | Some parent => if is_empty parent then "."%string else parent
  | None => "."%string
  end.
Definition temporary_name (own_pid sequence : Z) (file_name : string) : string :=
  "." +:+ file_name +:+ ".xprobe-" +:+ to_decimal own_pid +:+ "-" +:+ to_decimal sequence +:+ ".tmp".
(** The part after the temporary file is written. *)
Definition replace_artifact (temporary path parent : string) : traced string unit :=
  renamed ← traced_call (rename temporary path);
  match renamed with
  | inl error =>
      message ← remove_temporary_artifact temporary
        ("failed to atomically replace " +:+ path +:+ " with " +:+ temporary +:+ ": "
           +:+ io_message error);
      traced_fail message
  | inr _ =>
      synced ← traced_call (sync_directory parent);
      match synced with
      | inl error =>
          traced_fail ("failed to sync artifact directory " +:+ parent +:+ ": "
                         +:+ io_message error)
      | inr _ => mret ()
      end
  end.
Definition write_export_file (own_pid sequence : Z) (path : string) (bytes : list Z) :
    traced string unit :=
  let parent := artifact_parent path in
  match file_name path with
  | None => traced_fail ("artifact path " +:+ path +:+ " has no file name")
  | Some file_name =>
      let temporary := path_join parent (temporary_name own_pid sequence file_name) in
      created ← traced_call (create_new temporary);
      match created with
      | inl error => traced_fail ("failed to create " +:+ temporary +:+ ": " +:+ io_message error)
      | inr _ =>
          written ← traced_call (write_all temporary bytes);
          written ← match written with
                    | inl error => mret (inl error)
                    | inr _ => traced_call (sync_all temporary)
                    end;
          match written with
          | inl error =>
              message ← remove_temporary_artifact temporary
                ("failed to write " +:+ temporary +:+ ": " +:+ io_message error);
              traced_fail message
          | inr _ =>
              replace_artifact temporary path parent
          end
      end
  end.
End files.

(** ** The commands *)
Module ExportFormat.
Inductive ExportFormat : Set := Jsonl | Chrome.
#[global] Instance ExportFormat_eq_dec : EqDecision ExportFormat.
Proof. solve_decision. Defined.
End ExportFormat.
Abbreviation ExportFormat := ExportFormat.ExportFormat.
Definition export_format_name (format : ExportFormat) : string :=
  match format with ExportFormat.Jsonl => "jsonl" | ExportFormat.Chrome => "chrome" end.
Record TraceExportResult := BuildTraceExportResult {
  te_schema_version : SchemaVersion;
  te_ok : bool;
  te_format : ExportFormat;
  te_output : string;
  te_event_count : Z }.

Section commands.
Context `{SerdeJson} `{Files} `{!JsonReader} `{!JsonWriter}.

(** The loop of [load_completed_inputs]. *)
Fixpoint read_inputs (input : list string) (session_id : string) :
    io CommandFailure (list CompletedCapture) :=
  match input with
  | [] => mret []
  | path :: input =>
      bytes ← call (fs_read path) (λ error, failure ErrorCode.TraceExportFailed
        ("failed to read " +:+ path +:+ ": " +:+ io_message error) false);
      capture ← lift (map_err (λ error, failure ErrorCode.TraceExportFailed
        ("failed to decode " +:+ path +:+ ": " +:+ completed_error_display error) false)
        (completed_decode bytes session_id));
      captures ← read_inputs input session_id;
      mret (capture :: captures)
  end.
Definition load_completed_inputs (input : list string) (session_id : string) :
    io CommandFailure CompletedCapture :=
  captures ← read_inputs input session_id;
  capture ← lift (merge_captures captures session_id);
  lift (if negb (cap_unknown_records capture =? 0) then
          Err (with_hint "rebuild xprobe and the CUPTI Agent from the same release"
                 (with_detail "unknown_records" (value_number (cap_unknown_records capture))
                    (failure ErrorCode.TraceExportFailed
                       ("capture contains " +:+ to_decimal (cap_unknown_records capture)
                          +:+ " unknown CUPTI activity records") false)))
        else Ok capture).

Definition artifact_text (format : ExportFormat) (events : list Event) : res string string :=
  match format with
  | ExportFormat.Jsonl => events_to_jsonl events
  | ExportFormat.Chrome => events_to_chrome_trace events
  end.
(** [run_export] and [export_measurement_capture] write an artifact the same way. *)
Definition export_measurement_capture (own_pid sequence : Z) (events : list Event) (path : string)
    (format : ExportFormat) : io CommandFailure unit :=
  artifact ← lift (map_err (λ error, failure ErrorCode.TraceExportFailed error false)
    (artifact_text format events));
  map_io_err (λ error, failure ErrorCode.TraceExportFailed
      ("failed to write " +:+ path +:+ ": " +:+ error) false)
    (untraced (write_export_file own_pid sequence path (bytes_of_string artifact))).
Definition run_export (own_pid sequence : Z) (input : list string) (format : ExportFormat)
    (output : string) : io CommandFailure TraceExportResult :=
  capture ← load_completed_inputs input ("xp_export_" +:+ to_decimal own_pid);
  _ ← export_measurement_capture own_pid sequence (cap_events capture) output format;
  mret (BuildTraceExportResult SchemaVersion.V2 true format output (len (cap_events capture))).
End commands.

(** ** What the file system and JSON promise

    The bytes of the file at a path, if there is one; a call changes at most the files it
    names, a failed rename or removal none, and files are told apart by their paths.  A read
    gives the bytes. *)
Class FilesLaws `{Files} := {
  contents : World → string → option (list Z);
  contents_path : ∀ w p q, path_eq p q = true → contents w p = contents w q;
  create_law : ∀ p w r w', create_new p w = (r, w') →
    (∀ q, path_eq q p = false → contents w' q = contents w q)
    ∧ match r with
      | inr _ => contents w p = None
      | inl _ => contents w' p = contents w p
      end;
  write_law : ∀ p bytes w r w', write_all p bytes w = (r, w') →
    (∀ q, path_eq q p = false → contents w' q = contents w q)
    ∧ (r = inr () → contents w' p = Some bytes);
  sync_law : ∀ p w q, contents (sync_all p w).2 q = contents w q;
  rename_law : ∀ p q w r w', path_eq p q = false → rename p q w = (r, w') →
    match r with
    | inr _ => contents w' q = contents w p ∧ contents w' p = None
        ∧ ∀ x, path_eq x p = false → path_eq x q = false → contents w' x = contents w x
    | inl _ => ∀ x, contents w' x = contents w x
    end;
  remove_law : ∀ p w r w', remove_file p w = (r, w') →
    (∀ q, path_eq q p = false → contents w' q = contents w q)
    ∧ match r with
      | inr _ => contents w' p = None
      | inl _ => contents w' p = contents w p
      end;
  directory_law : ∀ p w q, contents (sync_directory p w).2 q = contents w q;
  read_law : ∀ p w bytes w', fs_read p w = (inr bytes, w') → contents w p = Some bytes }.

(** A [StreamDeserializer] reads the documents of a text in turn; the text of an event is
    an object without a member [events], and an event whose values survive the conversion to
    text and back, [exact], is read back. *)
Class JsonLaws `{SerdeJson} `{!JsonReader} `{!JsonWriter} := {
  event_value : Event → Value;
  exact : Event → Prop;
  documents_nil : json_documents [] = [];
  documents_cons : ∀ e text rest, event_to_string e = Ok text →
    json_documents (bytes_of_string text ++ 10 :: rest)
    = Ok (event_value e) :: json_documents rest;
  event_text : ∀ e text, event_to_string e = Ok text → starts_with "{" text = true;
  event_members : ∀ e, json_get (event_value e) "events" = None;
  event_read : ∀ e, exact e → event_from_value (event_value e) = Ok e }.

(** ** The temporary file is another file *)
Lemma split_nonempty c s : split c s ≠ [].
Proof. destruct s as [|a s]; cbn [split]; [done|]. by repeat case_match. Qed.
Lemma split_snoc c s t :
  contains_char c t = false → split c (s +:+ String c t) = split c s ++ [t].
Proof.
  intros Ht. induction s as [|a s IH]; cbn [String.append split].
  - by rewrite bool_decide_eq_true_2, split_no_char.
  - rewrite IH. case_bool_decide; [done|].
    pose proof (split_nonempty c s). by destruct (split c s).
Qed.
Lemma split_pieces c s : Forall (λ piece, contains_char c piece = false) (split c s).
Proof.
  induction s as [|a s IH]; cbn [split]; [by repeat constructor|]. case_bool_decide as Ha; [by constructor|].
  destruct (split c s) as [|piece pieces]; [by repeat constructor; cbn; rewrite bool_decide_eq_false_2|].
  apply Forall_cons in IH as [Hp Hps]. constructor; [|done]. cbn.
  by rewrite bool_decide_eq_false_2.
Qed.
Lemma file_name_piece s name :
  file_name s = Some name → contains_char "/" name = false ∧ name ≠ EmptyString.
Proof.
  unfold file_name. destruct (last (components s)) as [[k n]|] eqn:E; [|done]. intros Hn.
  apply last_Some_elem_of in E. unfold components in E. apply elem_of_app in E as [E|E].
  - unfold root_or_leading in E. destruct (starts_with _ _);
      [|destruct (split _ _); [|destruct (_ == _)]];
      try (by apply not_elem_of_nil in E); apply list_elem_of_singleton in E; by simplify_eq/=.
  - apply list_elem_of_omap in E as (piece & Hin & Hp). unfold path_component in Hp.
    repeat case_match; simplify_eq/=. bool_props. split.
    + by eapply (proj1 (Forall_forall _ _) (split_pieces "/" s)).
    + by intros ->.
Qed.
Lemma str_len_app s t : str_len (s +:+ t) = str_len s + str_len t.
Proof. induction s as [|a s IH]; cbn [String.append str_len]; [done|]. rewrite IH. lia. Qed.
Lemma pretty_N_go_no_slash n s :
  contains_char "/" s = false → contains_char "/" (pretty_N_go n s) = false.
Proof.
  revert s. induction (N.lt_wf_0 n) as [n _ IH]; intros s Hs.
  assert (n = 0 ∨ 0 < n)%N as [->|Hn] by lia; [done|]. rewrite pretty_N_go_step by done.
  apply IH; [by apply N.div_lt|]. cbn. rewrite Hs, orb_false_r. apply bool_decide_eq_false.
  unfold pretty_N_char. by repeat case_match.
Qed.
Lemma to_decimal_no_slash z : contains_char "/" (to_decimal z) = false.
Proof.
  unfold to_decimal, pretty, pretty_N. case_match; [done|]. by apply pretty_N_go_no_slash.
Qed.
Lemma temporary_name_piece own_pid sequence name :
  contains_char "/" name = false →
  let temporary := temporary_name own_pid sequence name in
  contains_char "/" temporary = false ∧ str_len name + 9 ≤ str_len temporary.
Proof.
  intros Hn. unfold temporary_name. cbn zeta. split.
  - rewrite !contains_char_app, Hn, !to_decimal_no_slash. done.
  - rewrite !str_len_app. cbn [str_len].
    pose proof (str_len_nonneg (to_decimal own_pid)). pose proof (str_len_nonneg (to_decimal sequence)).
    lia.
Qed.
Lemma file_name_join base name :
  contains_char "/" name = false → 2 < str_len name → file_name (path_join base name) = Some name.
Proof.
  intros Hn Hlen.
  assert (path_component name = Some (3, name)) as Hc.
  { unfold path_component. destruct name as [|a name]; [done|]. cbn [is_empty orb].
    rewrite !bool_decide_eq_false_2; [done|by intros [= -> ->]..]. }
  assert (starts_with "/" name = false) as Hs.
  { destruct name as [|a name]; [done|]. cbn in *. bool_props. unfold starts_with. cbn.
    by rewrite bool_decide_eq_false_2. }
  assert (∃ x, path_join base name = x +:+ name ∧ (x = EmptyString ∨ ∃ y, x = y +:+ "/")) as (x & -> & Hx).
  { unfold path_join. rewrite Hs. destruct base as [|a base]; cbn [is_empty orb]; [by exists EmptyString; eauto|].
    unfold ends_with. destruct (strip_suffix _ _) as [y|] eqn:E; cbn [is_Some].
    - apply strip_suffix_Some in E. exists (String a base). eauto.
    - exists (String a base +:+ "/"). split; [by rewrite string_app_assoc|eauto]. }
  unfold file_name, components.
  destruct Hx as [->|[y ->]]; [cbn [String.append]|rewrite string_app_assoc; cbn [String.append]];
    rewrite ?split_no_char, ?split_snoc by done; rewrite ?omap_app; cbn [omap list_omap]; rewrite Hc.
  - by rewrite last_snoc.
  - by rewrite app_assoc, last_snoc.
Qed.
Lemma path_eq_comm p q : path_eq p q = false → path_eq q p = false.
Proof. unfold path_eq. rewrite !bool_decide_eq_false. congruence. Qed.
Lemma temporary_is_other own_pid sequence path name :
  file_name path = Some name →
  path_eq (path_join (artifact_parent path) (temporary_name own_pid sequence name)) path = false.
Proof.
  intros Hname. destruct (file_name_piece _ _ Hname) as [Hslash _].
  destruct (temporary_name_piece own_pid sequence name Hslash) as [Ht Hlen].
  pose proof (str_len_nonneg name).
  pose proof (file_name_join (artifact_parent path) _ Ht ltac:(lia)) as Hfile.
  apply bool_decide_eq_false. intros Heq. unfold file_name in Hname, Hfile.
  rewrite Heq, Hname in Hfile. injection Hfile as Hfile.
  rewrite <-Hfile in Hlen. lia.
Qed.

(** ** Replacing is atomic *)
Section atomic.
Context `{FilesLaws}.

(** Worlds that differ from [w] at most in the file at [temporary]. *)
Definition only_temporary (w : World) (temporary : string) (v : World) : Prop :=
  ∀ q, path_eq q temporary = false → contents v q = contents w q.
(** Worlds in which, moreover, [path] has the new contents. *)
Definition replaced (w : World) (path : string) (bytes : list Z) (temporary : string) (v : World) :
    Prop :=
  contents v path = Some bytes ∧ contents v temporary = contents w temporary
  ∧ ∀ q, path_eq q path = false → path_eq q temporary = false → contents v q = contents w q.

Lemma remove_temporary_spec {E} w temporary original v r v' passed :
  only_temporary w temporary v → contents w temporary = None →
  remove_temporary_artifact (E := E) temporary original v = (r, v', passed) →
  only_temporary w temporary v' ∧ passed = [v']
  ∧ ∃ message, r = Ok message
    ∧ (contents v' temporary = contents w temporary
       ∨ ∃ cleanup, message = original +:+ "; failed to remove temporary artifact " +:+ temporary
                              +:+ ": " +:+ cleanup).
Proof.
  intros Hw Hnone. unfold remove_temporary_artifact, mbind, traced_bind, traced_call.
  destruct (remove_file temporary v) as [result v1] eqn:Er. apply remove_law in Er as [Hsame Hr].
  assert (only_temporary w temporary v1) as Hw1 by (intros q Hq; by rewrite Hsame, Hw).
  destruct result as [e|]; intros [= <- <- <-]; (split; [done|]); (split; [done|]); eexists;
    (split; [reflexivity|]); [right; by eexists|left; by rewrite Hr].
Qed.

(** The export either fails before the rename, or goes on from it. *)
Definition not_renamed (w : World) (temporary : string) (r : res string unit) (w' : World)
    (passed : list World) : Prop :=
  Forall (only_temporary w temporary) (w' :: passed)
  ∧ ∃ e, r = Err e
    ∧ (contents w' temporary = contents w temporary
       ∨ ∃ original cleanup, e = original +:+ "; failed to remove temporary artifact "
                                   +:+ temporary +:+ ": " +:+ cleanup).
Lemma failed_before_rename w temporary original v r v' passed before :
  only_temporary w temporary v → contents w temporary = None →
  Forall (only_temporary w temporary) before →
  (message ← remove_temporary_artifact temporary original; traced_fail message) v = (r, v', passed) →
  not_renamed w temporary r v' (before ++ passed).
Proof.
  intros Hv Hnone Hb. unfold mbind, traced_bind.
  destruct (remove_temporary_artifact temporary original v) as [[r1 v1] p1] eqn:Hr.
  apply (remove_temporary_spec w) in Hr as (Hv1 & -> & message & -> & Hm); [|done..].
  intros [= <- <- <-]. split.
  - constructor; [done|]. apply Forall_app. split; [done|]. by repeat constructor.
  - exists message. split; [done|]. destruct Hm as [?|[cleanup ->]]; [by left|right; eauto].
Qed.
Definition renamed (w : World) (path : string) (bytes : list Z) (temporary : string)
    (r : res string unit) (w' : World) (passed : list World) : Prop :=
  r ≠ Panic ∧ ∃ before after, passed = before ++ after
    ∧ Forall (only_temporary w temporary) before
    ∧ Forall (replaced w path bytes temporary) (w' :: after).
Lemma replace_outcome w path bytes temporary parent v r w' passed before :
  path_eq temporary path = false → only_temporary w temporary v → contents w temporary = None →
  contents v temporary = Some bytes → Forall (only_temporary w temporary) before →
  replace_artifact temporary path parent v = (r, w', passed) →
  not_renamed w temporary r w' (before ++ passed)
  ∨ renamed w path bytes temporary r w' (before ++ passed).
Proof.
  intros Hother Hv Hnone Hbytes Hb. unfold replace_artifact, mbind at 1, traced_bind at 1, traced_call at 1.
  destruct (rename temporary path v) as [result v1] eqn:Er. apply rename_law in Er; [|done].
  destruct result as [e|[]].
  - match goal with |- context [remove_temporary_artifact temporary ?o] => set (original := o) end.
    destruct ((message ← remove_temporary_artifact temporary original; traced_fail message) v1)
      as [[r1 v2] p1] eqn:Hfail. intros [= <- <- <-]. left.
    assert (only_temporary w temporary v1) as Hv1 by (intros q Hq; by rewrite Er, Hv).
    change (before ++ v1 :: p1) with (before ++ [v1] ++ p1). rewrite app_assoc.
    eapply (failed_before_rename w temporary original v1); [done..| |exact Hfail].
    apply Forall_app. by repeat constructor.
  - destruct Er as (Hpath & Htemp & Hrest).
    assert (∀ x, (∀ q, contents x q = contents v1 q) → replaced w path bytes temporary x) as Hrep.
    { intros x Hx. split; [by rewrite Hx, Hpath|]. split; [by rewrite Hx, Htemp|].
      intros q Hq Hqt. by rewrite Hx, Hrest, Hv. }
    unfold mbind, traced_bind, traced_call. pose proof (directory_law parent v1) as Hd.
    destruct (sync_directory parent v1) as [synced v2]. cbn in Hd. intros Hend. right.
    assert (r ≠ Panic ∧ w' = v2 ∧ passed = [v1; v2]) as (Hr & -> & ->)
      by (destruct synced; by simplify_eq/=).
    split; [done|]. exists before, [v1; v2]. split_and!; [done..|].
    apply Forall_cons; split; [by apply Hrep|]. apply Forall_cons; split; [by apply Hrep|].
    apply Forall_singleton. by apply Hrep.
Qed.
Lemma write_export_outcome own_pid sequence path name bytes w r w' passed :
  file_name path = Some name →
  write_export_file own_pid sequence path bytes w = (r, w', passed) →
  let temporary := path_join (artifact_parent path) (temporary_name own_pid sequence name) in
  not_renamed w temporary r w' passed ∨ renamed w path bytes temporary r w' passed.
Proof.
  intros Hname. pose proof (temporary_is_other own_pid sequence path name Hname) as Hother.
  unfold write_export_file. rewrite Hname. cbn zeta. set (temporary := path_join _ _) in *.
  unfold mbind at 1, traced_bind at 1, traced_call at 1.
  destruct (create_new temporary w) as [created w1] eqn:Ec. apply create_law in Ec as [Hp1 Hc].
  destruct created as [e|[]].
  { intros [= <- <- <-]. left. split; [by repeat constructor|]. eexists. split; [done|]. by left. }
  unfold mbind at 1, traced_bind at 1, traced_call at 1.
  destruct (write_all temporary bytes w1) as [written w2] eqn:Ew. apply write_law in Ew as [Hp2 Hw].
  assert (only_temporary w temporary w2) as Ht2 by (intros q Hq; by rewrite Hp2, Hp1).
  assert (∃ v, only_temporary w temporary v
    ∧ ∃ written', match written with
        | inl error => mret (inl error)
        | inr _ => traced_call (E := string) (sync_all temporary)
        end w2 = (Ok written', v, if written is inl _ then [] else [v])
      ∧ (written' = inr () → contents v temporary = Some bytes)) as (v & Hv & written' & Hsync & Hbytes).
  { destruct written as [e|[]]; [by eexists; split; [exact Ht2|]; eexists|].
    unfold traced_call. pose proof (sync_law temporary w2) as Hs.
    destruct (sync_all temporary w2) as [synced w3]. cbn in Hs. exists w3. split.
    - intros q Hq. by rewrite Hs, Ht2.
    - exists synced. split; [done|]. intros ->. by rewrite Hs, Hw. }
  unfold mbind at 1, traced_bind at 1. rewrite Hsync. clear Hsync.
  set (log := if written is inl _ then [] else [v]).
  assert (Forall (only_temporary w temporary) ([w1; w2] ++ log)) as Hlog.
  { repeat constructor; [done|done|]. subst log. destruct written; by repeat constructor. }
  destruct written' as [e|[]].
  { match goal with |- context [remove_temporary_artifact temporary ?o ≫= _] => set (original := o) end.
    destruct ((message ← remove_temporary_artifact temporary original; traced_fail message) v)
      as [[r1 v1] p1] eqn:Hfail.
    intros [= <- <- <-]. left. by apply (failed_before_rename w temporary original v _ _ _ _ Hv Hc Hlog). }
  destruct (replace_artifact temporary path (artifact_parent path) v) as [[r1 v1] p1] eqn:Hrep.
  intros [= <- <- <-]. change (w1 :: w2 :: log ++ p1) with (([w1; w2] ++ log) ++ p1).
  apply (replace_outcome w path bytes temporary (artifact_parent path) v); auto.
Qed.

(** C21: an artifact is replaced atomically.  In every world the export goes through, and so
    wherever it is interrupted, the path holds what it held before or all of the new bytes; a
    success means the new bytes are there; nothing but the path and the temporary file is
    touched; and the temporary file is gone in the end unless the error says that it could
    not be removed. *)
Theorem artifact_replaced_atomically (own_pid sequence : Z) (path : string) (bytes : list Z)
    (w : World) :
  let '(r, w', passed) := write_export_file own_pid sequence path bytes w in
  let old_or_new v := contents v path = contents w path ∨ contents v path = Some bytes in
  Forall old_or_new (w' :: passed) ∧ r ≠ Panic ∧ (r = Ok () → contents w' path = Some bytes)
  ∧ match file_name path with
    | None => w' = w
    | Some name =>
        let temporary := path_join (artifact_parent path) (temporary_name own_pid sequence name) in
        Forall (λ v, ∀ q, path_eq q path = false → path_eq q temporary = false →
                          contents v q = contents w q) (w' :: passed)
        ∧ (contents w' temporary = contents w temporary
           ∨ ∃ original cleanup, r = Err (original +:+ "; failed to remove temporary artifact "
                                            +:+ temporary +:+ ": " +:+ cleanup))
    end.
Proof.
  destruct (write_export_file own_pid sequence path bytes w) as [[r w'] passed] eqn:Hrun.
  cbn zeta. destruct (file_name path) as [name|] eqn:Hname.
  - pose proof (temporary_is_other own_pid sequence path name Hname) as Hother.
    apply (write_export_outcome _ _ _ _ _ _ _ _ _ Hname) in Hrun.
    set (temporary := path_join _ _) in *. apply path_eq_comm in Hother.
    destruct Hrun as [(Hall & e & -> & Hend)|(Hr & before & after & -> & Hb & Ha)].
    + split_and!; [|done|done| |].
      * eapply Forall_impl; [exact Hall|]. intros v Hv. left. by apply Hv.
      * eapply Forall_impl; [exact Hall|]. intros v Hv q _ Hq. by apply Hv.
      * destruct Hend as [?|(o & c & ->)]; [by left|right; eauto].
    + apply Forall_cons in Ha as [Hw' Ha]. split_and!; [|done|by intros _; apply Hw'| |].
      * constructor; [right; apply Hw'|]. apply Forall_app. split.
        -- eapply Forall_impl; [exact Hb|]. intros v Hv. left. by apply Hv.
        -- eapply Forall_impl; [exact Ha|]. intros v Hv. right. apply Hv.
      * constructor; [apply Hw'|]. apply Forall_app. split.
        -- eapply Forall_impl; [exact Hb|]. intros v Hv q _ Hq. by apply Hv.
        -- eapply Forall_impl; [exact Ha|]. intros v Hv. apply Hv.
      * left. by destruct Hw' as (_ & ? & _).
  - unfold write_export_file in Hrun. rewrite Hname in Hrun. injection Hrun as <- <- <-.
    split_and!; [by repeat constructor|done..].
Qed.
End atomic.

(** ** Reading an artifact back *)
Section roundtrip.
Context `{SerdeJson} `{FilesLaws} `{!JsonReader} `{!JsonWriter} `{!JsonLaws}.

Lemma jsonl_documents events : ∀ text,
  events_to_jsonl events = Ok text →
  json_documents (bytes_of_string text) = (λ e, Ok (event_value e)) <$> events.
Proof.
  induction events as [|e events IH]; intros text; cbn [events_to_jsonl].
  { intros [= <-]. apply documents_nil. }
  destruct (event_to_string e) as [line| |] eqn:El; [|done..]. cbn [mbind res_bind].
  destruct (events_to_jsonl events) as [rest| |]; [|done..]. intros [= <-].
  rewrite bytes_of_string_app. cbn [bytes_of_string]. change (byte_of newline) with 10.
  by rewrite (documents_cons e line _ El), (IH rest eq_refl).
Qed.
Lemma decode_events_exact events :
  Forall exact events → decode_events ((λ e, Ok (event_value e)) <$> events) = Ok events.
Proof.
  induction events as [|e events IH]; [done|]. intros [He Hall]%Forall_cons.
  rewrite fmap_cons. cbn [decode_events map_err mbind res_bind].
  rewrite event_members, (event_read e He). cbn [map_err mbind res_bind].
  rewrite bool_decide_eq_false_2 by apply is_Some_None. by rewrite IH.
Qed.
(** What is read back claims no losses. *)
Lemma jsonl_decoded events text session_id :
  events ≠ [] → Forall exact events → events_to_jsonl events = Ok text →
  completed_decode (bytes_of_string text) session_id
  = Ok (BuildCompletedCapture 0 0 None false None events).
Proof.
  intros Hne Hexact Htext. pose proof (jsonl_documents events text Htext) as Hdocs.
  destruct events as [|e events]; [done|]. cbn [events_to_jsonl] in Htext.
  destruct (event_to_string e) as [line| |] eqn:El; [|done..]. cbn [mbind res_bind] in Htext.
  apply event_text, starts_with_true in El as [line' ->].
  destruct (events_to_jsonl events) as [rest| |]; [|done..]. injection Htext as <-.
  unfold completed_decode. cbn [bytes_of_string String.append find_map].
  change (byte_of "{") with 123. cbn [is_ascii_whitespace Z.eqb Pos.eqb orb ok_or mbind res_bind].
  unfold decode_json. cbn [bytes_of_string String.append] in Hdocs. change (byte_of "{") with 123 in Hdocs.
  rewrite Hdocs, fmap_cons. cbn [map_err mbind res_bind].
  apply Forall_cons in Hexact as [He Hall].
  rewrite event_members, bool_decide_eq_false_2 by apply is_Some_None.
  by rewrite (event_read e He), (decode_events_exact events Hall).
Qed.

Lemma load_completed_shape input session_id w capture w' :
  load_completed_inputs input session_id w = (Ok capture, w') →
  (∃ t, Forall (λ e, t = Some (ev_pid e)) (cap_events capture))
  ∧ StronglySorted (λ x y, ev_timestamp_ns x ≤ ev_timestamp_ns y) (cap_events capture).
Proof.
  unfold load_completed_inputs. intros Hload. io_steps. case_match; [done|]. simplify_eq/=.
  unfold merge_captures in *. destruct (merge _ _) as [r| |] eqn:E; simplify_eq/=.
  by eapply merge_shape.
Qed.
Lemma write_export_no_panic own_pid sequence path bytes w r w' passed :
  write_export_file own_pid sequence path bytes w = (r, w', passed) → r ≠ Panic.
Proof.
  intros Hrun. destruct (file_name path) as [name|] eqn:Hname.
  - apply (write_export_outcome _ _ _ _ _ _ _ _ _ Hname) in Hrun.
    destruct Hrun as [(_ & e & -> & _)|[Hr _]]; done.
  - unfold write_export_file in Hrun. rewrite Hname in Hrun. by injection Hrun as <- _ _.
Qed.
Lemma export_written own_pid sequence events path format w w' :
  export_measurement_capture own_pid sequence events path format w = (Ok (), w') →
  ∃ text, artifact_text format events = Ok text ∧ contents w' path = Some (bytes_of_string text).
Proof.
  unfold export_measurement_capture. intros Hexport.
  apply io_bind_ok in Hexport as (text & w1 & [Htext ->]%lift_ok & Hwrite%map_io_err_ok).
  exists text. split; [by destruct (artifact_text _ _); simplify_eq/=|].
  unfold untraced in Hwrite.
  destruct (write_export_file own_pid sequence path (bytes_of_string text) w)
    as [[r w2] passed] eqn:Hrun. cbn in Hwrite. injection Hwrite as -> ->.
  destruct (file_name path) as [name|] eqn:Hname.
  - apply (write_export_outcome _ _ _ _ _ _ _ _ _ Hname) in Hrun.
    destruct Hrun as [(_ & e & He & _)|(_ & before & after & _ & _ & Ha)]; [done|].
    apply Forall_cons in Ha as [Hw _]. by destruct Hw.
  - unfold write_export_file in Hrun. by rewrite Hname in Hrun.
Qed.

End roundtrip.
