(* ===== verification/Aggregate.v ===== *)
(** * Aggregated CUDA activities

    The aggregate mode of [xprobe/cli/src/main.rs]: the agent counts activities in a table
    of groups; its final answer is checked, groups of the same kernel, copy kind and device
    are merged, and each group gets selectors for a later exact measurement. *)
From S2P Require Import Prelude BTree RustString Text Bytes Protocol Selector Correlate.
From S2P Require Import Lifecycle GroupPairs Exact Greedy Nearest StackNested Measure.
From S2P Require Import Os Process Inspect Resolve Ring Uprobe Usdt Syscalls Validate Linux.
From S2P Require Import Cupti CuptiFilter Completed Live Session.
#[local] Open Scope Z_scope.

(** ** Merging groups *)
Definition aggregate_activity_rank (activity : CuptiAggregateActivity) : Z :=
  match activity with
  | CuptiAggregateActivity.Kernel => 0
  | CuptiAggregateActivity.Memcpy => 1
  | CuptiAggregateActivity.Memset => 2
  end.
Definition memcpy_kind_rank (kind : option MemcpyKind) : Z :=
  match kind with
  | None => 0
  | Some MemcpyKind.Unknown => 1
  | Some MemcpyKind.HostToDevice => 2
  | Some MemcpyKind.DeviceToHost => 3
  | Some MemcpyKind.DeviceToDevice => 4
  | Some MemcpyKind.HostToHost => 5
  | Some MemcpyKind.PeerToPeer => 6
  end.
(** The comparison of the groups' [sort_by]. *)
Definition aggregate_cmp (left right : CuptiAggregateGroup) : comparison :=
  then_with
    (then_with
       (then_with
          (aggregate_activity_rank (ag_activity left)
             ?= aggregate_activity_rank (ag_activity right))
          (kcmp (ag_name left) (ag_name right)))
       (kcmp (ag_device_id left) (ag_device_id right)))
    (memcpy_kind_rank (ag_memcpy_kind left) ?= memcpy_kind_rank (ag_memcpy_kind right)).
Definition same_group (previous group : CuptiAggregateGroup) : bool :=
  (ag_activity previous == ag_activity group) && (ag_name previous == ag_name group)
  && (ag_device_id previous == ag_device_id group)
  && (ag_memcpy_kind previous == ag_memcpy_kind group).

Section aggregate.
Context `{SerdeJson} `{!RegexEngine}.

Local Abbreviation export_failed message :=
  (Err (failure ErrorCode.TraceExportFailed message false)).

Definition add_or_fail (message : string) (a b : Z) : res CommandFailure Z :=
  ok_or (checked_add_u64 a b) (failure ErrorCode.TraceExportFailed message false).
(** The body of the loop for two groups of the same key. *)
Definition combine_groups (previous group : CuptiAggregateGroup) :
    res CommandFailure CuptiAggregateGroup :=
  count ← add_or_fail "aggregate group count overflowed while merging"
    (ag_count previous) (ag_count group);
  total_duration_ns ← add_or_fail "aggregate duration overflowed while merging"
    (ag_total_duration_ns previous) (ag_total_duration_ns group);
  total_bytes ←
    match ag_total_bytes previous, ag_total_bytes group with
    | Some a, Some b =>
        bytes ← add_or_fail "aggregate byte count overflowed while merging" a b;
        Ok (Some bytes)
    | None, None => Ok None
    | _, _ => export_failed "aggregate byte counters are inconsistent"
    end;
  Ok (BuildCuptiAggregateGroup (ag_activity previous) (ag_name previous)
        (ag_name_complete previous) (ag_device_id previous) (ag_memcpy_kind previous)
        count total_duration_ns
        (Z.min (ag_min_duration_ns previous) (ag_min_duration_ns group))
        (Z.max (ag_max_duration_ns previous) (ag_max_duration_ns group)) total_bytes).
Fixpoint merge_runs (merged groups : list CuptiAggregateGroup) :
    res CommandFailure (list CuptiAggregateGroup) :=
  match groups with
  | [] => Ok merged
  | group :: groups =>
      match last merged with
      | None => merge_runs (merged ++ [group]) groups
      | Some previous =>
          if negb (same_group previous group) then merge_runs (merged ++ [group]) groups
          else
            combined ← combine_groups previous group;
            merge_runs (removelast merged ++ [combined]) groups
      end
  end.
Definition merge_aggregate_groups (groups : list CuptiAggregateGroup) :
    res CommandFailure (list CuptiAggregateGroup) :=
  merge_runs [] (sort_by (λ left right, not_greater (aggregate_cmp left right)) groups).

(** ** Selector hints *)
Fixpoint escape_selector_regex (name : string) : string :=
  match name with
  | EmptyString => EmptyString
  | String character name =>
      if contains_char character "\.^$|?*+()[]{}" then
        String backslash (String character (escape_selector_regex name))
      else String character (escape_selector_regex name)
  end.
(** [aggregate_selector_hints]; a kernel group without a name panics. *)
Definition aggregate_selector_hints (group : CuptiAggregateGroup) :
    res CommandFailure (string * string) :=
  match ag_activity group with
  | CuptiAggregateActivity.Kernel =>
      name ← or_panic (ag_name group);
      let escaped := escape_selector_regex name in
      let suffix := if ag_name_complete group == Some true then "$"%string else ""%string in
      Ok ("cuda:kernel_start:name~^" +:+ escaped +:+ suffix,
          "cuda:kernel_end:name~^" +:+ escaped +:+ suffix)
  | CuptiAggregateActivity.Memcpy =>
      let kind :=
        match ag_memcpy_kind group with
        | Some MemcpyKind.HostToDevice => Some "HtoD"%string
        | Some MemcpyKind.DeviceToHost => Some "DtoH"%string
        | Some MemcpyKind.DeviceToDevice => Some "DtoD"%string
        | Some MemcpyKind.HostToHost => Some "HtoH"%string
        | Some MemcpyKind.PeerToPeer => Some "PtoP"%string
        | Some MemcpyKind.Unknown | None => None
        end in
      Ok match kind with
         | None => ("cuda:memcpy_start", "cuda:memcpy_end")
         | Some kind => ("cuda:memcpy_start:kind=" +:+ kind, "cuda:memcpy_end:kind=" +:+ kind)
         end%string
  | CuptiAggregateActivity.Memset => Ok ("cuda:memset_start", "cuda:memset_end")%string
  end.

(** ** The inventory *)

(** [AggregateGroup]; the activities are those of the agent. *)
Record AggregateGroup := BuildAggregateGroup {
  agg_activity : CuptiAggregateActivity;
  agg_name : option string;
  agg_name_complete : option bool;
  agg_device_id : option Z;
  agg_memcpy_kind : option MemcpyKind;
  agg_start_selector_hint : string;
  agg_end_selector_hint : string;
  agg_count : Z;
  agg_duration_ns : AggregateDuration;
  agg_total_bytes : option Z }.
Record AggregateCollectionSummary := BuildAggregateCollectionSummary {
  acs_completeness : CaptureCompleteness;
  acs_observed_activities : Z;
  acs_grouped_activities : Z;
  acs_dropped_activities : Z;
  acs_group_capacity : Z;
  acs_groups : Z;
  acs_occupied_slots : Z;
  acs_table_utilization : f64 }.
Record AggregateInventoryResult := BuildAggregateInventoryResult {
  air_schema_version : SchemaVersion;
  air_ok : bool;
  air_session_id : string;
  air_status : SessionStatus;
  air_name : option string;
  air_start_selector : string;
  air_end_selector : string;
  air_groups : list AggregateGroup;
  air_collection : AggregateCollectionSummary;
  air_warnings : list Warning }.

Definition protocol_aggregate_group (group : CuptiAggregateGroup) :
    res CommandFailure AggregateGroup :=
  '(start_selector_hint, end_selector_hint) ← aggregate_selector_hints group;
  Ok (BuildAggregateGroup (ag_activity group) (ag_name group) (ag_name_complete group)
        (ag_device_id group) (ag_memcpy_kind group) start_selector_hint end_selector_hint
        (ag_count group)
        (BuildAggregateDuration (ag_min_duration_ns group)
           (f64_div (f64_of_int (ag_total_duration_ns group)) (f64_of_int (ag_count group)))
           (ag_max_duration_ns group) (ag_total_duration_ns group))
        (ag_total_bytes group)).

(** [{:?}] of a stop reason. *)
Definition stop_reason_debug (reason : CuptiStopReason) : string :=
  match reason with
  | CuptiStopReason.None => "None"
  | CuptiStopReason.Requested => "Requested"
  | CuptiStopReason.RecordLimit => "RecordLimit"
  | CuptiStopReason.CuptiError => "CuptiError"
  | CuptiStopReason.OutputError => "OutputError"
  end.
Definition validate_aggregate_capture (capture : CuptiCapture) : res CommandFailure unit :=
  if cc_state capture == CuptiCaptureState.LimitReached then
    Err (with_hint "narrow the selector or explicitly increase max-groups"
           (with_detail "observed_activities" (value_number (cc_observed_records capture))
              (with_detail "group_capacity" (value_number (cc_record_capacity capture))
                 (failure ErrorCode.EventRateTooHigh
                    "aggregate group table reached its configured capacity" true))))
  else if negb (cc_state capture == CuptiCaptureState.Stopped)
          || negb (cc_stop_reason capture == CuptiStopReason.Requested) then
    Err (failure ErrorCode.CuptiNotAvailable
           ("aggregate CUPTI capture ended in state " +:+ capture_state_debug (cc_state capture)
              +:+ " with reason " +:+ stop_reason_debug (cc_stop_reason capture)) true)
  else if negb (cc_dropped_records capture =? 0) then
    Err (with_hint "reduce capture duration or narrow the activity selector"
           (with_detail "dropped_activities" (value_number (cc_dropped_records capture))
              (failure ErrorCode.EventsDropped "aggregate CUPTI capture dropped activities" true)))
  else if negb (cc_unknown_records capture =? 0) then
    Err (with_hint "rebuild xprobe and the CUPTI Agent from the same release"
           (with_detail "unknown_records" (value_number (cc_unknown_records capture))
              (failure ErrorCode.TraceExportFailed
                 "aggregate CUPTI capture contains unknown activities" false)))
  else if negb (len (cc_events capture) =? 0) then
    export_failed "aggregate CUPTI capture unexpectedly contains exact events"
  else Ok ().

(** The [try_fold] over the counts. *)
Fixpoint sum_counts (total : Z) (groups : list CuptiAggregateGroup) : res CommandFailure Z :=
  match groups with
  | [] => Ok total
  | group :: groups =>
      total ← add_or_fail "aggregate activity count overflowed" total (ag_count group);
      sum_counts total groups
  end.
Definition aggregate_inventory_result (capture : CuptiCapture) (options : MeasureOptions) :
    res CommandFailure AggregateInventoryResult :=
  _ ← validate_aggregate_capture capture;
  let raw_groups := len (cc_aggregate_groups capture) in
  groups ← merge_aggregate_groups (cc_aggregate_groups capture);
  grouped_activities ← sum_counts 0 groups;
  if negb (grouped_activities =? cc_observed_records capture) then
    export_failed ("aggregate activity counters are inconsistent: grouped="
      +:+ to_decimal grouped_activities +:+ ", observed="
      +:+ to_decimal (cc_observed_records capture))
  else
    let distinct_groups := len groups in
    groups ← res_mapM protocol_aggregate_group groups;
    Ok (BuildAggregateInventoryResult SchemaVersion.V2 true (opt_session_id options)
          SessionStatus.Completed (opt_name options) (opt_start_selector options)
          (opt_end_selector options) groups
          (BuildAggregateCollectionSummary CaptureCompleteness.Complete
             (cc_observed_records capture) grouped_activities 0 (cc_record_capacity capture)
             distinct_groups raw_groups (utilization raw_groups (cc_record_capacity capture))) []).

(** [collect_live_aggregate]; [verify] is whether the target is still the same process when
    the duration has passed and [answer] what the agent sends as it stops.
    A collection that is dropped while armed stops the agent too. *)
Definition collect_live_aggregate (request : LiveMeasureRequest) (setup : Setup)
    (verify : res CommandFailure unit) (answer : res string CuptiCapture) :
    sent CommandFailure AggregateInventoryResult :=
  if negb (lm_mode request == MeasurementMode.Aggregate) then ([], Panic)
  else
    match validate_live_limits request with
    | Err e => ([], Err e)
    | Panic => ([], Panic)
    | Ok _ =>
        match prepare_live_collection request setup with
        | (commands, Err e) => (commands, Err e)
        | (commands, Panic) => (commands, Panic)
        | (commands, Ok (collection, activation, armed)) =>
            let stop := if armed then [stop_command activation] else [] in
            match lc_collection_end collection with
            | None => (commands ++ stop, Panic)
            | Some collection_end =>
                if lc_deadline collection <? collection_end then
                  (commands ++ stop,
                   Err (failure ErrorCode.SessionLimitExceeded
                          "aggregate duration must not exceed timeout" true))
                else
                  let '(collection, stopped) := stop_cupti_agent collection armed answer in
                  (commands ++ stop,
                   _ ← match verify, stopped with
                       | Ok _, Ok _ => Ok ()
                       | Err error, Ok _ | Ok _, Err error => Err error
                       | Err target, Err cleanup =>
                           Err (with_hint
                                  "verify the target state before starting another measurement"
                                  (with_detail "target_error_code"
                                     (value_string (as_code_str (fail_code target)))
                                     (with_detail "cleanup_phase" (value_string "stop_cupti")
                                        (failure ErrorCode.CleanupFailed
                                           (fail_message cleanup
                                              +:+ "; target verification also failed: "
                                              +:+ fail_message target)
                                           (fail_recoverable cleanup)))))
                       | _, _ => Panic
                       end;
                   capture ← ok_or (lc_latest_cuda collection)
                     (failure ErrorCode.CuptiNotAvailable
                        "CUPTI Agent returned no aggregate capture" false);
                   result ← aggregate_inventory_result capture (lm_options request);
                   Ok (if act_injected activation then
                         BuildAggregateInventoryResult (air_schema_version result) (air_ok result)
                           (air_session_id result) (air_status result) (air_name result)
                           (air_start_selector result) (air_end_selector result)
                           (air_groups result) (air_collection result)
                           (air_warnings result ++ [injection_warning activation])
                       else result))
            end
        end
    end.

(** ** Each key once, with everything counted for it *)
Definition group_key (g : CuptiAggregateGroup) : Z * (option string * (option Z * Z)) :=
  (aggregate_activity_rank (ag_activity g),
   (ag_name g, (ag_device_id g, memcpy_kind_rank (ag_memcpy_kind g)))).
Definition members (g : CuptiAggregateGroup) (groups : list CuptiAggregateGroup) :
    list CuptiAggregateGroup :=
  filter (λ h, group_key h = group_key g) groups.

(** A group that stands for several: the sums of the counts, durations and bytes, the
    smallest and the largest duration. *)
Record summarises (m : CuptiAggregateGroup) (l : list CuptiAggregateGroup) : Prop := {
  sm_count : ag_count m = sum_by ag_count l;
  sm_total : ag_total_duration_ns m = sum_by ag_total_duration_ns l;
  sm_min : Forall (λ g, ag_min_duration_ns m ≤ ag_min_duration_ns g) l
    ∧ Exists (λ g, ag_min_duration_ns m = ag_min_duration_ns g) l;
  sm_max : Forall (λ g, ag_max_duration_ns g ≤ ag_max_duration_ns m) l
    ∧ Exists (λ g, ag_max_duration_ns m = ag_max_duration_ns g) l;
  sm_bytes : match ag_total_bytes m with
    | None => Forall (λ g, ag_total_bytes g = None) l
    | Some bytes => Forall (λ g, is_Some (ag_total_bytes g)) l
        ∧ bytes = sum_by (λ g, default 0 (ag_total_bytes g)) l
    end }.

Lemma aggregate_cmp_key l r : aggregate_cmp l r = kcmp (group_key l) (group_key r).
Proof.
  unfold aggregate_cmp, group_key. simpl. unfold pair_cmp. simpl. unfold then_with.
  destruct (_ ?= _); [|done..]. destruct (option_cmp _ _); [|done..]. by destruct (option_cmp _ _).
Qed.
Lemma same_group_key a b : same_group a b = true ↔ group_key a = group_key b.
Proof.
  unfold same_group, group_key. rewrite !andb_true_iff, !bool_decide_eq_true. split.
  - intros [[[-> ->] ->] ->]. done.
  - intros [= Ha Hn Hd Hk]. split_and!; [|done|done|].
    + by destruct (ag_activity a), (ag_activity b).
    + by destruct (ag_memcpy_kind a) as [[]|], (ag_memcpy_kind b) as [[]|].
Qed.
#[local] Instance aggregate_order :
  TotalPreorderB (λ l r, not_greater (aggregate_cmp l r)).
Proof. apply (key_preorder group_key), aggregate_cmp_key. Qed.

Lemma add_or_fail_ok message a b c : add_or_fail message a b = Ok c → c = a + b.
Proof. unfold add_or_fail, checked_add_u64. destruct (_ <=? _); [|done]. by intros [= <-]. Qed.
Lemma combine_summarises previous group combined l :
  combine_groups previous group = Ok combined → summarises previous l →
  summarises combined (l ++ [group]) ∧ group_key combined = group_key previous
  ∧ ag_count combined = ag_count previous + ag_count group.
Proof.
  unfold combine_groups. intros Hok [Hc Ht [Hmin Hmin'] [Hmax Hmax'] Hb].
  destruct (add_or_fail _ (ag_count previous) _) as [count| |] eqn:E1; [|done..].
  cbn [mbind res_bind] in Hok. apply add_or_fail_ok in E1.
  destruct (add_or_fail _ (ag_total_duration_ns previous) _) as [total| |] eqn:E2; [|done..].
  cbn [mbind res_bind] in Hok. apply add_or_fail_ok in E2.
  destruct (match ag_total_bytes previous with Some _ => _ | None => _ end)
    as [bytes| |] eqn:E3; [|done..].
  cbn [mbind res_bind] in Hok. simplify_eq. split_and!; [|done|done]. split; simpl.
  - rewrite sum_by_snoc. lia.
  - rewrite sum_by_snoc. lia.
  - rewrite Forall_app, Forall_singleton, Exists_app, Exists_cons, Exists_nil. split.
    + split; [|lia]. eapply Forall_impl; [exact Hmin|]. simpl. lia.
    + destruct (Z.min_spec (ag_min_duration_ns previous) (ag_min_duration_ns group))
        as [[_ ->]|[_ ->]]; auto.
  - rewrite Forall_app, Forall_singleton, Exists_app, Exists_cons, Exists_nil. split.
    + split; [|lia]. eapply Forall_impl; [exact Hmax|]. simpl. lia.
    + destruct (Z.max_spec (ag_max_duration_ns previous) (ag_max_duration_ns group))
        as [[_ ->]|[_ ->]]; auto.
  - destruct (ag_total_bytes previous) as [a|], (ag_total_bytes group) as [b|] eqn:Eg;
      [|done..|].
    + destruct (add_or_fail _ a b) as [c| |] eqn:E4; [|done..]. apply add_or_fail_ok in E4.
      cbn [mbind res_bind] in E3. simplify_eq. destruct Hb as [Hs ->].
      rewrite Forall_app, Forall_singleton, sum_by_snoc, Eg. simpl. eauto.
    + simplify_eq. rewrite Forall_app, Forall_singleton. auto.
Qed.
Lemma summarises_one group : summarises group [group].
Proof.
  split; simpl; [lia..| | |].
  - rewrite Forall_singleton, Exists_cons. auto with lia.
  - rewrite Forall_singleton, Exists_cons. auto with lia.
  - destruct (ag_total_bytes group) as [b|] eqn:E; rewrite Forall_singleton, E; [|done].
    simpl. split; [by eauto|lia].
Qed.

(** Groups merged into one per key, in the order of the keys. *)
Record grouped (merged groups : list CuptiAggregateGroup) : Prop := {
  gr_sorted : StronglySorted (λ a b, klt (group_key a) (group_key b)) merged;
  gr_summary : Forall (λ m, summarises m (members m groups)) merged;
  gr_covered : Forall (λ g, ∃ m, m ∈ merged ∧ group_key m = group_key g) groups;
  gr_count : sum_by ag_count merged = sum_by ag_count groups }.

Lemma members_snoc m groups g :
  members m (groups ++ [g])
  = members m groups ++ (if bool_decide (group_key g = group_key m) then [g] else []).
Proof.
  unfold members. rewrite filter_app, filter_cons, filter_nil. by case_decide; case_bool_decide.
Qed.
Lemma summaries_other merged groups g :
  Forall (λ m, summarises m (members m groups)) merged →
  Forall (λ m, group_key m ≠ group_key g) merged →
  Forall (λ m, summarises m (members m (groups ++ [g]))) merged.
Proof.
  rewrite !Forall_forall. intros Hs Hk m Hm. rewrite members_snoc, bool_decide_eq_false_2.
  - rewrite app_nil_r. by apply Hs.
  - intros Heq. by apply (Hk m Hm).
Qed.
Lemma covered_snoc (merged merged' groups : list CuptiAggregateGroup) g :
  (∀ m, m ∈ merged → ∃ m', m' ∈ merged' ∧ group_key m' = group_key m) →
  (∃ m', m' ∈ merged' ∧ group_key m' = group_key g) →
  Forall (λ g, ∃ m, m ∈ merged ∧ group_key m = group_key g) groups →
  Forall (λ g, ∃ m, m ∈ merged' ∧ group_key m = group_key g) (groups ++ [g]).
Proof.
  intros Hm Hg Hall. rewrite Forall_app, Forall_singleton. split; [|done].
  eapply Forall_impl; [exact Hall|]. intros x (m & Hin & Hk).
  destruct (Hm m Hin) as (m' & Hin' & Hk'). exists m'. by rewrite Hk', Hk.
Qed.
Lemma grouped_push merged groups g :
  grouped merged groups → Forall (λ m, klt (group_key m) (group_key g)) merged →
  grouped (merged ++ [g]) (groups ++ [g]).
Proof.
  intros [Hs Hm Hc Hn] Hlt. split.
  - apply StronglySorted_app_2; [|done|by repeat constructor].
    intros a b Ha ->%list_elem_of_singleton. by eapply Forall_forall in Hlt.
  - rewrite Forall_app, Forall_singleton. split.
    + apply summaries_other; [done|]. eapply Forall_impl; [exact Hlt|]. intros m. apply klt_ne.
    + rewrite members_snoc, bool_decide_eq_true_2 by done.
      assert (members g groups = []) as ->; [|apply summarises_one].
      destruct (members g groups) as [|h l] eqn:El; [done|]. exfalso.
      assert (h ∈ members g groups) as [Heq Hh]%list_elem_of_filter by (rewrite El; by left).
      rewrite Forall_forall in Hc.
      destruct (Hc h Hh) as (m & Hin & Hk). rewrite Forall_forall in Hlt.
      specialize (Hlt m Hin). rewrite Hk, Heq in Hlt. by apply klt_irrefl in Hlt.
  - eapply covered_snoc; [| |done]; setoid_rewrite elem_of_app.
    + intros m Hin. exists m. auto.
    + exists g. rewrite list_elem_of_singleton. auto.
  - by rewrite !sum_by_snoc, Hn.
Qed.
Lemma grouped_combine front p groups g c :
  grouped (front ++ [p]) groups → group_key p = group_key g → combine_groups p g = Ok c →
  grouped (front ++ [c]) (groups ++ [g]).
Proof.
  intros [Hs Hm Hc Hn] Hk Hok. rewrite Forall_app, Forall_singleton in Hm.
  destruct Hm as [Hfront Hp].
  destruct (combine_summarises _ _ _ _ Hok Hp) as (Hsum & Hck & Hcount).
  assert (Forall (λ m, klt (group_key m) (group_key p)) front) as Hlt.
  { apply Forall_forall. intros m Hin.
    apply (StronglySorted_app_1_elem_of _ _ _ _ p Hs Hin). by apply list_elem_of_singleton. }
  split.
  - apply StronglySorted_app_2; [|by eapply StronglySorted_app_1_l|by repeat constructor].
    intros a b Ha ->%list_elem_of_singleton. rewrite Hck. by eapply Forall_forall in Hlt.
  - rewrite Forall_app, Forall_singleton. split.
    + apply summaries_other; [done|]. eapply Forall_impl; [exact Hlt|]. intros m.
      rewrite <-Hk. apply klt_ne.
    + rewrite members_snoc, bool_decide_eq_true_2 by congruence. unfold members.
      by rewrite Hck.
  - eapply covered_snoc; [| |done]; setoid_rewrite elem_of_app.
    + intros m [Hin| ->%list_elem_of_singleton].
      * exists m. auto.
      * exists c. rewrite list_elem_of_singleton. auto.
    + exists c. rewrite list_elem_of_singleton, Hck. auto.
  - rewrite !sum_by_snoc in *. lia.
Qed.

Local Abbreviation in_order := (StronglySorted (λ l r, not_greater (aggregate_cmp l r) = true)).

(** The last key is the largest, and a key of the groups seen so far. *)
Lemma grouped_next front p groups g rest :
  grouped (front ++ [p]) groups → in_order (groups ++ g :: rest) →
  group_key p ≠ group_key g →
  Forall (λ m, klt (group_key m) (group_key g)) (front ++ [p]).
Proof.
  intros [Hs Hm _ _] Ho Hne. rewrite Forall_app, Forall_singleton in Hm. destruct Hm as [_ Hp].
  assert (klt (group_key p) (group_key g)) as Hlt.
  { destruct Hp as [_ _ [_ Hex] _ _]. apply Exists_exists in Hex as (h & Hh & _).
    apply list_elem_of_filter in Hh as [Hk Hh].
    pose proof (StronglySorted_app_1_elem_of _ _ _ _ g Ho Hh ltac:(by left)) as Hle.
    simpl in Hle. rewrite aggregate_cmp_key, Hk in Hle. unfold klt.
    destruct (kcmp _ _) eqn:E; [|done..]. by apply kcmp_eq in E. }
  rewrite Forall_app, Forall_singleton. split; [|done]. apply Forall_forall. intros m Hin.
  etransitivity; [|exact Hlt].
  apply (StronglySorted_app_1_elem_of _ _ _ _ p Hs Hin). by apply list_elem_of_singleton.
Qed.
Lemma merge_runs_grouped merged groups rest :
  grouped merged groups → in_order (groups ++ rest) →
  match merge_runs merged rest with
  | Ok r => grouped r (groups ++ rest)
  | Err _ => True
  | Panic => False
  end.
Proof.
  revert merged groups. induction rest as [|g rest IH]; intros merged groups Hg Ho;
    cbn [merge_runs]; [by rewrite app_nil_r|].
  replace (groups ++ g :: rest) with ((groups ++ [g]) ++ rest) in * by by rewrite <-app_assoc.
  destruct merged as [|p front _] using rev_ind.
  { simpl. apply (IH [g]); [|done]. by apply (grouped_push []). }
  rewrite last_snoc. destruct (same_group p g) eqn:E; cbn [negb].
  - apply same_group_key in E. destruct (combine_groups p g) as [c| |] eqn:Ec; [|done|].
    + cbn [mbind res_bind]. rewrite removelast_last. apply IH; [|done].
      by eapply grouped_combine.
    + exfalso. revert Ec. unfold combine_groups, add_or_fail, ok_or.
      repeat (destruct (checked_add_u64 _ _); cbn [mbind res_bind]);
        repeat (destruct (ag_total_bytes _); cbn [mbind res_bind]);
        repeat (destruct (checked_add_u64 _ _); cbn [mbind res_bind]); done.
  - apply IH; [|done]. apply grouped_push; [done|]. eapply grouped_next; [done| |].
    + rewrite <-app_assoc in Ho. exact Ho.
    + intros Hk%same_group_key. congruence.
Qed.

Lemma merge_aggregate_grouped groups :
  match merge_aggregate_groups groups with
  | Ok merged => grouped merged groups
  | Err _ => True
  | Panic => False
  end.
Proof.
  unfold merge_aggregate_groups.
  pose proof (sort_by_sorted (λ l r, not_greater (aggregate_cmp l r)) groups) as Hs.
  pose proof (merge_runs_grouped [] [] _ ltac:(by repeat constructor) Hs) as Hm.
  destruct (merge_runs _ _) as [merged| |]; [|done..]. cbn [app] in Hm.
  destruct Hm as [Ho Hsum Hc Hn]. split; [done| | |].
  - eapply Forall_impl; [exact Hsum|]. intros m Hm.
    assert (∀ l, members m l = filter (λ y, eqvb (λ l r, not_greater (aggregate_cmp l r)) m y = true) l)
      as Hmem.
    { intros l. apply list_filter_iff. intros h. unfold eqvb. rewrite !aggregate_cmp_key.
      rewrite (kcmp_anti (group_key m) (group_key h)).
      destruct (kcmp (group_key m) (group_key h)) eqn:E; simpl.
      - apply kcmp_eq in E. by rewrite E.
      - split; [|done]. intros Heq. by rewrite Heq, kcmp_refl in E.
      - split; [|done]. intros Heq. by rewrite Heq, kcmp_refl in E. }
    cbn beta in Hm. rewrite Hmem, sort_by_stable, <-Hmem in Hm; [done|apply _].
  - by rewrite sort_by_perm in Hc.
  - rewrite Hn. apply sum_by_perm, sort_by_perm.
Qed.
Lemma sum_counts_ok total groups r :
  sum_counts total groups = Ok r → r = total + sum_by ag_count groups.
Proof.
  revert total. induction groups as [|g groups IH]; intros total; cbn [sum_counts].
  - intros [= <-]. simpl. lia.
  - destruct (add_or_fail _ _ _) as [t| |] eqn:E; [|done..]. cbn [mbind res_bind].
    apply add_or_fail_ok in E as ->. intros ->%IH. simpl. lia.
Qed.

(** A summary of groups of one key keeps their activity, name and bytes. *)
Lemma grouped_named merged groups :
  grouped merged groups → Forall group_wf groups →
  Forall (λ m, ag_activity m = CuptiAggregateActivity.Kernel → is_Some (ag_name m)) merged.
Proof.
  intros [_ Hs _ _] Hwf. eapply Forall_impl; [exact Hs|]. intros m [_ _ [_ Hex] _ _] Hk.
  apply Exists_exists in Hex as (h & [Hkey Hh]%list_elem_of_filter & _).
  rewrite Forall_forall in Hwf. destruct (Hwf h Hh) as (_ & _ & Hname & _).
  unfold group_key in Hkey. injection Hkey as Ha Hn _ _. rewrite <-Hn. apply Hname.
  rewrite Hk in Ha. by destruct (ag_activity h).
Qed.

(** The inventory of a decoded aggregate capture is exact: it is reported only for a
    stopped capture that dropped nothing, and then lists every combination of activity,
    name, device and copy kind of the agent's table once, in order, with the sum of the
    counts, durations and bytes and the extreme durations of all its slots, and the counts
    add up to the activities the agent observed.  It never panics. *)
Theorem aggregate_inventory_exact (bytes : list Z) (session_id : string) (capture : CuptiCapture)
    (options : MeasureOptions) (Hbytes : Forall is_byte bytes)
    (Hdecoded : decode_capture bytes session_id = Ok capture) :
  aggregate_inventory_result capture options ≠ Panic
  ∧ ∀ r, aggregate_inventory_result capture options = Ok r →
      cc_state capture = CuptiCaptureState.Stopped ∧ cc_dropped_records capture = 0
      ∧ ∃ merged, grouped merged (cc_aggregate_groups capture)
          ∧ Forall2 (λ m g, protocol_aggregate_group m = Ok g) merged (air_groups r)
          ∧ sum_by ag_count (cc_aggregate_groups capture) = cc_observed_records capture
          ∧ acs_grouped_activities (air_collection r) = cc_observed_records capture
          ∧ acs_groups (air_collection r) = len (air_groups r).
Proof.
  destruct (decode_capture_ok _ _ _ Hbytes Hdecoded) as (_ & Hwf & _).
  unfold aggregate_inventory_result.
  destruct (validate_aggregate_capture capture) as [[]| |] eqn:Ev; cycle 1; [done| |].
  { exfalso. revert Ev. unfold validate_aggregate_capture.
    repeat match goal with |- context [if ?b then _ else _] => destruct b; [done|] end. done. }
  assert (cc_state capture = CuptiCaptureState.Stopped ∧ cc_dropped_records capture = 0)
    as [Hstate Hdropped].
  { revert Ev. unfold validate_aggregate_capture. destruct (_ == _); [done|].
    destruct (negb (cc_state capture == _)) eqn:Es; [done|]. cbn [orb].
    destruct (negb (cc_stop_reason capture == _)); [done|].
    destruct (Z.eqb_spec (cc_dropped_records capture) 0);
      cbn [negb]; [|done]. intros _. split; [|done]. apply negb_false_iff in Es. by apply bool_decide_eq_true in Es. }
  pose proof (merge_aggregate_grouped (cc_aggregate_groups capture)) as Hm.
  cbn [mbind res_bind]. destruct (merge_aggregate_groups _) as [merged| |]; [|done..].
  cbn [mbind res_bind]. destruct (sum_counts 0 merged) as [total| |] eqn:Et; [|done|].
  2: { exfalso. revert Et. generalize 0. clear. induction merged as [|g merged IH]; intros z;
         cbn [sum_counts]; [done|]. unfold add_or_fail. destruct (checked_add_u64 _ _); [|done].
       apply IH. }
  cbn [mbind res_bind]. apply sum_counts_ok in Et.
  destruct (Z.eqb_spec total (cc_observed_records capture)) as [Htotal|]; [|done].
  cbn [negb]. pose proof (grouped_named _ _ Hm Hwf) as Hnames.
  destruct (res_mapM protocol_aggregate_group merged) as [groups| |] eqn:Eg.
  - split; [done|]. intros r [= <-]. split_and!; [done..|]. exists merged. simpl.
    apply res_mapM_Forall2 in Eg. pose proof (Forall2_length _ _ _ Eg) as Hl.
    destruct Hm as [Ho Hs Hc Hn]. split_and!; [done..|lia|done|unfold len; lia].
  - done.
  - exfalso. revert Eg. apply res_mapM_no_panic. eapply Forall_impl; [exact Hnames|].
    intros m Hname. unfold protocol_aggregate_group, aggregate_selector_hints.
    destruct (ag_activity m) eqn:Ea; [|by destruct (ag_memcpy_kind m) as [[]|]|done].
    destruct (Hname Ea) as [name ->]. done.
Qed.

(** ** The hints select the group *)
Lemma escape_special c :
  contains_char c "\.^$|?*+()[]{}" = true → is_ascii_alphanumeric c = false.
Proof. by destruct c as [[] [] [] [] [] [] [] []]; vm_compute. Qed.
Lemma escape_plain c :
  contains_char c "\.^$|?*+()[]{}" = false →
  (c == backslash) = false ∧ contains_char c ".+*?()|[]{}^$" = false.
Proof. by destruct c as [[] [] [] [] [] [] [] []]; vm_compute. Qed.
Lemma regex_literal_escape name : regex_literal (escape_selector_regex name) = Some name.
Proof.
  induction name as [|c name IH]; [done|]. cbn [escape_selector_regex].
  destruct (contains_char c "\.^$|?*+()[]{}") eqn:E.
  - cbn [regex_literal]. rewrite bool_decide_eq_true_2 by done.
    rewrite (escape_special c E), IH. done.
  - destruct (escape_plain c E) as [Hb Hc]. cbn [regex_literal]. by rewrite Hb, Hc, IH.
Qed.
Lemma regex_literal_app a la b :
  regex_literal a = Some la → regex_literal (a +:+ b) = (λ lb, la +:+ lb) <$> regex_literal b.
Proof.
  revert la. induction a as [a IH] using (induction_ltof1 _ String.length). intros la.
  destruct a as [|c a]; cbn [regex_literal String.append]; [intros [= <-]; by destruct (regex_literal b)|].
  destruct (c == backslash).
  - destruct a as [|d a]; [done|]. cbn [String.append]. destruct (is_ascii_alphanumeric d); [done|].
    intros (l & Hl & ->)%fmap_Some. rewrite (IH a) with (la := l); [|unfold ltof; simpl; lia|done].
    by destruct (regex_literal b).
  - destruct (contains_char c _); [done|]. intros (l & Hl & ->)%fmap_Some.
    rewrite (IH a) with (la := l); [|unfold ltof; simpl; lia|done]. by destruct (regex_literal b).
Qed.
(** Escaped text never ends in an operator. *)
Lemma escape_no_suffix name suffix :
  regex_literal suffix = None →
  strip_suffix suffix (escape_selector_regex name) ≫= regex_literal = None.
Proof.
  intros Hs. destruct (strip_suffix suffix _) as [inner|] eqn:E; [|done].
  apply strip_suffix_Some in E. cbn [mbind option_bind].
  destruct (regex_literal inner) as [l|] eqn:El; [|done]. exfalso.
  pose proof (regex_literal_app inner l suffix El) as Ha.
  rewrite <-E, regex_literal_escape, Hs in Ha. done.
Qed.

Local Abbreviation fits name := (is_empty name = false ∧ str_len name < CUPTI_NAME_CAPACITY).

Lemma exact_hint_filter name :
  fits name →
  bounded_kernel_name_filter ("^" +:+ escape_selector_regex name +:+ "$")
  = CuptiNameFilter.Exact name.
Proof.
  intros [He Hl]. unfold bounded_kernel_name_filter. rewrite bool_decide_eq_false_2 by done.
  unfold filter_candidates. cbn [find_map]. rewrite strip_prefix_app. cbn [mbind option_bind].
  rewrite strip_suffix_app. cbn [mbind option_bind]. rewrite regex_literal_escape.
  cbn [mbind option_bind]. rewrite He. by rewrite (proj2 (Z.leb_gt _ _) Hl).
Qed.
Lemma prefix_hint_filter name :
  fits name →
  bounded_kernel_name_filter ("^" +:+ escape_selector_regex name +:+ "")
  = CuptiNameFilter.Prefix name.
Proof.
  intros [He Hl]. unfold bounded_kernel_name_filter. rewrite bool_decide_eq_false_2 by done.
  assert (escape_selector_regex name +:+ "" = escape_selector_regex name)%string as ->
    by apply string_app_nil_r.
  assert (∀ A suffix (f : string → option A), regex_literal suffix = None →
    (inner ← strip_suffix suffix (escape_selector_regex name); literal ← regex_literal inner;
     f literal) = None) as Hskip.
  { intros A suffix f Hs. pose proof (escape_no_suffix name suffix Hs) as Hn.
    destruct (strip_suffix suffix _) as [inner|]; [|done]. cbn [mbind option_bind] in *.
    by rewrite Hn. }
  unfold filter_candidates. cbn [find_map]. rewrite strip_prefix_app. cbn [mbind option_bind].
  rewrite !Hskip by done.
  assert (strip_prefix ".*" ("^" +:+ escape_selector_regex name) = None) as -> by done.
  assert (strip_suffix "" (escape_selector_regex name) = Some (escape_selector_regex name)) as ->
    by (rewrite <-(string_app_nil_r (escape_selector_regex name)) at 1; apply strip_suffix_app).
  cbn [mbind option_bind]. rewrite regex_literal_escape. cbn [mbind option_bind].
  rewrite He. by rewrite (proj2 (Z.leb_gt _ _) Hl).
Qed.

(** The filter for one end of the activities of a group. *)
Definition group_filter (group : CuptiAggregateGroup) (start : bool) : CuptiEventFilter :=
  BuildCuptiEventFilter
    match ag_activity group with
    | CuptiAggregateActivity.Kernel =>
        if start then CuptiRecordKind.GpuKernelStart else CuptiRecordKind.GpuKernelEnd
    | CuptiAggregateActivity.Memcpy =>
        if start then CuptiRecordKind.GpuMemcpyStart else CuptiRecordKind.GpuMemcpyEnd
    | CuptiAggregateActivity.Memset =>
        if start then CuptiRecordKind.GpuMemsetStart else CuptiRecordKind.GpuMemsetEnd
    end CuptiApiDomain.Any (memcpy_kind_filter (ag_memcpy_kind group))
    match ag_name group with
    | Some name =>
        if ag_name_complete group == Some true then CuptiNameFilter.Exact name
        else CuptiNameFilter.Prefix name
    | None => CuptiNameFilter.Any
    end.

Lemma kernel_hint_parses pattern regex :
  Regex_new pattern = Ok regex → is_empty pattern = false →
  parse_cuda_selector ("cuda:kernel_start:name~" +:+ pattern)
    = Ok (cuda_selector EventType.GpuKernelStart (Some pattern) None None, EndpointKind.Kernel, true)
  ∧ parse_cuda_selector ("cuda:kernel_end:name~" +:+ pattern)
    = Ok (cuda_selector EventType.GpuKernelEnd (Some pattern) None None, EndpointKind.Kernel, true).
Proof.
  intros Hr He. unfold parse_cuda_selector.
  assert (splitn 3 ":" ("cuda:kernel_start:name~" +:+ pattern)
    = ["cuda"; "kernel_start"; "name~" +:+ pattern])%string as -> by done.
  assert (splitn 3 ":" ("cuda:kernel_end:name~" +:+ pattern)
    = ["cuda"; "kernel_end"; "name~" +:+ pattern])%string as -> by done.
  unfold parse_kernel_selector. cbn [lookup list_lookup or_panic mbind res_bind].
  rewrite strip_prefix_app. simpl. rewrite He, Hr. done.
Qed.

Lemma none_unless {A} (o : option A) (P : Prop) : (P ↔ is_Some o) → ¬ P → o = None.
Proof. destruct o; [|done]. intros HP Hn. destruct Hn. apply HP. by eexists. Qed.

End aggregate.
