(* ===== verification/Agent.v ===== *)
(** * The state of the CUPTI agent

    What the parts of [cupti/src/cupti_agent.c] share: the status of a capture,
    names and their buffers, the filters that are armed, and the header of what
    is sent to the collector.  The tables are in [AgentAggregate], [AgentRecords]
    and [AgentNvtx]. *)
From S2P Require Import Prelude BTree RustString Text Bytes Protocol Selector.
From S2P Require Import Os Process Inspect Resolve Usdt Syscalls Validate Cupti CuptiFilter.
From S2P Require Import Session.
#[local] Open Scope Z_scope.

(** [enum xprobe_cupti_agent_status], [xprobe_cupti_capture_state] and
    [xprobe_cupti_stop_reason]. *)
Definition AGENT_READY : Z := 0.
Definition AGENT_UNAVAILABLE : Z := 1.
Definition AGENT_CUPTI_ERROR : Z := 2.
Definition AGENT_OUTPUT_ERROR : Z := 3.
Definition CAPTURE_IDLE : Z := 0.
Definition CAPTURE_ACTIVE : Z := 1.
Definition CAPTURE_LIMIT_REACHED : Z := 2.
Definition CAPTURE_STOPPED : Z := 3.
Definition CAPTURE_FAILED : Z := 4.
Definition STOP_NONE : Z := 0.
Definition STOP_REQUESTED : Z := 1.
Definition STOP_RECORD_LIMIT : Z := 2.
Definition STOP_CUPTI_ERROR : Z := 3.
Definition STOP_OUTPUT_ERROR : Z := 4.

(** The variables [agent_status], [capture_state] and [stop_reason]. *)
Record AgentStatus := BuildAgentStatus {
  sta_agent_status : Z;
  sta_capture_state : Z;
  sta_stop_reason : Z }.
Definition set_agent_status (value : Z) (s : AgentStatus) : AgentStatus :=
  BuildAgentStatus value (sta_capture_state s) (sta_stop_reason s).
Definition set_capture_state (value : Z) (s : AgentStatus) : AgentStatus :=
  BuildAgentStatus (sta_agent_status s) value (sta_stop_reason s).
Definition set_stop_reason (value : Z) (s : AgentStatus) : AgentStatus :=
  BuildAgentStatus (sta_agent_status s) (sta_capture_state s) value.
Definition remember_output_error (s : AgentStatus) : AgentStatus :=
  set_stop_reason STOP_OUTPUT_ERROR
    (set_capture_state CAPTURE_FAILED (set_agent_status AGENT_OUTPUT_ERROR s)).
(** The stores at the end of [reset_capture] and of [activate_capture]. *)
Definition reset_status (s : AgentStatus) : AgentStatus :=
  set_stop_reason STOP_NONE (set_capture_state CAPTURE_IDLE s).
Definition activate_status (s : AgentStatus) : AgentStatus :=
  set_capture_state CAPTURE_ACTIVE (set_agent_status AGENT_READY s).
(** The end of [stop_capture], with the status that flushing and shutting down returned. *)
Definition mark_stopped (status : Z) (s : AgentStatus) : AgentStatus :=
  if (status =? AGENT_READY) && (sta_capture_state s =? CAPTURE_ACTIVE) then
    set_stop_reason STOP_REQUESTED (set_capture_state CAPTURE_STOPPED s)
  else s.

(** ** Interleavings

    Callbacks of CUPTI run on threads of their own and share the agent's tables through
    atomic operations.  [step] does the next operation of a call, from where the call is to
    where it is then; a weak exchange may fail when told to.  A schedule says which call
    makes each step, so that the schedules are all interleavings of the calls. *)
Section interleaving.
Context {A P T : Type} (step : bool → A → P → T → P * T).

Definition run_turn (c : T * list (A * P)) (turn : nat * bool) : T * list (A * P) :=
  let '(t, calls) := c in
  match calls !! turn.1 with
  | None => c
  | Some (a, pc) =>
      let '(pc, t) := step turn.2 a pc t in
      (t, <[turn.1 := (a, pc)]> calls)
  end.
Definition interleave (schedule : list (nat * bool)) (c : T * list (A * P)) : T * list (A * P) :=
  foldl run_turn c schedule.

(** What every step keeps holds after every schedule. *)
Lemma interleave_ind (I : T → list (A * P) → Prop) schedule c :
  (∀ spurious t calls j a pc pc' t', I t calls → calls !! j = Some (a, pc) →
     step spurious a pc t = (pc', t') → I t' (<[j := (a, pc')]> calls)) →
  I c.1 c.2 → I (interleave schedule c).1 (interleave schedule c).2.
Proof.
  intros Hstep. unfold interleave. revert c.
  induction schedule as [|turn schedule IH]; intros c Hc; [done|]. simpl. apply IH.
  destruct c as [t calls]. unfold run_turn. destruct (calls !! turn.1) as [[a pc]|] eqn:E; [|done].
  destruct (step _ _ _ _) as [pc' t'] eqn:Es. by eapply Hstep.
Qed.
Lemma interleave_args schedule c : (interleave schedule c).2.*1 = c.2.*1.
Proof.
  apply (interleave_ind (λ _ calls, calls.*1 = c.2.*1)); [|done].
  intros spurious t calls j a pc pc' t' <- Hj _. rewrite list_fmap_insert.
  apply list_insert_id. by rewrite list_lookup_fmap, Hj.
Qed.

(** A call that runs alone ends when every step of it lowers a bound. *)
Section alone.
Context (left : T → P → Z) (final : P → Prop).
Context (Hzero : ∀ t pc, left t pc ≤ 0 → final pc).
Context (Hlower : ∀ a pc t pc' t',
  step false a pc t = (pc', t') → left t' pc' < left t pc ∨ final pc).
Context (Hstays : ∀ a pc t pc' t', final pc → step false a pc t = (pc', t') → pc' = pc).

Lemma alone_ends n j a pc t calls :
  calls !! j = Some (a, pc) → left t pc ≤ Z.of_nat n ∨ final pc →
  ∃ pc' t', interleave (replicate n (j, false)) (t, calls) = (t', <[j := (a, pc')]> calls)
    ∧ final pc'.
Proof using Hzero Hlower Hstays.
  revert pc t calls. induction n as [|n IH]; intros pc t calls Hj Hleft.
  - exists pc, t. rewrite list_insert_id by done. split; [done|].
    destruct Hleft as [Hleft|?]; [|done]. by apply (Hzero t).
  - cbn [replicate]. unfold interleave in *. cbn [foldl]. unfold run_turn at 2. cbn [fst snd].
    rewrite Hj. destruct (step false a pc t) as [pc1 t1] eqn:E.
    destruct (IH pc1 t1 (<[j := (a, pc1)]> calls)) as (pc' & t' & Hrun & Hf).
    { apply list_lookup_insert_eq. by eapply lookup_lt_Some. }
    { assert (final pc → final pc1) as Hkeep by (intros Hf; by rewrite (Hstays _ _ _ _ _ Hf E)).
      destruct Hleft as [Hleft|?]; [|auto]. destruct (Hlower _ _ _ _ _ E); [left; lia|auto]. }
    exists pc', t'. by rewrite Hrun, list_insert_insert_eq.
Qed.
End alone.
End interleaving.

(** ** Names

    A [const char *] is its bytes before the terminating NUL, or nothing for
    NULL; a buffer of 128 bytes is the list of all of them. *)
Abbreviation c_string := (option (list Z)).
Definition copy_name (destination : list Z) (source : c_string) : list Z :=
  match source with
  | None => 0 :: drop 1 destination
  | Some source =>
      let name := take 127 source in
      name ++ 0 :: drop (S (length name)) destination
  end.

(** The position of the lead byte of the character that ends at [index]. *)
Fixpoint nvtx_lead (destination : list Z) (index : nat) : nat :=
  match index with
  | O => O
  | S before =>
      if Z.land (default 0 (destination !! before)) 192 =? 128
      then nvtx_lead destination before else index
  end.
(** The number of bytes of the character that starts with [first]. *)
Definition nvtx_expected (first : Z) : nat :=
  if Z.land first 224 =? 192 then 2%nat
  else if Z.land first 240 =? 224 then 3%nat
  else if Z.land first 248 =? 240 then 4%nat
  else 1%nat.
(** How many bytes of a name that was cut off at [index] are kept. *)
Definition nvtx_cut (destination : list Z) (index : nat) : nat :=
  match nvtx_lead destination index with
  | O => index
  | S lead =>
      let first := default 0 (destination !! lead) in
      if (index - lead <? nvtx_expected first)%nat then lead else index
  end.
Definition copy_nvtx_name (destination : list Z) (source : c_string) : list Z * Z :=
  match source with
  | None => (0 :: drop 1 destination, 1)
  | Some source =>
      let name := take 127 source in
      let complete := (length source <=? 127)%nat in
      let destination := name ++ drop (length name) destination in
      let index := if complete then length name else nvtx_cut destination (length name) in
      (<[index := 0]> destination, Z.b2z complete)
  end.

(** ** Hashes *)
(** [hash ^= byte; hash *= 1099511628211ULL] for every byte. *)
Definition fnv (hash : Z) (bytes : list Z) : Z :=
  foldl (λ hash byte, (Z.lxor hash byte * 1099511628211) mod 2 ^ 64) hash bytes.
Lemma fnv_range hash bytes : 0 ≤ hash < 2 ^ 64 → 0 ≤ fnv hash bytes < 2 ^ 64.
Proof.
  unfold fnv. revert hash. induction bytes as [|b l IH]; intros hash Hh; [done|].
  apply IH, Z.mod_pos_bound. lia.
Qed.

(** ** Filters *)
Definition values_match_capture (enabled : bool) (filters : list xprobe_cupti_filter)
    (first_kind second_kind api_domain memcpy_kind : Z) (name : c_string) : bool :=
  if negb enabled then true
  else
    existsb (λ filter,
      filter_matches_values filter first_kind api_domain memcpy_kind (default [] name)
      || (negb (second_kind =? 0)
          && filter_matches_values filter second_kind api_domain memcpy_kind (default [] name)))
      filters.
Definition valid_filter (filter : xprobe_cupti_filter) : bool :=
  if (10 <? xf_record_kind filter) || (2 <? xf_api_domain filter) || (5 <? xf_memcpy_kind filter)
     || (4 <? xf_name_match filter) then false
  else (xf_name_match filter =? 0) || (bounded_name_length (xf_name filter) <? 128).
Definition valid_aggregate_filters (first second : xprobe_cupti_filter) : bool :=
  let start := xf_record_kind first in
  let finish := xf_record_kind second in
  if negb (((start =? 3) && (finish =? 4)) || ((start =? 5) && (finish =? 6))
           || ((start =? 7) && (finish =? 8))) then false
  else
    (xf_api_domain first =? xf_api_domain second) && (xf_memcpy_kind first =? xf_memcpy_kind second)
    && (xf_name_match first =? xf_name_match second)
    && memcmp_eq (xf_name first) (xf_name second) 128.
(** The checks of [arm_capture] on a request: whether it is refused as invalid, and
    whether NVTX ranges are needed. *)
Definition arm_refused (request : xprobe_cupti_control_request) : bool :=
  negb (forallb valid_filter (xr_filters request))
  || ((xr_capture_mode request =? 1)
      && match xr_filters request with
         | [first; second] => negb (valid_aggregate_filters first second)
         | _ => true
         end).
Definition arm_needs_nvtx (request : xprobe_cupti_control_request) : bool :=
  existsb (λ filter, (xf_record_kind filter =? 9) || (xf_record_kind filter =? 10))
    (xr_filters request).
Definition capture_needs_record_kind (enabled : bool) (filters : list xprobe_cupti_filter)
    (first_kind second_kind : Z) : bool :=
  if negb enabled then true
  else existsb (λ filter, (xf_record_kind filter =? first_kind)
                          || (xf_record_kind filter =? second_kind)) filters.

(** The check on the capacity in [allocate_capture]; the structures take 200, 1, 192 and 160
    bytes and sizes are of 64 bits. *)
Definition capacity_refused (capture_mode capacity : Z) (needs_nvtx : bool) : bool :=
  (capacity =? 0) || (u64_max / 200 <? capacity) || (u64_max / 1 <? capacity)
  || ((capture_mode =? 1) && (u64_max / 192 <? capacity))
  || (needs_nvtx && (u64_max / 160 <? capacity)).

(** ** Times *)
Definition normalize_activity_timestamp (offset timestamp_ns : Z) : Z :=
  if offset <? 0 then (timestamp_ns - - offset) mod 2 ^ 64 else (timestamp_ns + offset) mod 2 ^ 64.
Definition activity_started_during_capture (offset capture_start timestamp_ns : Z) : bool :=
  negb (timestamp_ns =? 0) && (capture_start <=? normalize_activity_timestamp offset timestamp_ns).

(** ** The header of an answer *)

(** [struct xprobe_cupti_output_header]. *)
Record xprobe_cupti_output_header := Build_xprobe_cupti_output_header {
  oh_magic : list Z;
  oh_abi_version : Z;
  oh_header_size : Z;
  oh_record_size : Z;
  oh_feature_flags : Z;
  oh_capture_state : Z;
  oh_stop_reason : Z;
  oh_record_count : Z;
  oh_record_capacity : Z;
  oh_observed_records : Z;
  oh_agent_dropped_records : Z;
  oh_cupti_dropped_records : Z;
  oh_unknown_records : Z;
  oh_record_offset : Z }.
Definition output_fields (h : xprobe_cupti_output_header) : list (nat * Z) :=
  [(4, oh_abi_version h); (4, oh_header_size h); (4, oh_record_size h); (4, oh_feature_flags h);
   (4, oh_capture_state h); (4, oh_stop_reason h); (8, oh_record_count h);
   (8, oh_record_capacity h); (8, oh_observed_records h); (8, oh_agent_dropped_records h);
   (8, oh_cupti_dropped_records h); (8, oh_unknown_records h); (8, oh_record_offset h)]%nat.
Definition output_encode (h : xprobe_cupti_output_header) : list Z :=
  oh_magic h ++ encode_layout (output_fields h).

(** What the header says beside the table: [record_capacity] and the counters. *)
Record AgentCounters := BuildAgentCounters {
  cn_record_capacity : Z;
  cn_agent_dropped : Z;
  cn_cupti_dropped : Z;
  cn_unknown : Z }.
Definition feature_flags (aggregate nvtx_active host_monotonic : bool) : Z :=
  let flags := FEATURE_TRANSFER_RECORDS in
  let flags := if nvtx_active then Z.lor flags FEATURE_NVTX_RECORDS else flags in
  if aggregate then Z.lor flags FEATURE_AGGREGATE_RECORDS
  else if host_monotonic then Z.lor flags FEATURE_HOST_MONOTONIC_TIMESTAMPS else flags.
(** [initialize_output_header], after the observed records were counted. *)
Definition initialize_output_header (flags : Z) (status : AgentStatus) (counters : AgentCounters)
    (observed available record_offset : Z) : xprobe_cupti_output_header :=
  Build_xprobe_cupti_output_header OUTPUT_MAGIC ABI_VERSION 88 200 flags (sta_capture_state status)
    (sta_stop_reason status) ((available - record_offset) mod 2 ^ 64) (cn_record_capacity counters)
    observed (cn_agent_dropped counters) (cn_cupti_dropped counters) (cn_unknown counters)
    record_offset.

(** ** Names as the collector reads them *)

(** The bytes of a C string: none is NUL. *)
Definition c_string_wf (s : c_string) : Prop :=
  Forall (λ b, is_byte b ∧ b ≠ 0) (default [] s).
(** What is left of a name in a buffer. *)
Definition short_name (s : c_string) : list Z := take 127 (default [] s).

Lemma short_name_wf s : c_string_wf s → Forall (λ b, is_byte b ∧ b ≠ 0) (short_name s).
Proof. apply Forall_take. Qed.
Lemma copy_name_length destination source :
  length destination = 128%nat → length (copy_name destination source) = 128%nat.
Proof.
  intros Hd. destruct source as [source|]; cbn [copy_name].
  - rewrite length_app. cbn [length]. rewrite length_drop, Hd.
    pose proof (length_take source 127). lia.
  - cbn [length]. rewrite length_drop. lia.
Qed.
Lemma copy_name_read destination source :
  c_string_wf source → until_nul (copy_name destination source) = short_name source.
Proof.
  intros Hs. unfold copy_name, short_name. destruct source as [source|]; [|done].
  apply until_nul_stop, Forall_take. eapply Forall_impl; [exact Hs|]. by intros b [_ ?].
Qed.
Lemma copy_name_bytes destination source :
  c_string_wf source → Forall is_byte destination → Forall is_byte (copy_name destination source).
Proof.
  intros Hs Hd. assert (is_byte 0) by done. destruct source as [source|]; cbn [copy_name].
  - rewrite Forall_app, Forall_cons. split_and!; [|done|by apply Forall_drop].
    apply Forall_take. eapply Forall_impl; [exact Hs|]. by intros b [? _].
  - constructor; [done|]. by apply Forall_drop.
Qed.

(** ** The header is read back *)
Section header.
Context `{SerdeJson}.

Lemma chunks_exact_concat n fuel chunks :
  (0 < n)%nat → Forall (λ chunk, length chunk = n) chunks →
  (length chunks <= fuel)%nat → chunks_exact fuel n (concat chunks) = chunks.
Proof.
  intros Hn Hall. revert fuel. induction Hall as [|chunk chunks Hc Hall IH]; intros fuel Hf.
  - destruct fuel; [done|]. cbn [concat chunks_exact length].
    by rewrite (proj2 (Nat.leb_gt _ _)) by lia.
  - destruct fuel as [|fuel]; [simpl in Hf; lia|]. cbn [concat chunks_exact].
    rewrite (proj2 (Nat.leb_le _ _)) by (rewrite length_app; lia).
    rewrite <-Hc, take_app_length, drop_app_length, Hc.
    f_equal. apply IH. simpl in Hf. lia.
Qed.
Lemma record_chunks_written h chunks :
  len (oh_magic h) = 8 → Forall (λ chunk, length chunk = 200%nat) chunks →
  record_chunks (output_encode h ++ concat chunks) = chunks.
Proof.
  intros Hm Hall. unfold record_chunks.
  assert (length (output_encode h) = 88%nat) as Hl.
  { unfold output_encode. rewrite length_app. pose proof (encode_layout_len (output_fields h)).
    unfold len in *. change (layout_size (output_fields h)) with 80 in *. lia. }
  rewrite (drop_app_length' _ _ 88) by done. apply chunks_exact_concat; [lia|done|].
  rewrite length_app. clear Hl. induction Hall as [|c l Hc _ IH]; simpl; [lia|].
  rewrite length_app. lia.
Qed.

(** A header that says what follows it. *)
Definition header_ok (h : xprobe_cupti_output_header) (records : Z) : Prop :=
  oh_magic h = OUTPUT_MAGIC ∧ oh_abi_version h = ABI_VERSION ∧ oh_header_size h = 88
  ∧ oh_record_size h = 200 ∧ layout_wf (output_fields h)
  ∧ Z.ldiff (oh_feature_flags h) SUPPORTED_FEATURES = 0
  ∧ oh_record_count h = records ∧ oh_record_offset h + records ≤ oh_record_capacity h
  ∧ oh_record_offset h + records ≤ oh_observed_records h
  ∧ oh_record_capacity h * 200 + 88 ≤ u64_max
  ∧ oh_agent_dropped_records h + oh_cupti_dropped_records h ≤ u64_max
  ∧ (has_feature (oh_feature_flags h) FEATURE_AGGREGATE_RECORDS = true → oh_record_offset h = 0).

Lemma output_len h chunks :
  len (oh_magic h) = 8 → Forall (λ chunk, length chunk = 200%nat) chunks →
  len (output_encode h ++ concat chunks) = 88 + 200 * len chunks.
Proof.
  intros Hmagic Hall. assert (len (concat chunks) = 200 * len chunks) as Hlen.
  { clear -Hall. induction Hall as [|c l Hc _ IH]; [done|]. cbn [concat].
    rewrite len_app, IH, len_cons. unfold len at 1. lia. }
  unfold output_encode. rewrite !len_app, encode_layout_len, Hmagic, Hlen.
  change (layout_size (output_fields h)) with 80. lia.
Qed.
(** Each field of the header is where the collector reads it. *)
Lemma output_field h rest i n z a b :
  len (oh_magic h) = 8 → output_fields h !! i = Some (n, z) → layout_wf (output_fields h) →
  a = 8 + layout_size (take i (output_fields h)) → b = a + Z.of_nat n →
  field (output_encode h ++ rest) a b = Some z.
Proof.
  intros Hmagic Hi Hwf -> ->. unfold output_encode. rewrite <-app_assoc, <-Hmagic.
  by eapply layout_field_mid.
Qed.
Lemma header_numbers h : layout_wf (output_fields h) →
  0 ≤ oh_record_offset h ∧ 0 ≤ oh_agent_dropped_records h ∧ 0 ≤ oh_cupti_dropped_records h.
Proof. intros Hwf. unfold layout_wf, output_fields in Hwf. rewrite !Forall_cons in Hwf. lia. Qed.

Lemma decode_capture_written h chunks session_id state reason :
  header_ok h (len chunks) → Forall (λ chunk, length chunk = 200%nat) chunks →
  decode_capture_state (oh_capture_state h) = Ok state →
  decode_stop_reason (oh_stop_reason h) = Ok reason →
  decode_capture (output_encode h ++ concat chunks) session_id
  = payload ← decode_payload (output_encode h ++ concat chunks) (oh_record_offset h) session_id
      (oh_feature_flags h);
    let '(events, groups) := payload : list Event * list CuptiAggregateGroup in
    Ok (BuildCuptiCapture (has_feature (oh_feature_flags h) FEATURE_NVTX_RECORDS)
          (oh_record_offset h) state reason (oh_record_capacity h) (oh_observed_records h)
          (oh_agent_dropped_records h) (oh_cupti_dropped_records h)
          (oh_agent_dropped_records h + oh_cupti_dropped_records h) (oh_unknown_records h)
          events groups).
Proof.
  intros (Hmagic & Habi & Hhs & Hrs & Hwf & Hflags & Hcount & Hcap & Hobs & Hfit & Hdrop & Hoff)
    Hall Hstate Hreason.
  assert (len (oh_magic h) = 8) as Hm by by rewrite Hmagic.
  assert (0 ≤ len chunks) by apply len_nonneg. destruct (header_numbers h Hwf) as (? & ? & ?).
  unfold decode_capture. rewrite (output_len h chunks Hm Hall).
  rewrite (proj2 (Z.ltb_ge _ _)) by (unfold HEADER_SIZE; lia).
  set (bytes := output_encode h ++ concat chunks) in *.
  assert (∀ i n z a b, output_fields h !! i = Some (n, z) →
    a = 8 + layout_size (take i (output_fields h)) → b = a + Z.of_nat n →
    field bytes a b = Some z) as Hf by (intros; by eapply output_field).
  assert (slice bytes 0 8 = Some OUTPUT_MAGIC) as ->.
  { unfold bytes, output_encode. rewrite <-app_assoc, Hmagic. by apply (slice_app []). }
  cbn [or_panic mbind res_bind]. rewrite (bool_decide_eq_true_2 (OUTPUT_MAGIC = _)) by done.
  unfold read_u32, read_u64. cbn [negb].
  let get i a n := (rewrite (Hf i _ _ a (a + n) eq_refl eq_refl eq_refl)) in
  get 0%nat 8 4; get 1%nat 12 4; get 2%nat 16 4; get 3%nat 20 4; get 4%nat 24 4;
  get 5%nat 28 4; get 6%nat 32 8; get 7%nat 40 8; get 8%nat 48 8; get 9%nat 56 8;
  get 10%nat 64 8; get 11%nat 72 8; get 12%nat 80 8.
  clear Hf. clearbody bytes. cbn [or_panic mbind res_bind].
  rewrite Habi, Hhs, Hrs, Hflags, Hstate, Hreason, Hcount.
  change (negb (ABI_VERSION =? ABI_VERSION)) with false.
  change (negb (88 =? HEADER_SIZE)) with false. change (negb (200 =? RECORD_SIZE)) with false.
  change (negb (0 =? 0)) with false. cbv iota. cbn [mbind res_bind].
  assert (∀ a b, 0 ≤ a → 0 ≤ b → a + b ≤ u64_max → checked_add_u64 a b = Some (a + b)) as Hadd.
  { intros a b ? ? ?. unfold checked_add_u64. by rewrite (proj2 (Z.leb_le _ _)) by lia. }
  rewrite (Hadd (oh_record_offset h)) by lia. cbn [ok_or mbind res_bind].
  rewrite !(proj2 (Z.ltb_ge _ _)) by lia. cbn [orb].
  assert (checked_mul_u64 (len chunks) RECORD_SIZE = Some (200 * len chunks)) as ->.
  { unfold checked_mul_u64, RECORD_SIZE. rewrite (proj2 (Z.leb_le _ _)) by lia. f_equal. lia. }
  cbn [ok_or mbind res_bind]. rewrite (Hadd HEADER_SIZE) by (unfold HEADER_SIZE; lia).
  cbn [ok_or mbind res_bind]. unfold HEADER_SIZE. rewrite Z.eqb_refl. cbn [negb].
  destruct (has_feature (oh_feature_flags h) FEATURE_AGGREGATE_RECORDS) eqn:Ea; cbn [andb].
  1: rewrite (Hoff eq_refl). 1: cbn [Z.eqb negb].
  all: destruct (decode_payload _ _ _ _) as [[events groups]| |]; [|done..];
    cbn [mbind res_bind];
    by rewrite Hadd by lia.
Qed.
End header.

(** ** Requests of the collector are accepted *)
Section requests.
Context `{SerdeJson} `{!RegexEngine} `{!Os} `{!ObjectCrate} `{!NoteParser}.

Lemma filter_struct_valid f : filter_fits f → valid_filter (filter_struct f) = true.
Proof.
  intros Hfit. pose proof (filter_struct_wf f Hfit) as [_ Hlen]. destruct Hfit as [Hl Hnul].
  unfold valid_filter, filter_struct in *.
  assert (∃ m name, name_filter (cf_name f) = (m, name) ∧ 0 ≤ m ≤ 4) as (m & name & Hn & Hm).
  { destruct (cf_name f); eexists _, _; (split; [reflexivity|lia]). }
  rewrite Hn in *. cbn [snd xf_record_kind xf_api_domain xf_memcpy_kind xf_name_match xf_name] in *.
  assert (record_kind_u32 (cf_record_kind f) ≤ 10) by (destruct (cf_record_kind f); simpl; lia).
  assert (api_domain_u32 (cf_api_domain f) ≤ 2) by (destruct (cf_api_domain f); simpl; lia).
  assert (memcpy_kind_u32 (cf_memcpy_kind f) ≤ 5) by (destruct (cf_memcpy_kind f); simpl; lia).
  rewrite !(proj2 (Z.ltb_ge _ _)) by lia. cbn [orb]. apply orb_true_iff. right. apply Z.ltb_lt. unfold bounded_name_length, len in *.
  rewrite take_ge by lia.
  destruct (128 - length (bytes_of_string name))%nat as [|k] eqn:Ek; [lia|].
  cbn [replicate]. rewrite until_nul_stop by done. lia.
Qed.
Lemma no_filter_valid : valid_filter no_filter = true.
Proof. reflexivity. Qed.

Lemma filters_valid filters :
  Forall filter_fits filters →
  forallb valid_filter ((filter_struct <$> filters) ++ replicate (2 - length filters) no_filter)
  = true.
Proof.
  intros Hfit. rewrite forallb_app. apply andb_true_iff. split; apply forallb_forall.
  - intros x (f & -> & Hf)%list_elem_of_In%list_elem_of_fmap. apply filter_struct_valid.
    by eapply Forall_forall in Hfit.
  - intros x Hx%list_elem_of_In. apply elem_of_replicate in Hx as [-> _]. apply no_filter_valid.
Qed.

Lemma activity_no_nvtx s cuda :
  reads_cuda s cuda →
  rc_event_type cuda ≠ EventType.NvtxRangeStart → rc_event_type cuda ≠ EventType.NvtxRangeEnd →
  rc_nvtx_name_regex cuda = None.
Proof.
  destruct s as [| | | | |? name| | |]; simpl; try done; intros [Hin Hs] H1' H2'.
  - by subst.
  - destruct name as [regex|]; [destruct Hs as (pattern & _ & ->)|subst]; done.
  - by subst.
  - by subst.
  - destruct Hs as (_ & _ & ->). simpl in *. rewrite !elem_of_cons, elem_of_nil in Hin.
    by destruct Hin as [->|[->|[]]].
Qed.
(** Endpoints of one activity give filters of the same kind of name. *)
Lemma paired_filters s t start finish f g :
  reads_cuda s start → reads_cuda t finish →
  (rc_event_type start, rc_event_type finish)
    ∈ [(EventType.GpuKernelStart, EventType.GpuKernelEnd);
       (EventType.GpuMemcpyStart, EventType.GpuMemcpyEnd);
       (EventType.GpuMemsetStart, EventType.GpuMemsetEnd)] →
  rc_api_domain start = rc_api_domain finish → rc_api_name start = rc_api_name finish →
  rc_kernel_name_regex start = rc_kernel_name_regex finish →
  rc_memcpy_kind start = rc_memcpy_kind finish →
  cupti_event_filter start = Ok f → cupti_event_filter finish = Ok g →
  valid_aggregate_filters (filter_struct f) (filter_struct g) = true.
Proof.
  intros Hs Ht Htypes Hd Hn Hk Hm Hf Hg.
  destruct (cupti_event_filter_inv _ _ Hf) as (Hfk & Hfm & Hfn & Hfd).
  destruct (cupti_event_filter_inv _ _ Hg) as (Hgk & Hgm & Hgn & Hgd).
  assert (rc_nvtx_name_regex start = None ∧ rc_nvtx_name_regex finish = None) as [Hns Hnt].
  { rewrite !elem_of_cons, elem_of_nil in Htypes.
    split; eapply activity_no_nvtx; try done;
      destruct Htypes as [[= Ha Hb]|[[= Ha Hb]|[[= Ha Hb]|[]]]]; by rewrite ?Ha, ?Hb. }
  assert (cf_name f = cf_name g) as Hname
    by (rewrite Hfn, Hgn; unfold cuda_name_filter; by rewrite Hn, Hk, Hns, Hnt).
  assert (cf_memcpy_kind f = cf_memcpy_kind g) as Hkind by by rewrite Hfm, Hgm, Hm.
  assert (cf_api_domain f = cf_api_domain g) as Hdomain.
  { rewrite Hd in Hfd. destruct (rc_api_domain finish); [|congruence].
    destruct Hfd as [[-> ->]|[-> ->]], Hgd as [[Heq ->]|[Heq ->]]; done. }
  unfold valid_aggregate_filters, filter_struct. rewrite Hname, Hkind, Hdomain.
  destruct (name_filter (cf_name g)) as [m name].
  cbn [xf_record_kind xf_api_domain xf_memcpy_kind xf_name_match xf_name].
  assert ((record_kind_u32 (cf_record_kind f), record_kind_u32 (cf_record_kind g))
    ∈ [(3, 4); (5, 6); (7, 8)]) as Hkinds.
  { rewrite !elem_of_cons, elem_of_nil in Htypes.
    destruct Htypes as [[= Ha Hb]|[[= Ha Hb]|[[= Ha Hb]|[]]]];
      rewrite Ha in Hfk; rewrite Hb in Hgk; simpl in Hfk, Hgk;
      injection Hfk as <-; injection Hgk as <-; rewrite !elem_of_cons; auto. }
  rewrite !Z.eqb_refl. unfold memcmp_eq. rewrite bool_decide_eq_true_2 by done.
  rewrite !elem_of_cons, elem_of_nil in Hkinds.
  by destruct Hkinds as [[= -> ->]|[[= -> ->]|[[= -> ->]|[]]]].
Qed.

(** The agent arms every capture the collector asks for: the control message for two
    resolved endpoints, exact or, when the command line accepts them as the two ends of one
    activity, aggregated, passes the agent's checks of the message, of both filters and of the
    pairing that an aggregate capture needs, and asks for the capacity that was given. *)
Theorem agent_accepts_requests (report : ProcessReport) (start_text end_text : string)
    (w1 w1' w2 w2' : World) (e1 e2 : Endpoint) (validation : ValidationResult) (max_events : Z)
    (mode : MeasurementMode) (config : CuptiArmConfig) (bytes : list Z)
    (Hstart : resolve_endpoint report start_text "start" w1 = (Ok e1, w1'))
    (Hend : resolve_endpoint report end_text "end" w2 = (Ok e2, w2'))
    (Hv1 : vres_start validation = ep_public e1) (Hv2 : vres_end validation = ep_public e2)
    (Hselection : mode = MeasurementMode.Aggregate →
       validate_aggregate_selection validation = Ok ())
    (Hconfig : cupti_arm_config validation max_events mode = Ok (Some config))
    (Hmax : in_u64 max_events) (Hcontrol : encode_control 1 0 (Some config) = Ok bytes) :
  ∃ request, read_control bytes = Some request ∧ control_accepted request = true
    ∧ arm_refused request = false ∧ xr_record_capacity request = max_events
    ∧ xr_capture_mode request = (if mode == MeasurementMode.Aggregate then 1 else 0).
Proof.
  unfold cupti_arm_config in Hconfig. destruct (negb _); [done|].
  destruct (res_mapM cupti_event_filter _) as [filters| |] eqn:Ef; [|done..].
  cbn [mbind res_bind] in Hconfig. injection Hconfig as <-.
  apply encode_control_arm in Hcontrol as [Hfits Hread]; [|done]. cbn [ca_filters] in *.
  eexists. split; [exact Hread|].
  split; [by destruct mode|]. split; [|split; [done|by destruct mode]].
  unfold arm_refused. cbn [xr_filters xr_capture_mode ca_capture_mode].
  rewrite filters_valid by done. cbn [negb orb]. destruct mode; [done|].
  specialize (Hselection eq_refl). unfold validate_aggregate_selection in Hselection.
  rewrite Hv1, Hv2 in *.
  destruct (ve_cuda (ep_public e1)) as [start|] eqn:E1; [|done].
  destruct (ve_cuda (ep_public e2)) as [finish|] eqn:E2; [|done].
  destruct (cuda_endpoint _ _ _ _ _ _ _ Hstart E1) as (s & _ & Hs).
  destruct (cuda_endpoint _ _ _ _ _ _ _ Hend E2) as (t & _ & Ht).
  cbn [omap list_omap] in Ef. apply res_mapM_Forall2 in Ef.
  rewrite E1, E2 in Ef. inversion Ef as [|? f ? ? Hf Ef']; subst.
  inversion Ef' as [|? g ? ? Hg Ef'']; subst. inversion Ef''; subst.
  cbn [fmap list_fmap app length replicate Nat.sub].
  destruct (negb _ || _ || _ || _ || _) eqn:Echeck in Hselection; [done|]. bool_props.
  rewrite (paired_filters s t start finish f g); [by rewrite andb_false_r|done|done| |..|done|done];
    repeat match goal with H : negb (_ == _) = false |- _ =>
      apply negb_false_iff, bool_decide_eq_true in H end; try done.
  rewrite !elem_of_cons. destruct (rc_event_type start), (rc_event_type finish); simpl in *;
    try done; auto.
Qed.
End requests.
