(* ===== verification/AgentAggregate.v ===== *)
(** * The group table of the agent

    In aggregate mode the agent ([cupti/src/cupti_agent.c]) counts activities in a table of
    slots with open addressing.  CUPTI delivers buffers on threads of its own, so calls of
    [aggregate_activity] run at the same time and share the table through atomic
    operations.  The model runs any number of calls in any interleaving of these
    operations; the theorem is that the collector's inventory of a stopped capture is exact
    whatever the interleaving was.  Atomic operations take effect in one order for all
    threads; the release and acquire orders of the code are what makes the plain fields of
    a slot belong to one thread until it is published. *)
From S2P Require Import Prelude BTree RustString Text Bytes Protocol Selector Correlate.
From S2P Require Import Lifecycle GroupPairs Exact Greedy Nearest StackNested Measure.
From S2P Require Import Os Process Inspect Resolve Ring Uprobe Usdt Syscalls Validate Linux.
From S2P Require Import Cupti CuptiFilter Completed Live Session Aggregate Agent.
#[local] Open Scope Z_scope.

(** ** Slots and activities *)

(** [struct xprobe_cupti_aggregate_slot]. *)
Record AggregateSlot := BuildAggregateSlot {
  sl_state : Z;
  sl_count : Z;
  sl_total_duration_ns : Z;
  sl_min_duration_ns : Z;
  sl_max_duration_ns : Z;
  sl_total_bytes : Z;
  sl_kind : Z;
  sl_device_id : Z;
  sl_memcpy_kind : Z;
  sl_name : list Z }.
(** The arguments of [aggregate_activity]. *)
Record Activity := BuildActivity {
  av_kind : Z;
  av_device_id : Z;
  av_memcpy_kind : Z;
  av_name : c_string;
  av_start_ns : Z;
  av_end_ns : Z;
  av_bytes : Z }.
Definition av_duration (a : Activity) : Z := av_end_ns a - av_start_ns a.

Definition aggregate_hash (a : Activity) : Z :=
  let hash := fnv 1469598103934665603
    (to_le_bytes 4 (av_kind a) ++ to_le_bytes 4 (av_device_id a)
     ++ to_le_bytes 4 (av_memcpy_kind a) ++ short_name (av_name a)) in
  if hash <? 2 then hash + 2 else hash.
(** [strncmp(a, b, n) == 0]. *)
Definition strncmp_eq (a b : list Z) (n : nat) : bool :=
  take n (until_nul a) == take n (until_nul b).
Definition aggregate_key_matches (slot : AggregateSlot) (a : Activity) : bool :=
  (sl_kind slot =? av_kind a) && (sl_device_id slot =? av_device_id a)
  && (sl_memcpy_kind slot =? av_memcpy_kind a)
  && strncmp_eq (sl_name slot) (default [] (av_name a)) 127.

(** ** The shared variables *)
Record AggregateTable := BuildAggregateTable {
  tb_slots : list AggregateSlot;
  tb_record_capacity : Z;
  tb_committed : Z;
  tb_agent_dropped : Z;
  tb_status : AgentStatus }.
Definition with_slot (i : nat) (f : AggregateSlot → AggregateSlot) (t : AggregateTable) :
    AggregateTable :=
  BuildAggregateTable (alter f i (tb_slots t)) (tb_record_capacity t) (tb_committed t)
    (tb_agent_dropped t) (tb_status t).
Definition store_status (f : AgentStatus → AgentStatus) (t : AggregateTable) : AggregateTable :=
  BuildAggregateTable (tb_slots t) (tb_record_capacity t) (tb_committed t) (tb_agent_dropped t)
    (f (tb_status t)).

(** Stores to single fields of a slot. *)
Definition set_state (value : Z) (s : AggregateSlot) : AggregateSlot :=
  BuildAggregateSlot value (sl_count s) (sl_total_duration_ns s) (sl_min_duration_ns s)
    (sl_max_duration_ns s) (sl_total_bytes s) (sl_kind s) (sl_device_id s) (sl_memcpy_kind s)
    (sl_name s).
Definition set_count (value : Z) (s : AggregateSlot) : AggregateSlot :=
  BuildAggregateSlot (sl_state s) value (sl_total_duration_ns s) (sl_min_duration_ns s)
    (sl_max_duration_ns s) (sl_total_bytes s) (sl_kind s) (sl_device_id s) (sl_memcpy_kind s)
    (sl_name s).
Definition set_total (value : Z) (s : AggregateSlot) : AggregateSlot :=
  BuildAggregateSlot (sl_state s) (sl_count s) value (sl_min_duration_ns s)
    (sl_max_duration_ns s) (sl_total_bytes s) (sl_kind s) (sl_device_id s) (sl_memcpy_kind s)
    (sl_name s).
Definition set_min (value : Z) (s : AggregateSlot) : AggregateSlot :=
  BuildAggregateSlot (sl_state s) (sl_count s) (sl_total_duration_ns s) value
    (sl_max_duration_ns s) (sl_total_bytes s) (sl_kind s) (sl_device_id s) (sl_memcpy_kind s)
    (sl_name s).
Definition set_max (value : Z) (s : AggregateSlot) : AggregateSlot :=
  BuildAggregateSlot (sl_state s) (sl_count s) (sl_total_duration_ns s) (sl_min_duration_ns s)
    value (sl_total_bytes s) (sl_kind s) (sl_device_id s) (sl_memcpy_kind s) (sl_name s).
Definition set_bytes (value : Z) (s : AggregateSlot) : AggregateSlot :=
  BuildAggregateSlot (sl_state s) (sl_count s) (sl_total_duration_ns s) (sl_min_duration_ns s)
    (sl_max_duration_ns s) value (sl_kind s) (sl_device_id s) (sl_memcpy_kind s) (sl_name s).

(** The slots [allocate_capture] gives, and [reset_capture]. *)
Definition empty_slot : AggregateSlot :=
  BuildAggregateSlot 0 0 0 0 0 0 0 0 0 (replicate 128 0).
Definition reset_table (t : AggregateTable) : AggregateTable :=
  BuildAggregateTable (set_state 0 <$> tb_slots t) (tb_record_capacity t) 0 0
    (reset_status (tb_status t)).
(** [arm_capture] for an aggregate capture, once allocation and activation succeeded. *)
Definition arm_table (capacity : Z) (s : AgentStatus) : AggregateTable :=
  store_status activate_status
    (reset_table (BuildAggregateTable (replicate (Z.to_nat capacity) empty_slot) capacity 0 0 s)).

(** ** Calls *)

(** Where a call of [aggregate_activity] is: the atomic operation it does next.  A call
    that returned remembers the slot in which it counted. *)
Inductive AggregatePc : Set :=
| LoadState
| LoadSlot (probe : Z)
| ClaimSlot (probe : Z)
| FillSlot (index : nat)
| PublishSlot (index : nat)
| CommitSlot (index : nat)
| AddDuration (index : nat)
| AddBytes (index : nat)
| AddCount (index : nat)
| LoadMin (index : nat)
| SwapMin (index : nat) (current : Z)
| LoadMax (index : nat)
| SwapMax (index : nat) (current : Z)
| StoreFailedStatus
| StoreFailedState
| StoreFailedReason
| AddDropped
| StoreLimitReason
| StoreLimitState
| Returned (index : option nat).
#[global] Instance AggregatePc_eq_dec : EqDecision AggregatePc.
Proof. solve_decision. Defined.

(** [atomic_add_checked]: the stored value, and whether the sum fitted. *)
Definition atomic_add_checked (previous addend : Z) : Z * bool :=
  ((previous + addend) mod 2 ^ 64, negb (u64_max - previous <? addend)).
Definition probe_index (t : AggregateTable) (a : Activity) (probe : Z) : nat :=
  Z.to_nat ((aggregate_hash a mod tb_record_capacity t + probe) mod tb_record_capacity t).
(** The plain stores to a claimed slot, and the counters. *)
Definition fill_slot (a : Activity) (s : AggregateSlot) : AggregateSlot :=
  BuildAggregateSlot (sl_state s) 0 0 u64_max 0 0 (av_kind a) (av_device_id a) (av_memcpy_kind a)
    (copy_name (sl_name s) (av_name a)).

(** One atomic operation of a call; [spurious] lets a weak exchange fail.  The three stores
    of [remember_output_error] follow a bad time and an overflow; a slot number outside of
    the table does not occur. *)
Definition activity_step (spurious : bool) (a : Activity) (pc : AggregatePc)
    (t : AggregateTable) : AggregatePc * AggregateTable :=
  let at_slot i (f : AggregateSlot → AggregatePc * AggregateTable) :=
    match tb_slots t !! i with Some slot => f slot | None => (Returned None, t) end in
  let checked i (previous addend : Z) (set : Z → AggregateSlot → AggregateSlot)
      (next : AggregatePc) :=
    let '(value, fitted) := atomic_add_checked previous addend in
    (if fitted then next else StoreFailedStatus, with_slot i (set value) t) in
  match pc with
  | LoadState =>
      if negb (sta_capture_state (tb_status t) =? CAPTURE_ACTIVE) then (Returned None, t)
      else if (av_start_ns a =? 0) || (av_end_ns a <? av_start_ns a) then (StoreFailedStatus, t)
      else (LoadSlot 0, t)
  | LoadSlot probe =>
      if probe <? tb_record_capacity t then
        at_slot (probe_index t a probe) (λ slot,
          if (sl_state slot =? aggregate_hash a) && aggregate_key_matches slot a then
            (AddDuration (probe_index t a probe), t)
          else if sl_state slot =? 0 then (ClaimSlot probe, t)
          else (LoadSlot (probe + 1), t))
      else (AddDropped, t)
  | ClaimSlot probe =>
      at_slot (probe_index t a probe) (λ slot,
        if sl_state slot =? 0 then
          (FillSlot (probe_index t a probe), with_slot (probe_index t a probe) (set_state 1) t)
        else (LoadSlot (probe + 1), t))
  | FillSlot i => (PublishSlot i, with_slot i (fill_slot a) t)
  | PublishSlot i => (CommitSlot i, with_slot i (set_state (aggregate_hash a)) t)
  | CommitSlot i =>
      (AddDuration i,
       BuildAggregateTable (tb_slots t) (tb_record_capacity t) ((tb_committed t + 1) mod 2 ^ 64)
         (tb_agent_dropped t) (tb_status t))
  | AddDuration i =>
      at_slot i (λ slot, checked i (sl_total_duration_ns slot) (av_duration a) set_total
                           (if av_bytes a =? 0 then AddCount i else AddBytes i))
  | AddBytes i => at_slot i (λ slot, checked i (sl_total_bytes slot) (av_bytes a) set_bytes (AddCount i))
  | AddCount i => at_slot i (λ slot, checked i (sl_count slot) 1 set_count (LoadMin i))
  | LoadMin i => at_slot i (λ slot, (SwapMin i (sl_min_duration_ns slot), t))
  | SwapMin i current =>
      at_slot i (λ slot,
        if av_duration a <? current then
          if (sl_min_duration_ns slot =? current) && negb spurious then
            (LoadMax i, with_slot i (set_min (av_duration a)) t)
          else (SwapMin i (sl_min_duration_ns slot), t)
        else (LoadMax i, t))
  | LoadMax i => at_slot i (λ slot, (SwapMax i (sl_max_duration_ns slot), t))
  | SwapMax i current =>
      at_slot i (λ slot,
        if current <? av_duration a then
          if (sl_max_duration_ns slot =? current) && negb spurious then
            (Returned (Some i), with_slot i (set_max (av_duration a)) t)
          else (SwapMax i (sl_max_duration_ns slot), t)
        else (Returned (Some i), t))
  | StoreFailedStatus =>
      (StoreFailedState, store_status (set_agent_status AGENT_OUTPUT_ERROR) t)
  | StoreFailedState => (StoreFailedReason, store_status (set_capture_state CAPTURE_FAILED) t)
  | StoreFailedReason => (Returned None, store_status (set_stop_reason STOP_OUTPUT_ERROR) t)
  | AddDropped =>
      (StoreLimitReason,
       BuildAggregateTable (tb_slots t) (tb_record_capacity t) (tb_committed t)
         ((tb_agent_dropped t + 1) mod 2 ^ 64) (tb_status t))
  | StoreLimitReason => (StoreLimitState, store_status (set_stop_reason STOP_RECORD_LIMIT) t)
  | StoreLimitState => (Returned None, store_status (set_capture_state CAPTURE_LIMIT_REACHED) t)
  | Returned i => (Returned i, t)
  end.

(** Calls that run at the same time. *)
Abbreviation AggregateCall := (Activity * AggregatePc)%type.
Definition activity_calls (activities : list Activity) : list AggregateCall :=
  (λ a, (a, LoadState)) <$> activities.
Definition count_activities (schedule : list (nat * bool))
    (c : AggregateTable * list AggregateCall) : AggregateTable * list AggregateCall :=
  interleave activity_step schedule c.
Definition call_returned (call : AggregateCall) : Prop :=
  match call.2 with Returned _ => True | _ => False end.

(** ** What is sent *)
Fixpoint observed_sum (observed : Z) (slots : list AggregateSlot) : option Z :=
  match slots with
  | [] => Some observed
  | slot :: slots =>
      if sl_state slot <? 2 then observed_sum observed slots
      else if u64_max - observed <? sl_count slot then None
      else observed_sum (observed + sl_count slot) slots
  end.
Definition aggregate_observed_records (t : AggregateTable) : Z * AggregateTable :=
  match observed_sum 0 (tb_slots t) with
  | None => (u64_max, store_status remember_output_error t)
  | Some observed =>
      if u64_max - observed <? tb_agent_dropped t then
        (u64_max, store_status remember_output_error t)
      else (observed + tb_agent_dropped t, t)
  end.
(** The record of a slot in [write_aggregate_records], [struct xprobe_cupti_aggregate_record]. *)
Definition slot_fields (s : AggregateSlot) : list (nat * Z) :=
  [(8, sl_count s); (8, sl_total_duration_ns s); (8, sl_min_duration_ns s);
   (8, sl_max_duration_ns s); (8, sl_total_bytes s); (4, sl_kind s); (4, sl_device_id s);
   (4, sl_memcpy_kind s); (4, 0%Z); (4, 0%Z); (4, 0%Z); (4, 0%Z); (4, 0%Z)]%nat.
Definition slot_encode (s : AggregateSlot) : list Z := encode_layout (slot_fields s) ++ sl_name s.
Definition write_aggregate_records (t : AggregateTable) : list (list Z) :=
  slot_encode <$> filter (λ slot, (sl_state slot <? 2) = false) (tb_slots t).
(** [write_capture] of an aggregate capture whose writes succeed: the bytes, or a refusal. *)
Definition write_aggregate_capture (nvtx_active : bool) (cupti_dropped unknown record_offset : Z)
    (t : AggregateTable) : option (list Z) * AggregateTable :=
  let available := tb_committed t in
  if negb (record_offset =? 0) || (available <? record_offset) then (None, t)
  else
    let '(observed, t) := aggregate_observed_records t in
    (Some (output_encode
             (initialize_output_header (feature_flags true nvtx_active false) (tb_status t)
                (BuildAgentCounters (tb_record_capacity t) (tb_agent_dropped t) cupti_dropped
                   unknown) observed available record_offset)
           ++ concat (write_aggregate_records t)), t).

(** ** Where calls are

    A call is at a slot from the moment it claims or finds it; its stage says what it has
    done there: 1 claimed, 2 filled, 3 published or found, 4 the duration, 5 the bytes and
    6 the count added, 7 the minimum and 8 the maximum updated. *)
Definition pc_slot (pc : AggregatePc) : option nat :=
  match pc with
  | FillSlot i | PublishSlot i | CommitSlot i | AddDuration i | AddBytes i | AddCount i
  | LoadMin i | SwapMin i _ | LoadMax i | SwapMax i _ => Some i
  | Returned i => i
  | _ => None
  end.
Definition pc_stage (pc : AggregatePc) : Z :=
  match pc with
  | FillSlot _ => 1
  | PublishSlot _ => 2
  | CommitSlot _ | AddDuration _ => 3
  | AddBytes _ => 4
  | AddCount _ => 5
  | LoadMin _ | SwapMin _ _ => 6
  | LoadMax _ | SwapMax _ _ => 7
  | Returned _ => 8
  | _ => 0
  end.
Definition stage (i : nat) (c : AggregateCall) : Z :=
  if decide (pc_slot c.2 = Some i) then pc_stage c.2 else 0.
(** A value that counts from a stage on. *)
Definition from_stage (k : Z) (i : nat) (f : Activity → Z) (c : AggregateCall) : Z :=
  if k <=? stage i c then f c.1 else 0.

(** The key of an activity in a slot. *)
Record slot_has_key (slot : AggregateSlot) (a : Activity) : Prop := {
  hk_kind : sl_kind slot = av_kind a;
  hk_device : sl_device_id slot = av_device_id a;
  hk_memcpy : sl_memcpy_kind slot = av_memcpy_kind a;
  hk_name : until_nul (sl_name slot) = short_name (av_name a) }.
Record activity_wf (a : Activity) : Prop := {
  aw_kind : in_u32 (av_kind a);
  aw_device : in_u32 (av_device_id a);
  aw_memcpy : in_u32 (av_memcpy_kind a);
  aw_name : c_string_wf (av_name a);
  aw_start : in_u64 (av_start_ns a);
  aw_end : in_u64 (av_end_ns a);
  aw_bytes : in_u64 (av_bytes a) }.

Lemma aggregate_hash_range a : 2 ≤ aggregate_hash a < 2 ^ 64.
Proof.
  unfold aggregate_hash.
  pose proof (fnv_range 1469598103934665603 (to_le_bytes 4 (av_kind a)
    ++ to_le_bytes 4 (av_device_id a) ++ to_le_bytes 4 (av_memcpy_kind a)
    ++ short_name (av_name a)) ltac:(lia)).
  destruct (Z.ltb_spec (fnv 1469598103934665603 (to_le_bytes 4 (av_kind a)
    ++ to_le_bytes 4 (av_device_id a) ++ to_le_bytes 4 (av_memcpy_kind a)
    ++ short_name (av_name a))) 2); lia.
Qed.
Lemma short_name_until s : c_string_wf s → take 127 (until_nul (default [] s)) = short_name s.
Proof.
  intros Hs. unfold short_name. f_equal. unfold c_string_wf in Hs.
  induction Hs as [|b l [_ Hb] _ IH]; [done|]. cbn [until_nul].
  by rewrite (proj2 (Z.eqb_neq b 0) Hb), IH.
Qed.
Lemma key_matches_has slot a :
  c_string_wf (av_name a) → len (until_nul (sl_name slot)) < 128 →
  aggregate_key_matches slot a = true → slot_has_key slot a.
Proof.
  intros Ha Hs. unfold aggregate_key_matches, strncmp_eq.
  rewrite !andb_true_iff, !Z.eqb_eq, bool_decide_eq_true. intros [[[Hk Hd] Hm] Hn].
  split; [done..|]. rewrite short_name_until, take_ge in Hn; [done|unfold len in Hs; lia|done].
Qed.
Lemma fill_has_key slot a :
  c_string_wf (av_name a) → slot_has_key (fill_slot a slot) a.
Proof. intros Ha. split; [done..|]. by apply copy_name_read. Qed.

(** ** The invariant of a slot *)
Record slot_ok (i : nat) (slot : AggregateSlot) (calls : list AggregateCall) : Prop := {
  so_name : length (sl_name slot) = 128%nat ∧ Forall is_byte (sl_name slot);
  so_state : 0 ≤ sl_state slot < 2 ^ 64;
  so_claimed : ∀ j c, calls !! j = Some c → 1 ≤ stage i c ≤ 2 →
    sl_state slot = 1
    ∧ (∀ k d, calls !! k = Some d → 1 ≤ stage i d ≤ 2 → k = j)
    ∧ (stage i c = 2 → slot_has_key slot c.1 ∧ sl_total_duration_ns slot = 0
         ∧ sl_total_bytes slot = 0 ∧ sl_count slot = 0 ∧ sl_min_duration_ns slot = u64_max
         ∧ sl_max_duration_ns slot = 0);
  so_published : ∀ j c, calls !! j = Some c → 3 ≤ stage i c →
    sl_state slot = aggregate_hash c.1 ∧ slot_has_key slot c.1;
  so_owner : 2 ≤ sl_state slot → ∃ j c, calls !! j = Some c ∧ 3 ≤ stage i c;
  so_total : 2 ≤ sl_state slot →
    sl_total_duration_ns slot = sum_by (from_stage 4 i av_duration) calls;
  so_bytes : 2 ≤ sl_state slot → sl_total_bytes slot = sum_by (from_stage 5 i av_bytes) calls;
  so_count : 2 ≤ sl_state slot → sl_count slot = sum_by (from_stage 6 i (λ _, 1)) calls;
  so_min : 2 ≤ sl_state slot →
    (∀ j c, calls !! j = Some c → 7 ≤ stage i c → sl_min_duration_ns slot ≤ av_duration c.1)
    ∧ (sl_min_duration_ns slot = u64_max
       ∨ ∃ j c, calls !! j = Some c ∧ 3 ≤ stage i c ∧ sl_min_duration_ns slot = av_duration c.1);
  so_max : 2 ≤ sl_state slot →
    (∀ j c, calls !! j = Some c → 8 ≤ stage i c → av_duration c.1 ≤ sl_max_duration_ns slot)
    ∧ (sl_max_duration_ns slot = 0
       ∨ ∃ j c, calls !! j = Some c ∧ 3 ≤ stage i c ∧ sl_max_duration_ns slot = av_duration c.1);
  so_seen_min : ∀ j a current, calls !! j = Some (a, SwapMin i current) →
    sl_min_duration_ns slot ≤ current;
  so_seen_max : ∀ j a current, calls !! j = Some (a, SwapMax i current) →
    current ≤ sl_max_duration_ns slot }.

(** A lookup in the calls after one of them made a step. *)
Ltac after_step H :=
  apply list_lookup_insert_Some in H as [(<- & <- & _)|[? H]].

(** Steps of calls that are not at the slot. *)
Lemma slot_ok_frame i slot calls j a pc pc' :
  slot_ok i slot calls → calls !! j = Some (a, pc) →
  pc_slot pc ≠ Some i → pc_slot pc' ≠ Some i →
  slot_ok i slot (<[j := (a, pc')]> calls).
Proof.
  intros [Hn Hs Hc Hp Ho Ht Hb Hk Hmin Hmax Hsmin Hsmax] Hj Hpc Hpc'.
  assert (stage i (a, pc) = 0) as H0 by (unfold stage; by rewrite decide_False).
  assert (stage i (a, pc') = 0) as H0' by (unfold stage; by rewrite decide_False).
  assert (∀ k f, 0 < k → sum_by (from_stage k i f) (<[j := (a, pc')]> calls)
    = sum_by (from_stage k i f) calls) as Hsum.
  { intros k f Hk0. rewrite (sum_by_insert _ _ _ _ _ Hj). unfold from_stage. rewrite H0, H0'.
    rewrite (proj2 (Z.leb_gt _ _)) by lia. lia. }
  assert (∀ k d, calls !! k = Some d → 0 < stage i d → <[j := (a, pc')]> calls !! k = Some d)
    as Hkeep.
  { intros k d Hd Hst. rewrite list_lookup_insert_ne; [done|]. intros ->. simplify_eq. lia. }
  split; [done|done|..].
  - intros k c Hlk Hst. after_step Hlk; [lia|].
    destruct (Hc k c Hlk Hst) as (H1 & H2 & H3). split_and!; [done| |done].
    intros k' d Hd Hstd. after_step Hd; [lia|]. by eapply H2.
  - intros k c Hlk Hst. after_step Hlk; [lia|]. by eapply Hp.
  - intros Hst. destruct (Ho Hst) as (k & c & Hlk & Hc3). exists k, c. split; [|done].
    apply Hkeep; [done|lia].
  - intros Hst. rewrite Hsum by lia. auto.
  - intros Hst. rewrite Hsum by lia. auto.
  - intros Hst. rewrite Hsum by lia. auto.
  - intros Hst. destruct (Hmin Hst) as [H1 H2]. split.
    + intros k c Hlk Hc7. after_step Hlk; [lia|]. by eapply H1.
    + destruct H2 as [?|(k & c & Hlk & Hc3 & ?)]; [by left|]. right. exists k, c.
      split; [|done]. apply Hkeep; [done|lia].
  - intros Hst. destruct (Hmax Hst) as [H1 H2]. split.
    + intros k c Hlk Hc7. after_step Hlk; [lia|]. by eapply H1.
    + destruct H2 as [?|(k & c & Hlk & Hc3 & ?)]; [by left|]. right. exists k, c.
      split; [|done]. apply Hkeep; [done|lia].
  - intros k b current Hlk. apply list_lookup_insert_Some in Hlk as [(_ & [= _ ->] & _)|[_ Hlk]].
    + by destruct Hpc'.
    + by eapply Hsmin.
  - intros k b current Hlk. apply list_lookup_insert_Some in Hlk as [(_ & [= _ ->] & _)|[_ Hlk]].
    + by destruct Hpc'.
    + by eapply Hsmax.
Qed.

(** Slots that differ in their counters only. *)
Definition same_slot (slot slot' : AggregateSlot) : Prop :=
  sl_state slot' = sl_state slot ∧ sl_kind slot' = sl_kind slot
  ∧ sl_device_id slot' = sl_device_id slot ∧ sl_memcpy_kind slot' = sl_memcpy_kind slot
  ∧ sl_name slot' = sl_name slot.
Lemma same_slot_key slot slot' a : same_slot slot slot' → slot_has_key slot a → slot_has_key slot' a.
Proof. intros (_ & H1 & H2 & H3 & H4) [K1 K2 K3 K4]. by split; rewrite ?H1, ?H2, ?H3, ?H4. Qed.

Lemma stage_at i a pc : pc_slot pc = Some i → stage i (a, pc) = pc_stage pc.
Proof. intros H. unfold stage. by rewrite decide_True. Qed.
Lemma stage_away i a pc : pc_slot pc ≠ Some i → stage i (a, pc) = 0.
Proof. intros H. unfold stage. by rewrite decide_False. Qed.

(** Steps of a call at a published slot: what it adds to the counters is what its new stage
    says, the minimum only falls and the maximum only rises. *)
Lemma slot_ok_advance i slot slot' calls j a pc pc' :
  slot_ok i slot calls → calls !! j = Some (a, pc) →
  stage i (a, pc) = 0 ∨ 3 ≤ stage i (a, pc) → stage i (a, pc) ≤ stage i (a, pc') →
  3 ≤ stage i (a, pc') → sl_state slot = aggregate_hash a → slot_has_key slot a →
  same_slot slot slot' →
  sl_total_duration_ns slot' = sl_total_duration_ns slot
    - from_stage 4 i av_duration (a, pc) + from_stage 4 i av_duration (a, pc') →
  sl_total_bytes slot' = sl_total_bytes slot
    - from_stage 5 i av_bytes (a, pc) + from_stage 5 i av_bytes (a, pc') →
  sl_count slot' = sl_count slot
    - from_stage 6 i (λ _, 1) (a, pc) + from_stage 6 i (λ _, 1) (a, pc') →
  sl_min_duration_ns slot' ≤ sl_min_duration_ns slot
  ∧ (7 ≤ stage i (a, pc') → sl_min_duration_ns slot' ≤ av_duration a)
  ∧ (sl_min_duration_ns slot' = sl_min_duration_ns slot
     ∨ sl_min_duration_ns slot' = av_duration a)
  ∧ (∀ current, pc' = SwapMin i current → sl_min_duration_ns slot' ≤ current) →
  sl_max_duration_ns slot ≤ sl_max_duration_ns slot'
  ∧ (8 ≤ stage i (a, pc') → av_duration a ≤ sl_max_duration_ns slot')
  ∧ (sl_max_duration_ns slot' = sl_max_duration_ns slot
     ∨ sl_max_duration_ns slot' = av_duration a)
  ∧ (∀ current, pc' = SwapMax i current → current ≤ sl_max_duration_ns slot') →
  slot_ok i slot' (<[j := (a, pc')]> calls).
Proof.
  intros [Hn Hs Hc Hp Ho Ht Hb Hk Hmin Hmax Hsmin Hsmax] Hj Hst Hle H3 Hhash Hkey Hsame
    Ht' Hb' Hk' (Hm1 & Hm2 & Hm3 & Hm4) (Hx1 & Hx2 & Hx3 & Hx4).
  pose proof (aggregate_hash_range a) as Hrange.
  destruct Hsame as (Es & Esame). pose proof (same_slot_key slot slot') as Hsk.
  assert (2 ≤ sl_state slot) as H2 by lia.
  assert (<[j := (a, pc')]> calls !! j = Some (a, pc')) as Hj'
    by (apply list_lookup_insert_eq; by eapply lookup_lt_Some).
  assert (∀ k d, calls !! k = Some d → 3 ≤ stage i d →
    ∃ k' d', <[j := (a, pc')]> calls !! k' = Some d' ∧ 3 ≤ stage i d'
      ∧ av_duration d'.1 = av_duration d.1) as Hkeep.
  { intros k d Hd Hd3. destruct (decide (j = k)) as [<-|Hne].
    - simplify_eq. by exists j, (a, pc').
    - exists k, d. by rewrite list_lookup_insert_ne. }
  split; rewrite ?Es; [by destruct Esame as (_ & _ & _ & ->)|done|..].
  - intros k c Hlk Hcst. exfalso. after_step Hlk; [lia|]. destruct (Hc k c Hlk Hcst). lia.
  - intros k c Hlk Hcst. after_step Hlk; [split; [done|by apply Hsk]|].
    destruct (Hp k c Hlk Hcst) as [H1 H4]. split; [done|by apply Hsk].
  - intros _. by exists j, (a, pc').
  - intros _. rewrite (sum_by_insert _ _ _ _ _ Hj), <-Ht by done. lia.
  - intros _. rewrite (sum_by_insert _ _ _ _ _ Hj), <-Hb by done. lia.
  - intros _. rewrite (sum_by_insert _ _ _ _ _ Hj), <-Hk by done. lia.
  - intros _. destruct (Hmin H2) as [H1 H4]. split.
    + intros k c Hlk Hc7. after_step Hlk; [by apply Hm2|]. specialize (H1 k c Hlk Hc7). lia.
    + destruct Hm3 as [->| ->]; [|by right; exists j, (a, pc')].
      destruct H4 as [->|(k & c & Hlk & Hc3 & ->)]; [by left|]. right.
      destruct (Hkeep k c Hlk Hc3) as (k' & c' & ? & ? & <-). by exists k', c'.
  - intros _. destruct (Hmax H2) as [H1 H4]. split.
    + intros k c Hlk Hc7. after_step Hlk; [by apply Hx2|]. specialize (H1 k c Hlk Hc7). lia.
    + destruct Hx3 as [->| ->]; [|by right; exists j, (a, pc')].
      destruct H4 as [->|(k & c & Hlk & Hc3 & ->)]; [by left|]. right.
      destruct (Hkeep k c Hlk Hc3) as (k' & c' & ? & ? & <-). by exists k', c'.
  - intros k b current Hlk. apply list_lookup_insert_Some in Hlk as [(_ & [= _ ->] & _)|[_ Hlk]].
    + by apply Hm4.
    + specialize (Hsmin _ _ _ Hlk). lia.
  - intros k b current Hlk. apply list_lookup_insert_Some in Hlk as [(_ & [= _ ->] & _)|[_ Hlk]].
    + by apply Hx4.
    + specialize (Hsmax _ _ _ Hlk). lia.
Qed.

(** A claimed slot belongs to its call until it is published. *)
Lemma slot_ok_claim i slot calls j a pc :
  slot_ok i slot calls → calls !! j = Some (a, pc) → pc_slot pc = None → sl_state slot = 0 →
  slot_ok i (set_state 1 slot) (<[j := (a, FillSlot i)]> calls).
Proof.
  intros [Hn Hs Hc Hp Ho Ht Hb Hk Hmin Hmax Hsmin Hsmax] Hj Hpc H0.
  assert (stage i (a, FillSlot i) = 1) as H1 by by apply stage_at.
  assert (∀ k d, calls !! k = Some d → stage i d ≤ 0) as Hfree.
  { intros k d Hd. destruct (Z_le_gt_dec (stage i d) 0) as [|Hgt]; [done|exfalso].
    destruct (Z_le_gt_dec (stage i d) 2).
    - destruct (Hc k d Hd); lia.
    - destruct (Hp k d Hd); [lia|]. pose proof (aggregate_hash_range d.1). lia. }
  split; cbn [set_state sl_state sl_name sl_min_duration_ns sl_max_duration_ns]; try done.
  - intros k c Hlk Hst. after_step Hlk; [|specialize (Hfree _ _ Hlk); lia].
    split_and!; [done| |lia]. intros k' d Hd Hdst. after_step Hd; [done|].
    specialize (Hfree _ _ Hd). lia.
  - intros k c Hlk Hst. after_step Hlk; [lia|]. specialize (Hfree _ _ Hlk). lia.
  - intros k b current Hlk. apply list_lookup_insert_Some in Hlk as [(_ & [=] & _)|[_ Hlk]].
    by eapply Hsmin.
  - intros k b current Hlk. apply list_lookup_insert_Some in Hlk as [(_ & [=] & _)|[_ Hlk]].
    by eapply Hsmax.
Qed.
Lemma claimed_alone i slot calls j a pc k d :
  slot_ok i slot calls → calls !! j = Some (a, pc) → 1 ≤ stage i (a, pc) ≤ 2 →
  calls !! k = Some d → k ≠ j → stage i d ≤ 0.
Proof.
  intros Hok Hj Hst Hd Hne. destruct (so_claimed _ _ _ Hok _ _ Hj Hst) as (H1 & Hu & _).
  destruct (Z_le_gt_dec (stage i d) 0) as [|Hgt]; [done|exfalso].
  destruct (Z_le_gt_dec (stage i d) 2).
  - apply Hne. apply (Hu k d Hd). lia.
  - destruct (so_published _ _ _ Hok k d Hd); [lia|]. pose proof (aggregate_hash_range d.1). lia.
Qed.
Lemma slot_ok_fill i slot calls j a :
  slot_ok i slot calls → calls !! j = Some (a, FillSlot i) → c_string_wf (av_name a) →
  slot_ok i (fill_slot a slot) (<[j := (a, PublishSlot i)]> calls).
Proof.
  intros Hok Hj Ha. pose proof (claimed_alone i slot calls j a (FillSlot i)) as Halone.
  assert (stage i (a, FillSlot i) = 1) as H1 by by apply stage_at.
  assert (stage i (a, PublishSlot i) = 2) as H1' by by apply stage_at.
  assert (∀ k d, calls !! k = Some d → k ≠ j → stage i d ≤ 0) as Hfree
    by (intros; eapply Halone; [done..|lia|done|done]).
  destruct (so_claimed _ _ _ Hok _ _ Hj) as (Hs1 & _); [lia|].
  destruct (so_name _ _ _ Hok) as [Hn Hnb].
  split; cbn [fill_slot sl_state sl_name sl_min_duration_ns sl_max_duration_ns].
  - split; [by apply copy_name_length|by apply copy_name_bytes].
  - apply (so_state _ _ _ Hok).
  - intros k c Hlk Hst. after_step Hlk; [|specialize (Hfree _ _ Hlk ltac:(done)); lia].
    split_and!; [done| |intros _; by split_and!; [apply fill_has_key|..]].
    intros k' d Hd Hdst. after_step Hd; [done|].
    specialize (Hfree _ _ Hd ltac:(done)). lia.
  - intros k c Hlk Hst. after_step Hlk; [lia|]. specialize (Hfree _ _ Hlk ltac:(done)). lia.
  - intros; lia.
  - intros; lia.
  - intros; lia.
  - intros; lia.
  - intros; lia.
  - intros; lia.
  - intros k b current Hlk. apply list_lookup_insert_Some in Hlk as [(_ & [=] & _)|[Hne Hlk]].
    specialize (Hfree _ _ Hlk ltac:(done)). rewrite stage_at in Hfree by done. simpl in Hfree. lia.
  - intros k b current Hlk. apply list_lookup_insert_Some in Hlk as [(_ & [=] & _)|[Hne Hlk]].
    specialize (Hfree _ _ Hlk ltac:(done)). rewrite stage_at in Hfree by done. simpl in Hfree. lia.
Qed.
Lemma slot_ok_publish i slot calls j a :
  slot_ok i slot calls → calls !! j = Some (a, PublishSlot i) →
  slot_ok i (set_state (aggregate_hash a) slot) (<[j := (a, CommitSlot i)]> calls).
Proof.
  intros Hok Hj. pose proof (claimed_alone i slot calls j a (PublishSlot i)) as Halone.
  assert (stage i (a, PublishSlot i) = 2) as H1 by by apply stage_at.
  assert (stage i (a, CommitSlot i) = 3) as H1' by by apply stage_at.
  assert (∀ k d, calls !! k = Some d → k ≠ j → stage i d ≤ 0) as Hfree
    by (intros; eapply Halone; [done..|lia|done|done]).
  destruct (so_claimed _ _ _ Hok _ _ Hj) as (Hs1 & _ & Hfilled); [lia|].
  destruct (Hfilled H1) as (Hkey & Et & Eb & Ek & Emin & Emax).
  pose proof (aggregate_hash_range a) as Hrange.
  assert (∀ k f, 4 ≤ k → sum_by (from_stage k i f) (<[j := (a, CommitSlot i)]> calls) = 0) as Hsum.
  { intros k f Hk. apply sum_by_zero, Forall_lookup. intros k' c Hlk. unfold from_stage.
    rewrite (proj2 (Z.leb_gt _ _)); [done|].
    after_step Hlk; [lia|]. specialize (Hfree _ _ Hlk ltac:(done)). lia. }
  assert (<[j := (a, CommitSlot i)]> calls !! j = Some (a, CommitSlot i)) as Hj'
    by (apply list_lookup_insert_eq; by eapply lookup_lt_Some).
  split; cbn [set_state sl_state sl_name sl_min_duration_ns sl_max_duration_ns sl_count
    sl_total_duration_ns sl_total_bytes].
  - apply (so_name _ _ _ Hok).
  - lia.
  - intros k c Hlk Hst. exfalso. after_step Hlk; [lia|]. specialize (Hfree _ _ Hlk ltac:(done)). lia.
  - intros k c Hlk Hst. after_step Hlk; [|specialize (Hfree _ _ Hlk ltac:(done)); lia].
    split; [done|]. destruct Hkey as [K1 K2 K3 K4]. by split.
  - intros _. exists j, (a, CommitSlot i). split; [done|lia].
  - intros _. by rewrite Hsum.
  - intros _. by rewrite Hsum.
  - intros _. by rewrite Hsum.
  - intros _. split; [|by left]. intros k c Hlk Hst.
    after_step Hlk; [lia|]. specialize (Hfree _ _ Hlk ltac:(done)). lia.
  - intros _. split; [|by left]. intros k c Hlk Hst.
    after_step Hlk; [lia|]. specialize (Hfree _ _ Hlk ltac:(done)). lia.
  - intros k b current Hlk. apply list_lookup_insert_Some in Hlk as [(_ & [=] & _)|[Hne Hlk]].
    by eapply (so_seen_min _ _ _ Hok).
  - intros k b current Hlk. apply list_lookup_insert_Some in Hlk as [(_ & [=] & _)|[Hne Hlk]].
    by eapply (so_seen_max _ _ _ Hok).
Qed.

(** ** The invariant of the table *)
Definition published (slot : AggregateSlot) : Z := if sl_state slot <? 2 then 0 else 1.
Definition commit_pending (c : AggregateCall) : Z :=
  match c.2 with CommitSlot _ => 1 | _ => 0 end.
(** Calls on the way to count their activity, and calls that will end the capture. *)
Definition healthy (pc : AggregatePc) : Prop :=
  match pc with
  | StoreFailedStatus | StoreFailedState | StoreFailedReason | AddDropped | StoreLimitReason
  | StoreLimitState | Returned None => False
  | _ => True
  end.
Definition doomed (pc : AggregatePc) : Prop :=
  match pc with
  | StoreFailedStatus | StoreFailedState | AddDropped | StoreLimitReason | StoreLimitState => True
  | _ => False
  end.
Definition failing (t : AggregateTable) (calls : list AggregateCall) : Prop :=
  sta_capture_state (tb_status t) ≠ CAPTURE_ACTIVE
  ∨ ∃ j c, calls !! j = Some c ∧ doomed c.2.

Record table_ok (t : AggregateTable) (calls : list AggregateCall) : Prop := {
  to_capacity : tb_record_capacity t = len (tb_slots t) ∧ 0 < tb_record_capacity t ≤ u64_max;
  to_slots : ∀ i slot, tb_slots t !! i = Some slot → slot_ok i slot calls;
  to_index : ∀ j c i, calls !! j = Some c → pc_slot c.2 = Some i → (i < length (tb_slots t))%nat;
  to_committed : 0 ≤ tb_committed t
    ∧ tb_committed t + sum_by commit_pending calls = sum_by published (tb_slots t);
  to_dropped : tb_agent_dropped t = 0;
  to_timed : ∀ j c, calls !! j = Some c → c.2 ≠ LoadState → 0 ≤ av_duration c.1;
  to_healthy : ∀ j c, calls !! j = Some c → healthy c.2 }.

Lemma published_bound slots : 0 ≤ sum_by published slots ≤ len slots.
Proof.
  induction slots as [|s l IH]; [done|]. rewrite len_cons. cbn [sum_by foldr].
  change (foldr (λ x acc, published x + acc) 0 l) with (sum_by published l).
  unfold published at 1 3. destruct (_ <? _); lia.
Qed.
Lemma commit_pending_nonneg calls : 0 ≤ sum_by commit_pending calls.
Proof.
  apply sum_by_nonneg, Forall_forall. intros c _. unfold commit_pending.
  destruct (c.2); lia.
Qed.

Lemma table_ok_update t t' calls j a pc pc' :
  table_ok t calls → calls !! j = Some (a, pc) →
  tb_record_capacity t' = tb_record_capacity t → tb_agent_dropped t' = tb_agent_dropped t →
  length (tb_slots t') = length (tb_slots t) →
  (∀ i slot', tb_slots t' !! i = Some slot' → slot_ok i slot' (<[j := (a, pc')]> calls)) →
  (∀ i, pc_slot pc' = Some i → (i < length (tb_slots t))%nat) →
  0 ≤ av_duration a → healthy pc' →
  0 ≤ tb_committed t'
  ∧ tb_committed t' + commit_pending (a, pc') - sum_by published (tb_slots t')
    = tb_committed t + commit_pending (a, pc) - sum_by published (tb_slots t) →
  table_ok t' (<[j := (a, pc')]> calls).
Proof.
  intros [Hcap Hslots Hindex [Hcom Hcom'] Hdrop Htimed Hhealthy] Hj Ecap Edrop Elen Hslots' Hindex'
    Hdur Hpc' [Hc0 Hc]. split.
  - unfold len in *. rewrite Ecap, Elen. exact Hcap.
  - exact Hslots'.
  - intros k c i Hlk Hi. rewrite Elen. after_step Hlk; [by apply Hindex'|]. by eapply Hindex.
  - split; [done|]. rewrite (sum_by_insert _ _ _ _ _ Hj). lia.
  - congruence.
  - intros k c Hlk Hne. after_step Hlk; [done|]. by eapply Htimed.
  - intros k c Hlk. after_step Hlk; [done|]. by eapply Hhealthy.
Qed.

(** A call that is not at a slot goes on without touching the table. *)
Lemma table_ok_away t calls j a pc pc' :
  table_ok t calls → calls !! j = Some (a, pc) → pc_slot pc = None → pc_slot pc' = None →
  0 ≤ av_duration a → healthy pc' → commit_pending (a, pc) = commit_pending (a, pc') →
  table_ok t (<[j := (a, pc')]> calls).
Proof.
  intros Hok Hj Hpc Hpc' Hdur Hh Hcom. eapply table_ok_update; try done.
  - intros i slot Hi. eapply slot_ok_frame; [by apply (to_slots _ _ Hok)|done|congruence..].
  - congruence.
  - pose proof (to_committed _ _ Hok). lia.
Qed.
(** A call changes its slot. *)
Lemma table_ok_at t calls j a pc pc' i f slot :
  table_ok t calls → calls !! j = Some (a, pc) → tb_slots t !! i = Some slot →
  pc_slot pc = None ∨ pc_slot pc = Some i → pc_slot pc' = Some i →
  slot_ok i (f slot) (<[j := (a, pc')]> calls) →
  0 ≤ av_duration a → healthy pc' →
  commit_pending (a, pc') - published (f slot) = commit_pending (a, pc) - published slot →
  table_ok (with_slot i f t) (<[j := (a, pc')]> calls).
Proof.
  intros Hok Hj Hi Hpc Hpc' Hslot Hdur Hh Hcom.
  assert (alter f i (tb_slots t) = <[i := f slot]> (tb_slots t)) as Halter
    by (eapply list_alter_insert_eq || (apply list_eq; intros k;
        destruct (decide (i = k)) as [<-|];
        [rewrite list_lookup_alter_eq, Hi, list_lookup_insert_eq; [done|by eapply lookup_lt_Some]
        |by rewrite list_lookup_alter_ne, list_lookup_insert_ne])).
  eapply table_ok_update; try done.
  - cbn [with_slot tb_slots]. by rewrite length_alter.
  - cbn [with_slot tb_slots]. rewrite Halter. intros k slot' Hk.
    apply list_lookup_insert_Some in Hk as [(<- & <- & _)|[Hne Hk]]; [done|].
    eapply slot_ok_frame; [by apply (to_slots _ _ Hok)|done| |congruence].
    destruct Hpc; congruence.
  - intros k Hk. simplify_eq. by eapply lookup_lt_Some.
  - cbn [with_slot tb_slots tb_committed]. rewrite Halter, (sum_by_insert _ _ _ _ _ Hi).
    pose proof (to_committed _ _ Hok). lia.
Qed.

Lemma with_slot_id i t : with_slot i (λ slot, slot) t = t.
Proof.
  destruct t. unfold with_slot. cbn [tb_slots tb_record_capacity tb_committed tb_agent_dropped
    tb_status]. f_equal. by apply list_alter_id.
Qed.
(** The slot of a call that found it or published it. *)
Lemma call_slot t calls j a pc i :
  table_ok t calls → calls !! j = Some (a, pc) → pc_slot pc = Some i → 3 ≤ pc_stage pc →
  ∃ slot, tb_slots t !! i = Some slot ∧ slot_ok i slot calls
    ∧ sl_state slot = aggregate_hash a ∧ slot_has_key slot a.
Proof.
  intros Hok Hj Hpc Hst. pose proof (to_index _ _ Hok _ _ _ Hj Hpc) as Hlt.
  apply lookup_lt_is_Some in Hlt as [slot Hi]. pose proof (to_slots _ _ Hok _ _ Hi) as Hslot.
  exists slot. destruct (so_published _ _ _ Hslot _ _ Hj) as [? ?]; [by rewrite stage_at|done].
Qed.
(** A call at a published slot counts something. *)
Lemma table_ok_count t calls j a pc pc' i f slot :
  table_ok t calls → calls !! j = Some (a, pc) → tb_slots t !! i = Some slot →
  sl_state slot = aggregate_hash a → slot_has_key slot a →
  (pc_slot pc = None ∨ pc_slot pc = Some i ∧ 3 ≤ pc_stage pc ≤ pc_stage pc') →
  pc_slot pc' = Some i → 3 ≤ pc_stage pc' → 0 ≤ av_duration a → healthy pc' →
  commit_pending (a, pc) = commit_pending (a, pc') → same_slot slot (f slot) →
  sl_total_duration_ns (f slot) = sl_total_duration_ns slot
    - from_stage 4 i av_duration (a, pc) + from_stage 4 i av_duration (a, pc') →
  sl_total_bytes (f slot) = sl_total_bytes slot
    - from_stage 5 i av_bytes (a, pc) + from_stage 5 i av_bytes (a, pc') →
  sl_count (f slot) = sl_count slot
    - from_stage 6 i (λ _, 1) (a, pc) + from_stage 6 i (λ _, 1) (a, pc') →
  sl_min_duration_ns (f slot) ≤ sl_min_duration_ns slot
  ∧ (7 ≤ pc_stage pc' → sl_min_duration_ns (f slot) ≤ av_duration a)
  ∧ (sl_min_duration_ns (f slot) = sl_min_duration_ns slot
     ∨ sl_min_duration_ns (f slot) = av_duration a)
  ∧ (∀ current, pc' = SwapMin i current → sl_min_duration_ns (f slot) ≤ current) →
  sl_max_duration_ns slot ≤ sl_max_duration_ns (f slot)
  ∧ (8 ≤ pc_stage pc' → av_duration a ≤ sl_max_duration_ns (f slot))
  ∧ (sl_max_duration_ns (f slot) = sl_max_duration_ns slot
     ∨ sl_max_duration_ns (f slot) = av_duration a)
  ∧ (∀ current, pc' = SwapMax i current → current ≤ sl_max_duration_ns (f slot)) →
  table_ok (with_slot i f t) (<[j := (a, pc')]> calls).
Proof.
  intros Hok Hj Hi Hhash Hkey Hpc Hpc' H3 Hdur Hh Hcom Hsame Ht Hb Hk Hmin Hmax.
  eapply table_ok_at; try done; [destruct Hpc as [?|[? _]]; auto| |].
  - eapply slot_ok_advance; try done; rewrite ?(stage_at i a pc') by done; try done.
    + by apply (to_slots _ _ Hok).
    + destruct Hpc as [?|[? ?]]; [left; apply stage_away; congruence|right; rewrite stage_at; lia || done].
    + destruct Hpc as [?|[? ?]]; [rewrite stage_away by congruence; lia|rewrite stage_at; lia || done].
  - unfold published. destruct Hsame as [-> _]. lia.
Qed.

(** Finish the conditions of [table_ok_count] for concrete positions. *)
Ltac count_step :=
  try done; unfold from_stage;
  repeat match goal with |- context [stage ?i (?a, ?pc)] =>
    first [rewrite (stage_at i a pc) by done | rewrite (stage_away i a pc) by done] end;
  cbn [pc_stage fst Z.leb Z.compare Pos.compare Pos.compare_cont set_total set_bytes set_count
       set_min set_max sl_total_duration_ns sl_total_bytes sl_count sl_min_duration_ns
       sl_max_duration_ns];
  try lia;
  try (left; done); try (right; split; [done|lia]);
  try (split_and!; [lia|intros; lia || done|auto|intros ? [=]; subst; lia || done]); auto.

Lemma add_fits a b :
  0 ≤ a → 0 ≤ b → negb (u64_max - a <? b) = true → (a + b) mod 2 ^ 64 = a + b.
Proof.
  intros Ha Hb. rewrite negb_true_iff, Z.ltb_ge. intros. apply Z.mod_small.
  unfold u64_max in *. lia.
Qed.
Lemma from_stage_nonneg k i f calls :
  Forall (λ c : AggregateCall, 0 ≤ f c.1 ∨ stage i c < k) calls →
  0 ≤ sum_by (from_stage k i f) calls.
Proof.
  intros Hall. apply sum_by_nonneg. eapply Forall_impl; [exact Hall|]. intros c Hc. cbv beta in Hc.
  unfold from_stage. destruct (Z.leb_spec k (stage i c)); lia.
Qed.

(** ** Steps keep the invariant *)
Section steps.
Context (t : AggregateTable) (calls : list AggregateCall) (j : nat) (a : Activity).
Context (Hok : table_ok t calls) (Hwf : Forall (λ c, activity_wf c.1) calls).

Lemma call_wf pc : calls !! j = Some (a, pc) → activity_wf a.
Proof using Hwf. intros Hj. rewrite Forall_lookup in Hwf. exact (Hwf _ _ Hj). Qed.
Lemma counters_nonneg i slot :
  tb_slots t !! i = Some slot → 2 ≤ sl_state slot →
  0 ≤ sl_total_duration_ns slot ∧ 0 ≤ sl_total_bytes slot ∧ 0 ≤ sl_count slot.
Proof using Hok Hwf.
  intros Hi H2. pose proof (to_slots _ _ Hok _ _ Hi) as Hslot.
  rewrite (so_total _ _ _ Hslot H2), (so_bytes _ _ _ Hslot H2), (so_count _ _ _ Hslot H2).
  split_and!; apply from_stage_nonneg, Forall_lookup; intros k c Hk.
  - destruct (decide (c.2 = LoadState)) as [Heq|Hne].
    + right. destruct c as [b pc]. simpl in Heq. subst. rewrite stage_away by done. lia.
    + left. by eapply (to_timed _ _ Hok).
  - left. rewrite Forall_lookup in Hwf. destruct (Hwf _ _ Hk) as [_ _ _ _ _ _ [? _]]. done.
  - left. lia.
Qed.

Lemma load_state_ok spurious pc' t' :
  calls !! j = Some (a, LoadState) → activity_step spurious a LoadState t = (pc', t') →
  failing t' (<[j := (a, pc')]> calls) ∨ table_ok t' (<[j := (a, pc')]> calls).
Proof using Hok.
  intros Hj. cbn [activity_step].
  assert (∀ pc, <[j := (a, pc)]> calls !! j = Some (a, pc)) as Hself
    by (intros; apply list_lookup_insert_eq; by eapply lookup_lt_Some).
  destruct (Z.eqb_spec (sta_capture_state (tb_status t)) CAPTURE_ACTIVE); cbn [negb].
  - destruct (_ || _) eqn:E; intros [= <- <-].
    + left. right. by exists j, (a, StoreFailedStatus).
    + right. bool_props. eapply table_ok_away; try done.
      match goal with H : (_ <? _) = false |- _ => apply Z.ltb_ge in H end.
      unfold av_duration. lia.
  - intros [= <- <-]. by left; left.
Qed.
Lemma probe_in_table probe : is_Some (tb_slots t !! probe_index t a probe).
Proof using Hok.
  apply lookup_lt_is_Some. unfold probe_index. destruct (to_capacity _ _ Hok) as [Hc [Hpos _]].
  pose proof (Z.mod_pos_bound (aggregate_hash a mod tb_record_capacity t + probe)
    (tb_record_capacity t) Hpos). unfold len in Hc. lia.
Qed.
Lemma load_slot_ok spurious probe pc' t' :
  calls !! j = Some (a, LoadSlot probe) →
  activity_step spurious a (LoadSlot probe) t = (pc', t') →
  failing t' (<[j := (a, pc')]> calls) ∨ table_ok t' (<[j := (a, pc')]> calls).
Proof using Hok Hwf.
  intros Hj. pose proof (to_timed _ _ Hok _ _ Hj ltac:(done)) as Hdur. simpl in Hdur.
  cbn [activity_step]. destruct (probe <? tb_record_capacity t); cycle 1.
  { intros [= <- <-]. left. right. exists j, (a, AddDropped). split; [|done].
    apply list_lookup_insert_eq. by eapply lookup_lt_Some. }
  destruct (probe_in_table probe) as [slot Hi]. rewrite Hi.
  destruct ((sl_state slot =? _) && _) eqn:E.
  - apply andb_true_iff in E as [Es%Z.eqb_eq Ek]. intros [= <- <-]. right.
    pose proof (to_slots _ _ Hok _ _ Hi) as Hslot.
    pose proof (aggregate_hash_range a).
    assert (slot_has_key slot a) as Hkey.
    { destruct (so_owner _ _ _ Hslot) as (k & c & Hk & Hst); [lia|].
      destruct (so_published _ _ _ Hslot _ _ Hk Hst) as [_ [_ _ _ Hname]].
      apply key_matches_has; [by apply (call_wf _ Hj)| |done].
      rewrite Hname. unfold len, short_name. rewrite length_take. lia. }
    set (i := probe_index t a probe) in *. clearbody i. rewrite <-(with_slot_id i t).
    eapply table_ok_count; count_step.
  - destruct (sl_state slot =? 0); intros [= <- <-]; right; by eapply table_ok_away.
Qed.
Lemma claim_slot_ok spurious probe pc' t' :
  calls !! j = Some (a, ClaimSlot probe) →
  activity_step spurious a (ClaimSlot probe) t = (pc', t') →
  table_ok t' (<[j := (a, pc')]> calls).
Proof using Hok.
  intros Hj. pose proof (to_timed _ _ Hok _ _ Hj ltac:(done)) as Hdur. simpl in Hdur.
  cbn [activity_step]. destruct (probe_in_table probe) as [slot Hi]. rewrite Hi.
  destruct (Z.eqb_spec (sl_state slot) 0) as [E|E]; intros [= <- <-].
  - eapply table_ok_at; try done; [by left| |].
    + eapply slot_ok_claim; try done. by apply (to_slots _ _ Hok).
    + unfold published. cbn [set_state sl_state]. by rewrite E.
  - by eapply table_ok_away.
Qed.
Lemma own_slot_ok spurious pc i pc' t' :
  calls !! j = Some (a, pc) → pc = FillSlot i ∨ pc = PublishSlot i →
  activity_step spurious a pc t = (pc', t') → table_ok t' (<[j := (a, pc')]> calls).
Proof using Hok Hwf.
  intros Hj Hpc. pose proof (call_wf _ Hj) as Ha.
  assert (0 ≤ av_duration a) as Hdur
    by (apply (to_timed _ _ Hok _ _ Hj); simpl; by destruct Hpc as [->| ->]).
  assert ((i < length (tb_slots t))%nat) as Hlt
    by (eapply (to_index _ _ Hok); [exact Hj|by destruct Hpc as [->| ->]]).
  apply lookup_lt_is_Some in Hlt as [slot Hi]. pose proof (to_slots _ _ Hok _ _ Hi) as Hslot.
  pose proof (aggregate_hash_range a).
  destruct (so_claimed _ _ _ Hslot _ _ Hj) as (Hstate & _).
  { rewrite stage_at by (by destruct Hpc as [->| ->]). destruct Hpc as [->| ->]; simpl; lia. }
  destruct Hpc as [->| ->]; cbn [activity_step]; intros [= <- <-].
  - eapply table_ok_at; try done; [by right|]. eapply slot_ok_fill; try done. apply Ha.
  - eapply table_ok_at; try done; [by right|by eapply slot_ok_publish|].
    unfold published, commit_pending. cbn [set_state sl_state snd].
    rewrite Hstate, (proj2 (Z.ltb_ge _ _)) by lia. done.
Qed.
Lemma commit_slot_ok spurious i pc' t' :
  calls !! j = Some (a, CommitSlot i) → activity_step spurious a (CommitSlot i) t = (pc', t') →
  table_ok t' (<[j := (a, pc')]> calls).
Proof using Hok.
  intros Hj. cbn [activity_step]. intros [= <- <-].
  destruct (call_slot _ _ _ _ _ i Hok Hj eq_refl ltac:(simpl; lia)) as (slot & Hi & Hslot & Hs & Hk).
  destruct (to_committed _ _ Hok) as [Hc0 Hc]. pose proof (to_capacity _ _ Hok) as [Hcap [_ Hmax]].
  assert (tb_committed t + 1 ≤ len (tb_slots t)) as Hroom.
  { pose proof (published_bound (tb_slots t)). pose proof (sum_by_insert commit_pending calls j _
      (a, AddDuration i) Hj) as Hins. cbn [commit_pending snd] in Hins.
    pose proof (commit_pending_nonneg (<[j := (a, AddDuration i)]> calls)). lia. }
  rewrite Z.mod_small by (unfold u64_max in *; lia).
  eapply table_ok_update; try done.
  - intros k slot' Hk'. cbn [tb_slots] in Hk'. destruct (decide (i = k)) as [<-|Hne].
    + simplify_eq. eapply slot_ok_advance; try done; count_step.
    + eapply slot_ok_frame; [by apply (to_slots _ _ Hok)|done|simpl; congruence..].
  - intros k [= <-]. by eapply lookup_lt_Some.
  - by apply (to_timed _ _ Hok _ _ Hj).
  - cbn [tb_committed tb_slots commit_pending snd]. lia.
Qed.

(** The additions. *)
Lemma add_steps_ok spurious pc i pc' t' :
  calls !! j = Some (a, pc) → pc = AddDuration i ∨ pc = AddBytes i ∨ pc = AddCount i →
  activity_step spurious a pc t = (pc', t') →
  failing t' (<[j := (a, pc')]> calls) ∨ table_ok t' (<[j := (a, pc')]> calls).
Proof using Hok Hwf.
  intros Hj Hpc. pose proof (call_wf _ Hj) as [_ _ _ _ _ _ [Hbytes _]].
  assert (0 ≤ av_duration a) as Hdur
    by (apply (to_timed _ _ Hok _ _ Hj); simpl; by destruct Hpc as [->|[->| ->]]).
  destruct (call_slot _ _ _ _ _ i Hok Hj) as (slot & Hi & Hslot & Hs & Hk);
    [by destruct Hpc as [->|[->| ->]]|destruct Hpc as [->|[->| ->]]; simpl; lia|].
  pose proof (aggregate_hash_range a).
  destruct (counters_nonneg _ _ Hi) as (Ht0 & Hb0 & Hc0); [lia|].
  assert (∀ t'', failing t'' (<[j := (a, StoreFailedStatus)]> calls)) as Hfail.
  { intros t''. right. exists j, (a, StoreFailedStatus). split; [|done].
    apply list_lookup_insert_eq. by eapply lookup_lt_Some. }
  destruct Hpc as [->|[->| ->]]; cbn [activity_step]; rewrite Hi;
    unfold atomic_add_checked;
    match goal with |- context [negb (u64_max - ?x <? ?y)] =>
      destruct (negb (u64_max - x <? y)) eqn:E; intros [= <- <-]; [right|by left];
      rewrite add_fits by (done || lia) end.
  - destruct (Z.eqb_spec (av_bytes a) 0) as [E0|E0];
      eapply table_ok_count; count_step.
  - eapply table_ok_count; count_step.
  - eapply table_ok_count; count_step.
Qed.
(** The loops of [atomic_min] and [atomic_max]. *)
Lemma min_steps_ok spurious pc i pc' t' :
  calls !! j = Some (a, pc) → pc = LoadMin i ∨ (∃ current, pc = SwapMin i current) →
  activity_step spurious a pc t = (pc', t') → table_ok t' (<[j := (a, pc')]> calls).
Proof using Hok.
  intros Hj Hpc.
  assert (0 ≤ av_duration a) as Hdur
    by (apply (to_timed _ _ Hok _ _ Hj); simpl; by destruct Hpc as [->|[? ->]]).
  destruct (call_slot _ _ _ _ _ i Hok Hj) as (slot & Hi & Hslot & Hs & Hk);
    [by destruct Hpc as [->|[? ->]]|destruct Hpc as [->|[? ->]]; simpl; lia|].
  destruct Hpc as [->|[current ->]]; cbn [activity_step]; rewrite Hi.
  { intros [= <- <-]. rewrite <-(with_slot_id i t). eapply table_ok_count; count_step. }
  pose proof (so_seen_min _ _ _ Hslot _ _ _ Hj) as Hseen.
  destruct (Z.ltb_spec (av_duration a) current) as [Hlt|Hge]; cycle 1.
  { intros [= <- <-]. rewrite <-(with_slot_id i t). eapply table_ok_count; count_step. }
  destruct (_ && _) eqn:E; intros [= <- <-].
  - apply andb_true_iff in E as [E%Z.eqb_eq _].
    eapply table_ok_count; count_step.
  - rewrite <-(with_slot_id i t). eapply table_ok_count; count_step.
Qed.
Lemma max_steps_ok spurious pc i pc' t' :
  calls !! j = Some (a, pc) → pc = LoadMax i ∨ (∃ current, pc = SwapMax i current) →
  activity_step spurious a pc t = (pc', t') → table_ok t' (<[j := (a, pc')]> calls).
Proof using Hok.
  intros Hj Hpc.
  assert (0 ≤ av_duration a) as Hdur
    by (apply (to_timed _ _ Hok _ _ Hj); simpl; by destruct Hpc as [->|[? ->]]).
  destruct (call_slot _ _ _ _ _ i Hok Hj) as (slot & Hi & Hslot & Hs & Hk);
    [by destruct Hpc as [->|[? ->]]|destruct Hpc as [->|[? ->]]; simpl; lia|].
  pose proof (aggregate_hash_range a).
  destruct (so_min _ _ _ Hslot) as [Hmin _]; [lia|]. specialize (Hmin _ _ Hj).
  rewrite stage_at in Hmin by (by destruct Hpc as [->|[? ->]]). cbn [fst] in Hmin.
  destruct Hpc as [->|[current ->]]; cbn [activity_step]; rewrite Hi; cbn [pc_stage] in Hmin.
  { intros [= <- <-]. rewrite <-(with_slot_id i t). eapply table_ok_count; count_step. }
  pose proof (so_seen_max _ _ _ Hslot _ _ _ Hj) as Hseen.
  destruct (Z.ltb_spec current (av_duration a)) as [Hlt|Hge]; cycle 1.
  { intros [= <- <-]. rewrite <-(with_slot_id i t). eapply table_ok_count; count_step. }
  destruct (_ && _) eqn:E; intros [= <- <-].
  - apply andb_true_iff in E as [E%Z.eqb_eq _].
    eapply table_ok_count; count_step.
  - rewrite <-(with_slot_id i t). eapply table_ok_count; count_step.
Qed.

Lemma activity_step_ok spurious pc pc' t' :
  calls !! j = Some (a, pc) → activity_step spurious a pc t = (pc', t') →
  failing t' (<[j := (a, pc')]> calls) ∨ table_ok t' (<[j := (a, pc')]> calls).
Proof using Hok Hwf.
  intros Hj Hstep. pose proof (to_healthy _ _ Hok _ _ Hj) as Hh.
  destruct pc; try done; try (right; solve [eauto using claim_slot_ok, own_slot_ok, commit_slot_ok,
    min_steps_ok, max_steps_ok]); eauto using load_state_ok, load_slot_ok, add_steps_ok.
  injection Hstep as <- <-. right. by rewrite list_insert_id.
Qed.
End steps.

(** ** Interleavings keep the invariant *)
Lemma step_capture_state spurious a pc t pc' t' :
  activity_step spurious a pc t = (pc', t') →
  sta_capture_state (tb_status t') = sta_capture_state (tb_status t)
  ∨ sta_capture_state (tb_status t') = CAPTURE_FAILED
  ∨ sta_capture_state (tb_status t') = CAPTURE_LIMIT_REACHED.
Proof.
  destruct pc; cbn [activity_step]; unfold atomic_add_checked;
    repeat match goal with
    | |- context [match ?x with Some _ => _ | None => _ end] => destruct x
    | |- context [if ?b then _ else _] => destruct b
    end; intros [= <- <-]; auto.
Qed.
Lemma failing_step spurious t calls j a pc pc' t' :
  failing t calls → calls !! j = Some (a, pc) → activity_step spurious a pc t = (pc', t') →
  failing t' (<[j := (a, pc')]> calls).
Proof.
  intros Hf Hj Hstep. pose proof (step_capture_state _ _ _ _ _ _ Hstep) as Hst.
  destruct Hf as [Hs|(k & c & Hk & Hc)].
  - left. destruct Hst as [->|[->| ->]]; done.
  - destruct (decide (j = k)) as [<-|Hne].
    + simplify_eq. assert (∀ pc, <[j := (a, pc)]> calls !! j = Some (a, pc)) as Hself
        by (intros; apply list_lookup_insert_eq; by eapply lookup_lt_Some).
      destruct pc; try done; injection Hstep as <- <-; [| |right..|];
        try (by left); try (right); by eexists _, _.
    + right. exists k, c. by rewrite list_lookup_insert_ne.
Qed.
Lemma count_activities_inv schedule c :
  failing c.1 c.2 ∨ table_ok c.1 c.2 → Forall activity_wf (c.2.*1) →
  failing (count_activities schedule c).1 (count_activities schedule c).2
  ∨ table_ok (count_activities schedule c).1 (count_activities schedule c).2.
Proof.
  intros Hinv Hwf.
  pose proof (interleave_ind activity_step
    (λ t calls, (failing t calls ∨ table_ok t calls) ∧ Forall activity_wf (calls.*1)) schedule c)
    as Hind.
  apply Hind; [|done]. intros spurious t calls j a pc pc' t' [Hi Hw] Hj Hstep. split.
  - rewrite Forall_fmap in Hw. destruct Hi as [Hf|Hok]; [left; by eapply failing_step|].
    by eapply activity_step_ok.
  - rewrite list_fmap_insert. apply Forall_insert; [done|].
    rewrite Forall_fmap, Forall_lookup in Hw. exact (Hw _ _ Hj).
Qed.
Lemma count_activities_state schedule t calls t' calls' :
  count_activities schedule (t, calls) = (t', calls') →
  tb_record_capacity t' = tb_record_capacity t
  ∧ (sta_capture_state (tb_status t') = sta_capture_state (tb_status t)
     ∨ sta_capture_state (tb_status t') = CAPTURE_FAILED
     ∨ sta_capture_state (tb_status t') = CAPTURE_LIMIT_REACHED).
Proof.
  intros Hrun.
  pose proof (interleave_ind activity_step (λ u _, tb_record_capacity u = tb_record_capacity t
    ∧ (sta_capture_state (tb_status u) = sta_capture_state (tb_status t)
       ∨ sta_capture_state (tb_status u) = CAPTURE_FAILED
       ∨ sta_capture_state (tb_status u) = CAPTURE_LIMIT_REACHED)) schedule (t, calls)) as Hind.
  unfold count_activities in Hrun. rewrite Hrun in Hind. apply Hind; [|auto].
  intros spurious u k j a pc pc' u' [Hc Hs] _ Hstep.
  pose proof (step_capture_state _ _ _ _ _ _ Hstep) as Hst. split.
  - rewrite <-Hc. revert Hstep. clear. destruct pc; cbn [activity_step]; unfold atomic_add_checked;
      repeat match goal with
      | |- context [match ?x with Some _ => _ | None => _ end] => destruct x
      | |- context [if ?b then _ else _] => destruct b
      end; by intros [= <- <-].
  - destruct Hst as [->|Hst]; [done|by right].
Qed.
Lemma armed_table_ok capacity s activities :
  0 < capacity ≤ u64_max → table_ok (arm_table capacity s) (activity_calls activities).
Proof.
  intros Hcap.
  assert (∀ i c, activity_calls activities !! i = Some c → c.2 = LoadState) as Hload.
  { intros i c. unfold activity_calls. rewrite list_lookup_fmap.
    intros (a & _ & ->)%fmap_Some. done. }
  assert (tb_slots (arm_table capacity s) = replicate (Z.to_nat capacity) empty_slot) as Hslots.
  { unfold arm_table, store_status, reset_table. cbn [tb_slots]. by rewrite fmap_replicate. }
  assert (∀ i j c, activity_calls activities !! j = Some c → stage i c = 0) as Hstage.
  { intros i j [a pc] Hc. apply stage_away. apply Hload in Hc. simpl in Hc. by subst. }
  split; rewrite ?Hslots.
  - unfold len. rewrite length_replicate. cbn [arm_table store_status reset_table
      tb_record_capacity]. lia.
  - intros i slot [-> _]%lookup_replicate. split; cbn [empty_slot sl_state sl_name]; try lia.
    + split; [by rewrite length_replicate|]. by apply Forall_replicate.
    + intros j c Hc. rewrite (Hstage _ _ _ Hc). lia.
    + intros j c Hc. rewrite (Hstage _ _ _ Hc). lia.
    + intros j a current Hc. by apply Hload in Hc.
    + intros j a current Hc. by apply Hload in Hc.
  - intros j c i Hc. rewrite (Hload _ _ Hc). done.
  - cbn [arm_table store_status reset_table tb_committed]. split; [done|].
    rewrite sum_by_zero, sum_by_zero; [done|by apply Forall_replicate|].
    apply Forall_lookup. intros j c Hc. unfold commit_pending. by rewrite (Hload _ _ Hc).
  - done.
  - intros j c Hc Hne. by rewrite (Hload _ _ Hc) in Hne.
  - intros j c Hc. by rewrite (Hload _ _ Hc).
Qed.

(** ** When all calls have returned *)
Definition counted_in (i : nat) (f : Activity → Z) (c : AggregateCall) : Z :=
  if decide (c.2 = Returned (Some i)) then f c.1 else 0.

Lemma returned_stage i c :
  call_returned c → stage i c = if decide (c.2 = Returned (Some i)) then 8 else 0.
Proof.
  destruct c as [a pc]. unfold call_returned, stage. cbn [snd]. destruct pc; try done. intros _.
  cbn [pc_slot pc_stage]. destruct (decide (index = Some i)) as [->|Hne].
  - by rewrite decide_True.
  - rewrite decide_False; [done|]. intros [=]. done.
Qed.
Lemma returned_weight k i f calls :
  0 < k ≤ 8 → Forall call_returned calls →
  sum_by (from_stage k i f) calls = sum_by (counted_in i f) calls.
Proof.
  intros Hk. induction 1 as [|c l Hc _ IH]; [done|]. cbn [sum_by foldr].
  unfold sum_by in IH. rewrite IH. f_equal. unfold from_stage, counted_in.
  rewrite returned_stage by done. case_decide; [rewrite (proj2 (Z.leb_le _ _)) by lia; done|].
  by rewrite (proj2 (Z.leb_gt _ _)) by lia.
Qed.

(** What a published slot holds: its calls and nothing else. *)
Record slot_exact (i : nat) (slot : AggregateSlot) (calls : list AggregateCall) : Prop := {
  se_total : sl_total_duration_ns slot = sum_by (counted_in i av_duration) calls;
  se_bytes : sl_total_bytes slot = sum_by (counted_in i av_bytes) calls;
  se_count : sl_count slot = sum_by (counted_in i (λ _, 1)) calls;
  se_keys : ∀ a, (a, Returned (Some i)) ∈ calls → slot_has_key slot a
    ∧ sl_min_duration_ns slot ≤ av_duration a ≤ sl_max_duration_ns slot;
  se_min : ∃ a, (a, Returned (Some i)) ∈ calls ∧ sl_min_duration_ns slot = av_duration a;
  se_max : ∃ a, (a, Returned (Some i)) ∈ calls ∧ sl_max_duration_ns slot = av_duration a;
  se_name : length (sl_name slot) = 128%nat ∧ Forall is_byte (sl_name slot) }.

Lemma returned_slot t calls i slot :
  table_ok t calls → Forall (λ c, activity_wf c.1) calls → Forall call_returned calls →
  tb_slots t !! i = Some slot → 2 ≤ sl_state slot → slot_exact i slot calls.
Proof.
  intros Hok Hwf Hret Hi H2. pose proof (to_slots _ _ Hok _ _ Hi) as Hslot.
  assert (∀ j c, calls !! j = Some c → 3 ≤ stage i c → c = (c.1, Returned (Some i))) as Hat.
  { intros j [a pc] Hc Hst. rewrite Forall_lookup in Hret.
    rewrite returned_stage in Hst by (by eapply Hret).
    case_decide as E; [simpl in E; by rewrite E|lia]. }
  assert (∀ j a, calls !! j = Some (a, Returned (Some i)) → stage i (a, Returned (Some i)) = 8)
    as Hst8 by (intros; by apply stage_at).
  assert (∀ a, (a, Returned (Some i)) ∈ calls → 0 ≤ av_duration a ≤ u64_max) as Hdur.
  { intros a [j Hj]%list_elem_of_lookup. split.
    - by apply (to_timed _ _ Hok _ _ Hj).
    - rewrite Forall_lookup in Hwf. destruct (Hwf _ _ Hj) as [_ _ _ _ [? _] [_ ?] _].
      unfold av_duration. cbn [fst] in *. lia. }
  assert (∃ a, (a, Returned (Some i)) ∈ calls) as [b Hb].
  { destruct (so_owner _ _ _ Hslot H2) as (j & c & Hj & Hst). rewrite (Hat _ _ Hj Hst) in Hj.
    exists c.1. by eapply list_elem_of_lookup_2. }
  assert (∀ a, (a, Returned (Some i)) ∈ calls → slot_has_key slot a
    ∧ sl_min_duration_ns slot ≤ av_duration a ≤ sl_max_duration_ns slot) as Hkeys.
  { intros a [j Hj]%list_elem_of_lookup. pose proof (Hst8 _ _ Hj) as H8.
    destruct (so_published _ _ _ Hslot _ _ Hj) as [_ Hkey]; [lia|].
    split; [done|]. split.
    - destruct (so_min _ _ _ Hslot H2) as [Hm _]. apply (Hm _ _ Hj). lia.
    - destruct (so_max _ _ _ Hslot H2) as [Hm _]. apply (Hm _ _ Hj). lia. }
  split.
  - rewrite (so_total _ _ _ Hslot H2). apply returned_weight; [lia|done].
  - rewrite (so_bytes _ _ _ Hslot H2). apply returned_weight; [lia|done].
  - rewrite (so_count _ _ _ Hslot H2). apply returned_weight; [lia|done].
  - exact Hkeys.
  - destruct (so_min _ _ _ Hslot H2) as [_ [Hm|(j & c & Hj & Hst & Hm)]].
    + exists b. split; [done|]. destruct (Hkeys _ Hb). specialize (Hdur _ Hb). lia.
    + rewrite (Hat _ _ Hj Hst) in Hj. exists c.1. split; [by eapply list_elem_of_lookup_2|done].
  - destruct (so_max _ _ _ Hslot H2) as [_ [Hm|(j & c & Hj & Hst & Hm)]].
    + exists b. split; [done|]. destruct (Hkeys _ Hb). specialize (Hdur _ Hb). lia.
    + rewrite (Hat _ _ Hj Hst) in Hj. exists c.1. split; [by eapply list_elem_of_lookup_2|done].
  - apply (so_name _ _ _ Hslot).
Qed.
(** Every call that returned is in one published slot. *)
Lemma returned_placed t calls a pc :
  table_ok t calls → (a, pc) ∈ calls → call_returned (a, pc) →
  ∃ i slot, pc = Returned (Some i) ∧ tb_slots t !! i = Some slot ∧ 2 ≤ sl_state slot
    ∧ slot_has_key slot a.
Proof.
  intros Hok [j Hj]%list_elem_of_lookup Hret. pose proof (to_healthy _ _ Hok _ _ Hj) as Hh.
  destruct pc as [| | | | | | | | | | | | | | | | | | |[i|]]; try done.
  destruct (call_slot _ _ _ _ _ i Hok Hj eq_refl ltac:(simpl; lia)) as (slot & Hi & _ & Hs & Hk).
  exists i, slot. pose proof (aggregate_hash_range a). split_and!; try done. lia.
Qed.

(** ** Calls return *)

(** How many operations a call has left when nothing interferes. *)
Definition steps_left (t : AggregateTable) (pc : AggregatePc) : Z :=
  let room probe := 2 * Z.max 0 (tb_record_capacity t - probe) in
  let stale (seen : option Z) current := if seen == Some current then 0 else 1 in
  match pc with
  | LoadState => room 0 + 20
  | LoadSlot probe => room probe + 18
  | ClaimSlot probe => room (probe + 1) + 19
  | FillSlot _ => 17
  | PublishSlot _ => 16
  | CommitSlot _ => 15
  | AddDuration _ => 14
  | AddBytes _ => 13
  | AddCount _ => 12
  | LoadMin _ => 11
  | SwapMin i current => 9 + stale (sl_min_duration_ns <$> tb_slots t !! i) current
  | LoadMax _ => 8
  | SwapMax i current => 6 + stale (sl_max_duration_ns <$> tb_slots t !! i) current
  | StoreFailedStatus | AddDropped => 3
  | StoreFailedState | StoreLimitReason => 2
  | StoreFailedReason | StoreLimitState => 1
  | Returned _ => 0
  end.

Lemma stale_bound (seen : option Z) current : 0 ≤ (if seen == Some current then 0 else 1) ≤ 1.
Proof. destruct (_ == _); lia. Qed.
Lemma step_progress a pc t pc' t' :
  activity_step false a pc t = (pc', t') →
  0 ≤ steps_left t' pc' ∧ (steps_left t' pc' < steps_left t pc ∨ ∃ i, pc = Returned i ∧ pc' = pc).
Proof.
  intros Hstep. destruct pc; cbn [activity_step] in Hstep; unfold atomic_add_checked in Hstep;
    repeat match type of Hstep with
    | context [match ?x with Some _ => _ | None => _ end] => destruct x eqn:?
    | context [if ?b then _ else _] => destruct b eqn:?
    end; injection Hstep as <- <-; cbn [steps_left with_slot store_status tb_record_capacity];
    cbn [negb] in *; rewrite ?andb_true_r in *;
    repeat match goal with H : (_ <? _) = true |- _ => apply Z.ltb_lt in H end;
    try match goal with H : tb_slots _ !! _ = Some _ |- _ =>
      rewrite ?H; cbn [fmap option_fmap option_map] end;
    rewrite ?(bool_decide_eq_true_2 (Some (sl_min_duration_ns _) = Some (sl_min_duration_ns _))),
      ?(bool_decide_eq_true_2 (Some (sl_max_duration_ns _) = Some (sl_max_duration_ns _))) by done;
    try match goal with H : (?x =? ?y) = false |- context [Some ?x == Some ?y] =>
      rewrite (bool_decide_eq_false_2 (Some x = Some y)) by (apply Z.eqb_neq in H; congruence) end;
    repeat match goal with |- context [if ?s == Some ?c then 0 else 1] =>
      pose proof (stale_bound s c); destruct (s == Some c) end;
    try (split; [lia|]; left; lia).
  split; [lia|]. right. eexists. split; reflexivity.
Qed.
(** No call waits for another: from any state of the table, however far all calls have got,
    a call that runs alone returns. *)
Lemma activity_returns t (calls : list AggregateCall) j a pc n :
  calls !! j = Some (a, pc) → steps_left t pc ≤ Z.of_nat n →
  ∃ i t', count_activities (replicate n (j, false)) (t, calls) = (t', <[j := (a, Returned i)]> calls).
Proof.
  intros Hj Hn.
  destruct (alone_ends activity_step steps_left (λ pc, ∃ i, pc = Returned i)) with n j a pc t calls
    as (pc' & t' & Hrun & i & ->); [| | |done|by left|by exists i, t'].
  - intros u p. destruct p; cbn [steps_left]; try lia;
      try (match goal with |- context [if ?s == Some ?c then 0 else 1] =>
        pose proof (stale_bound s c) end; lia).
    by eexists.
  - intros b p u p' u' E. destruct (step_progress _ _ _ _ _ E) as [_ [?|(i & -> & _)]]; [by left|].
    right. by exists i.
  - intros b p u p' u' [i ->] [= <- <-]. done.
Qed.
