(* ===== verification/AgentInventory.v ===== *)
(** * From the agent's table to the inventory

    What the agent sends when an aggregate capture is stopped ([AgentAggregate]) is decoded
    ([Cupti]), merged and reported ([Aggregate]).  The theorem composes the three: the
    inventory lists exactly the activities that CUPTI delivered. *)
From S2P Require Import Prelude BTree RustString Text Bytes Protocol Selector Correlate.
From S2P Require Import Lifecycle GroupPairs Exact Greedy Nearest StackNested Measure.
From S2P Require Import Os Process Inspect Resolve Ring Uprobe Usdt Syscalls Validate Linux.
From S2P Require Import Cupti CuptiFilter Completed Live Session Aggregate Agent AgentAggregate.
#[local] Open Scope Z_scope.

(** ** Records of slots *)

(** An activity as the agent passes it on: the kinds of [enqueue_kernel_activity] and
    [activity_buffer_completed]; the name of a kernel is UTF-8 where it is cut off. *)
Definition activity_readable (a : Activity) : Prop :=
  (av_kind a = 3 ∧ short_name (av_name a) ≠ [] ∧ utf8_valid (short_name (av_name a)) = true)
  ∨ ((av_kind a = 5 ∨ av_kind a = 7) ∧ av_name a = None).
(** How an activity is grouped in the inventory. *)
Definition activity_key (a : Activity) : Z * (option string * (option Z * Z)) :=
  (if av_kind a =? 3 then 0 else if av_kind a =? 5 then 1 else 2,
   (if av_kind a =? 3 then Some (string_of_bytes (short_name (av_name a))) else None,
    (optional_unknown (av_device_id a),
     memcpy_kind_rank (if av_kind a =? 5
                       then Some (decode_semantic_memcpy_kind (av_memcpy_kind a)) else None)))).
(** The group the collector reads from a slot. *)
Definition slot_group (slot : AggregateSlot) : CuptiAggregateGroup :=
  let kernel := sl_kind slot =? 3 in
  let name := until_nul (sl_name slot) in
  BuildCuptiAggregateGroup
    (if kernel then CuptiAggregateActivity.Kernel
     else if sl_kind slot =? 5 then CuptiAggregateActivity.Memcpy
     else CuptiAggregateActivity.Memset)
    (if kernel then Some (string_of_bytes name) else None)
    (if kernel then Some (len name + 1 <? CUPTI_NAME_CAPACITY) else None)
    (optional_unknown (sl_device_id slot))
    (if sl_kind slot =? 5 then Some (decode_semantic_memcpy_kind (sl_memcpy_kind slot)) else None)
    (sl_count slot) (sl_total_duration_ns slot) (sl_min_duration_ns slot)
    (sl_max_duration_ns slot) (if kernel then None else Some (sl_total_bytes slot)).

Lemma slot_group_key slot a : slot_has_key slot a → group_key (slot_group slot) = activity_key a.
Proof.
  intros [Hk Hd Hm Hn]. unfold group_key, slot_group, activity_key. cbv zeta.
  cbn [ag_activity ag_name ag_device_id ag_memcpy_kind].
  rewrite Hk, Hd, Hm, Hn. by destruct (av_kind a =? 3), (av_kind a =? 5).
Qed.

(** Counters that the collector accepts. *)
Definition slot_consistent (slot : AggregateSlot) : Prop :=
  layout_wf (slot_fields slot) ∧ len (sl_name slot) = 128 ∧ 0 < sl_count slot
  ∧ sl_min_duration_ns slot * sl_count slot ≤ sl_total_duration_ns slot
      ≤ sl_max_duration_ns slot * sl_count slot.
Lemma decode_slot slot a index :
  slot_consistent slot → slot_has_key slot a → activity_readable a →
  decode_aggregate_record (slot_encode slot) index = Ok (slot_group slot).
Proof.
  intros (Hwf & Hlen & Hcount & Hmin & Hmax) Hkey Ha.
  assert (∀ i n z x y, slot_fields slot !! i = Some (n, z) →
    x = layout_size (take i (slot_fields slot)) → y = x + Z.of_nat n →
    field (slot_encode slot) x y = Some z) as Hf.
  { intros. unfold slot_encode. by eapply layout_field_app. }
  assert (slice (slot_encode slot) 72 200 = Some (sl_name slot)) as Hslice.
  { unfold slot_encode. rewrite <-(app_nil_r (sl_name slot)) at 1.
    apply slice_app; rewrite encode_layout_len; [done|]. by rewrite Hlen. }
  unfold decode_aggregate_record, decode_name, read_u64, read_u32. rewrite Hslice.
  rewrite (Hf 0%nat _ _ 0 (0 + 8) eq_refl eq_refl eq_refl),
    (Hf 1%nat _ _ 8 (8 + 8) eq_refl eq_refl eq_refl),
    (Hf 2%nat _ _ 16 (16 + 8) eq_refl eq_refl eq_refl),
    (Hf 3%nat _ _ 24 (24 + 8) eq_refl eq_refl eq_refl),
    (Hf 4%nat _ _ 32 (32 + 8) eq_refl eq_refl eq_refl),
    (Hf 5%nat _ _ 40 (40 + 4) eq_refl eq_refl eq_refl),
    (Hf 6%nat _ _ 44 (44 + 4) eq_refl eq_refl eq_refl),
    (Hf 7%nat _ _ 48 (48 + 4) eq_refl eq_refl eq_refl).
  clear Hf Hslice. cbn [or_panic mbind res_bind].
  rewrite (proj2 (Z.eqb_neq _ 0)) by lia.
  assert (sl_min_duration_ns slot ≤ sl_total_duration_ns slot / sl_count slot)
    by (apply Z.div_le_lower_bound; lia).
  assert (sl_total_duration_ns slot / sl_count slot ≤ sl_max_duration_ns slot)
    by (apply Z.div_le_upper_bound; lia).
  rewrite !(proj2 (Z.ltb_ge _ _)) by lia. cbn [orb].
  destruct Hkey as [Hk _ _ Hn]. unfold slot_group, decode_aggregate_kind.
  rewrite Hn, Hk. unfold from_utf8.
  destruct Ha as [(H3 & Hne & Hutf)|[H57 Hname]].
  - rewrite H3, Hutf. cbn [Z.eqb Pos.eqb ok_or mbind res_bind andb].
    destruct (short_name (av_name a)) as [|b l] eqn:Es; [done|]. cbn [string_of_bytes foldr is_empty].
    done.
  - rewrite Hname. change (utf8_valid (short_name None)) with true.
    by destruct H57 as [-> | ->].
Qed.

(** ** Merging succeeds when the sums fit *)
Section merging.
Context `{SerdeJson}.

Record group_plain (g : CuptiAggregateGroup) : Prop := {
  gp_count : 0 ≤ ag_count g;
  gp_total : 0 ≤ ag_total_duration_ns g;
  gp_bytes : match ag_total_bytes g with
    | None => ag_activity g = CuptiAggregateActivity.Kernel
    | Some bytes => 0 ≤ bytes ∧ ag_activity g ≠ CuptiAggregateActivity.Kernel
    end }.
Definition group_bytes (g : CuptiAggregateGroup) : Z := default 0 (ag_total_bytes g).
Definition groups_fit (groups : list CuptiAggregateGroup) : Prop :=
  Forall group_plain groups ∧ sum_by ag_count groups ≤ u64_max
  ∧ sum_by ag_total_duration_ns groups ≤ u64_max ∧ sum_by group_bytes groups ≤ u64_max.

Lemma group_bytes_nonneg g : group_plain g → 0 ≤ group_bytes g.
Proof. intros [_ _ Hb]. unfold group_bytes. destruct (ag_total_bytes g); simpl; lia. Qed.
Lemma plain_nonneg groups :
  Forall group_plain groups → 0 ≤ sum_by ag_count groups
    ∧ 0 ≤ sum_by ag_total_duration_ns groups ∧ 0 ≤ sum_by group_bytes groups.
Proof.
  intros Hall. split_and!; apply sum_by_nonneg; (eapply Forall_impl; [exact Hall|]).
  - by intros g [].
  - by intros g [].
  - apply group_bytes_nonneg.
Qed.
Lemma add_or_fail_fits message x y : x + y ≤ u64_max → add_or_fail message x y = Ok (x + y).
Proof. intros Hxy. unfold add_or_fail, checked_add_u64. by rewrite (proj2 (Z.leb_le _ _)). Qed.
Lemma combine_fits p g :
  group_plain p → group_plain g → ag_activity p = ag_activity g →
  ag_count p + ag_count g ≤ u64_max →
  ag_total_duration_ns p + ag_total_duration_ns g ≤ u64_max →
  group_bytes p + group_bytes g ≤ u64_max →
  ∃ c, combine_groups p g = Ok c ∧ group_plain c ∧ ag_count c = ag_count p + ag_count g
    ∧ ag_total_duration_ns c = ag_total_duration_ns p + ag_total_duration_ns g
    ∧ group_bytes c = group_bytes p + group_bytes g.
Proof.
  intros [Hpc Hpt Hpb] [Hgc Hgt Hgb] Ha Hc Ht Hb. unfold combine_groups, group_bytes in *.
  rewrite !add_or_fail_fits by done. cbn [mbind res_bind].
  destruct (ag_total_bytes p) as [pb|] eqn:Ep, (ag_total_bytes g) as [gb|] eqn:Eg;
    cbn [default from_option id] in *; [|destruct Hpb; congruence|destruct Hgb; congruence|].
  - rewrite add_or_fail_fits by done. cbn [mbind res_bind]. eexists. split; [done|].
    split_and!; try done. split; simpl; [lia|lia|]. destruct Hpb, Hgb. split; [lia|done].
  - cbn [mbind res_bind]. eexists. split; [done|]. split_and!; try done.
    split; simpl; [lia|lia|done].
Qed.
Lemma merge_runs_fits merged rest :
  groups_fit (merged ++ rest) → ∃ r, merge_runs merged rest = Ok r.
Proof.
  revert merged. induction rest as [|g rest IH]; intros merged Hfit; cbn [merge_runs];
    [by eexists|].
  assert (groups_fit ((merged ++ [g]) ++ rest)) as Hfit' by by rewrite <-app_assoc.
  destruct merged as [|p front _] using rev_ind; [by apply IH|].
  rewrite last_snoc. destruct (same_group p g) eqn:E; cbn [negb]; [|by apply IH].
  destruct Hfit as (Hall & Hc & Ht & Hb). rewrite !Forall_app, Forall_singleton, Forall_cons in Hall.
  destruct Hall as [[Hfront Hp] [Hg Hrest]]. rewrite !sum_by_app, !sum_by_cons in Hc, Ht, Hb.
  destruct (plain_nonneg _ Hfront) as (? & ? & ?). destruct (plain_nonneg _ Hrest) as (? & ? & ?).
  cbn [sum_by foldr] in Hc, Ht, Hb.
  unfold same_group in E. rewrite !andb_true_iff, !bool_decide_eq_true in E.
  destruct E as [[[Ha _] _] _].
  destruct (combine_fits p g Hp Hg Ha) as (c & Hcomb & Hplain & Ec & Et & Eb); [lia..|].
  rewrite Hcomb. cbn [mbind res_bind]. rewrite removelast_last. apply IH.
  split; [by rewrite !Forall_app, Forall_singleton|].
  rewrite !sum_by_app. cbn [sum_by foldr]. rewrite Ec, Et, Eb. lia.
Qed.
Lemma merge_fits groups :
  groups_fit groups → ∃ merged, merge_aggregate_groups groups = Ok merged.
Proof.
  intros (Hall & Hc & Ht & Hb). apply merge_runs_fits. cbn [app].
  unfold groups_fit. rewrite sort_by_perm at 1.
  by rewrite !(sum_by_perm _ _ _ (sort_by_perm _ _)).
Qed.
Lemma sum_counts_fits total groups :
  Forall (λ g, 0 ≤ ag_count g) groups → 0 ≤ total → total + sum_by ag_count groups ≤ u64_max →
  sum_counts total groups = Ok (total + sum_by ag_count groups).
Proof.
  intros Hall. revert total. induction Hall as [|g l Hg Hl IH]; intros total H0 Hfit;
    cbn [sum_counts]; [by rewrite Z.add_0_r|].
  rewrite sum_by_cons in *. pose proof (sum_by_nonneg ag_count l Hl). cbv beta in Hg.
  rewrite add_or_fail_fits by lia. cbn [mbind res_bind]. rewrite IH by lia. f_equal. lia.
Qed.
End merging.

(** ** The slots of a finished capture *)
(** The published slots with their numbers. *)
Definition published_slots (t : AggregateTable) : list (nat * AggregateSlot) :=
  filter (λ p, (sl_state p.2 <? 2) = false) (imap pair (tb_slots t)).
Definition table_groups (t : AggregateTable) : list CuptiAggregateGroup :=
  (λ p, slot_group p.2) <$> published_slots t.

Lemma elem_of_published t i slot :
  (i, slot) ∈ published_slots t ↔ tb_slots t !! i = Some slot ∧ 2 ≤ sl_state slot.
Proof.
  unfold published_slots. rewrite list_elem_of_filter, list_elem_of_lookup. cbn [snd].
  rewrite Z.ltb_ge. split.
  - intros [Hs [k Hk]]. rewrite list_lookup_imap in Hk.
    apply fmap_Some in Hk as (y & Hy & [= -> ->]). done.
  - intros [Hi Hs]. split; [done|]. exists i. by rewrite list_lookup_imap, Hi.
Qed.
Lemma published_NoDup t : NoDup (published_slots t).
Proof. apply NoDup_filter, imap_pair_NoDup. Qed.
Lemma written_records t : write_aggregate_records t = (λ p, slot_encode p.2) <$> published_slots t.
Proof.
  unfold write_aggregate_records, published_slots.
  rewrite <-(imap_pair_snd (tb_slots t)) at 1. rewrite filter_fmap_comm, <-list_fmap_compose. done.
Qed.

Section finished.
Context (t : AggregateTable) (calls : list AggregateCall).
Context (Hok : table_ok t calls) (Hwf : Forall (λ c, activity_wf c.1) calls)
  (Hret : Forall call_returned calls) (Hread : Forall (λ c, activity_readable c.1) calls).

(** What is summed over the groups of some keys is what is summed over their activities. *)
Lemma table_sum (F : AggregateSlot → Z) (f : Activity → Z)
    (Q : Z * (option string * (option Z * Z)) → Prop) `{!∀ k, Decision (Q k)} :
  (∀ i slot, (i, slot) ∈ published_slots t → F slot = sum_by (counted_in i f) calls) →
  sum_by (λ p, if decide (Q (group_key (slot_group p.2))) then F p.2 else 0) (published_slots t)
  = sum_by (λ c, if decide (Q (activity_key c.1)) then f c.1 else 0) calls.
Proof using Hok Hret.
  intros HF.
  rewrite (sum_by_ext _ (λ p, sum_by (λ c, if decide (Q (group_key (slot_group p.2)))
    then counted_in p.1 f c else 0) calls)); cycle 1.
  { apply Forall_forall. intros [i slot] Hp. cbn [fst snd]. case_decide; [by apply HF|].
    symmetry. apply sum_by_zero. by apply Forall_true. }
  rewrite (sum_by_exchange (λ p c, if decide (Q (group_key (slot_group p.2)))
    then counted_in p.1 f c else 0)).
  apply sum_by_ext, Forall_forall. intros [a pc] Hc. cbn [fst].
  rewrite Forall_forall in Hret.
  destruct (returned_placed _ _ _ _ Hok Hc (Hret _ Hc)) as (i & slot & -> & Hi & Hs & Hk).
  rewrite <-(slot_group_key slot a Hk).
  rewrite (sum_by_ext _ (λ p : nat * AggregateSlot, if decide (p.1 = i) then
    (if decide (Q (group_key (slot_group p.2))) then f a else 0) else 0)).
  - rewrite (sum_by_single (λ p : nat * AggregateSlot, p.1 = i) _ _ (i, slot)); try done.
    + apply published_NoDup.
    + by apply elem_of_published.
    + intros [k slot'] [Hk' _]%elem_of_published Heq. cbn [fst] in Heq. by simplify_eq.
  - apply Forall_forall. intros [k slot'] _. unfold counted_in. cbn [fst snd].
    repeat case_decide; simplify_eq; done.
Qed.

Lemma published_exact i slot : (i, slot) ∈ published_slots t → slot_exact i slot calls.
Proof using Hok Hwf Hret. intros [Hi Hs]%elem_of_published. by eapply returned_slot. Qed.
Lemma call_times a pc : (a, pc) ∈ calls → 0 ≤ av_duration a ≤ u64_max ∧ 0 ≤ av_bytes a.
Proof using Hok Hwf Hret.
  intros Hin. rewrite Forall_forall in Hret. pose proof (Hret _ Hin) as Hr.
  apply list_elem_of_lookup in Hin as [j Hj]. rewrite Forall_lookup in Hwf.
  destruct (Hwf _ _ Hj) as [_ _ _ _ [? _] [_ ?] [? _]]. cbn [fst] in *. split; [|done].
  pose proof (to_timed _ _ Hok _ _ Hj) as Ht. cbn [fst snd] in Ht. split.
  - apply Ht. intros ->. done.
  - unfold av_duration. lia.
Qed.
Lemma counted_le i f :
  (∀ a pc, (a, pc) ∈ calls → 0 ≤ f a) →
  0 ≤ sum_by (counted_in i f) calls ≤ sum_by (λ c, f c.1) calls.
Proof using.
  intros Hf. split.
  - apply sum_by_nonneg, Forall_forall. intros [a pc] Hc. unfold counted_in. cbn [fst snd].
    case_decide; [by eapply Hf|done].
  - apply sum_by_le, Forall_forall. intros [a pc] Hc. unfold counted_in. cbn [fst snd].
    specialize (Hf _ _ Hc). case_decide; lia.
Qed.

Context (Hfit : sum_by (λ c, av_duration c.1) calls ≤ u64_max
  ∧ sum_by (λ c, av_bytes c.1) calls ≤ u64_max ∧ len calls ≤ u64_max).

Lemma published_consistent i slot :
  (i, slot) ∈ published_slots t →
  slot_consistent slot ∧ sl_count slot ≤ u64_max
  ∧ ∃ a, (a, Returned (Some i)) ∈ calls ∧ slot_has_key slot a.
Proof using Hok Hwf Hret Hfit.
  intros Hp. pose proof (published_exact _ _ Hp) as [Et Eb Ec Hkeys Hmin Hmax [Hlen _]].
  destruct Hmin as (b & Hb & Hmin). destruct Hmax as (b' & Hb' & Hmax).
  destruct (Hkeys b Hb) as [Hkey _]. destruct Hfit as (Hft & Hfb & Hfc).
  assert (∀ f, (∀ a pc, (a, pc) ∈ calls → 0 ≤ f a) → 0 ≤ sum_by (counted_in i f) calls
    ≤ sum_by (λ c, f c.1) calls) as Hle by apply counted_le.
  destruct (Hle av_duration) as [Ht0 Ht1]; [intros a pc Hin; destruct (call_times a pc Hin); lia|].
  destruct (Hle av_bytes) as [Hb0 Hb1]; [intros a pc Hin; destruct (call_times a pc Hin); lia|].
  destruct (Hle (λ _, 1)) as [Hc0 Hc1]; [lia|]. rewrite sum_by_one in Hc1.
  assert (0 < sl_count slot) as Hpos.
  { rewrite Ec. pose proof (sum_by_elem (counted_in i (λ _, 1)) calls (b, Returned (Some i))) as He.
    unfold counted_in at 2 in He. cbn [snd] in He. rewrite decide_True in He by done.
    cut (1 ≤ sum_by (counted_in i (λ _, 1)) calls); [lia|]. apply He; [|done].
    apply Forall_forall. intros c _. unfold counted_in. case_decide; lia. }
  assert (∀ m, (∀ a, (a, Returned (Some i)) ∈ calls → m ≤ av_duration a) →
    m * sl_count slot ≤ sl_total_duration_ns slot) as Hlower.
  { intros m Hm. rewrite Ec, Et, <-sum_by_scale. apply sum_by_le, Forall_forall.
    intros [a pc] Hc. unfold counted_in. cbn [fst snd]. case_decide; [|lia]. subst.
    specialize (Hm _ Hc). lia. }
  assert (∀ m, (∀ a, (a, Returned (Some i)) ∈ calls → av_duration a ≤ m) →
    sl_total_duration_ns slot ≤ m * sl_count slot) as Hupper.
  { intros m Hm. rewrite Ec, Et, <-sum_by_scale. apply sum_by_le, Forall_forall.
    intros [a pc] Hc. unfold counted_in. cbn [fst snd]. case_decide; [|lia]. subst.
    specialize (Hm _ Hc). lia. }
  destruct (call_times _ _ Hb) as [Hbt _]. destruct (call_times _ _ Hb') as [Hbt' _].
  split_and!; [|lia|by exists b]. unfold slot_consistent. split_and!; try done.
  - destruct Hkey as [Hk Hd Hm _].
    rewrite Forall_forall in Hwf. destruct (Hwf _ Hb) as [Hw1 Hw2 Hw3 _ _ _ _]. cbn [fst] in *.
    unfold layout_wf, slot_fields. rewrite !Forall_cons, Forall_nil.
    unfold in_u32, u32_max, u64_max in *. rewrite Hk, Hd, Hm.
    change (256 ^ Z.of_nat 8) with 18446744073709551616.
    change (256 ^ Z.of_nat 4) with 4294967296. lia.
  - unfold len. by rewrite Hlen.
  - apply Hlower. intros a Ha. by apply Hkeys.
  - apply Hupper. intros a Ha. by apply Hkeys.
Qed.
End finished.

(** ** The answer of the agent is decoded *)
Lemma observed_sum_fits observed slots :
  Forall (λ s, (sl_state s <? 2) = false → 0 ≤ sl_count s) slots → 0 ≤ observed →
  observed + sum_by (λ s, if sl_state s <? 2 then 0 else sl_count s) slots ≤ u64_max →
  observed_sum observed slots
  = Some (observed + sum_by (λ s, if sl_state s <? 2 then 0 else sl_count s) slots).
Proof.
  intros Hall. revert observed. induction Hall as [|s l Hs Hl IH]; intros observed H0 Hfit;
    cbn [observed_sum]; [by rewrite Z.add_0_r|].
  rewrite sum_by_cons in *.
  assert (0 ≤ sum_by (λ s, if sl_state s <? 2 then 0 else sl_count s) l).
  { apply sum_by_nonneg. eapply Forall_impl; [exact Hl|]. intros x Hx. cbv beta in *.
    destruct (sl_state x <? 2); [done|by apply Hx]. }
  destruct (sl_state s <? 2); [by apply IH|]. specialize (Hs eq_refl).
  rewrite (proj2 (Z.ltb_ge _ _)) by lia. rewrite IH by lia. f_equal. lia.
Qed.
Lemma published_sum t (F : AggregateSlot → Z) :
  sum_by (λ s, if sl_state s <? 2 then 0 else F s) (tb_slots t)
  = sum_by (λ p, F p.2) (published_slots t).
Proof.
  unfold published_slots. rewrite sum_by_filter, <-(imap_pair_snd (tb_slots t)) at 1.
  rewrite sum_by_fmap. apply sum_by_ext, Forall_forall. intros [i slot] _. cbn [snd].
  by destruct (sl_state slot <? 2).
Qed.

Section sent.
Context `{SerdeJson}.
Context (t : AggregateTable) (calls : list AggregateCall).
Context (Hok : table_ok t calls) (Hwf : Forall (λ c, activity_wf c.1) calls)
  (Hret : Forall call_returned calls) (Hread : Forall (λ c, activity_readable c.1) calls).
Context (Hfit : sum_by (λ c, av_duration c.1) calls ≤ u64_max
  ∧ sum_by (λ c, av_bytes c.1) calls ≤ u64_max ∧ len calls ≤ u64_max).

Lemma table_total (F : AggregateSlot → Z) (f : Activity → Z) :
  (∀ i slot, (i, slot) ∈ published_slots t → F slot = sum_by (counted_in i f) calls) →
  sum_by (λ p, F p.2) (published_slots t) = sum_by (λ c, f c.1) calls.
Proof using Hok Hret.
  intros HF. pose proof (table_sum t calls Hok Hret F f (λ _, True) HF) as Hsum.
  rewrite (sum_by_ext _ (λ p, F p.2)) in Hsum
    by (apply Forall_forall; intros; by rewrite decide_True).
  rewrite Hsum. apply sum_by_ext, Forall_forall. intros. by rewrite decide_True.
Qed.
Lemma groups_total (F : CuptiAggregateGroup → Z) (f : Activity → Z) :
  (∀ i slot, (i, slot) ∈ published_slots t →
     F (slot_group slot) = sum_by (counted_in i f) calls) →
  sum_by F (table_groups t) = sum_by (λ c, f c.1) calls.
Proof using Hok Hret.
  intros HF. unfold table_groups. rewrite sum_by_fmap.
  apply (table_total (λ slot, F (slot_group slot)) f HF).
Qed.
Lemma slot_bytes_exact i slot :
  (i, slot) ∈ published_slots t →
  group_bytes (slot_group slot)
  = sum_by (counted_in i (λ a, if av_kind a =? 3 then 0 else av_bytes a)) calls.
Proof using Hok Hwf Hret.
  intros Hp. pose proof (published_exact t calls Hok Hwf Hret _ _ Hp) as [_ Eb _ Hkeys _ _ _].
  unfold group_bytes, slot_group. cbn [ag_total_bytes].
  destruct (sl_kind slot =? 3) eqn:E; cbn [default from_option id].
  - symmetry. apply sum_by_zero, Forall_forall. intros [a pc] Hc. unfold counted_in. cbn [fst snd].
    case_decide; [|done]. subst. destruct (Hkeys a Hc) as [[Hk _ _ _] _]. by rewrite <-Hk, E.
  - rewrite Eb. apply sum_by_ext, Forall_forall. intros [a pc] Hc. unfold counted_in.
    cbn [fst snd]. case_decide; [|done]. subst. destruct (Hkeys a Hc) as [[Hk _ _ _] _].
    by rewrite <-Hk, E.
Qed.
Lemma table_groups_fit : groups_fit (table_groups t) ∧ sum_by ag_count (table_groups t) = len calls.
Proof using Hok Hwf Hret Hfit.
  pose proof (published_exact t calls Hok Hwf Hret) as Hexact.
  pose proof (published_consistent t calls Hok Hwf Hret Hfit) as Hcons.
  destruct Hfit as (Hft & Hfb & Hfc).
  assert (sum_by ag_count (table_groups t) = len calls) as Hcount.
  { rewrite (groups_total ag_count (λ _, 1)); [apply sum_by_one|].
    intros i slot Hp. apply (Hexact _ _ Hp). }
  split; [|done]. unfold groups_fit. rewrite Hcount. split_and!; [|done|..].
  - unfold table_groups. rewrite Forall_fmap. apply Forall_forall. intros [i slot] Hp.
    destruct (Hcons _ _ Hp) as (Hc & _). destruct (Hexact _ _ Hp) as [Et Eb _ _ _ _ _].
    destruct Hc as (_ & _ & Hpos & _).
    destruct (counted_le calls i av_duration) as [Ht0 _];
      [intros a pc Hin; destruct (call_times t calls Hok Hwf Hret a pc Hin); lia|].
    destruct (counted_le calls i av_bytes) as [Hb0 _];
      [intros a pc Hin; destruct (call_times t calls Hok Hwf Hret a pc Hin); lia|].
    split; cbn; [lia|lia|]. destruct (sl_kind slot =? 3); [done|].
    split; [lia|]. by destruct (sl_kind slot =? 5).
  - rewrite (groups_total ag_total_duration_ns av_duration); [done|].
    intros i slot Hp. apply (Hexact _ _ Hp).
  - rewrite (groups_total group_bytes (λ a, if av_kind a =? 3 then 0 else av_bytes a));
      [|apply slot_bytes_exact].
    etransitivity; [|exact Hfb]. apply sum_by_le, Forall_forall. intros [a pc] Hin.
    destruct (call_times t calls Hok Hwf Hret a pc Hin). cbn [fst].
    destruct (av_kind a =? 3); lia.
Qed.
Lemma table_observed :
  observed_sum 0 (tb_slots t) = Some (len calls) ∧ tb_committed t = len (published_slots t).
Proof using Hok Hwf Hret Hfit.
  pose proof (published_exact t calls Hok Hwf Hret) as Hexact.
  assert (sum_by (λ s, if sl_state s <? 2 then 0 else sl_count s) (tb_slots t) = len calls) as Hsum.
  { rewrite published_sum, (table_total sl_count (λ _, 1)); [apply sum_by_one|].
    intros i slot Hp. apply (Hexact _ _ Hp). }
  split.
  - rewrite observed_sum_fits; [by rewrite Hsum|..|done|].
    + apply Forall_lookup. intros i slot Hi Hs. apply Z.ltb_ge in Hs.
      assert ((i, slot) ∈ published_slots t) as Hp by by apply elem_of_published.
      destruct (published_consistent t calls Hok Hwf Hret Hfit _ _ Hp) as ((_ & _ & ? & _) & _). lia.
    + rewrite Hsum. destruct Hfit as (_ & _ & ?). lia.
  - destruct (to_committed _ _ Hok) as [_ Hc]. rewrite (sum_by_zero commit_pending) in Hc.
    + rewrite Z.add_0_r in Hc. rewrite Hc. unfold published.
      rewrite (published_sum t (λ _, 1)). apply sum_by_one.
    + eapply Forall_impl; [exact Hret|]. intros [a pc] Hr. by destruct pc.
Qed.

Lemma records_decoded :
  Forall (λ chunk, length chunk = 200%nat) (write_aggregate_records t)
  ∧ res_mapM (λ c, decode_aggregate_record c.2 (Z.of_nat c.1))
      (imap pair (write_aggregate_records t)) = Ok (table_groups t).
Proof using Hok Hwf Hret Hread Hfit.
  pose proof (published_consistent t calls Hok Hwf Hret Hfit) as Hcons. split.
  - rewrite written_records, Forall_fmap. apply Forall_forall. intros [i slot] Hp. cbn [snd compose].
    destruct (Hcons _ _ Hp) as ((_ & Hlen & _) & _). unfold slot_encode.
    rewrite length_app. pose proof (encode_layout_len (slot_fields slot)) as He.
    change (layout_size (slot_fields slot)) with 72 in He. unfold len in *. lia.
  - rewrite written_records. unfold table_groups.
    assert (∀ n, res_mapM (λ c, decode_aggregate_record c.2 (Z.of_nat c.1))
      (imap (λ i x, ((n + i)%nat, x)) ((λ p, slot_encode p.2) <$> published_slots t))
      = Ok ((λ p, slot_group p.2) <$> published_slots t)) as Hgen; [|exact (Hgen 0%nat)].
    assert (Forall (λ p, ∀ index, decode_aggregate_record (slot_encode p.2) index
      = Ok (slot_group p.2)) (published_slots t)) as Hall.
    { apply Forall_forall. intros [i slot] Hp index. cbn [snd].
      destruct (Hcons _ _ Hp) as (Hc & _ & a & Ha & Hkey).
      rewrite Forall_forall in Hread. specialize (Hread _ Ha). by eapply decode_slot. }
    clear Hcons. induction Hall as [|p l Hp _ IH]; intros n; [done|].
    cbn [fmap list_fmap imap res_mapM]. cbn [fst snd]. rewrite Hp. cbn [mbind res_bind].
    specialize (IH (S n)). cbn [fmap list_fmap] in IH.
    rewrite (imap_ext _ (λ i x, ((S n + i)%nat, x))), IH; [done|].
    intros i x _. simpl. f_equal. lia.
Qed.

(** The header of an aggregate capture that was stopped. *)
Lemma stopped_header nvtx_active status capacity observed committed records :
  committed = records → 0 ≤ records → records ≤ capacity → records ≤ observed →
  observed ≤ u64_max → capacity * 200 + 88 ≤ u64_max →
  sta_capture_state status = CAPTURE_ACTIVE →
  header_ok (initialize_output_header (feature_flags true nvtx_active false)
               (mark_stopped AGENT_READY status) (BuildAgentCounters capacity 0 0 0)
               observed committed 0) records.
Proof.
  intros -> Hp0 Hc Hfew Hcalls Hcap Hactive.
  unfold header_ok, initialize_output_header. cbn [oh_magic oh_abi_version oh_header_size
    oh_record_size oh_feature_flags oh_record_count oh_record_offset oh_record_capacity
    oh_observed_records oh_agent_dropped_records oh_cupti_dropped_records oh_unknown_records
    cn_record_capacity cn_agent_dropped cn_cupti_dropped cn_unknown].
  rewrite Z.sub_0_r, Z.mod_small by (unfold u64_max in *; lia).
  split_and!; try done; try lia; [|by destruct nvtx_active].
  unfold layout_wf, output_fields. rewrite !Forall_cons, Forall_nil. cbn [oh_abi_version
    oh_header_size oh_record_size oh_feature_flags oh_record_count oh_record_offset
    oh_record_capacity oh_observed_records oh_agent_dropped_records oh_cupti_dropped_records
    oh_unknown_records oh_capture_state oh_stop_reason cn_record_capacity cn_agent_dropped
    cn_cupti_dropped cn_unknown].
  unfold mark_stopped. rewrite Hactive.
  cbn [AGENT_READY CAPTURE_ACTIVE Z.eqb Pos.eqb andb set_stop_reason set_capture_state
    sta_capture_state sta_stop_reason].
  change (256 ^ Z.of_nat 8) with 18446744073709551616.
  change (256 ^ Z.of_nat 4) with 4294967296. unfold u64_max in *.
  assert (0 ≤ feature_flags true nvtx_active false < 4294967296) by by destruct nvtx_active.
  unfold ABI_VERSION, CAPTURE_STOPPED, STOP_REQUESTED. split_and!; try lia.
Qed.
Lemma sent_capture nvtx_active session_id :
  tb_record_capacity t * 200 + 88 ≤ u64_max → sta_capture_state (tb_status t) = CAPTURE_ACTIVE →
  ∃ bytes t' capture,
    write_aggregate_capture nvtx_active 0 0 0 (store_status (mark_stopped AGENT_READY) t)
      = (Some bytes, t')
    ∧ decode_capture bytes session_id = Ok capture
    ∧ cc_state capture = CuptiCaptureState.Stopped
    ∧ cc_stop_reason capture = CuptiStopReason.Requested ∧ cc_dropped_records capture = 0
    ∧ cc_unknown_records capture = 0 ∧ cc_events capture = []
    ∧ cc_aggregate_groups capture = table_groups t ∧ cc_observed_records capture = len calls
    ∧ cc_record_capacity capture = tb_record_capacity t.
Proof using Hok Hwf Hret Hread Hfit.
  intros Hcap Hactive. destruct table_observed as [Hobs Hcom].
  destruct records_decoded as [Hlen Hdec].
  assert (len (published_slots t) = len (write_aggregate_records t)) as Hrecords
    by (rewrite written_records; unfold len; by rewrite length_fmap).
  assert (len (published_slots t) ≤ len calls) as Hfew.
  { rewrite <-(sum_by_one (published_slots t)), <-(sum_by_one calls).
    rewrite <-(table_total sl_count (λ _, 1)).
    - apply sum_by_le, Forall_forall. intros [i slot] Hp. cbn [snd].
      destruct (published_consistent t calls Hok Hwf Hret Hfit _ _ Hp) as ((_ & _ & ? & _) & _). lia.
    - intros i slot Hp. by apply (published_exact t calls Hok Hwf Hret). }
  destruct (to_capacity _ _ Hok) as [Hc1 Hc2]. pose proof (to_dropped _ _ Hok) as Hdrop.
  pose proof (published_bound (tb_slots t)) as Hpb.
  destruct (to_committed _ _ Hok) as [_ Hc]. pose proof (commit_pending_nonneg calls).
  pose proof (len_nonneg (published_slots t)) as Hp0.
  destruct Hfit as (_ & _ & Hcalls).
  unfold write_aggregate_capture, aggregate_observed_records.
  cbn [store_status tb_committed tb_slots tb_agent_dropped tb_record_capacity tb_status].
  rewrite (proj2 (Z.ltb_ge _ 0)) by lia. cbn [Z.eqb negb orb]. rewrite Hobs, Hdrop.
  rewrite (proj2 (Z.ltb_ge _ _)) by lia. rewrite Z.add_0_r.
  cbn [store_status tb_committed tb_slots tb_agent_dropped tb_record_capacity tb_status].
  match goal with |- context [output_encode ?h] => set (header := h) end.
  assert (write_aggregate_records (store_status (mark_stopped AGENT_READY) t)
    = write_aggregate_records t) as Hwr by done.
  eexists _, _.
  assert (header_ok header (len (write_aggregate_records t))) as Hheader
    by (unfold header; rewrite Hdrop, Hcom, Hrecords; apply stopped_header; done || lia).
  eexists. split; [reflexivity|]. rewrite Hwr.
  rewrite (decode_capture_written header _ _ CuptiCaptureState.Stopped CuptiStopReason.Requested
    Hheader Hlen); [|by unfold header, initialize_output_header, mark_stopped; rewrite Hactive..].
  unfold decode_payload. rewrite (record_chunks_written header _ eq_refl Hlen).
  assert (has_feature (oh_feature_flags header) FEATURE_AGGREGATE_RECORDS = true) as ->
    by (unfold header; by destruct nvtx_active).
  rewrite Hdec. cbn [mbind res_bind]. split; [reflexivity|]. split_and!; done || (simpl; lia).
Qed.
End sent.

(** ** The inventory *)
Section inventory.
Context `{SerdeJson} `{!RegexEngine}.

(** The key and the statistics of a reported group. *)
Definition reported_key (g : AggregateGroup) : Z * (option string * (option Z * Z)) :=
  (aggregate_activity_rank (agg_activity g),
   (agg_name g, (agg_device_id g, memcpy_kind_rank (agg_memcpy_kind g)))).
Record reports (g : AggregateGroup) (activities : list Activity) : Prop := {
  rp_count : agg_count g = len activities;
  rp_total : ad_total (agg_duration_ns g) = sum_by av_duration activities;
  rp_min : Forall (λ a, ad_min (agg_duration_ns g) ≤ av_duration a) activities
    ∧ Exists (λ a, ad_min (agg_duration_ns g) = av_duration a) activities;
  rp_max : Forall (λ a, av_duration a ≤ ad_max (agg_duration_ns g)) activities
    ∧ Exists (λ a, ad_max (agg_duration_ns g) = av_duration a) activities;
  rp_bytes : agg_total_bytes g
    = if agg_activity g == CuptiAggregateActivity.Kernel then None
      else Some (sum_by av_bytes activities) }.
(** An inventory of activities: every key once, with everything counted for it. *)
Record inventory_of (r : AggregateInventoryResult) (activities : list Activity) : Prop := {
  io_keys : NoDup (reported_key <$> air_groups r);
  io_covered : ∀ a, a ∈ activities → activity_key a ∈ reported_key <$> air_groups r;
  io_groups : Forall (λ g, reports g (filter (λ a, activity_key a = reported_key g) activities))
                (air_groups r);
  io_observed : acs_observed_activities (air_collection r) = len activities }.

Lemma protocol_group_reports m g :
  protocol_aggregate_group m = Ok g →
  reported_key g = group_key m ∧ agg_activity g = ag_activity m ∧ agg_count g = ag_count m
  ∧ ad_total (agg_duration_ns g) = ag_total_duration_ns m
  ∧ ad_min (agg_duration_ns g) = ag_min_duration_ns m
  ∧ ad_max (agg_duration_ns g) = ag_max_duration_ns m ∧ agg_total_bytes g = ag_total_bytes m.
Proof.
  unfold protocol_aggregate_group.
  destruct (aggregate_selector_hints m) as [[start finish]| |]; [|done..].
  by intros [= <-].
Qed.

Section counted.
Context (t : AggregateTable) (calls : list AggregateCall).
Context (Hok : table_ok t calls) (Hwf : Forall (λ c, activity_wf c.1) calls)
  (Hret : Forall call_returned calls).
Local Abbreviation activities := (calls.*1).

Lemma members_sum m (F : CuptiAggregateGroup → Z) (f : Activity → Z) :
  (∀ i slot, (i, slot) ∈ published_slots t →
     F (slot_group slot) = sum_by (counted_in i f) calls) →
  sum_by F (members m (table_groups t))
  = sum_by f (filter (λ a, activity_key a = group_key m) activities).
Proof using Hok Hret.
  intros HF. unfold members. rewrite !sum_by_filter. unfold table_groups. rewrite !sum_by_fmap.
  exact (table_sum t calls Hok Hret (λ slot, F (slot_group slot)) f (λ k, k = group_key m) HF).
Qed.
(** The group in which an activity was counted. *)
Lemma activity_group a :
  a ∈ activities → ∃ i slot, (i, slot) ∈ published_slots t ∧ (a, Returned (Some i)) ∈ calls
    ∧ group_key (slot_group slot) = activity_key a ∧ slot_group slot ∈ table_groups t.
Proof using Hok Hret.
  intros ([a' pc] & -> & Hc)%list_elem_of_fmap. rewrite Forall_forall in Hret.
  destruct (returned_placed _ _ _ _ Hok Hc (Hret _ Hc)) as (i & slot & -> & Hi & Hs & Hk).
  assert ((i, slot) ∈ published_slots t) as Hp by by apply elem_of_published.
  exists i, slot. split_and!; [done|done|by apply slot_group_key|].
  unfold table_groups. by apply (list_elem_of_fmap_2 (λ p, slot_group p.2) _ _ Hp).
Qed.
Lemma members_activity g m :
  g ∈ members m (table_groups t) →
  ∃ i slot, (i, slot) ∈ published_slots t ∧ g = slot_group slot ∧ slot_exact i slot calls
    ∧ ∀ a, (a, Returned (Some i)) ∈ calls →
        a ∈ filter (λ a, activity_key a = group_key m) activities.
Proof using Hok Hwf Hret.
  intros [Hkey ([i slot] & -> & Hp)%list_elem_of_fmap]%list_elem_of_filter.
  pose proof (published_exact t calls Hok Hwf Hret _ _ Hp) as Hexact.
  exists i, slot. split_and!; [done..|]. intros a Ha. apply list_elem_of_filter. split.
  - rewrite <-Hkey. symmetry. apply slot_group_key. by apply (se_keys _ _ _ Hexact).
  - by apply (list_elem_of_fmap_2 fst _ _ Ha).
Qed.
Lemma summary_bytes m :
  (∃ h, h ∈ members m (table_groups t)) →
  match ag_total_bytes m with
  | Some bytes =>
      Forall (λ g, is_Some (ag_total_bytes g)) (members m (table_groups t))
      ∧ bytes = sum_by (λ g, default 0 (ag_total_bytes g)) (members m (table_groups t))
  | None => Forall (λ g, ag_total_bytes g = None) (members m (table_groups t))
  end →
  ag_total_bytes m
  = if bool_decide (ag_activity m = CuptiAggregateActivity.Kernel) then None
    else Some (sum_by av_bytes (filter (λ a, activity_key a = group_key m) activities)).
Proof using Hok Hwf Hret.
  intros (h & Hh) Hb.
  pose proof (members_sum m group_bytes (λ a, if av_kind a =? 3 then 0 else av_bytes a)
    (slot_bytes_exact t calls Hok Hwf Hret)) as Hbytes.
  destruct (members_activity h m Hh) as (i & slot & Hp & -> & Hex & _).
  apply list_elem_of_filter in Hh as Hh'. destruct Hh' as [Hkey _].
  assert (ag_activity m = ag_activity (slot_group slot)) as Eact.
  { pose proof (f_equal fst Hkey) as Hr. cbn [group_key fst] in Hr. revert Hr.
    by destruct (ag_activity (slot_group slot)), (ag_activity m). }
  assert (ag_activity m = CuptiAggregateActivity.Kernel ↔ sl_kind slot =? 3 = true) as Hkernel.
  { rewrite Eact. unfold slot_group. cbn [ag_activity].
    by destruct (sl_kind slot =? 3), (sl_kind slot =? 5). }
  destruct (ag_total_bytes m) as [bytes|].
  + destruct Hb as [Hsome ->]. rewrite Forall_forall in Hsome. specialize (Hsome _ Hh).
    unfold slot_group in Hsome. cbn [ag_total_bytes] in Hsome.
    destruct (sl_kind slot =? 3) eqn:E3; [by destruct Hsome|].
    rewrite bool_decide_eq_false_2 by (intros Hm%Hkernel; done).
    f_equal. unfold group_bytes in Hbytes. rewrite Hbytes.
    apply sum_by_ext, Forall_forall. intros a [Hk _]%list_elem_of_filter.
    rewrite <-Hkey in Hk. unfold activity_key, group_key, slot_group in Hk.
    cbn [ag_activity ag_name ag_device_id ag_memcpy_kind] in Hk. injection Hk as Hr _ _ _.
    rewrite E3 in Hr. destruct (av_kind a =? 3); [|done].
    by destruct (sl_kind slot =? 5).
  + rewrite Forall_forall in Hb. specialize (Hb _ Hh).
    unfold slot_group in Hb. cbn [ag_total_bytes] in Hb.
    destruct (sl_kind slot =? 3) eqn:E3; [|done]. by rewrite bool_decide_eq_true_2 by by apply Hkernel.
Qed.
Lemma summary_reports m g :
  summarises m (members m (table_groups t)) → protocol_aggregate_group m = Ok g →
  reports g (filter (λ a, activity_key a = reported_key g) activities).
Proof using Hok Hwf Hret.
  intros [Hc Ht [Hmin Hmin'] [Hmax Hmax'] Hb] Hg.
  destruct (protocol_group_reports _ _ Hg) as (Ek & Ea & Ec & Et & Emin & Emax & Eb).
  pose proof (published_exact t calls Hok Hwf Hret) as Hexact.
  rewrite Ek. split.
  - rewrite Ec, Hc, (members_sum m ag_count (λ _, 1)); [apply sum_by_one|].
    intros i slot Hp. apply (Hexact _ _ Hp).
  - rewrite Et, Ht. apply members_sum. intros i slot Hp. apply (Hexact _ _ Hp).
  - rewrite Emin. split.
    + apply Forall_forall. intros a [Hk Ha]%list_elem_of_filter.
      destruct (activity_group a Ha) as (i & slot & Hp & Hc' & Hgk & Hin).
      destruct (se_keys _ _ _ (Hexact _ _ Hp) a Hc') as [_ [Hle _]].
      rewrite Forall_forall in Hmin. etransitivity; [|exact Hle].
      apply (Hmin (slot_group slot)). apply list_elem_of_filter. split; [congruence|done].
    + apply Exists_exists in Hmin' as (h & Hh & ->).
      destruct (members_activity h m Hh) as (i & slot & Hp & -> & Hex & Hall).
      destruct (se_min _ _ _ Hex) as (a & Ha & Hm). apply Exists_exists. exists a. auto.
  - rewrite Emax. split.
    + apply Forall_forall. intros a [Hk Ha]%list_elem_of_filter.
      destruct (activity_group a Ha) as (i & slot & Hp & Hc' & Hgk & Hin).
      destruct (se_keys _ _ _ (Hexact _ _ Hp) a Hc') as [_ [_ Hle]].
      rewrite Forall_forall in Hmax. etransitivity; [exact Hle|].
      apply (Hmax (slot_group slot)). apply list_elem_of_filter. split; [congruence|done].
    + apply Exists_exists in Hmax' as (h & Hh & ->).
      destruct (members_activity h m Hh) as (i & slot & Hp & -> & Hex & Hall).
      destruct (se_max _ _ _ Hex) as (a & Ha & Hm). apply Exists_exists. exists a. auto.
  - rewrite Eb, Ea. apply summary_bytes; [|done]. apply Exists_exists in Hmin' as (h & Hh & _).
    by exists h.
Qed.
End counted.

Lemma res_mapM_all {E A B} (f : A → res E B) l :
  Forall (λ x, ∃ y, f x = Ok y) l → ∃ k, res_mapM f l = Ok k.
Proof.
  induction 1 as [|x l [y Hy] _ [k Hk]]; [by eexists|]. cbn [res_mapM].
  rewrite Hy. cbn [mbind res_bind]. rewrite Hk. by eexists.
Qed.
Lemma protocol_group_ok m t :
  summarises m (members m (table_groups t)) → ∃ g, protocol_aggregate_group m = Ok g.
Proof.
  intros [_ _ [_ Hex] _ _]. apply Exists_exists in Hex as (h & Hh & _).
  apply list_elem_of_filter in Hh as [Hkey ([i slot] & -> & _)%list_elem_of_fmap].
  cbn [snd] in Hkey. unfold protocol_aggregate_group, aggregate_selector_hints.
  destruct (ag_activity m) eqn:Ea; [|by destruct (ag_memcpy_kind m) as [[]|]; eexists|by eexists].
  pose proof (f_equal fst Hkey) as Hr. pose proof (f_equal (λ k, k.2.1) Hkey) as Hn.
  cbn [group_key fst snd] in Hr, Hn. rewrite Ea in Hr. rewrite <-Hn.
  unfold slot_group in Hr |- *. cbn [ag_activity ag_name] in *.
  destruct (sl_kind slot =? 3); [by eexists|]. by destruct (sl_kind slot =? 5).
Qed.
Lemma klt_NoDup merged :
  StronglySorted (λ a b, klt (group_key a) (group_key b)) merged → NoDup (group_key <$> merged).
Proof.
  induction 1 as [|m l _ IH Hall]; [constructor|]. rewrite fmap_cons. constructor; [|done].
  intros (x & Heq & Hx)%list_elem_of_fmap. rewrite Forall_forall in Hall.
  specialize (Hall x Hx). rewrite <-Heq in Hall. by apply klt_irrefl in Hall.
Qed.

Lemma inventory_reported t calls capture options :
  table_ok t calls → Forall (λ c, activity_wf c.1) calls → Forall call_returned calls →
  sum_by (λ c, av_duration c.1) calls ≤ u64_max
  ∧ sum_by (λ c, av_bytes c.1) calls ≤ u64_max ∧ len calls ≤ u64_max →
  cc_state capture = CuptiCaptureState.Stopped →
  cc_stop_reason capture = CuptiStopReason.Requested → cc_dropped_records capture = 0 →
  cc_unknown_records capture = 0 → cc_events capture = [] →
  cc_aggregate_groups capture = table_groups t → cc_observed_records capture = len calls →
  ∃ r, aggregate_inventory_result capture options = Ok r ∧ inventory_of r (calls.*1).
Proof.
  intros Hok Hwf Hret Hfit Hst Hre Hdr Hun Hev Hgr Hob.
  unfold aggregate_inventory_result, validate_aggregate_capture.
  rewrite Hst, Hre, Hdr, Hun, Hev, Hgr, Hob. cbn.
  destruct (table_groups_fit t calls Hok Hwf Hret Hfit) as [Hgfit Hcount].
  destruct (merge_fits _ Hgfit) as [merged Hm]. rewrite Hm. cbn [mbind res_bind].
  pose proof (merge_aggregate_grouped (table_groups t)) as Hg. rewrite Hm in Hg.
  destruct Hg as [Hs Hsum Hcov Hn].
  assert (Forall (λ m, 0 ≤ ag_count m) merged) as Hpos.
  { eapply Forall_impl; [exact Hsum|]. intros m [Hc _ _ _ _]. cbv beta. rewrite Hc.
    apply sum_by_nonneg, Forall_forall. intros g [_ Hin]%list_elem_of_filter.
    destruct Hgfit as [Hplain _]. rewrite Forall_forall in Hplain. apply (Hplain g Hin). }
  rewrite sum_counts_fits; [|done|done|rewrite Hn, Hcount; lia]. cbn [mbind res_bind].
  rewrite Hn, Hcount, Z.add_0_l, Z.eqb_refl. cbn [negb].
  destruct (res_mapM_all protocol_aggregate_group merged) as [groups Hgroups].
  { eapply Forall_impl; [exact Hsum|]. intros m. apply protocol_group_ok. }
  rewrite Hgroups. cbn [mbind res_bind]. eexists. split; [reflexivity|].
  apply res_mapM_Forall2 in Hgroups.
  assert (reported_key <$> groups = group_key <$> merged) as Hkeys.
  { clear -Hgroups. induction Hgroups as [|m g l k Hg _ IH]; [done|]. rewrite !fmap_cons, IH.
    f_equal. by apply protocol_group_reports. }
  split; cbn [air_groups air_collection acs_observed_activities].
  - rewrite Hkeys. by apply klt_NoDup.
  - intros a Ha. rewrite Hkeys. destruct (activity_group t calls Hok Hret a Ha)
      as (i & slot & _ & _ & <- & Hin).
    rewrite Forall_forall in Hcov. destruct (Hcov _ Hin) as (m & Hmin & <-).
    by apply list_elem_of_fmap_2.
  - apply Forall_forall. intros g (k & Hk)%list_elem_of_lookup.
    destruct (Forall2_lookup_r _ _ _ _ _ Hgroups Hk) as (m & Hlk & Hpg).
    apply (summary_reports t calls Hok Hwf Hret m g); [|done].
    rewrite Forall_forall in Hsum. apply Hsum. by eapply list_elem_of_lookup_2.
  - unfold len. by rewrite length_fmap.
Qed.

(** ** Captures that did not count everything are refused *)
Lemma decode_capture_says h rest session_id c :
  len (oh_magic h) = 8 → 0 ≤ oh_capture_state h < 256 ^ Z.of_nat 4 →
  decode_capture (output_encode h ++ rest) session_id = Ok c →
  decode_capture_state (oh_capture_state h) = Ok (cc_state c).
Proof.
  intros Hm Hs Hok.
  assert (read_u32 (output_encode h ++ rest) 24 = Ok (oh_capture_state h)) as Hread.
  { unfold read_u32, output_encode. rewrite <-app_assoc.
    by rewrite (layout_field_one (oh_magic h) (output_fields h) rest 4 4 (oh_capture_state h))
      by (done || rewrite Hm; done). }
  unfold decode_capture in Hok. rewrite Hread in Hok. cbn [mbind res_bind] in Hok.
  destruct (decode_capture_state (oh_capture_state h)) as [state| |]; cbn [mbind res_bind] in Hok.
  - res_steps. destruct_and?. repeat match goal with x : (_ * _)%type |- _ => destruct x end.
    res_steps. done.
  - exfalso. res_steps.
  - exfalso. res_steps.
Qed.
Lemma inventory_refused capture options :
  cc_state capture ≠ CuptiCaptureState.Stopped →
  ∀ r, aggregate_inventory_result capture options ≠ Ok r.
Proof.
  intros Hs r. unfold aggregate_inventory_result, validate_aggregate_capture.
  destruct (_ == CuptiCaptureState.LimitReached); [done|].
  by rewrite (bool_decide_eq_false_2 _ Hs).
Qed.

Lemma refused_when_not_active nvtx_active session_id options t bytes t' capture :
  sta_capture_state (tb_status t) = CAPTURE_FAILED
  ∨ sta_capture_state (tb_status t) = CAPTURE_LIMIT_REACHED →
  write_aggregate_capture nvtx_active 0 0 0 (store_status (mark_stopped AGENT_READY) t)
    = (Some bytes, t') →
  decode_capture bytes session_id = Ok capture →
  ∀ r, aggregate_inventory_result capture options ≠ Ok r.
Proof.
  intros Hstate Hwrite Hdec. apply inventory_refused. unfold write_aggregate_capture in Hwrite.
  destruct (_ || _) in Hwrite; [done|].
  destruct (aggregate_observed_records _) as [observed u] eqn:Eobs.
  assert (∀ A B (x y : A) (v w : B), (Some x, v) = (Some y, w) → x = y ∧ v = w) as Hinj
    by by intros A B x y v w [= -> ->].
  apply Hinj in Hwrite as [<- ->].
  assert (sta_capture_state (tb_status t') = CAPTURE_FAILED
    ∨ sta_capture_state (tb_status t') = CAPTURE_LIMIT_REACHED) as Hstate'.
  { revert Eobs. unfold aggregate_observed_records.
    assert (mark_stopped AGENT_READY (tb_status t) = tb_status t) as Hmark
      by (unfold mark_stopped; by destruct Hstate as [-> | ->]).
    destruct (observed_sum _ _); [destruct (_ <? _)|]; intros [= <- <-]; [by left| |by left].
    cbn [store_status tb_status]. by rewrite Hmark. }
  apply decode_capture_says in Hdec; [|done|];
    cbn [initialize_output_header oh_capture_state] in *.
  - intros Heq. rewrite Heq in Hdec. by destruct Hstate' as [Hs|Hs]; rewrite Hs in Hdec.
  - by destruct Hstate' as [-> | ->].
Qed.

End inventory.
