(* ===== verification/AgentRecords.v ===== *)
(** * The records of the agent

    In exact mode the agent ([cupti/src/cupti_agent.c]) keeps every record that a filter
    accepts in an array.  Callbacks on several threads take places in it with an atomic
    counter, write their record, mark it ready, and carry the number of committed records
    over everything that is ready without a gap; a snapshot sends committed records only.
    The model runs the calls of [enqueue_record] in any interleaving, as [AgentAggregate]
    does for the group table. *)
From S2P Require Import Prelude BTree RustString Text Bytes Protocol Selector.
From S2P Require Import Os Process Inspect Resolve Usdt Syscalls Validate Cupti CuptiFilter.
From S2P Require Import Session Agent.
#[local] Open Scope Z_scope.

(** ** The shared variables *)
Record RecordTable := BuildRecordTable {
  rt_records : list xprobe_cupti_record;
  rt_ready : list bool;
  rt_record_capacity : Z;
  rt_record_count : Z;
  rt_committed : Z;
  rt_status : AgentStatus }.
Definition store_record (i : Z) (r : xprobe_cupti_record) (t : RecordTable) : RecordTable :=
  BuildRecordTable (<[Z.to_nat i := r]> (rt_records t)) (rt_ready t) (rt_record_capacity t)
    (rt_record_count t) (rt_committed t) (rt_status t).
Definition store_ready (i : Z) (t : RecordTable) : RecordTable :=
  BuildRecordTable (rt_records t) (<[Z.to_nat i := true]> (rt_ready t)) (rt_record_capacity t)
    (rt_record_count t) (rt_committed t) (rt_status t).
Definition store_count (value : Z) (t : RecordTable) : RecordTable :=
  BuildRecordTable (rt_records t) (rt_ready t) (rt_record_capacity t) value (rt_committed t)
    (rt_status t).
Definition store_committed (value : Z) (t : RecordTable) : RecordTable :=
  BuildRecordTable (rt_records t) (rt_ready t) (rt_record_capacity t) (rt_record_count t) value
    (rt_status t).
Definition update_status (f : AgentStatus → AgentStatus) (t : RecordTable) : RecordTable :=
  BuildRecordTable (rt_records t) (rt_ready t) (rt_record_capacity t) (rt_record_count t)
    (rt_committed t) (f (rt_status t)).

(** [reset_capture], and [arm_capture] for an exact capture once allocation and activation
    succeeded; [calloc] gives records of zeros. *)
Definition empty_record : xprobe_cupti_record :=
  Build_xprobe_cupti_record 0 0 0 0 0 0 0 0 0 0 (0, 0, 0) (0, 0, 0) 0 (replicate 128 0).
Definition reset_records (t : RecordTable) : RecordTable :=
  BuildRecordTable (rt_records t) ((λ _, false) <$> rt_ready t) (rt_record_capacity t) 0 0
    (reset_status (rt_status t)).
Definition arm_records (capacity : Z) (s : AgentStatus) : RecordTable :=
  update_status activate_status
    (reset_records (BuildRecordTable (replicate (Z.to_nat capacity) empty_record)
       (replicate (Z.to_nat capacity) false) capacity 0 0 s)).

(** ** Calls *)

(** Where a call of [enqueue_record] is; a call that took a place remembers it. *)
Inductive RecordPc : Set :=
| CheckCapture
| TakeIndex
| StoreRecord (index : Z)
| StoreReady (index : Z)
| LoadCommitted (index : Z)
| LoadReady (index committed : Z)
| SwapCommitted (index committed : Z)
| LimitReason (index : Z)
| LimitState (index : Z)
| Enqueued (index : option Z).

Section enqueue.
Context (enabled : bool) (filters : list xprobe_cupti_filter).

(** [capture_filter_matches], with the flag that filters are armed. *)
Definition record_accepted (r : xprobe_cupti_record) : bool :=
  if negb enabled then true else capture_filter_matches filters r.
(** One atomic operation of [enqueue_record]. *)
Definition enqueue_step (spurious : bool) (r : xprobe_cupti_record) (pc : RecordPc)
    (t : RecordTable) : RecordPc * RecordTable :=
  match pc with
  | CheckCapture =>
      if negb (sta_capture_state (rt_status t) =? CAPTURE_ACTIVE) then (Enqueued None, t)
      else if negb (record_accepted r) then (Enqueued None, t)
      else (TakeIndex, t)
  | TakeIndex =>
      let index := rt_record_count t in
      (if rt_record_capacity t <=? index then LimitReason index else StoreRecord index,
       store_count ((index + 1) mod 2 ^ 64) t)
  | StoreRecord index => (StoreReady index, store_record index r t)
  | StoreReady index => (LoadCommitted index, store_ready index t)
  | LoadCommitted index => (LoadReady index (rt_committed t), t)
  | LoadReady index committed =>
      if (committed <? rt_record_capacity t)
         && default false (rt_ready t !! Z.to_nat committed) then
        (SwapCommitted index committed, t)
      else (Enqueued (Some index), t)
  | SwapCommitted index committed =>
      if (rt_committed t =? committed) && negb spurious then
        (LoadReady index (committed + 1), store_committed (committed + 1) t)
      else (LoadReady index (rt_committed t), t)
  | LimitReason index => (LimitState index, update_status (set_stop_reason STOP_RECORD_LIMIT) t)
  | LimitState index =>
      (Enqueued (Some index), update_status (set_capture_state CAPTURE_LIMIT_REACHED) t)
  | Enqueued index => (Enqueued index, t)
  end.
Abbreviation RecordCall := (xprobe_cupti_record * RecordPc)%type.
Definition record_calls (records : list xprobe_cupti_record) : list RecordCall :=
  (λ r, (r, CheckCapture)) <$> records.
Definition enqueue_records (schedule : list (nat * bool)) (c : RecordTable * list RecordCall) :
    RecordTable * list RecordCall :=
  interleave enqueue_step schedule c.
Definition call_enqueued (call : RecordCall) : Prop :=
  match call.2 with Enqueued _ => True | _ => False end.

(** ** What is sent *)

(** [write_capture] of an exact capture whose writes succeed.  The number of committed
    records was loaded first, as [available]; the header and the records are read later.
    [host_monotonic] is what [activity_timestamps_are_host_monotonic] finds. *)
Definition write_exact_capture (nvtx_active host_monotonic : bool)
    (agent_dropped cupti_dropped unknown available record_offset : Z) (t : RecordTable) :
    option (list Z) :=
  if available <? record_offset then None
  else
    Some (output_encode
            (initialize_output_header (feature_flags false nvtx_active host_monotonic)
               (rt_status t)
               (BuildAgentCounters (rt_record_capacity t) agent_dropped cupti_dropped unknown)
               (rt_record_count t) available record_offset)
          ++ concat (record_encode <$> take (Z.to_nat (available - record_offset))
                       (drop (Z.to_nat record_offset) (rt_records t)))).

(** ** The invariant *)
Definition taken (pc : RecordPc) : option Z :=
  match pc with
  | StoreRecord i | StoreReady i | LoadCommitted i | LoadReady i _ | SwapCommitted i _
  | LimitReason i | LimitState i => Some i
  | Enqueued i => i
  | _ => None
  end.
(** The record is written; it is marked as ready; the call is committing. *)
Definition is_written (pc : RecordPc) : bool :=
  match pc with
  | StoreReady _ | LoadCommitted _ | LoadReady _ _ | SwapCommitted _ _ | Enqueued _ => true
  | _ => false
  end.
Definition is_ready (pc : RecordPc) : bool :=
  match pc with
  | LoadCommitted _ | LoadReady _ _ | SwapCommitted _ _ | Enqueued _ => true
  | _ => false
  end.
Definition committing (pc : RecordPc) : Prop :=
  match pc with LoadCommitted _ | LoadReady _ _ | SwapCommitted _ _ => True | _ => False end.
Definition seen_committed (pc : RecordPc) : option Z :=
  match pc with LoadReady _ c | SwapCommitted _ c => Some c | _ => None end.
Definition takes (c : RecordCall) : Z := if taken c.2 then 1 else 0.

Record records_ok (t : RecordTable) (calls : list RecordCall) : Prop := {
  ro_capacity : len (rt_records t) = rt_record_capacity t ∧ len (rt_ready t) = rt_record_capacity t;
  ro_count : rt_record_count t = sum_by takes calls;
  ro_unique : ∀ j k c d i, calls !! j = Some c → calls !! k = Some d →
    taken c.2 = Some i → taken d.2 = Some i → j = k;
  ro_taken : ∀ i, 0 ≤ i < rt_record_count t ↔ ∃ j c, calls !! j = Some c ∧ taken c.2 = Some i;
  ro_accepted : ∀ j c, calls !! j = Some c → c.2 = TakeIndex ∨ is_Some (taken c.2) →
    record_accepted c.1 = true;
  ro_room : ∀ j c i, calls !! j = Some c → c.2 = StoreRecord i ∨ c.2 = StoreReady i →
    i < rt_record_capacity t;
  ro_full : ∀ j c i, calls !! j = Some c → c.2 = LimitReason i ∨ c.2 = LimitState i →
    rt_record_capacity t ≤ i;
  ro_written : ∀ j c i, calls !! j = Some c → taken c.2 = Some i → is_written c.2 = true →
    i < rt_record_capacity t → rt_records t !! Z.to_nat i = Some c.1;
  ro_ready : ∀ i, rt_ready t !! Z.to_nat i = Some true → 0 ≤ i →
    ∃ j c, calls !! j = Some c ∧ taken c.2 = Some i ∧ is_ready c.2 = true;
  ro_marked : ∀ j c i, calls !! j = Some c → taken c.2 = Some i → is_ready c.2 = true →
    i < rt_record_capacity t → rt_ready t !! Z.to_nat i = Some true;
  ro_committed : 0 ≤ rt_committed t ≤ rt_record_capacity t
    ∧ ∀ i, 0 ≤ i < rt_committed t → rt_ready t !! Z.to_nat i = Some true;
  ro_seen : ∀ j c i, calls !! j = Some c → seen_committed c.2 = Some i → 0 ≤ i ≤ rt_committed t;
  ro_swap : ∀ j c i k, calls !! j = Some c → c.2 = SwapCommitted i k →
    k < rt_record_capacity t ∧ rt_ready t !! Z.to_nat k = Some true;
  ro_progress : rt_ready t !! Z.to_nat (rt_committed t) = Some true →
    ∃ j c, calls !! j = Some c ∧ committing c.2 }.

Lemma takes_bound calls : 0 ≤ sum_by takes calls ≤ len calls.
Proof using.
  induction calls as [|c l IH]; [done|]. rewrite sum_by_cons, len_cons. unfold takes at 1 3.
  destruct (taken c.2); lia.
Qed.

(** A lookup in the calls after one of them made a step. *)
Local Ltac after_turn H :=
  apply list_lookup_insert_Some in H as [(<- & <- & _)|[? H]].

(** Steps that leave the table alone. *)
Lemma records_ok_move t calls j r pc pc' :
  records_ok t calls → calls !! j = Some (r, pc) → taken pc' = taken pc →
  (pc' = TakeIndex → record_accepted r = true) →
  (∀ i, pc' = StoreRecord i ∨ pc' = StoreReady i → False) →
  (∀ i, pc' = LimitReason i ∨ pc' = LimitState i → rt_record_capacity t ≤ i) →
  (∀ i, taken pc = Some i → i < rt_record_capacity t →
     (is_written pc' = true → is_written pc = true) ∧ (is_ready pc' = true → is_ready pc = true)) →
  (is_ready pc = true → is_ready pc' = true) →
  (∀ i, seen_committed pc' = Some i → 0 ≤ i ≤ rt_committed t) →
  (∀ i k, pc' = SwapCommitted i k →
     k < rt_record_capacity t ∧ rt_ready t !! Z.to_nat k = Some true) →
  (rt_ready t !! Z.to_nat (rt_committed t) = Some true → committing pc → committing pc') →
  records_ok t (<[j := (r, pc')]> calls).
Proof using.
  intros [Hcap Hcnt Hun Htk Hacc Hroom Hfull Hwr Hrd Hmk Hcm Hseen Hsw Hprog] Hj Et Ha Hr Hf Hw Hry Hs Hsp Hp.
  assert (<[j := (r, pc')]> calls !! j = Some (r, pc')) as Hself
    by (apply list_lookup_insert_eq; by eapply lookup_lt_Some).
  split; try done.
  - rewrite (sum_by_insert _ _ _ _ _ Hj). unfold takes at 2 3. cbn [snd]. rewrite Et. lia.
  - intros k l c d i Hc Hd Hci Hdi. after_turn Hc; after_turn Hd; [done|..].
    + eapply (Hun _ _ _ _ i); [exact Hj|exact Hd|simpl in *; congruence|done].
    + eapply (Hun _ _ _ _ i); [exact Hc|exact Hj|done|simpl in *; congruence].
    + by eapply Hun.
  - intros i. rewrite Htk. split; intros (k & c & Hk & Hc).
    + destruct (decide (j = k)) as [<-|Hne].
      * simplify_eq. exists j, (r, pc'). split; [done|]. simpl in *. congruence.
      * exists k, c. by rewrite list_lookup_insert_ne.
    + after_turn Hk; [|by exists k, c]. exists j, (r, pc). split; [done|]. simpl in *. congruence.
  - intros k c Hk Hc. after_turn Hk; [|by eapply Hacc].
    cbn [fst snd] in *. destruct Hc as [?|?]; [by apply Ha|].
    eapply (Hacc j (r, pc)); [done|]. right. simpl. congruence.
  - intros k c i Hk Hc. after_turn Hk; [by destruct (Hr i Hc)|by eapply Hroom].
  - intros k c i Hk Hc. after_turn Hk; [by apply Hf|by eapply Hfull].
  - intros k c i Hk Hc Hcw Hlt. after_turn Hk; [|by eapply Hwr]. cbn [fst snd] in *.
    rewrite Et in Hc. apply (Hwr j (r, pc) i); try done. by apply (Hw i).
  - intros i Hi H0. destruct (Hrd i Hi H0) as (k & c & Hk & Hc & Hcr).
    destruct (decide (j = k)) as [<-|Hne].
    + simplify_eq. exists j, (r, pc'). simpl in *. split_and!; [done|congruence|by apply Hry].
    + exists k, c. by rewrite list_lookup_insert_ne.
  - intros k c i Hk Hc Hcr Hlt. after_turn Hk; [|by eapply Hmk]. cbn [fst snd] in *.
    rewrite Et in Hc. apply (Hmk j (r, pc) i); try done. by apply (Hw i).
  - intros k c i Hk Hc. after_turn Hk; [by apply Hs|by eapply Hseen].
  - intros k c i l Hk Hc. after_turn Hk; [by eapply Hsp|by eapply Hsw].
  - intros Hready. destruct (Hprog Hready) as (k & c & Hk & Hc).
    destruct (decide (j = k)) as [<-|Hne].
    + simplify_eq. exists j, (r, pc'). split; [done|]. by apply Hp.
    + exists k, c. by rewrite list_lookup_insert_ne.
Qed.
Lemma records_ok_status f t calls : records_ok t calls → records_ok (update_status f t) calls.
Proof using. by intros []. Qed.

Section record_steps.
Context (t : RecordTable) (calls : list RecordCall) (j : nat) (r : xprobe_cupti_record).
Context (Hok : records_ok t calls) (Hfew : len calls ≤ u64_max).

Lemma call_self pc pc' :
  calls !! j = Some (r, pc) → <[j := (r, pc')]> calls !! j = Some (r, pc').
Proof using. intros Hj. apply list_lookup_insert_eq. by eapply lookup_lt_Some. Qed.
Lemma call_other pc pc' k c :
  calls !! j = Some (r, pc) → calls !! k = Some c → c ≠ (r, pc) →
  <[j := (r, pc')]> calls !! k = Some c.
Proof using. intros Hj Hk Hne. rewrite list_lookup_insert_ne; [done|]. intros ->. by simplify_eq. Qed.

Lemma take_index_ok spurious pc' t' :
  calls !! j = Some (r, TakeIndex) → enqueue_step spurious r TakeIndex t = (pc', t') →
  records_ok t' (<[j := (r, pc')]> calls).
Proof using Hok Hfew.
  intros Hj. cbn [enqueue_step].
  destruct Hok as [Hcap Hcnt Hun Htk Hacc Hroom Hfull Hwr Hrd Hmk Hcm Hseen Hsw Hprog].
  set (n := rt_record_count t) in *. intros [= <- <-].
  assert (0 ≤ n < 2 ^ 64 ∧ (n + 1) mod 2 ^ 64 = n + 1) as [Hn Hmod].
  { pose proof (sum_by_insert takes calls j _ (r, Enqueued (Some 0)) Hj) as Hins.
    unfold takes at 3 4 in Hins. cbn [taken snd] in Hins.
    pose proof (takes_bound (<[j := (r, Enqueued (Some 0))]> calls)) as Hb.
    unfold len in Hb, Hfew. rewrite length_insert in Hb. pose proof (takes_bound calls).
    unfold u64_max in *. split; [lia|]. apply Z.mod_small. lia. }
  set (pc := if rt_record_capacity t <=? n then LimitReason n else StoreRecord n).
  assert (taken pc = Some n) as Hpc by (unfold pc; by destruct (_ <=? _)).
  assert (is_written pc = false ∧ is_ready pc = false ∧ ¬ committing pc ∧ seen_committed pc = None)
    as (Hpw & Hpr & Hpcm & Hps) by (unfold pc; destruct (_ <=? _); simpl; tauto).
  pose proof (call_self _ pc Hj) as Hself.
  assert (∀ k c, calls !! k = Some c → c.2 ≠ TakeIndex → <[j := (r, pc)]> calls !! k = Some c)
    as Hkeep by (intros k c Hk Hne; eapply call_other; [done..|]; by intros ->).
  split; cbn [store_count rt_records rt_ready rt_record_capacity rt_record_count rt_committed];
    try done.
  - rewrite Hmod, (sum_by_insert _ _ _ _ _ Hj). unfold takes at 2 3. cbn [snd]. rewrite Hpc. simpl. lia.
  - intros k l c d i Hc Hd Hci Hdi. after_turn Hc; after_turn Hd; [done|..].
    + cbn [snd] in Hci. rewrite Hpc in Hci. injection Hci as <-.
      assert (0 ≤ n < n) by (apply Htk; by exists l, d). lia.
    + cbn [snd] in Hdi. rewrite Hpc in Hdi. injection Hdi as <-.
      assert (0 ≤ n < n) by (apply Htk; by exists k, c). lia.
    + by eapply Hun.
  - intros i. rewrite Hmod. split.
    + intros Hi. destruct (decide (i = n)) as [->|Hne]; [by exists j, (r, pc)|].
      destruct (proj1 (Htk i) ltac:(lia)) as (k & c & Hk & Hc). exists k, c. split; [|done].
      apply Hkeep; [done|]. intros Heq. by rewrite Heq in Hc.
    + intros (k & c & Hk & Hc). after_turn Hk.
      * cbn [snd] in Hc. rewrite Hpc in Hc. injection Hc as <-. lia.
      * assert (0 ≤ i < n) by (apply Htk; by exists k, c). lia.
  - intros k c Hk Hc. after_turn Hk; [|by eapply Hacc]. apply (Hacc j (r, TakeIndex)); auto.
  - intros k c i Hk Hc. after_turn Hk; [|by eapply Hroom]. cbn [snd] in Hc. revert Hc. unfold pc.
    destruct (Z.leb_spec (rt_record_capacity t) n); intros [[=]|[=]]. lia.
  - intros k c i Hk Hc. after_turn Hk; [|by eapply Hfull]. cbn [snd] in Hc. revert Hc. unfold pc.
    destruct (Z.leb_spec (rt_record_capacity t) n); intros [[=]|[=]]. lia.
  - intros k c i Hk Hc Hw Hlt. after_turn Hk; [cbn [snd] in Hw; congruence|by eapply Hwr].
  - intros i Hi H0. destruct (Hrd i Hi H0) as (k & c & Hk & Hc & Hcr). exists k, c.
    split; [|done]. apply Hkeep; [done|]. intros Heq. by rewrite Heq in Hcr.
  - intros k c i Hk Hc Hw Hlt. after_turn Hk; [cbn [snd] in Hw; congruence|by eapply Hmk].
  - intros k c i Hk Hc. after_turn Hk; [cbn [snd] in Hc; congruence|by eapply Hseen].
  - intros k c i l Hk Hc. after_turn Hk; [|by eapply Hsw]. cbn [snd] in Hc. by rewrite Hc in Hps.
  - intros Hready. destruct (Hprog Hready) as (k & c & Hk & Hc). exists k, c. split; [|done].
    apply Hkeep; [done|]. intros Heq. by rewrite Heq in Hc.
Qed.
Lemma taken_nonneg k c i : calls !! k = Some c → taken c.2 = Some i → 0 ≤ i < rt_record_count t.
Proof using Hok. intros Hk Hc. apply (ro_taken _ _ Hok). by exists k, c. Qed.
Lemma store_record_ok spurious i pc' t' :
  calls !! j = Some (r, StoreRecord i) → enqueue_step spurious r (StoreRecord i) t = (pc', t') →
  records_ok t' (<[j := (r, pc')]> calls).
Proof using Hok.
  intros Hj. cbn [enqueue_step]. intros [= <- <-].
  pose proof (taken_nonneg _ _ i Hj eq_refl) as Hi0.
  pose proof (ro_room _ _ Hok _ _ i Hj ltac:(by left)) as Hroom.
  destruct (ro_capacity _ _ Hok) as [Hcr _].
  destruct Hok as [Hcap Hcnt Hun Htk Hacc Hro Hfull Hwr Hrd Hmk Hcm Hseen Hsw Hprog].
  pose proof (call_self _ (StoreReady i) Hj) as Hself.
  assert (∀ k c, calls !! k = Some c → c ≠ (r, StoreRecord i) →
    <[j := (r, StoreReady i)]> calls !! k = Some c) as Hkeep
    by (intros k c Hk Hne; by eapply call_other).
  split; cbn [store_record rt_records rt_ready rt_record_capacity rt_record_count rt_committed];
    try done.
  - unfold len in *. by rewrite length_insert.
  - rewrite (sum_by_insert _ _ _ _ _ Hj). unfold takes at 2 3. simpl. lia.
  - intros k l c d i' Hc Hd Hci Hdi. after_turn Hc; after_turn Hd; [done|..].
    + by eapply (Hun _ _ _ _ i').
    + by eapply (Hun _ _ _ _ i').
    + by eapply Hun.
  - intros i'. rewrite Htk. split; intros (k & c & Hk & Hc).
    + destruct (decide (j = k)) as [<-|Hne].
      * simplify_eq/=. by exists j, (r, StoreReady i').
      * exists k, c. by rewrite list_lookup_insert_ne.
    + after_turn Hk; [|by exists k, c]. by exists j, (r, StoreRecord i).
  - intros k c Hk Hc. after_turn Hk; [|by eapply Hacc].
    apply (Hacc j (r, StoreRecord i)); [done|]. right. by eexists.
  - intros k c i' Hk Hc. after_turn Hk; [|by eapply Hro]. destruct Hc as [[=]|[= <-]]. done.
  - intros k c i' Hk Hc. after_turn Hk; [by destruct Hc|by eapply Hfull].
  - intros k c i' Hk Hc Hw Hlt. after_turn Hk.
    + injection Hc as <-. apply list_lookup_insert_eq. unfold len in Hcr. lia.
    + rewrite list_lookup_insert_ne; [by eapply Hwr|]. intros Heq.
      pose proof (proj2 (Htk i') ltac:(by exists k, c)).
      assert (i = i') as <- by lia. apply H. by eapply (Hun j k _ c i).
  - intros i' Hi H0. destruct (Hrd i' Hi H0) as (k & c & Hk & Hc & Hcr'). exists k, c.
    split; [|done]. apply Hkeep; [done|]. by intros ->.
  - intros k c i' Hk Hc Hw Hlt. after_turn Hk; [done|by eapply Hmk].
  - intros k c i' Hk Hc. after_turn Hk; [done|by eapply Hseen].
  - intros k c i' l Hk Hc. after_turn Hk; [done|by eapply Hsw].
  - intros Hready. destruct (Hprog Hready) as (k & c & Hk & Hc). exists k, c. split; [|done].
    apply Hkeep; [done|]. by intros ->.
Qed.
Lemma store_ready_ok spurious i pc' t' :
  calls !! j = Some (r, StoreReady i) → enqueue_step spurious r (StoreReady i) t = (pc', t') →
  records_ok t' (<[j := (r, pc')]> calls).
Proof using Hok.
  intros Hj. cbn [enqueue_step]. intros [= <- <-].
  pose proof (taken_nonneg _ _ i Hj eq_refl) as Hi0.
  pose proof (ro_room _ _ Hok _ _ i Hj ltac:(by right)) as Hroom.
  destruct (ro_capacity _ _ Hok) as [_ Hcr].
  destruct Hok as [Hcap Hcnt Hun Htk Hacc Hro Hfull Hwr Hrd Hmk Hcm Hseen Hsw Hprog].
  pose proof (call_self _ (LoadCommitted i) Hj) as Hself.
  assert (∀ k c, calls !! k = Some c → c ≠ (r, StoreReady i) →
    <[j := (r, LoadCommitted i)]> calls !! k = Some c) as Hkeep
    by (intros k c Hk Hne; by eapply call_other).
  assert (∀ k, rt_ready t !! k = Some true → <[Z.to_nat i := true]> (rt_ready t) !! k = Some true)
    as Hgrow.
  { intros k Hk. destruct (decide (Z.to_nat i = k)) as [<-|Hne].
    - apply list_lookup_insert_eq. by eapply lookup_lt_Some.
    - by rewrite list_lookup_insert_ne. }
  split; cbn [store_ready rt_records rt_ready rt_record_capacity rt_record_count rt_committed];
    try done.
  - unfold len in *. by rewrite length_insert.
  - rewrite (sum_by_insert _ _ _ _ _ Hj). unfold takes at 2 3. simpl. lia.
  - intros k l c d i' Hc Hd Hci Hdi. after_turn Hc; after_turn Hd; [done|..].
    + by eapply (Hun _ _ _ _ i').
    + by eapply (Hun _ _ _ _ i').
    + by eapply Hun.
  - intros i'. rewrite Htk. split; intros (k & c & Hk & Hc).
    + destruct (decide (j = k)) as [<-|Hne].
      * simplify_eq/=. by exists j, (r, LoadCommitted i').
      * exists k, c. by rewrite list_lookup_insert_ne.
    + after_turn Hk; [|by exists k, c]. by exists j, (r, StoreReady i).
  - intros k c Hk Hc. after_turn Hk; [|by eapply Hacc].
    apply (Hacc j (r, StoreReady i)); [done|]. right. by eexists.
  - intros k c i' Hk Hc. after_turn Hk; [by destruct Hc|by eapply Hro].
  - intros k c i' Hk Hc. after_turn Hk; [by destruct Hc|by eapply Hfull].
  - intros k c i' Hk Hc Hw Hlt. after_turn Hk; [|by eapply Hwr].
    by apply (Hwr j (r, StoreReady i)).
  - intros i' Hi H0. destruct (decide (i = i')) as [<-|Hne]; [by exists j, (r, LoadCommitted i)|].
    rewrite list_lookup_insert_ne in Hi by lia.
    destruct (Hrd i' Hi H0) as (k & c & Hk & Hc & Hcr'). exists k, c.
    split; [|done]. apply Hkeep; [done|]. by intros ->.
  - intros k c i' Hk Hc Hw Hlt. after_turn Hk; [|by eapply Hgrow, Hmk].
    injection Hc as <-. apply list_lookup_insert_eq. unfold len in Hcr. lia.
  - destruct Hcm as [Hcm1 Hcm2]. split; [done|]. intros i' Hi'. apply Hgrow. by apply Hcm2.
  - intros k c i' Hk Hc. after_turn Hk; [done|by eapply Hseen].
  - intros k c i' l Hk Hc. after_turn Hk; [done|]. destruct (Hsw _ _ _ _ Hk Hc). auto.
  - intros _. by exists j, (r, LoadCommitted i).
Qed.
Lemma commit_ok :
  rt_committed t < rt_record_capacity t → rt_ready t !! Z.to_nat (rt_committed t) = Some true →
  (∃ k c, calls !! k = Some c ∧ committing c.2) →
  records_ok (store_committed (rt_committed t + 1) t) calls.
Proof using Hok.
  intros Hlt Hready Hc.
  destruct Hok as [Hcap Hcnt Hun Htk Hacc Hro Hfull Hwr Hrd Hmk [Hcm1 Hcm2] Hseen Hsw Hprog].
  split; cbn [store_committed rt_records rt_ready rt_record_capacity rt_record_count rt_committed];
    try done.
  - split; [lia|]. intros i Hi. destruct (decide (i = rt_committed t)) as [->|]; [done|].
    apply Hcm2. lia.
  - intros k c i Hk Hs. specialize (Hseen k c i Hk Hs). lia.
Qed.

Lemma enqueue_step_ok spurious pc pc' t' :
  calls !! j = Some (r, pc) → enqueue_step spurious r pc t = (pc', t') →
  records_ok t' (<[j := (r, pc')]> calls).
Proof using Hok Hfew.
  intros Hj Hstep. destruct (ro_committed _ _ Hok) as [Hcm1 Hcm2].
  destruct pc; [|by eapply take_index_ok|by eapply store_record_ok|by eapply store_ready_ok|..];
    cbn [enqueue_step] in Hstep.
  - destruct (negb _) in Hstep; [|destruct (negb (record_accepted r)) eqn:Ea in Hstep];
      injection Hstep as <- <-; (eapply records_ok_move; [done|done|done|..]);
      try (intros; simpl in *; intuition congruence).
    intros _. by apply negb_false_iff in Ea.
  - injection Hstep as <- <-. eapply records_ok_move; [done|done|done|..];
      try (intros; simpl in *; intuition congruence).
    intros i [= <-]. lia.
  - destruct (_ && _) eqn:E in Hstep; injection Hstep as <- <-;
      (eapply records_ok_move; [done|done|done|..]);
      try (intros; simpl in *; intuition congruence).
    + intros i [= <-]. by eapply (ro_seen _ _ Hok _ _ _ Hj).
    + intros i c [= <- <-]. apply andb_true_iff in E as [E1%Z.ltb_lt E2]. split; [done|].
      by destruct (rt_ready t !! Z.to_nat committed) as [[]|].
    + intros Hready _. exfalso.
      pose proof (ro_seen _ _ Hok _ _ _ Hj eq_refl) as Hle.
      assert (rt_ready t !! Z.to_nat committed = Some true) as Hc.
      { destruct (decide (committed = rt_committed t)) as [->|]; [done|]. apply Hcm2. lia. }
      rewrite Hc in E. cbn [default from_option id] in E. rewrite andb_true_r in E.
      apply Z.ltb_ge in E. destruct (ro_capacity _ _ Hok) as [_ Hcap].
      apply lookup_lt_Some in Hc. unfold len in Hcap. lia.
  - destruct (_ && _) eqn:E in Hstep; injection Hstep as <- <-.
    + apply andb_true_iff in E as [E%Z.eqb_eq _].
      destruct (ro_swap _ _ Hok _ _ _ _ Hj eq_refl) as [Hlt Hready]. subst committed.
      eapply records_ok_move; [apply commit_ok; [done|done|by eexists _, _]|done|done|..];
        try (intros; simpl in *; intuition congruence).
      intros i [= <-]. simpl. lia.
    + eapply records_ok_move; [done|done|done|..];
        try (intros; simpl in *; intuition congruence).
      intros i [= <-]. lia.
  - injection Hstep as <- <-. apply records_ok_status.
    pose proof (ro_full _ _ Hok _ _ index Hj ltac:(by left)) as Hf.
    eapply records_ok_move; [done|done|done|..]; try (intros; simpl in *; intuition congruence).
  - injection Hstep as <- <-. apply records_ok_status.
    pose proof (ro_full _ _ Hok _ _ index Hj ltac:(by right)) as Hf.
    eapply records_ok_move; [done|done|done|..]; try (intros; simpl in *; intuition congruence).
    intros i [= <-]. lia.
  - injection Hstep as <- <-. by rewrite list_insert_id.
Qed.
End record_steps.

(** ** Every interleaving *)
Lemma armed_records_ok capacity s records :
  0 ≤ capacity → records_ok (arm_records capacity s) (record_calls records).
Proof using.
  intros Hcap.
  assert (∀ j c, record_calls records !! j = Some c → c.2 = CheckCapture) as Hload.
  { intros j c. unfold record_calls. rewrite list_lookup_fmap. intros (r & _ & ->)%fmap_Some. done. }
  assert (rt_ready (arm_records capacity s) = replicate (Z.to_nat capacity) false) as Hready.
  { unfold arm_records, update_status, reset_records. cbn [rt_ready]. by rewrite fmap_replicate. }
  assert (∀ i, rt_ready (arm_records capacity s) !! i ≠ Some true) as Hfalse.
  { intros i. rewrite Hready. intros [? _]%lookup_replicate. done. }
  split.
  - rewrite Hready. unfold len, arm_records, update_status, reset_records.
    cbn [rt_records rt_record_capacity]. rewrite !length_replicate. lia.
  - unfold arm_records, update_status, reset_records. cbn [rt_record_count]. symmetry.
    apply sum_by_zero, Forall_lookup. intros j c Hc. unfold takes. by rewrite (Hload _ _ Hc).
  - intros j k c d i Hc Hd Hi. by rewrite (Hload _ _ Hc) in Hi.
  - intros i. unfold arm_records, update_status, reset_records. cbn [rt_record_count]. split; [lia|].
    intros (j & c & Hc & Hi). by rewrite (Hload _ _ Hc) in Hi.
  - intros j c Hc [Hi|Hi]; rewrite (Hload _ _ Hc) in Hi; [done|by destruct Hi].
  - intros j c i Hc [Hi|Hi]; by rewrite (Hload _ _ Hc) in Hi.
  - intros j c i Hc [Hi|Hi]; by rewrite (Hload _ _ Hc) in Hi.
  - intros j c i Hc Hi. by rewrite (Hload _ _ Hc) in Hi.
  - intros i Hi. by destruct (Hfalse _ Hi).
  - intros j c i Hc Hi. by rewrite (Hload _ _ Hc) in Hi.
  - unfold arm_records, update_status, reset_records. cbn [rt_committed rt_record_capacity].
    split; lia.
  - intros j c i Hc Hi. by rewrite (Hload _ _ Hc) in Hi.
  - intros j c i k Hc Hi. by rewrite (Hload _ _ Hc) in Hi.
  - intros Hi. by destruct (Hfalse _ Hi).
Qed.
Lemma enqueue_records_inv schedule c :
  records_ok c.1 c.2 → len c.2 ≤ u64_max →
  records_ok (enqueue_records schedule c).1 (enqueue_records schedule c).2.
Proof using.
  intros Hok Hfew.
  pose proof (interleave_ind enqueue_step (λ t calls, records_ok t calls ∧ len calls ≤ u64_max)
    schedule c) as Hind.
  apply Hind; [|done]. intros spurious t calls j r pc pc' t' [Hi Hf] Hj Hstep.
  split; [by eapply enqueue_step_ok|]. unfold len in *. by rewrite length_insert.
Qed.

(** Committed records do not change any more. *)
Definition extends (t u : RecordTable) : Prop :=
  rt_record_capacity u = rt_record_capacity t ∧ rt_committed t ≤ rt_committed u
  ∧ ∀ i, (i < Z.to_nat (rt_committed t))%nat → rt_records u !! i = rt_records t !! i.
Lemma enqueue_step_extends spurious t u calls j r pc pc' u' :
  records_ok u calls → calls !! j = Some (r, pc) → enqueue_step spurious r pc u = (pc', u') →
  extends t u → extends t u'.
Proof using.
  intros Hok Hj Hstep (Hcap & Hle & Hsame). destruct (ro_committed _ _ Hok) as [Hcm1 Hcm2].
  destruct pc; cbn [enqueue_step] in Hstep;
    repeat match type of Hstep with context [if ?b then _ else _] => destruct b eqn:? end;
    injection Hstep as <- <-; try done.
  - split_and!; [done|done|]. intros i Hi. cbn [store_record rt_records].
    rewrite list_lookup_insert_ne; [by apply Hsame|]. intros Heq.
    assert (0 ≤ index < rt_record_count u) as Hi0
      by (apply (ro_taken _ _ Hok); by exists j, (r, StoreRecord index)).
    destruct (ro_ready _ _ Hok index) as (k & c & Hk & Hc & Hr); [|lia|].
    + apply Hcm2. lia.
    + assert (j = k) as <- by (eapply (ro_unique _ _ Hok _ _ _ _ index); done).
      by simplify_eq.
  - split_and!; [done| |done]. cbn [store_committed rt_committed].
    match goal with H : (_ && _) = true |- _ => apply andb_true_iff in H as [H%Z.eqb_eq _] end. lia.
Qed.
Lemma enqueue_records_extends schedule c :
  records_ok c.1 c.2 → len c.2 ≤ u64_max → extends c.1 (enqueue_records schedule c).1.
Proof using.
  intros Hok Hfew.
  pose proof (interleave_ind enqueue_step
    (λ t calls, (records_ok t calls ∧ len calls ≤ u64_max) ∧ extends c.1 t) schedule c) as Hind.
  apply Hind.
  - intros spurious t calls j r pc pc' t' [[Hi Hf] He] Hj Hstep. split_and!.
    + by eapply enqueue_step_ok.
    + unfold len in *. by rewrite length_insert.
    + by eapply enqueue_step_extends.
  - split; [done|]. split_and!; [done|lia|done].
Qed.

(** ** When all calls have returned *)

(** While the capture is active nothing was refused for lack of room. *)
Definition has_room (t : RecordTable) (c : RecordCall) : Prop :=
  match c.2 with
  | Enqueued None => record_accepted c.1 = false
  | LoadCommitted i | LoadReady i _ | SwapCommitted i _ | Enqueued (Some i) =>
      i < rt_record_capacity t
  | _ => True
  end.
Definition active_room (t : RecordTable) (calls : list RecordCall) : Prop :=
  sta_capture_state (rt_status t) = CAPTURE_ACTIVE → Forall (has_room t) calls.
Lemma enqueue_step_room spurious t calls j r pc pc' t' :
  records_ok t calls → active_room t calls → calls !! j = Some (r, pc) →
  enqueue_step spurious r pc t = (pc', t') → active_room t' (<[j := (r, pc')]> calls).
Proof using.
  intros Hok Hroom Hj Hstep Hactive.
  assert (Forall (has_room t) calls) as Hall.
  { apply Hroom. revert Hactive. destruct pc; cbn [enqueue_step] in Hstep;
      repeat match type of Hstep with context [if ?b then _ else _] => destruct b end;
      injection Hstep as <- <-; done. }
  assert (has_room t (r, pc)) as Hown by (rewrite Forall_lookup in Hall; exact (Hall _ _ Hj)).
  assert (∀ t'', rt_record_capacity t'' = rt_record_capacity t → Forall (has_room t'') calls)
    as Hsame.
  { intros t'' Hc. eapply Forall_impl; [exact Hall|]. intros c. unfold has_room. by rewrite Hc. }
  destruct pc; cbn [enqueue_step] in Hstep;
    repeat match type of Hstep with context [if ?b then _ else _] => destruct b eqn:? end;
    injection Hstep as <- <-; try done; (apply Forall_insert; [by apply Hsame|]);
    unfold has_room in *; cbn [fst snd] in *; try done.
  - match goal with H : negb (_ =? _) = true |- _ => rewrite Hactive in H end. done.
  - by apply negb_true_iff.
  - apply (ro_room _ _ Hok _ _ index Hj). by right.
Qed.
Lemma enqueue_records_room schedule c :
  records_ok c.1 c.2 → len c.2 ≤ u64_max → active_room c.1 c.2 →
  active_room (enqueue_records schedule c).1 (enqueue_records schedule c).2.
Proof using.
  intros Hok Hfew Hr.
  pose proof (interleave_ind enqueue_step
    (λ t calls, (records_ok t calls ∧ len calls ≤ u64_max) ∧ active_room t calls) schedule c) as Hind.
  apply Hind; [|done]. intros spurious t calls j r pc pc' t' [[Hi Hf] Ha] Hj Hstep. split_and!.
  - by eapply enqueue_step_ok.
  - unfold len in *. by rewrite length_insert.
  - by eapply enqueue_step_room.
Qed.

(** Everything that took a place is committed. *)
Lemma all_committed t calls :
  records_ok t calls → Forall call_enqueued calls →
  rt_committed t = Z.min (rt_record_count t) (rt_record_capacity t).
Proof using.
  intros Hok Hret. destruct (ro_committed _ _ Hok) as [Hcm1 Hcm2].
  assert (rt_committed t ≤ rt_record_count t) as Hle.
  { destruct (decide (rt_committed t = 0)) as [->|Hne].
    - rewrite (ro_count _ _ Hok). apply takes_bound.
    - destruct (ro_ready _ _ Hok (rt_committed t - 1)) as (j & c & Hj & Hc & _); [|lia|].
      + apply Hcm2. lia.
      + assert (0 ≤ rt_committed t - 1 < rt_record_count t); [|lia].
        apply (ro_taken _ _ Hok). by exists j, c. }
  destruct (Z_lt_le_dec (rt_committed t) (Z.min (rt_record_count t) (rt_record_capacity t)));
    [exfalso|lia].
  destruct (proj1 (ro_taken _ _ Hok (rt_committed t)) ltac:(lia)) as (j & c & Hj & Hc).
  rewrite Forall_lookup in Hret.
  assert (is_ready c.2 = true) as Hr
    by (specialize (Hret _ _ Hj); unfold call_enqueued in Hret; by destruct (c.2)).
  destruct (ro_progress _ _ Hok) as (k & d & Hk & Hd).
  { apply (ro_marked _ _ Hok _ _ _ Hj Hc Hr). lia. }
  specialize (Hret _ _ Hk). unfold call_enqueued in Hret. by destruct (d.2).
Qed.

(** The records with the places they took. *)
Definition placed (calls : list RecordCall) : list (Z * xprobe_cupti_record) :=
  omap (λ c, i ← taken c.2; Some (i, c.1)) calls.
Lemma elem_of_placed calls i r :
  (i, r) ∈ placed calls ↔ ∃ j pc, calls !! j = Some (r, pc) ∧ taken pc = Some i.
Proof using.
  unfold placed. rewrite list_elem_of_omap. split.
  - intros ([r' pc] & [j Hj]%list_elem_of_lookup & Hc). cbn [fst snd] in Hc.
    destruct (taken pc) as [k|] eqn:E; [|done]. injection Hc as -> ->. by exists j, pc.
  - intros (j & pc & Hj & Hpc). exists (r, pc). cbn [fst snd]. rewrite Hpc.
    split; [by eapply list_elem_of_lookup_2|done].
Qed.
Lemma placed_NoDup calls :
  (∀ j k c d i, calls !! j = Some c → calls !! k = Some d →
     taken c.2 = Some i → taken d.2 = Some i → j = k) → NoDup (placed calls).
Proof using.
  induction calls as [|[r pc] calls IH]; intros Hun; [constructor|].
  assert (NoDup (placed calls)) as Htail.
  { apply IH. intros j k c d i Hj Hk Hc Hd.
    specialize (Hun (S j) (S k) c d i Hj Hk Hc Hd). lia. }
  unfold placed in *. cbn [omap list_omap]. cbn [fst snd].
  destruct (taken pc) as [i|] eqn:E; [|done]. cbn [mbind option_bind]. constructor; [|done].
  intros (j & pc' & Hj & Hpc')%elem_of_placed.
  specialize (Hun 0%nat (S j) (r, pc) (r, pc') i eq_refl Hj E Hpc'). done.
Qed.
Lemma committed_permutation t calls :
  records_ok t calls → Forall call_enqueued calls → Forall (has_room t) calls →
  take (Z.to_nat (rt_committed t)) (rt_records t)
  ≡ₚ filter (λ r, record_accepted r = true) (calls.*1).
Proof using.
  intros Hok Hret Hroom. pose proof (all_committed _ _ Hok Hret) as Hcm.
  destruct (ro_capacity _ _ Hok) as [Hcap _].
  assert (∀ j r i, calls !! j = Some (r, Enqueued (Some i)) → i < rt_record_capacity t) as Hlt.
  { intros j r i Hj. rewrite Forall_lookup in Hroom. exact (Hroom _ _ Hj). }
  assert (filter (λ r, record_accepted r = true) (calls.*1) = (placed calls).*2) as ->.
  { assert (∀ c, c ∈ calls → match taken c.2 with Some _ => record_accepted c.1 = true
      | None => record_accepted c.1 = false end) as Hacc.
    { intros c Hc. apply list_elem_of_lookup in Hc as [j Hj].
      rewrite Forall_lookup in Hret, Hroom. specialize (Hret _ _ Hj). specialize (Hroom _ _ Hj).
      destruct (taken c.2) eqn:E; [apply (ro_accepted _ _ Hok _ _ Hj); right; by eexists|].
      unfold call_enqueued, has_room in *. destruct (c.2) as [| | | | | | | | |[|]]; done. }
    clear -Hacc. induction calls as [|[r pc] calls IH]; [done|].
    pose proof (Hacc (r, pc) ltac:(by left)) as Hc. cbn [fst snd] in Hc.
    rewrite fmap_cons, filter_cons. cbn [fst]. unfold placed. cbn [omap list_omap fst snd].
    destruct (taken pc) as [i|]; cbn [mbind option_bind].
    - rewrite decide_True by done. rewrite fmap_cons. f_equal. apply IH. intros c Hin.
      apply Hacc. by right.
    - rewrite decide_False by congruence. apply IH. intros c Hin. apply Hacc. by right. }
  set (tab := imap (λ k r, (Z.of_nat k, r)) (take (Z.to_nat (rt_committed t)) (rt_records t))).
  assert (tab.*2 = take (Z.to_nat (rt_committed t)) (rt_records t)) as <-.
  { unfold tab. apply list_eq. intros k. rewrite list_lookup_fmap, list_lookup_imap.
    by destruct (take _ _ !! k). }
  apply fmap_Permutation, NoDup_Permutation.
  - apply NoDup_alt. intros a b x. unfold tab. rewrite !list_lookup_imap.
    intros (y & _ & ->)%fmap_Some (z & _ & [= Heq _])%fmap_Some. lia.
  - apply placed_NoDup. apply (ro_unique _ _ Hok).
  - intros [i r]. rewrite elem_of_placed. unfold tab. rewrite list_elem_of_lookup. split.
    + intros (k & Hk). rewrite list_lookup_imap in Hk.
      apply fmap_Some in Hk as (y & Hy & [= -> ->]).
      apply lookup_take_Some in Hy as [Hy Hk].
      destruct (proj1 (ro_taken _ _ Hok (Z.of_nat k)) ltac:(lia)) as (j & [r' pc] & Hj & Hpc).
      exists j, pc. split; [|done]. cbn [snd] in Hpc.
      assert (rt_records t !! Z.to_nat (Z.of_nat k) = Some r') as Hw.
      { apply (ro_written _ _ Hok _ _ _ Hj Hpc); [|lia]. rewrite Forall_lookup in Hret.
        specialize (Hret _ _ Hj). unfold call_enqueued in Hret. cbn [snd] in *. by destruct pc. }
      rewrite Nat2Z.id in Hw. by simplify_eq.
    + intros (j & pc & Hj & Hpc). rewrite Forall_lookup in Hret. pose proof (Hret _ _ Hj) as He.
      unfold call_enqueued in He. cbn [snd] in He. destruct pc; try done. cbn [taken] in Hpc. subst.
      specialize (Hlt _ _ _ Hj).
      assert (0 ≤ i < rt_record_count t) as Hi
        by (apply (ro_taken _ _ Hok); by exists j, (r, Enqueued (Some i))).
      exists (Z.to_nat i). rewrite list_lookup_imap, lookup_take_lt by lia.
      rewrite (ro_written _ _ Hok _ _ i Hj eq_refl eq_refl Hlt). cbn. f_equal. f_equal. lia.
Qed.

Lemma enqueue_records_status schedule c :
  let ok t := (sta_capture_state (rt_status t) = CAPTURE_ACTIVE
      ∨ sta_capture_state (rt_status t) = CAPTURE_LIMIT_REACHED)
    ∧ (sta_stop_reason (rt_status t) = STOP_NONE
       ∨ sta_stop_reason (rt_status t) = STOP_RECORD_LIMIT) in
  ok c.1 → ok (enqueue_records schedule c).1.
Proof using.
  intros ok Hc. pose proof (interleave_ind enqueue_step (λ t _, ok t) schedule c) as Hind.
  apply Hind; [|done]. intros spurious t calls j r pc pc' t' Hok _ Hstep.
  destruct pc; cbn [enqueue_step] in Hstep;
    repeat match type of Hstep with context [if ?b then _ else _] => destruct b end;
    injection Hstep as <- <-; try done; unfold ok in *;
    cbn [update_status rt_status set_stop_reason set_capture_state sta_capture_state
      sta_stop_reason] in *; tauto.
Qed.
Lemma record_encode_length r : record_wf r → length (record_encode r) = 200%nat.
Proof using.
  intros [_ Hn]. unfold record_encode. rewrite length_app.
  pose proof (encode_layout_len (record_fields r)) as He. unfold len in *.
  assert (layout_size (record_fields r) = 72) as Hsize.
  { unfold record_fields. destruct (xp_grid r) as [[? ?] ?], (xp_block r) as [[? ?] ?]. done. }
  lia.
Qed.

(** A committed record is the record of the call that took its place. *)
Lemma committed_record t calls i r :
  records_ok t calls → (i < Z.to_nat (rt_committed t))%nat → rt_records t !! i = Some r →
  ∃ j pc, calls !! j = Some (r, pc) ∧ taken pc = Some (Z.of_nat i) ∧ record_accepted r = true.
Proof using.
  intros Hok Hi Hr. destruct (ro_committed _ _ Hok) as [Hcm1 Hcm2].
  destruct (ro_ready _ _ Hok (Z.of_nat i)) as (j & [r' pc] & Hj & Hpc & Hready);
    [apply Hcm2; lia|lia|]. cbn [snd] in *.
  pose proof (ro_written _ _ Hok _ _ _ Hj Hpc) as Hw. cbn [fst snd] in Hw.
  rewrite Nat2Z.id in Hw. rewrite Hw in Hr; [|by destruct pc|lia]. injection Hr as <-.
  exists j, pc. split_and!; [done|done|]. apply (ro_accepted _ _ Hok _ _ Hj). right. by eexists.
Qed.

(** How many operations a call has left when nothing interferes. *)
Definition enqueue_left (t : RecordTable) (pc : RecordPc) : Z :=
  let room := Z.max 0 (rt_record_capacity t - rt_committed t) in
  match pc with
  | CheckCapture => 2 * room + 8
  | TakeIndex => 2 * room + 7
  | StoreRecord _ => 2 * room + 6
  | StoreReady _ => 2 * room + 5
  | LoadCommitted _ => 2 * room + 4
  | LoadReady _ c => 2 * room + (if c =? rt_committed t then 1 else 3)
  | SwapCommitted _ c => if c =? rt_committed t then 2 * Z.max 1 room else 2 * room + 2
  | LimitReason _ => 2
  | LimitState _ => 1
  | Enqueued _ => 0
  end.
Lemma enqueue_progress a pc t pc' t' :
  enqueue_step false a pc t = (pc', t') →
  enqueue_left t' pc' < enqueue_left t pc ∨ ∃ i, pc = Enqueued i.
Proof using.
  intros Hstep. destruct pc; cbn [enqueue_step] in Hstep; [..|by right; eexists];
    left; repeat match type of Hstep with
    | context [if ?b then _ else _] => destruct b eqn:?
    end; injection Hstep as <- <-;
    cbn [enqueue_left store_count store_record store_ready store_committed update_status
      rt_record_capacity rt_committed]; cbn [negb] in *; rewrite ?andb_true_r in *; bool_props;
    rewrite ?Z.eqb_refl; try lia.
  all: destruct (Z.eqb_spec committed (rt_committed t)); lia.
Qed.
(** A call that runs alone returns, however far the others have got. *)
Lemma record_returns t (calls : list RecordCall) j a pc n :
  calls !! j = Some (a, pc) → enqueue_left t pc ≤ Z.of_nat n →
  ∃ i t', enqueue_records (replicate n (j, false)) (t, calls) = (t', <[j := (a, Enqueued i)]> calls).
Proof using.
  intros Hj Hn.
  destruct (alone_ends enqueue_step enqueue_left (λ pc, ∃ i, pc = Enqueued i)) with n j a pc t calls
    as (pc' & t' & Hrun & i & ->); [| | |done|by left|by exists i, t'].
  - intros u p. destruct p; cbn [enqueue_left]; try lia; [..|by eexists];
      destruct (_ =? _); lia.
  - intros b p u p' u' E. by eapply enqueue_progress.
  - intros b p u p' u' [i ->] [= <- <-]. done.
Qed.
End enqueue.

(** ** Snapshots *)
Section snapshots.
Context `{SerdeJson}.
Context (enabled : bool) (filters : list xprobe_cupti_filter).


Lemma snapshot_header nvtx_active host_monotonic agent_dropped cupti_dropped unknown available
    offset u calls :
  records_ok enabled filters u calls → 0 ≤ offset → offset ≤ available →
  available ≤ rt_committed u → rt_record_capacity u * 200 + 88 ≤ u64_max →
  in_u64 agent_dropped ∧ in_u64 cupti_dropped ∧ in_u64 unknown
    ∧ agent_dropped + cupti_dropped ≤ u64_max →
  sta_capture_state (rt_status u) = CAPTURE_ACTIVE
    ∨ sta_capture_state (rt_status u) = CAPTURE_LIMIT_REACHED →
  sta_stop_reason (rt_status u) = STOP_NONE
    ∨ sta_stop_reason (rt_status u) = STOP_RECORD_LIMIT →
  len calls ≤ u64_max →
  let header := initialize_output_header (feature_flags false nvtx_active host_monotonic)
    (rt_status u) (BuildAgentCounters (rt_record_capacity u) agent_dropped cupti_dropped unknown)
    (rt_record_count u) available offset in
  ∃ state reason, header_ok header (available - offset)
    ∧ decode_capture_state (oh_capture_state header) = Ok state
    ∧ decode_stop_reason (oh_stop_reason header) = Ok reason.
Proof.
  intros Hok H0 Hoff Hav Hcap (Hd1 & Hd2 & Hd3 & Hd4) Hs Hr Hlen header.
  destruct (ro_committed _ _ _ _ Hok) as [Hcm Hready].
  assert (0 ≤ rt_record_count u ≤ len calls) as Hcount
    by (rewrite (ro_count _ _ _ _ Hok); apply takes_bound).
  assert (rt_committed u ≤ rt_record_count u) as Hle.
  { destruct (decide (rt_committed u = 0)) as [->|Hne]; [lia|].
    destruct (ro_ready _ _ _ _ Hok (rt_committed u - 1)) as (j & c & Hj & Hc & _); [|lia|].
    - apply Hready. lia.
    - assert (0 ≤ rt_committed u - 1 < rt_record_count u); [|lia].
      apply (ro_taken _ _ _ _ Hok). by exists j, c. }
  assert (∃ state, decode_capture_state (oh_capture_state header) = Ok state) as [state Hstate]
    by (unfold header; simpl; destruct Hs as [-> | ->]; by eexists).
  assert (∃ reason, decode_stop_reason (oh_stop_reason header) = Ok reason) as [reason Hreason]
    by (unfold header; simpl; destruct Hr as [-> | ->]; by eexists).
  exists state, reason. split_and!; [|done|done]. unfold in_u64, u64_max in *.
  unfold header_ok, header, initialize_output_header, output_fields, layout_wf.
  rewrite !Forall_cons, Forall_nil. cbn [oh_magic oh_abi_version
    oh_header_size oh_record_size oh_feature_flags oh_record_count oh_record_offset
    oh_record_capacity oh_observed_records oh_agent_dropped_records oh_cupti_dropped_records
    oh_unknown_records oh_capture_state oh_stop_reason cn_record_capacity cn_agent_dropped
    cn_cupti_dropped cn_unknown].
  rewrite Z.mod_small by lia.
  change (256 ^ Z.of_nat 8) with 18446744073709551616.
  change (256 ^ Z.of_nat 4) with 4294967296.
  assert (0 ≤ feature_flags false nvtx_active host_monotonic < 4294967296)
    by by destruct nvtx_active, host_monotonic.
  assert (Z.ldiff (feature_flags false nvtx_active host_monotonic) SUPPORTED_FEATURES = 0)
    by by destruct nvtx_active, host_monotonic.
  assert (0 ≤ sta_capture_state (rt_status u) < 4294967296) by by destruct Hs as [-> | ->].
  assert (0 ≤ sta_stop_reason (rt_status u) < 4294967296) by by destruct Hr as [-> | ->].
  unfold u64_max, ABI_VERSION. split_and!; try done; try lia.
  intros Hf. by destruct nvtx_active, host_monotonic.
Qed.

(** What holds of a table and its calls at any time after arming. *)
Record running (records : list xprobe_cupti_record) (capacity : Z) (t : RecordTable)
    (calls : list (xprobe_cupti_record * RecordPc)) : Prop := {
  ru_ok : records_ok enabled filters t calls;
  ru_capacity : rt_record_capacity t = capacity;
  ru_records : calls.*1 = records;
  ru_few : len calls ≤ u64_max;
  ru_status : (sta_capture_state (rt_status t) = CAPTURE_ACTIVE
      ∨ sta_capture_state (rt_status t) = CAPTURE_LIMIT_REACHED)
    ∧ (sta_stop_reason (rt_status t) = STOP_NONE
       ∨ sta_stop_reason (rt_status t) = STOP_RECORD_LIMIT) }.

Lemma armed_running records capacity s :
  0 ≤ capacity → len records ≤ u64_max →
  running records capacity (arm_records capacity s) (record_calls records).
Proof.
  intros Hcapacity Hfew. split; [by apply armed_records_ok|done| | |split; by left].
  - unfold record_calls. rewrite <-list_fmap_compose. apply list_fmap_id.
  - unfold record_calls, len in *. by rewrite length_fmap.
Qed.
Lemma running_runs records capacity schedule t calls u calls' :
  running records capacity t calls →
  enqueue_records enabled filters schedule (t, calls) = (u, calls') →
  running records capacity u calls' ∧ extends t u.
Proof.
  intros [Hok Hcap Hrec Hfew Hst] Hrun.
  pose proof (enqueue_records_inv enabled filters schedule (t, calls) Hok Hfew) as Hok2.
  pose proof (enqueue_records_extends enabled filters schedule (t, calls) Hok Hfew) as Hext.
  pose proof (enqueue_records_status enabled filters schedule (t, calls) Hst) as Hst2.
  pose proof (interleave_args (enqueue_step enabled filters) schedule (t, calls)) as Hargs.
  change (interleave (enqueue_step enabled filters) schedule (t, calls))
    with (enqueue_records enabled filters schedule (t, calls)) in Hargs.
  rewrite Hrun in *. cbn [fst snd] in *. split; [|done]. destruct Hext as [Hcap2 _].
  split; [done|congruence|congruence| |done].
  unfold len in *. by rewrite <-(length_fmap fst), Hargs, length_fmap.
Qed.

(** What is committed stays, and belongs to the calls. *)
Definition sent_records (offset : Z) (t u : RecordTable) : list xprobe_cupti_record :=
  take (Z.to_nat (rt_committed t - offset)) (drop (Z.to_nat offset) (rt_records u)).
Lemma sent_stable offset t u :
  0 ≤ offset → extends t u → sent_records offset t u = sent_records offset t t.
Proof.
  intros Hoffset (_ & _ & Hsame). unfold sent_records. apply list_eq. intros k.
  destruct (decide (k < Z.to_nat (rt_committed t - offset))%nat) as [Hk|Hk].
  - rewrite !lookup_take_lt, !lookup_drop by done. apply Hsame. lia.
  - by rewrite !lookup_take_ge by lia.
Qed.
Lemma sent_length records capacity offset t calls :
  running records capacity t calls → 0 ≤ offset ≤ rt_committed t →
  len (sent_records offset t t) = rt_committed t - offset.
Proof.
  intros [Hok _ _ _ _] Hoffset. destruct (ro_capacity _ _ _ _ Hok) as [Hrl _].
  destruct (ro_committed _ _ _ _ Hok) as [Hcm _].
  unfold sent_records, len in *. rewrite length_take, length_drop. lia.
Qed.
Lemma sent_calls records capacity offset t calls k r :
  running records capacity t calls → 0 ≤ offset →
  sent_records offset t t !! k = Some r →
  ∃ j pc, calls !! j = Some (r, pc) ∧ taken pc = Some (offset + Z.of_nat k)
    ∧ record_accepted enabled filters r = true.
Proof.
  intros [Hok _ _ _ _] Hoffset [Hk Hlt]%lookup_take_Some. rewrite lookup_drop in Hk.
  assert ((Z.to_nat offset + k < Z.to_nat (rt_committed t))%nat) as Hlt' by lia.
  destruct (committed_record _ _ _ _ _ _ Hok Hlt' Hk) as (j & pc & Hj & Hpc & Ha).
  exists j, pc. split_and!; [done| |done]. rewrite Hpc. f_equal. lia.
Qed.
Lemma sent_chunks records capacity offset t calls :
  running records capacity t calls → 0 ≤ offset → Forall record_wf records →
  Forall (λ chunk, length chunk = 200%nat) (record_encode <$> sent_records offset t t).
Proof.
  intros Hrun Hoffset Hwf. rewrite Forall_fmap. apply Forall_lookup. intros k r Hk.
  apply record_encode_length.
  destruct (sent_calls _ _ _ _ _ _ _ Hrun Hoffset Hk) as (j & pc & Hj & _).
  rewrite Forall_forall in Hwf. apply Hwf. rewrite <-(ru_records _ _ _ _ Hrun).
  apply list_elem_of_lookup_2 in Hj. by apply (list_elem_of_fmap_2 fst _ _ Hj).
Qed.

(** A header and records of an exact capture, decoded. *)
Lemma exact_capture_decodes nvtx_active host_monotonic status counters observed available offset
    sent session_id state reason :
  let flags := feature_flags false nvtx_active host_monotonic in
  let header := initialize_output_header flags status counters observed available offset in
  header_ok header (len sent) →
  Forall (λ chunk, length chunk = 200%nat) (record_encode <$> sent) →
  decode_capture_state (oh_capture_state header) = Ok state →
  decode_stop_reason (oh_stop_reason header) = Ok reason →
  decode_capture (output_encode header ++ concat (record_encode <$> sent)) session_id
  = events ← res_mapM (λ c, decode_record c.2 (Z.of_nat c.1) session_id flags)
      (imap pair (record_encode <$> sent));
    events ← number_events offset (sort_by_key ev_timestamp_ns events);
    Ok (BuildCuptiCapture (has_feature flags FEATURE_NVTX_RECORDS) offset state reason
          (cn_record_capacity counters) observed (cn_agent_dropped counters)
          (cn_cupti_dropped counters) (cn_agent_dropped counters + cn_cupti_dropped counters)
          (cn_unknown counters) events []).
Proof.
  intros flags header Hheader Hchunks Hds Hdr.
  assert (len sent = len (record_encode <$> sent)) as Hl
    by (unfold len in *; by rewrite length_fmap).
  rewrite Hl in Hheader. rewrite (decode_capture_written _ _ _ _ _ Hheader Hchunks Hds Hdr).
  unfold decode_payload. rewrite (record_chunks_written _ (record_encode <$> sent));
    [|reflexivity|exact Hchunks].
  unfold header. cbn [initialize_output_header oh_feature_flags oh_record_offset oh_record_capacity
    oh_observed_records oh_agent_dropped_records oh_cupti_dropped_records oh_unknown_records].
  assert (has_feature flags FEATURE_AGGREGATE_RECORDS = false) as ->
    by by unfold flags; destruct nvtx_active, host_monotonic.
  destruct (res_mapM _ _) as [events| |]; [|done..]. cbn [mbind res_bind].
  by destruct (number_events _ _) as [numbered| |].
Qed.

(** C4: a snapshot taken while records are enqueued is consistent: the agent reads the number of
    committed records, and, after the other threads went on in any way, writes the header and the
    records; the collector then decodes exactly the records that were committed, from the
    requested offset on, each the whole record of the call that took its place and accepted by a
    filter. *)
Theorem agent_snapshot_consistent (records : list xprobe_cupti_record) (capacity : Z)
    (s : AgentStatus) (before after : list (nat * bool)) (t u : RecordTable)
    (calls calls' : list (xprobe_cupti_record * RecordPc)) (nvtx_active host_monotonic : bool)
    (agent_dropped cupti_dropped unknown offset : Z) (session_id : string)
    (Hcapacity : 0 ≤ capacity ∧ capacity * 200 + 88 ≤ u64_max) (Hfew : len records ≤ u64_max)
    (Hwf : Forall record_wf records)
    (Hcounters : in_u64 agent_dropped ∧ in_u64 cupti_dropped ∧ in_u64 unknown
       ∧ agent_dropped + cupti_dropped ≤ u64_max)
    (Hbefore : enqueue_records enabled filters before (arm_records capacity s, record_calls records)
               = (t, calls))
    (Hafter : enqueue_records enabled filters after (t, calls) = (u, calls'))
    (Hoffset : 0 ≤ offset ≤ rt_committed t) :
  let sent := take (Z.to_nat (rt_committed t - offset)) (drop (Z.to_nat offset) (rt_records t)) in
  let flags := feature_flags false nvtx_active host_monotonic in
  ∃ bytes state reason,
    write_exact_capture nvtx_active host_monotonic agent_dropped cupti_dropped unknown
      (rt_committed t) offset u = Some bytes
    ∧ len sent = rt_committed t - offset
    ∧ (∀ k r, sent !! k = Some r → ∃ j pc, calls !! j = Some (r, pc)
         ∧ taken pc = Some (offset + Z.of_nat k) ∧ record_accepted enabled filters r = true)
    ∧ decode_capture bytes session_id
      = events ← res_mapM (λ c, decode_record c.2 (Z.of_nat c.1) session_id flags)
          (imap pair (record_encode <$> sent));
        events ← number_events offset (sort_by_key ev_timestamp_ns events);
        Ok (BuildCuptiCapture (has_feature flags FEATURE_NVTX_RECORDS) offset state reason capacity
              (rt_record_count u) agent_dropped cupti_dropped (agent_dropped + cupti_dropped)
              unknown events []).
Proof.
  cbv zeta. change (take _ (drop _ (rt_records t))) with (sent_records offset t t).
  assert (running records capacity (arm_records capacity s) (record_calls records)) as H0
    by (apply armed_running; lia).
  destruct (running_runs _ _ _ _ _ _ _ H0 Hbefore) as [Hrun _].
  destruct (running_runs _ _ _ _ _ _ _ Hrun Hafter) as [Hrun2 Hext].
  pose proof (sent_length _ _ _ _ _ Hrun Hoffset) as Hsent.
  pose proof (sent_chunks _ _ offset _ _ Hrun (proj1 Hoffset) Hwf) as Hchunks.
  pose proof Hext as (_ & Hle & _). pose proof (ru_capacity _ _ _ _ Hrun2) as Hcap.
  destruct (ru_status _ _ _ _ Hrun2) as [Hs2 Hr2].
  destruct (snapshot_header nvtx_active host_monotonic agent_dropped cupti_dropped unknown
    (rt_committed t) offset u calls' (ru_ok _ _ _ _ Hrun2)) as (state & reason & Hheader & Hds & Hdr);
    [lia|lia|lia|lia|done|done|done|by eapply ru_few|].
  unfold write_exact_capture. rewrite (proj2 (Z.ltb_ge _ _)) by lia.
  change (take _ (drop _ (rt_records u))) with (sent_records offset t u).
  rewrite (sent_stable _ _ _ (proj1 Hoffset) Hext).
  eexists _, state, reason. split; [reflexivity|]. split_and!; [done| |].
  - intros k r. by eapply sent_calls; [|lia].
  - rewrite <-Hsent in Hheader.
    rewrite (exact_capture_decodes _ _ _ _ _ _ _ _ _ _ _ Hheader Hchunks Hds Hdr).
    cbn [cn_record_capacity cn_agent_dropped cn_cupti_dropped cn_unknown]. by rewrite Hcap.
Qed.
End snapshots.
