(* ===== verification/AgentNvtx.v ===== *)
(** * The NVTX ranges of the agent

    The agent ([cupti/src/cupti_agent.c]) writes a record when an NVTX range starts and one
    when it ends.  The call that ends a range has only its number, so the agent keeps the
    open ranges in a table with open addressing, in which ended ranges leave tombstones.
    Here are the table, the callbacks that use it, and an abstract agent that keeps the open
    ranges in a finite map; the table implements the map exactly, and every end record
    repeats what its start said.  Callbacks run one after another: the exchanges of the
    table find the state that was loaded just before. *)
From S2P Require Import Prelude BTree RustString Text Bytes Protocol Selector.
From S2P Require Import Os Process Inspect Resolve Usdt Syscalls Validate Cupti CuptiFilter.
From S2P Require Import Session Agent AgentRecords.
From stdpp Require Import gmap.
#[local] Open Scope Z_scope.

(** ** The table *)
Definition NVTX_RANGE_THREAD : Z := 1.
Definition NVTX_RANGE_PROCESS : Z := 2.
Definition NVTX_SLOT_TOMBSTONE : Z := 2.
Definition VALUE_UNKNOWN : Z := 4294967295.

(** [struct xprobe_nvtx_range_slot]. *)
Record NvtxSlot := BuildNvtxSlot {
  ns_state : Z;
  ns_range_id : Z;
  ns_range_kind : Z;
  ns_start_tid : Z;
  ns_name_complete : Z;
  ns_name : list Z }.
Definition set_slot_state (value : Z) (s : NvtxSlot) : NvtxSlot :=
  BuildNvtxSlot value (ns_range_id s) (ns_range_kind s) (ns_start_tid s) (ns_name_complete s)
    (ns_name s).
(** The variables of the agent that NVTX callbacks use: [nvtx_range_slots],
    [nvtx_range_capacity], [agent_dropped_records], [unknown_records] and the status. *)
Record NvtxTable := BuildNvtxTable {
  nt_slots : list NvtxSlot;
  nt_capacity : Z;
  nt_agent_dropped : Z;
  nt_unknown : Z;
  nt_status : AgentStatus }.

(** The table after [arm_capture]: [calloc], [reset_capture] and the start of the capture. *)
Definition empty_range : NvtxSlot := BuildNvtxSlot 0 0 0 0 0 (replicate 128 0).
Definition arm_ranges (capacity : Z) (s : AgentStatus) : NvtxTable :=
  BuildNvtxTable (set_slot_state 0 <$> replicate (Z.to_nat capacity) empty_range) capacity 0 0
    (activate_status (reset_status s)).

Definition nvtx_range_hash (range_kind range_id : Z) : Z :=
  let hash := fnv 1469598103934665603 (to_le_bytes 8 range_kind ++ to_le_bytes 8 range_id) in
  if hash <=? NVTX_SLOT_TOMBSTONE then hash + (NVTX_SLOT_TOMBSTONE + 1) else hash.
Definition nvtx_range_key_matches (slot : NvtxSlot) (range_kind range_id : Z) : bool :=
  (ns_range_kind slot =? range_kind) && (ns_range_id slot =? range_id).
Definition add_dropped (t : NvtxTable) : NvtxTable :=
  BuildNvtxTable (nt_slots t) (nt_capacity t) ((nt_agent_dropped t + 1) mod 2 ^ 64) (nt_unknown t)
    (nt_status t).
Definition limit_reached (s : AgentStatus) : AgentStatus :=
  set_capture_state CAPTURE_LIMIT_REACHED (set_stop_reason STOP_RECORD_LIMIT s).
Definition nvtx_range_capacity_reached (t : NvtxTable) : NvtxTable :=
  BuildNvtxTable (nt_slots t) (nt_capacity t) ((nt_agent_dropped t + 1) mod 2 ^ 64) (nt_unknown t)
    (limit_reached (nt_status t)).
Definition store_slot (i : nat) (slot : NvtxSlot) (t : NvtxTable) : NvtxTable :=
  BuildNvtxTable (<[i := slot]> (nt_slots t)) (nt_capacity t) (nt_agent_dropped t) (nt_unknown t)
    (nt_status t).

(** The slot that is tried after [probe] others. *)
Definition range_index (capacity hash : Z) (probe : nat) : nat :=
  Z.to_nat ((hash mod capacity + Z.of_nat probe) mod capacity).
(** The loop of [remember_nvtx_range]: nothing if the range is in the table, and otherwise
    the candidate, if there is one. *)
Fixpoint remember_probe (slots : list NvtxSlot) (capacity range_kind range_id : Z) (fuel : nat)
    (probe : nat) (candidate : option nat) : option (option nat) :=
  match fuel with
  | O => Some candidate
  | S fuel =>
      let hash := nvtx_range_hash range_kind range_id in
      let index := range_index capacity hash probe in
      match slots !! index with
      | None => Some candidate
      | Some slot =>
          if (ns_state slot =? hash) && nvtx_range_key_matches slot range_kind range_id then None
          else
            match candidate with
            | None =>
                if ns_state slot =? NVTX_SLOT_TOMBSTONE then
                  remember_probe slots capacity range_kind range_id fuel (S probe) (Some index)
                else if ns_state slot =? 0 then Some (Some index)
                else remember_probe slots capacity range_kind range_id fuel (S probe) None
            | Some found =>
                if ns_state slot =? 0 then Some (Some found)
                else remember_probe slots capacity range_kind range_id fuel (S probe) (Some found)
            end
      end
  end.
Definition remember_nvtx_range (range_kind range_id start_tid : Z) (name : c_string)
    (t : NvtxTable) : bool * NvtxTable :=
  match remember_probe (nt_slots t) (nt_capacity t) range_kind range_id
          (Z.to_nat (nt_capacity t)) 0 None with
  | None => (false, add_dropped t)
  | Some (Some candidate) =>
      match nt_slots t !! candidate with
      | Some slot =>
          if (ns_state slot =? 0) || (ns_state slot =? NVTX_SLOT_TOMBSTONE) then
            let '(buffer, name_complete) := copy_nvtx_name (ns_name slot) name in
            (true, store_slot candidate
                     (BuildNvtxSlot (nvtx_range_hash range_kind range_id) range_id range_kind
                        start_tid name_complete buffer) t)
          else (false, add_dropped t)
      | None => (false, add_dropped t)
      end
  | Some None => (false, nvtx_range_capacity_reached t)
  end.

(** The loop of [take_nvtx_range]. *)
Fixpoint take_probe (slots : list NvtxSlot) (capacity range_kind range_id : Z) (fuel : nat)
    (probe : nat) : option (nat * NvtxSlot) :=
  match fuel with
  | O => None
  | S fuel =>
      let hash := nvtx_range_hash range_kind range_id in
      let index := range_index capacity hash probe in
      match slots !! index with
      | None => None
      | Some slot =>
          if ns_state slot =? 0 then None
          else if negb (ns_state slot =? hash)
                  || negb (nvtx_range_key_matches slot range_kind range_id) then
            take_probe slots capacity range_kind range_id fuel (S probe)
          else Some (index, slot)
      end
  end.

(** Who runs a callback and when: [getpid], [current_tid] and [clock_gettime], which fails
    with nothing. *)
Record Caller := BuildCaller {
  cl_pid : Z;
  cl_tid : Z;
  cl_clock : option Z }.
Definition initialize_record (caller : Caller) (kind timestamp_ns : Z) : xprobe_cupti_record :=
  Build_xprobe_cupti_record timestamp_ns kind (cl_pid caller) (cl_tid caller) VALUE_UNKNOWN
    VALUE_UNKNOWN VALUE_UNKNOWN 0 0 0 (0, 0, 0) (0, 0, 0) 0 (replicate 128 0).
(** The fields of an NVTX record. *)
Definition range_record (caller : Caller) (kind timestamp_ns range_kind range_id start_tid
    name_complete : Z) (name : list Z) : xprobe_cupti_record :=
  let r := initialize_record caller kind timestamp_ns in
  Build_xprobe_cupti_record (xp_timestamp_ns r) (xp_kind r) (xp_pid r) (xp_tid r) (xp_device_id r)
    (xp_context_id r) (xp_stream_id r) (xp_correlation_id r) (xp_callback_domain r)
    (xp_callback_id r) (range_id mod 2 ^ 32, Z.shiftr range_id 32 mod 2 ^ 32, range_kind)
    (start_tid, name_complete, 0) (xp_runtime_correlation_id r) name.
Definition take_nvtx_range (caller : Caller) (range_kind range_id : Z) (t : NvtxTable) :
    option xprobe_cupti_record * NvtxTable :=
  match take_probe (nt_slots t) (nt_capacity t) range_kind range_id (Z.to_nat (nt_capacity t)) 0 with
  | None => (None, t)
  | Some (index, slot) =>
      let t := store_slot index (set_slot_state NVTX_SLOT_TOMBSTONE slot) t in
      match cl_clock caller with
      | None =>
          (None, BuildNvtxTable (nt_slots t) (nt_capacity t) (nt_agent_dropped t) (nt_unknown t)
                   (remember_output_error (nt_status t)))
      | Some timestamp_ns =>
          (Some (range_record caller 10 timestamp_ns range_kind range_id (ns_start_tid slot)
                   (ns_name_complete slot) (ns_name slot)), t)
      end
  end.

(** ** Callbacks

    What the callbacks need of the variables of the agent: the table they use and the
    status.  The abstract agent below is a second instance. *)
Class RangeStore (S : Type) := {
  store_remember : Z → Z → Z → c_string → S → bool * S;
  store_take : Caller → Z → Z → S → option xprobe_cupti_record * S;
  store_unknown : S → S;
  store_update : (AgentStatus → AgentStatus) → S → S;
  store_active : S → bool }.
#[global] Instance NvtxTable_store : RangeStore NvtxTable := {|
  store_remember := remember_nvtx_range;
  store_take := take_nvtx_range;
  store_unknown t := BuildNvtxTable (nt_slots t) (nt_capacity t) (nt_agent_dropped t)
                       ((nt_unknown t + 1) mod 2 ^ 64) (nt_status t);
  store_update f t := BuildNvtxTable (nt_slots t) (nt_capacity t) (nt_agent_dropped t)
                        (nt_unknown t) (f (nt_status t));
  store_active t := sta_capture_state (nt_status t) =? CAPTURE_ACTIVE |}.

(** [nvtxEventAttributes_t], as far as it is read: the size and whether it covers the
    message, whether the message is ASCII, and the message. *)
Record EventAttributes := BuildEventAttributes {
  ea_covers_message : bool;
  ea_ascii : bool;
  ea_message : c_string }.
(** The callbacks with [functionParams] and [functionReturnValue]. *)
Inductive NvtxCallback : Type :=
| RangeStartA (params : option c_string) (result : option Z)
| RangeStartEx (params : option (option EventAttributes)) (result : option Z)
| RangePushA (params : option c_string) (result : option Z)
| RangePushEx (params : option (option EventAttributes)) (result : option Z)
| RangeEnd (params : option Z)
| RangePop (result : option Z)
| OtherCallback.

(** [nvtx_ascii_message], which returns -1, 0 or 1 and the message. *)
Inductive MessageStatus : Type := MessageInvalid | MessageNotAscii | MessageAscii (name : list Z).
Definition message_status (message : c_string) : MessageStatus :=
  match message with None => MessageInvalid | Some name => MessageAscii name end.
Definition nvtx_attributes_message (attributes : option EventAttributes) : MessageStatus :=
  match attributes with
  | None => MessageInvalid
  | Some attributes =>
      if negb (ea_covers_message attributes) then MessageInvalid
      else if negb (ea_ascii attributes) then MessageNotAscii
      else message_status (ea_message attributes)
  end.

Section callbacks.
Context (enabled : bool) (filters : list xprobe_cupti_filter) {S : Type} `{!RangeStore S}.
Implicit Types (s : S).

(** The record that is handed to [enqueue_record], if one is. *)
Definition enqueue_nvtx_range_start (caller : Caller) (range_kind range_id : Z) (name : list Z)
    (timestamp_ns : Z) s : option xprobe_cupti_record * S :=
  let start_tid := cl_tid caller in
  if negb (store_active s) then (None, s)
  else
    let '(remembered, s) := store_remember range_kind range_id start_tid (Some name) s in
    if negb remembered then (None, s)
    else
      let '(buffer, name_complete) := copy_nvtx_name (replicate 128 0) (Some name) in
      (Some (range_record caller 9 timestamp_ns range_kind range_id start_tid name_complete buffer),
       s).
Definition enqueue_nvtx_range_end (caller : Caller) (range_kind range_id : Z) s :
    option xprobe_cupti_record * S :=
  if negb (store_active s) then (None, s) else store_take caller range_kind range_id s.

(** What a start and a push share: the checks on the message, the filters and the clock;
    [range_of] gives the kind and number of the range from the result of the call. *)
Definition nvtx_range_opened (caller : Caller) (message : option MessageStatus)
    (result : option Z) (range_of : Z → option (Z * Z)) s : option xprobe_cupti_record * S :=
  match message with
  | None => (None, store_unknown s)
  | Some MessageNotAscii => (None, s)
  | Some MessageInvalid => (None, store_unknown s)
  | Some (MessageAscii name) =>
      match result with
      | None => (None, store_unknown s)
      | Some value =>
          if negb (values_match_capture enabled filters 9 10 0 0 (Some name)) then (None, s)
          else
            match cl_clock caller with
            | None => (None, store_update remember_output_error s)
            | Some timestamp_ns =>
                match range_of value with
                | None => (None, store_unknown s)
                | Some (range_kind, range_id) =>
                    enqueue_nvtx_range_start caller range_kind range_id name timestamp_ns s
                end
            end
      end
  end.
Definition process_range (range_id : Z) : option (Z * Z) :=
  if range_id =? 0 then None else Some (NVTX_RANGE_PROCESS, range_id).
Definition thread_range (tid level : Z) : option (Z * Z) :=
  if level <? 0 then None
  else Some (NVTX_RANGE_THREAD, Z.lor (Z.shiftl tid 32) (level mod 2 ^ 32)).
Definition nvtx_callback (caller : Caller) (data : option NvtxCallback) s :
    option xprobe_cupti_record * S :=
  if negb (store_active s) then (None, s)
  else
    match data with
    | None => (None, store_unknown s)
    | Some (RangeStartA params result) =>
        nvtx_range_opened caller (message_status <$> params) result process_range s
    | Some (RangeStartEx params result) =>
        nvtx_range_opened caller (nvtx_attributes_message <$> params) result process_range s
    | Some (RangePushA params result) =>
        nvtx_range_opened caller (message_status <$> params) result
          (thread_range (cl_tid caller)) s
    | Some (RangePushEx params result) =>
        nvtx_range_opened caller (nvtx_attributes_message <$> params) result
          (thread_range (cl_tid caller)) s
    | Some (RangeEnd params) =>
        match params with
        | None => (None, store_unknown s)
        | Some range_id => enqueue_nvtx_range_end caller NVTX_RANGE_PROCESS range_id s
        end
    | Some (RangePop result) =>
        match result with
        | None => (None, store_unknown s)
        | Some level =>
            match thread_range (cl_tid caller) level with
            | None => (None, store_unknown s)
            | Some (range_kind, range_id) => enqueue_nvtx_range_end caller range_kind range_id s
            end
        end
    | Some OtherCallback => (None, store_unknown s)
    end.

(** Callbacks one after another, with changes of the status by other parts of the agent in
    between (a full table of records, a stopped or failed capture). *)
Inductive NvtxStep : Type :=
| Callback (caller : Caller) (data : option NvtxCallback)
| Elsewhere (change : AgentStatus → AgentStatus).
Definition nvtx_step (step : NvtxStep) s : option xprobe_cupti_record * S :=
  match step with
  | Callback caller data => nvtx_callback caller data s
  | Elsewhere change => (None, store_update change s)
  end.
Fixpoint nvtx_steps (steps : list NvtxStep) s : list xprobe_cupti_record * S :=
  match steps with
  | [] => ([], s)
  | step :: steps =>
      let '(record, s) := nvtx_step step s in
      let '(records, s) := nvtx_steps steps s in
      (option_list record ++ records, s)
  end.
End callbacks.

(** ** The abstract agent *)

(** What is kept of an open range; the name is what the buffer holds before the NUL. *)
Record NvtxRange := BuildNvtxRange {
  nr_start_tid : Z;
  nr_name_complete : Z;
  nr_name : list Z }.
Record OpenRanges := BuildOpenRanges {
  or_ranges : gmap (Z * Z) NvtxRange;
  or_capacity : Z;
  or_agent_dropped : Z;
  or_unknown : Z;
  or_status : AgentStatus }.
Definition pad_name (name : list Z) : list Z := name ++ replicate (128 - length name) 0.
Definition kept_name (name : c_string) : list Z :=
  until_nul (copy_nvtx_name (replicate 128 0) name).1.
Definition kept_complete (name : c_string) : Z := (copy_nvtx_name (replicate 128 0) name).2.
Definition open_range (range_kind range_id start_tid : Z) (name : c_string) (o : OpenRanges) :
    bool * OpenRanges :=
  let dropped := (or_agent_dropped o + 1) mod 2 ^ 64 in
  match or_ranges o !! (range_kind, range_id) with
  | Some _ =>
      (false, BuildOpenRanges (or_ranges o) (or_capacity o) dropped (or_unknown o) (or_status o))
  | None =>
      if or_capacity o <=? Z.of_nat (size (or_ranges o)) then
        (false, BuildOpenRanges (or_ranges o) (or_capacity o) dropped (or_unknown o)
                  (limit_reached (or_status o)))
      else
        (true, BuildOpenRanges
                 (<[(range_kind, range_id) :=
                      BuildNvtxRange start_tid (kept_complete name) (kept_name name)]> (or_ranges o))
                 (or_capacity o) (or_agent_dropped o) (or_unknown o) (or_status o))
  end.
Definition close_range (caller : Caller) (range_kind range_id : Z) (o : OpenRanges) :
    option xprobe_cupti_record * OpenRanges :=
  match or_ranges o !! (range_kind, range_id) with
  | None => (None, o)
  | Some range =>
      let ranges := delete (range_kind, range_id) (or_ranges o) in
      match cl_clock caller with
      | None =>
          (None, BuildOpenRanges ranges (or_capacity o) (or_agent_dropped o) (or_unknown o)
                   (remember_output_error (or_status o)))
      | Some timestamp_ns =>
          (Some (range_record caller 10 timestamp_ns range_kind range_id (nr_start_tid range)
                   (nr_name_complete range)
                   (pad_name (nr_name range))),
           BuildOpenRanges ranges (or_capacity o) (or_agent_dropped o) (or_unknown o)
             (or_status o))
      end
  end.
#[global] Instance OpenRanges_store : RangeStore OpenRanges := {|
  store_remember := open_range;
  store_take := close_range;
  store_unknown o := BuildOpenRanges (or_ranges o) (or_capacity o) (or_agent_dropped o)
                       ((or_unknown o + 1) mod 2 ^ 64) (or_status o);
  store_update f o := BuildOpenRanges (or_ranges o) (or_capacity o) (or_agent_dropped o)
                        (or_unknown o) (f (or_status o));
  store_active o := sta_capture_state (or_status o) =? CAPTURE_ACTIVE |}.
Definition no_ranges (capacity : Z) (s : AgentStatus) : OpenRanges :=
  BuildOpenRanges ∅ capacity 0 0 (activate_status (reset_status s)).

(** Records that differ at most in bytes after the end of the name. *)
Definition with_name (name : list Z) (r : xprobe_cupti_record) : xprobe_cupti_record :=
  Build_xprobe_cupti_record (xp_timestamp_ns r) (xp_kind r) (xp_pid r) (xp_tid r) (xp_device_id r)
    (xp_context_id r) (xp_stream_id r) (xp_correlation_id r) (xp_callback_domain r)
    (xp_callback_id r) (xp_grid r) (xp_block r) (xp_runtime_correlation_id r) name.
Definition zero_tail (name : list Z) : list Z :=
  until_nul name ++ replicate (length name - length (until_nul name)) 0.
Definition readable (r : xprobe_cupti_record) : xprobe_cupti_record :=
  with_name (zero_tail (xp_name r)) r.

(** ** Probing *)
Section probing.
Context (capacity hash : Z) (Hcap : 0 < capacity).

Lemma range_index_lt probe : (range_index capacity hash probe < Z.to_nat capacity)%nat.
Proof using Hcap.
  unfold range_index. pose proof (Z.mod_pos_bound (hash mod capacity + Z.of_nat probe) capacity Hcap).
  lia.
Qed.
(** Every slot is tried. *)
Lemma range_index_onto i :
  (i < Z.to_nat capacity)%nat →
  ∃ probe, (probe < Z.to_nat capacity)%nat ∧ range_index capacity hash probe = i.
Proof using Hcap.
  intros Hi. exists (Z.to_nat ((Z.of_nat i - hash) mod capacity)).
  pose proof (Z.mod_pos_bound (Z.of_nat i - hash) capacity Hcap). split; [lia|].
  unfold range_index. rewrite Z2Nat.id by lia.
  rewrite <-Zplus_mod. replace (hash + (Z.of_nat i - hash)) with (Z.of_nat i) by lia.
  rewrite Z.mod_small by lia. lia.
Qed.
End probing.

Lemma nvtx_range_hash_large range_kind range_id : 3 ≤ nvtx_range_hash range_kind range_id.
Proof.
  unfold nvtx_range_hash, NVTX_SLOT_TOMBSTONE. cbv zeta.
  pose proof (fnv_range 1469598103934665603
    (to_le_bytes 8 range_kind ++ to_le_bytes 8 range_id) ltac:(lia)) as Hb.
  revert Hb. generalize (fnv 1469598103934665603
    (to_le_bytes 8 range_kind ++ to_le_bytes 8 range_id)). intros h Hh.
  destruct (Z.leb_spec h 2); lia.
Qed.

#[local] Opaque nvtx_range_hash.

(** ** The invariant *)
Definition slot_key (s : NvtxSlot) : Z * Z := (ns_range_kind s, ns_range_id s).
Definition slot_range (s : NvtxSlot) : NvtxRange :=
  BuildNvtxRange (ns_start_tid s) (ns_name_complete s) (until_nul (ns_name s)).
Definition key_hash (k : Z * Z) : Z := nvtx_range_hash k.1 k.2.
Definition slot_live (s : NvtxSlot) : Prop := 2 < ns_state s.
#[global] Instance slot_live_dec s : Decision (slot_live s).
Proof. unfold slot_live. apply _. Defined.
Definition slot_entry (s : NvtxSlot) : (Z * Z) * NvtxRange := (slot_key s, slot_range s).

(** A slot of a range is found from the range: no slot that is tried before it is empty. *)
Definition reachable (slots : list NvtxSlot) (capacity hash : Z) (i : nat) : Prop :=
  ∃ d, (d < Z.to_nat capacity)%nat ∧ i = range_index capacity hash d
    ∧ ∀ p, (p < d)%nat → ∃ s, slots !! range_index capacity hash p = Some s ∧ ns_state s ≠ 0.

Record ranges_ok (slots : list NvtxSlot) (capacity : Z) (m : gmap (Z * Z) NvtxRange) : Prop := {
  rg_capacity : 0 < capacity;
  rg_length : length slots = Z.to_nat capacity;
  rg_state : ∀ i s, slots !! i = Some s →
    ns_state s = 0 ∨ ns_state s = 2 ∨ ns_state s = key_hash (slot_key s);
  rg_names : ∀ i s, slots !! i = Some s → length (ns_name s) = 128%nat;
  rg_reach : ∀ i s, slots !! i = Some s → slot_live s →
    reachable slots capacity (key_hash (slot_key s)) i;
  rg_nodup : NoDup (slot_key <$> filter slot_live slots);
  rg_open : m = list_to_map (slot_entry <$> filter slot_live slots) }.

Lemma key_matches_eq s range_kind range_id :
  nvtx_range_key_matches s range_kind range_id = true ↔ slot_key s = (range_kind, range_id).
Proof.
  unfold nvtx_range_key_matches, slot_key. rewrite andb_true_iff, !Z.eqb_eq. split.
  - by intros [-> ->].
  - by intros [= -> ->].
Qed.

Section table.
Context (slots : list NvtxSlot) (capacity : Z) (m : gmap (Z * Z) NvtxRange).
Context (Hok : ranges_ok slots capacity m).

Lemma live_hash i s :
  slots !! i = Some s → slot_live s → ns_state s = key_hash (slot_key s).
Proof using Hok.
  intros Hi Hl. unfold slot_live in Hl. destruct (rg_state _ _ _ Hok i s Hi) as [?|[?|?]]; [lia..|done].
Qed.
Lemma hash_live s k : ns_state s = key_hash k → slot_live s.
Proof using. intros Hs. unfold slot_live. rewrite Hs. pose proof (nvtx_range_hash_large k.1 k.2).
  unfold key_hash. lia. Qed.
Lemma slot_at probe hash : is_Some (slots !! range_index capacity hash probe).
Proof using Hok.
  apply lookup_lt_is_Some. rewrite (rg_length _ _ _ Hok). apply range_index_lt, (rg_capacity _ _ _ Hok).
Qed.
Lemma open_lookup k range :
  m !! k = Some range ↔
  ∃ i s, slots !! i = Some s ∧ slot_live s ∧ slot_key s = k ∧ slot_range s = range.
Proof using Hok.
  rewrite (rg_open _ _ _ Hok), <-elem_of_list_to_map.
  - rewrite list_elem_of_fmap. unfold slot_entry. split.
    + intros (s & [= -> ->] & [Hl Hs]%list_elem_of_filter).
      apply list_elem_of_lookup in Hs as [i Hi]. by exists i, s.
    + intros (i & s & Hi & Hl & <- & <-). exists s. split; [done|]. apply list_elem_of_filter.
      split; [done|]. by eapply list_elem_of_lookup_2.
  - rewrite <-list_fmap_compose. apply (rg_nodup _ _ _ Hok).
Qed.
Lemma open_size : size m = length (filter slot_live slots).
Proof using Hok.
  rewrite (rg_open _ _ _ Hok), map_size_list_to_map.
  - by rewrite length_fmap.
  - rewrite <-list_fmap_compose. apply (rg_nodup _ _ _ Hok).
Qed.

(** What a loop has seen: no slot so far was empty or held the range. *)
Definition passed (k : Z * Z) (probe : nat) : Prop :=
  ∀ p, (p < probe)%nat → ∃ s, slots !! range_index capacity (key_hash k) p = Some s
    ∧ ns_state s ≠ 0 ∧ (slot_live s → slot_key s ≠ k).
(** A range is not in the table when the loop has passed everything before an empty slot, or
    the whole table. *)
Lemma passed_absent k probe :
  passed k probe →
  (probe = Z.to_nat capacity ∨ ∃ s, slots !! range_index capacity (key_hash k) probe = Some s
     ∧ ns_state s = 0) →
  m !! k = None.
Proof using Hok.
  intros Hp Hend. destruct (m !! k) as [range|] eqn:E; [exfalso|done].
  apply open_lookup in E as (i & s & Hi & Hl & <- & _).
  destruct (rg_reach _ _ _ Hok i s Hi Hl) as (d & Hd & -> & Hbefore).
  destruct (Nat.lt_trichotomy d probe) as [Hlt|[->|Hgt]].
  - destruct (Hp d Hlt) as (s' & Hs' & _ & Hne). simplify_eq. by apply Hne.
  - destruct Hend as [->|(s' & Hs' & H0)]; [lia|]. simplify_eq. unfold slot_live in Hl. lia.
  - destruct Hend as [->|(s' & Hs' & H0)]; [lia|]. destruct (Hbefore probe Hgt) as (? & ? & ?).
    by simplify_eq.
Qed.
Lemma passed_step k probe s :
  passed k probe → slots !! range_index capacity (key_hash k) probe = Some s → ns_state s ≠ 0 →
  (slot_live s → slot_key s ≠ k) → passed k (S probe).
Proof using.
  intros Hp Hs H0 Hne p Hlt. destruct (decide (p = probe)) as [->|]; [by exists s|].
  apply Hp. lia.
Qed.
Lemma mismatch_key s range_kind range_id :
  (∃ i, slots !! i = Some s) →
  (ns_state s =? nvtx_range_hash range_kind range_id)
    && nvtx_range_key_matches s range_kind range_id = false →
  slot_live s → slot_key s ≠ (range_kind, range_id).
Proof using Hok.
  intros [i Hi] Hm Hl Hk. rewrite (proj2 (key_matches_eq _ _ _) Hk) in Hm.
  rewrite andb_true_r in Hm. apply Z.eqb_neq in Hm. apply Hm.
  rewrite (live_hash i s Hi Hl), Hk. done.
Qed.

(** What the loop of [remember_nvtx_range] finds. *)
Definition candidate_ok (k : Z * Z) (probe : nat) (candidate : option nat) : Prop :=
  match candidate with
  | None => ∀ p s, (p < probe)%nat →
      slots !! range_index capacity (key_hash k) p = Some s → ns_state s ≠ 2
  | Some i => ∃ d s, (d < probe)%nat ∧ i = range_index capacity (key_hash k) d
      ∧ slots !! i = Some s ∧ ns_state s = 2
  end.
Definition remember_found (k : Z * Z) (found : option (option nat)) : Prop :=
  match found with
  | None => is_Some (m !! k)
  | Some None => m !! k = None ∧ Forall slot_live slots
  | Some (Some i) => m !! k = None ∧ reachable slots capacity (key_hash k) i
      ∧ ∃ s, slots !! i = Some s ∧ (ns_state s = 0 ∨ ns_state s = 2)
  end.
Lemma remember_probe_end k probe candidate :
  (probe <= Z.to_nat capacity)%nat → passed k probe → candidate_ok k probe candidate →
  probe = Z.to_nat capacity
    ∨ is_Some candidate ∧ (∃ s, slots !! range_index capacity (key_hash k) probe = Some s
                             ∧ ns_state s = 0) →
  remember_found k (Some candidate).
Proof using Hok.
  intros Hle Hp Hc Hend. assert (m !! k = None) as Habs.
  { apply (passed_absent k probe Hp). destruct Hend as [?|[_ ?]]; auto. }
  destruct candidate as [i|]; simpl in *; (split; [done|]).
  - destruct Hc as (d & s & Hd & -> & Hs & H2). split; [|by exists s; auto].
    exists d. split_and!; [lia|done|].
    intros p Hlt. destruct (Hp p ltac:(lia)) as (s' & ? & ? & _). eauto.
  - destruct Hend as [->|[[? [=]] _]]. apply Forall_lookup. intros i s Hi.
    destruct (range_index_onto capacity (key_hash k) (rg_capacity _ _ _ Hok) i) as (d & Hd & <-).
    { rewrite <-(rg_length _ _ _ Hok). by eapply lookup_lt_Some. }
    destruct (Hp d Hd) as (s' & Hs' & H0 & _). rewrite Hi in Hs'. injection Hs' as <-.
    pose proof (Hc d s Hd Hi). destruct (rg_state _ _ _ Hok _ s Hi) as [?|[?|?]]; [done..|].
    by eapply hash_live.
Qed.
Lemma remember_probe_found range_kind range_id fuel probe candidate :
  (fuel + probe)%nat = Z.to_nat capacity → passed (range_kind, range_id) probe →
  candidate_ok (range_kind, range_id) probe candidate →
  remember_found (range_kind, range_id)
    (remember_probe slots capacity range_kind range_id fuel probe candidate).
Proof using Hok.
  set (k := (range_kind, range_id)). revert probe candidate.
  induction fuel as [|fuel IH]; intros probe candidate Hf Hp Hc; cbn [remember_probe].
  { apply (remember_probe_end k probe); [lia|done..|left; lia]. }
  change (nvtx_range_hash range_kind range_id) with (key_hash k).
  destruct (slot_at probe (key_hash k)) as [s Hs]. rewrite Hs.
  destruct ((_ =? _) && _) eqn:E.
  { apply andb_true_iff in E as [Hh%Z.eqb_eq Hk%key_matches_eq]. simpl. exists (slot_range s).
    apply open_lookup. eexists _, s. split_and!; [done|by eapply hash_live|done|done]. }
  assert (slot_live s → slot_key s ≠ k) as Hne
    by (eapply mismatch_key; [by eexists|exact E]).
  assert (ns_state s ≠ 0 → passed k (S probe)) as Hstep by (intros; by eapply passed_step).
  assert (ns_state s ≠ 2 → candidate = None → candidate_ok k (S probe) None) as Hnone.
  { intros H2 -> p s' Hlt Hs'. destruct (decide (p = probe)) as [->|];
      [by rewrite Hs in Hs'; injection Hs' as <-|]. eapply Hc; [|done]. lia. }
  destruct candidate as [i|].
  - destruct (Z.eqb_spec (ns_state s) 0) as [H0|H0].
    + apply (remember_probe_end k probe); [lia|done..|]. right. split; [done|]. by exists s.
    + apply IH; [lia|by apply Hstep|]. destruct Hc as (d & s' & ? & ?). exists d, s'.
      split; [lia|done].
  - unfold NVTX_SLOT_TOMBSTONE. destruct (Z.eqb_spec (ns_state s) 2) as [H2|H2].
    + apply IH; [lia|apply Hstep; lia|]. exists probe, s. split_and!; [lia|done..].
    + destruct (Z.eqb_spec (ns_state s) 0) as [H0|H0]; [|apply IH; [lia|auto..]].
      simpl. split; [apply (passed_absent k probe Hp); right; by exists s|].
      split; [|exists s; auto]. exists probe. split_and!; [lia|done|].
      intros p Hlt. destruct (Hp p Hlt) as (s' & ? & ? & _). eauto.
Qed.
Lemma take_probe_found range_kind range_id fuel probe :
  (fuel + probe)%nat = Z.to_nat capacity → passed (range_kind, range_id) probe →
  match take_probe slots capacity range_kind range_id fuel probe with
  | None => m !! (range_kind, range_id) = None
  | Some (i, s) => slots !! i = Some s ∧ slot_live s ∧ slot_key s = (range_kind, range_id)
  end.
Proof using Hok.
  set (k := (range_kind, range_id)). revert probe.
  induction fuel as [|fuel IH]; intros probe Hf Hp; cbn [take_probe].
  { apply (passed_absent k probe Hp). left. lia. }
  change (nvtx_range_hash range_kind range_id) with (key_hash k).
  destruct (slot_at probe (key_hash k)) as [s Hs]. rewrite Hs.
  destruct (Z.eqb_spec (ns_state s) 0) as [H0|H0].
  { apply (passed_absent k probe Hp). right. by exists s. }
  rewrite <-negb_andb. destruct ((_ =? _) && _) eqn:E; cbn [negb].
  - apply andb_true_iff in E as [Hh%Z.eqb_eq Hk%key_matches_eq].
    split_and!; [done|by eapply hash_live|done].
  - apply IH; [lia|]. eapply passed_step; [done..|]. eapply mismatch_key; [by eexists|done].
Qed.
End table.

(** ** Names *)

(** How much of a name fits. *)
Definition kept_length (source : list Z) : nat :=
  if (length source <=? 127)%nat then length source else nvtx_cut (take 127 source) 127.

Lemma nvtx_lead_app name rest index :
  (index <= length name)%nat → nvtx_lead (name ++ rest) index = nvtx_lead name index.
Proof.
  induction index as [|index IH]; intros Hi; [done|]. cbn [nvtx_lead].
  rewrite lookup_app_l by lia. destruct (_ =? _); [apply IH; lia|done].
Qed.
Lemma nvtx_lead_le name index : (nvtx_lead name index <= index)%nat.
Proof. induction index as [|index IH]; [done|]. cbn [nvtx_lead]. destruct (_ =? _); lia. Qed.
Lemma nvtx_cut_app name rest index :
  (index <= length name)%nat → nvtx_cut (name ++ rest) index = nvtx_cut name index.
Proof.
  intros Hi. unfold nvtx_cut. rewrite nvtx_lead_app by done.
  pose proof (nvtx_lead_le name index). destruct (nvtx_lead name index) as [|lead]; [done|].
  by rewrite lookup_app_l by lia.
Qed.
Lemma nvtx_cut_le name index : (nvtx_cut name index <= index)%nat.
Proof.
  unfold nvtx_cut. pose proof (nvtx_lead_le name index).
  destruct (nvtx_lead name index) as [|lead]; [done|]. destruct (_ <? _)%nat; lia.
Qed.
Lemma kept_length_le source : (kept_length source <= Nat.min 127 (length source))%nat.
Proof.
  unfold kept_length. destruct (Nat.leb_spec (length source) 127); [lia|].
  pose proof (nvtx_cut_le (take 127 source) 127). lia.
Qed.

Lemma copy_nvtx_name_some destination source :
  length destination = 128%nat →
  let name := take 127 source in
  copy_nvtx_name destination (Some source)
  = (take (kept_length source) source
       ++ 0 :: drop (S (kept_length source)) (name ++ drop (length name) destination),
     Z.b2z (length source <=? 127)%nat).
Proof.
  intros Hd name. unfold copy_nvtx_name. fold name. f_equal.
  pose proof (kept_length_le source) as Hk.
  assert (length name = Nat.min 127 (length source)) as Hn by (unfold name; apply length_take).
  assert ((if (length source <=? 127)%nat then length name
           else nvtx_cut (name ++ drop (length name) destination) (length name))
          = kept_length source) as ->.
  { unfold kept_length. fold name. destruct (Nat.leb_spec (length source) 127); [lia|].
    rewrite nvtx_cut_app by lia. f_equal. lia. }
  rewrite insert_take_drop by (rewrite length_app, length_drop; lia).
  f_equal. rewrite take_app_le by lia. unfold name. rewrite take_take. f_equal. lia.
Qed.
Lemma copy_nvtx_name_length destination name :
  length destination = 128%nat → length (copy_nvtx_name destination name).1 = 128%nat.
Proof.
  intros Hd. destruct name as [source|].
  - unfold copy_nvtx_name. cbn [fst]. rewrite length_insert, length_app, length_drop, length_take. lia.
  - cbn [copy_nvtx_name fst length]. rewrite length_drop. lia.
Qed.
(** What is read back does not depend on what the buffer held before. *)
Lemma copy_nvtx_name_read destination name :
  length destination = 128%nat → c_string_wf name →
  until_nul (copy_nvtx_name destination name).1
  = take (kept_length (default [] name)) (default [] name).
Proof.
  intros Hd Hw. destruct name as [source|]; [|done]. rewrite copy_nvtx_name_some by done.
  cbn [fst default]. apply until_nul_stop, Forall_take. eapply Forall_impl; [exact Hw|].
  by intros b [_ ?].
Qed.
Lemma kept_name_eq destination name :
  length destination = 128%nat → c_string_wf name →
  until_nul (copy_nvtx_name destination name).1 = kept_name name.
Proof. intros Hd Hw. unfold kept_name. by rewrite !copy_nvtx_name_read. Qed.
Lemma kept_complete_eq destination name :
  (copy_nvtx_name destination name).2 = kept_complete name.
Proof. by destruct name. Qed.

(** ** The table implements the map *)
Lemma filter_insert_split {A} (P : A → Prop) `{!∀ x, Decision (P x)} (l : list A) i x y :
  l !! i = Some x →
  ∃ before after,
    filter P l = before ++ filter P [x] ++ after
    ∧ filter P (<[i := y]> l) = before ++ filter P [y] ++ after.
Proof.
  intros Hi. exists (filter P (take i l)), (filter P (drop (S i) l)). split.
  - by rewrite <-(take_drop_middle l i x Hi) at 1; rewrite cons_middle, !filter_app.
  - rewrite insert_take_drop by (by eapply lookup_lt_Some).
    by rewrite cons_middle, !filter_app.
Qed.
Lemma reachable_insert slots capacity hash i j x y :
  slots !! j = Some x → (ns_state x ≠ 0 → ns_state y ≠ 0) →
  reachable slots capacity hash i → reachable (<[j := y]> slots) capacity hash i.
Proof.
  intros Hj Hy (d & Hd & Hi & Hp). exists d. split_and!; [done..|]. intros p Hlt.
  destruct (Hp p Hlt) as (s & Hs & H0). destruct (decide (range_index capacity hash p = j)) as [<-|].
  - exists y. rewrite list_lookup_insert_eq by (by eapply lookup_lt_Some).
    rewrite Hj in Hs. injection Hs as ->. auto.
  - exists s. by rewrite list_lookup_insert_ne.
Qed.

Section updates.
Context (slots : list NvtxSlot) (capacity : Z) (m : gmap (Z * Z) NvtxRange).
Context (Hok : ranges_ok slots capacity m).

(** What a store to one slot has to keep. *)
Lemma update_ok i x y m' :
  slots !! i = Some x → (ns_state x ≠ 0 → ns_state y ≠ 0) →
  ns_state y = 2 ∨ ns_state y = key_hash (slot_key y) → length (ns_name y) = 128%nat →
  (slot_live y → reachable slots capacity (key_hash (slot_key y)) i) →
  (∀ before after, filter slot_live slots = before ++ filter slot_live [x] ++ after →
     let l := before ++ filter slot_live [y] ++ after in
     NoDup (slot_key <$> l) ∧ m' = list_to_map (slot_entry <$> l)) →
  ranges_ok (<[i := y]> slots) capacity m'.
Proof using Hok.
  intros Hi H0 Hst Hn Hr Hm.
  destruct (filter_insert_split slot_live slots i x y Hi) as (before & after & E1 & E2).
  destruct (Hm before after E1) as [Hnd Hm'].
  split.
  - apply (rg_capacity _ _ _ Hok).
  - rewrite length_insert. apply (rg_length _ _ _ Hok).
  - intros j s [(_ & <- & _)|[_ Hs]]%list_lookup_insert_Some; [auto|by eapply rg_state].
  - intros j s [(_ & <- & _)|[_ Hs]]%list_lookup_insert_Some; [auto|by eapply rg_names].
  - intros j s [(<- & <- & _)|[_ Hs]]%list_lookup_insert_Some Hl;
      (eapply reachable_insert; [done..|]); [auto|by eapply rg_reach].
  - by rewrite E2.
  - by rewrite E2.
Qed.
Lemma remember_ok i x y :
  slots !! i = Some x → ns_state x = 0 ∨ ns_state x = 2 → ns_state y = key_hash (slot_key y) →
  length (ns_name y) = 128%nat → reachable slots capacity (key_hash (slot_key y)) i →
  m !! slot_key y = None →
  ranges_ok (<[i := y]> slots) capacity (<[slot_key y := slot_range y]> m).
Proof using Hok.
  intros Hi Hx Hy Hn Hr Habs. assert (slot_live y) as Hly by by eapply hash_live.
  assert (¬ slot_live x) as Hlx by (unfold slot_live; lia).
  eapply update_ok; [done| |by right|done|done|].
  { intros _. unfold slot_live in Hly. lia. }
  intros before after. rewrite filter_cons_False, filter_cons_True by done.
  rewrite !filter_nil. cbn [app]. intros E.
  pose proof (rg_nodup _ _ _ Hok) as Hnd. rewrite E in Hnd.
  assert (slot_key y ∉ slot_key <$> (before ++ after)) as Hfresh.
  { rewrite <-E. rewrite (rg_open _ _ _ Hok) in Habs.
    apply not_elem_of_list_to_map in Habs. by rewrite <-list_fmap_compose in Habs. }
  assert (NoDup (slot_key <$> (before ++ y :: after))) as Hnd'.
  { rewrite <-Permutation_middle, fmap_cons. by constructor. }
  split; [done|]. rewrite (rg_open _ _ _ Hok), E.
  rewrite (list_to_map_proper (slot_entry <$> before ++ y :: after)
             (slot_entry <$> y :: before ++ after)).
  - done.
  - by rewrite <-list_fmap_compose.
  - apply fmap_Permutation. by rewrite Permutation_middle.
Qed.
Lemma take_ok i x :
  slots !! i = Some x → slot_live x →
  ranges_ok (<[i := set_slot_state NVTX_SLOT_TOMBSTONE x]> slots) capacity (delete (slot_key x) m).
Proof using Hok.
  intros Hi Hx. set (y := set_slot_state NVTX_SLOT_TOMBSTONE x).
  assert (¬ slot_live y) as Hly by (unfold slot_live, y; simpl; unfold NVTX_SLOT_TOMBSTONE; lia).
  eapply (update_ok i x y); [done|done|by left|apply (rg_names _ _ _ Hok i x Hi)|done|].
  intros before after. rewrite filter_cons_True, filter_cons_False by done.
  rewrite !filter_nil. cbn [app]. intros E.
  pose proof (rg_nodup _ _ _ Hok) as Hnd. rewrite E in Hnd.
  rewrite <-Permutation_middle, fmap_cons, NoDup_cons in Hnd. destruct Hnd as [Hfresh Hnd].
  split; [done|]. rewrite (rg_open _ _ _ Hok), E.
  rewrite (list_to_map_proper (slot_entry <$> before ++ x :: after)
             (slot_entry <$> x :: before ++ after)).
  - rewrite fmap_cons. cbn [list_to_map foldr slot_entry fst snd]. rewrite delete_insert_id; [done|].
    apply not_elem_of_list_to_map. by rewrite <-list_fmap_compose.
  - rewrite <-list_fmap_compose, <-Permutation_middle, fmap_cons. by constructor.
  - apply fmap_Permutation. by rewrite Permutation_middle.
Qed.
End updates.

Record refines (t : NvtxTable) (o : OpenRanges) : Prop := {
  rf_ranges : ranges_ok (nt_slots t) (nt_capacity t) (or_ranges o);
  rf_capacity : nt_capacity t = or_capacity o;
  rf_dropped : nt_agent_dropped t = or_agent_dropped o;
  rf_unknown : nt_unknown t = or_unknown o;
  rf_status : nt_status t = or_status o }.

Lemma until_nul_padded l n : until_nul (until_nul l ++ replicate n 0) = until_nul l.
Proof.
  induction l as [|b l IH]; cbn [until_nul app].
  - by destruct n.
  - destruct (b =? 0) eqn:E; [by destruct n|]. cbn [app until_nul]. by rewrite E, IH.
Qed.
Lemma until_nul_idem l : until_nul (until_nul l) = until_nul l.
Proof. pose proof (until_nul_padded l 0) as E. by rewrite app_nil_r in E. Qed.
Lemma until_nul_short l : (length (until_nul l) <= length l)%nat.
Proof. induction l as [|b l IH]; [done|]. cbn [until_nul]. destruct (b =? 0); simpl; lia. Qed.
Lemma zero_tail_length l : length (zero_tail l) = length l.
Proof.
  unfold zero_tail. rewrite length_app, length_replicate. pose proof (until_nul_short l). lia.
Qed.
Lemma zero_tail_read l : until_nul (zero_tail l) = until_nul l.
Proof. apply until_nul_padded. Qed.
Lemma zero_tail_eq a b :
  until_nul a = until_nul b → length a = length b → zero_tail a = zero_tail b.
Proof. intros E1 E2. unfold zero_tail. by rewrite E1, E2. Qed.
Lemma pad_name_length name : (length name <= 128)%nat → length (pad_name name) = 128%nat.
Proof. intros. unfold pad_name. rewrite length_app, length_replicate. lia. Qed.
Lemma range_record_readable caller kind timestamp_ns range_kind range_id tid complete a b :
  until_nul a = until_nul b → length a = length b →
  readable (range_record caller kind timestamp_ns range_kind range_id tid complete a)
  = readable (range_record caller kind timestamp_ns range_kind range_id tid complete b).
Proof.
  intros E1 E2. unfold readable, range_record, with_name. cbn [xp_name].
  by rewrite (zero_tail_eq a b E1 E2).
Qed.
Lemma remember_refines range_kind range_id start_tid name t o :
  c_string_wf name → refines t o →
  (remember_nvtx_range range_kind range_id start_tid name t).1
  = (open_range range_kind range_id start_tid name o).1
  ∧ refines (remember_nvtx_range range_kind range_id start_tid name t).2
      (open_range range_kind range_id start_tid name o).2.
Proof.
  intros Hw [Hok Hc Hd Hu Hs]. unfold remember_nvtx_range, open_range.
  pose proof (remember_probe_found _ _ _ Hok range_kind range_id (Z.to_nat (nt_capacity t)) 0 None
    ltac:(lia) ltac:(intros p Hp; lia) ltac:(intros p s Hp; lia)) as Hf.
  destruct (remember_probe _ _ _ _ _ _ _) as [[i|]|]; cbn [remember_found] in Hf.
  - destruct Hf as (Habs & Hr & s & Hs' & Hst). rewrite Habs, Hs'.
    assert ((ns_state s =? 0) || (ns_state s =? NVTX_SLOT_TOMBSTONE) = true) as ->.
    { apply orb_true_iff. unfold NVTX_SLOT_TOMBSTONE. rewrite !Z.eqb_eq. done. }
    assert (Z.of_nat (size (or_ranges o)) < or_capacity o) as Hsize.
    { rewrite (open_size _ _ _ Hok).
      assert (length (filter slot_live (nt_slots t)) < length (nt_slots t))%nat as Hlt.
      { apply (length_filter_lt _ _ s); [by eapply list_elem_of_lookup_2|]. unfold slot_live. lia. }
      rewrite (rg_length _ _ _ Hok) in Hlt. lia. }
    rewrite (proj2 (Z.leb_gt _ _)) by lia.
    pose proof (rg_names _ _ _ Hok _ _ Hs') as Hn.
    rewrite (surjective_pairing (copy_nvtx_name (ns_name s) name)). cbn [fst snd].
    split; [done|].
    set (y := BuildNvtxSlot (nvtx_range_hash range_kind range_id) range_id range_kind start_tid
      (copy_nvtx_name (ns_name s) name).2 (copy_nvtx_name (ns_name s) name).1).
    assert (BuildNvtxRange start_tid (kept_complete name) (kept_name name) = slot_range y) as ->.
    { unfold slot_range, y. cbn [ns_start_tid ns_name_complete ns_name].
      by rewrite kept_complete_eq, kept_name_eq. }
    split; try done. apply (remember_ok _ _ _ Hok i s y); try done.
    by apply copy_nvtx_name_length.
  - destruct Hf as [Habs Hall]. rewrite Habs.
    assert (filter slot_live (nt_slots t) = nt_slots t) as Hfl by by apply filter_all, Forall_forall.
    assert (Z.of_nat (size (or_ranges o)) = or_capacity o) as Hsize.
    { pose proof (rg_capacity _ _ _ Hok).
      rewrite (open_size _ _ _ Hok), Hfl, (rg_length _ _ _ Hok). lia. }
    rewrite (proj2 (Z.leb_le _ _)) by lia. split; [done|].
    split; simpl; congruence.
  - destruct Hf as [range ->]. split; [done|]. split; simpl; congruence.
Qed.
Lemma take_refines caller range_kind range_id t o :
  refines t o →
  readable <$> (take_nvtx_range caller range_kind range_id t).1
  = readable <$> (close_range caller range_kind range_id o).1
  ∧ refines (take_nvtx_range caller range_kind range_id t).2
      (close_range caller range_kind range_id o).2.
Proof.
  intros [Hok Hc Hd Hu Hs]. unfold take_nvtx_range, close_range.
  pose proof (take_probe_found _ _ _ Hok range_kind range_id (Z.to_nat (nt_capacity t)) 0
    ltac:(lia) ltac:(intros p Hp; lia)) as Hf.
  destruct (take_probe _ _ _ _ _ _) as [[i s]|]; [|by rewrite Hf].
  destruct Hf as (Hi & Hl & Hk).
  assert (or_ranges o !! (range_kind, range_id) = Some (slot_range s)) as ->.
  { apply (open_lookup _ _ _ Hok). by exists i, s. }
  pose proof (take_ok _ _ _ Hok i s Hi Hl) as Hok'. rewrite Hk in Hok'.
  destruct (cl_clock caller) as [timestamp_ns|].
  - split; [|by split]. cbn [fst fmap option_fmap option_map]. f_equal.
    pose proof (rg_names _ _ _ Hok _ _ Hi) as Hn. pose proof (until_nul_short (ns_name s)).
    apply range_record_readable; cbn [slot_range nr_name].
    + symmetry. apply until_nul_padded.
    + rewrite pad_name_length; lia.
  - split; [done|]. by split; simpl; try congruence.
Qed.

(** ** Simulation

    Callbacks on two stores give the same records and stay related when the operations on
    the stores do. *)
Record store_sim {S T : Type} `{!RangeStore S} `{!RangeStore T} (R : S → T → Prop) : Prop := {
  sim_remember : ∀ range_kind range_id tid name s t, c_string_wf name → R s t →
    (store_remember range_kind range_id tid name s).1 = (store_remember range_kind range_id tid name t).1
    ∧ R (store_remember range_kind range_id tid name s).2
        (store_remember range_kind range_id tid name t).2;
  sim_take : ∀ caller range_kind range_id s t, R s t →
    readable <$> (store_take caller range_kind range_id s).1
    = readable <$> (store_take caller range_kind range_id t).1
    ∧ R (store_take caller range_kind range_id s).2 (store_take caller range_kind range_id t).2;
  sim_unknown : ∀ s t, R s t → R (store_unknown s) (store_unknown t);
  sim_update : ∀ f s t, R s t → R (store_update f s) (store_update f t);
  sim_active : ∀ s t, R s t → store_active s = store_active t }.

(** The name a callback gives is a C string. *)
Definition callback_name (data : NvtxCallback) : c_string :=
  match data with
  | RangeStartA params _ | RangePushA params _ => default None params
  | RangeStartEx params _ | RangePushEx params _ =>
      match default None params with Some attributes => ea_message attributes | None => None end
  | _ => None
  end.
Definition step_wf (step : NvtxStep) : Prop :=
  match step with
  | Callback _ (Some data) => c_string_wf (callback_name data)
  | _ => True
  end.

Section simulation.
Context (enabled : bool) (filters : list xprobe_cupti_filter).
Context {S T : Type} `{!RangeStore S} `{!RangeStore T} (R : S → T → Prop) (HR : store_sim R).

Definition same_result (a : option xprobe_cupti_record * S) (b : option xprobe_cupti_record * T) :
    Prop :=
  readable <$> a.1 = readable <$> b.1 ∧ R a.2 b.2.

Lemma start_sim caller range_kind range_id name timestamp_ns s t :
  c_string_wf (Some name) → R s t →
  same_result (enqueue_nvtx_range_start caller range_kind range_id name timestamp_ns s)
    (enqueue_nvtx_range_start caller range_kind range_id name timestamp_ns t).
Proof using HR.
  intros Hw Hst. unfold enqueue_nvtx_range_start. rewrite (sim_active R HR s t Hst).
  destruct (store_active t); cbn [negb]; [|done].
  destruct (sim_remember R HR range_kind range_id (cl_tid caller) (Some name) s t Hw Hst) as [E1 E2].
  destruct (store_remember _ _ _ _ s) as [b s'], (store_remember _ _ _ _ t) as [b' t'].
  cbn [fst snd] in *. subst b'. destruct b; [|done]. by destruct (copy_nvtx_name _ _).
Qed.
Lemma opened_sim caller message result range_of s t :
  (∀ name, message = Some (MessageAscii name) → c_string_wf (Some name)) → R s t →
  same_result (nvtx_range_opened enabled filters caller message result range_of s)
    (nvtx_range_opened enabled filters caller message result range_of t).
Proof using HR.
  intros Hw Hst. unfold nvtx_range_opened. pose proof (sim_unknown R HR s t Hst) as Hu.
  destruct message as [[| |name]|]; [done..| |done]. destruct result as [value|]; [|done].
  destruct (negb _); [done|]. destruct (cl_clock caller).
  - destruct (range_of value) as [[kind id]|]; [|done]. apply start_sim; auto.
  - split; [done|]. by apply (sim_update R HR).
Qed.
Lemma end_sim caller range_kind range_id s t :
  R s t →
  same_result (enqueue_nvtx_range_end caller range_kind range_id s)
    (enqueue_nvtx_range_end caller range_kind range_id t).
Proof using HR.
  intros Hst. unfold enqueue_nvtx_range_end. rewrite (sim_active R HR s t Hst).
  destruct (store_active t); [|done]. by apply (sim_take R HR).
Qed.
Lemma message_status_ascii message name :
  message_status message = MessageAscii name → message = Some name.
Proof using. by destruct message; intros [= ->]. Qed.
Lemma nvtx_step_sim step s t :
  step_wf step → R s t →
  same_result (nvtx_step enabled filters step s) (nvtx_step enabled filters step t).
Proof using HR.
  intros Hw Hst. pose proof (sim_unknown R HR s t Hst) as Hu.
  destruct step as [caller data|change]; cbn [nvtx_step];
    [|split; [done|]; by apply (sim_update R HR)].
  unfold nvtx_callback. rewrite (sim_active R HR s t Hst).
  destruct (store_active t); cbn [negb]; [|done].
  destruct data as [[params result|params result|params result|params result|params|result|]|];
    try done.
  - apply opened_sim; [|done]. destruct params as [message|]; [|done]. cbn. intros name [= Hm].
    by apply message_status_ascii in Hm as ->.
  - apply opened_sim; [|done]. destruct params as [[attributes|]|]; [|done..].
    cbn. intros name [= Hm]. destruct (negb _) in Hm; [done|]. destruct (negb _) in Hm; [done|].
    apply message_status_ascii in Hm. cbn in Hw. by rewrite Hm in Hw.
  - apply opened_sim; [|done]. destruct params as [message|]; [|done]. cbn. intros name [= Hm].
    by apply message_status_ascii in Hm as ->.
  - apply opened_sim; [|done]. destruct params as [[attributes|]|]; [|done..].
    cbn. intros name [= Hm]. destruct (negb _) in Hm; [done|]. destruct (negb _) in Hm; [done|].
    apply message_status_ascii in Hm. cbn in Hw. by rewrite Hm in Hw.
  - destruct params; [by apply end_sim|done].
  - destruct result; [|done]. destruct (thread_range _ _) as [[kind id]|]; [by apply end_sim|done].
Qed.
Lemma nvtx_steps_sim steps s t :
  Forall step_wf steps → R s t →
  readable <$> (nvtx_steps enabled filters steps s).1
  = readable <$> (nvtx_steps enabled filters steps t).1
  ∧ R (nvtx_steps enabled filters steps s).2 (nvtx_steps enabled filters steps t).2.
Proof using HR.
  intros Hw. revert s t. induction Hw as [|step steps Hstep _ IH]; intros s t Hst; [done|].
  cbn [nvtx_steps]. destruct (nvtx_step_sim step s t Hstep Hst) as [E1 E2].
  destruct (nvtx_step _ _ step s) as [r s1], (nvtx_step _ _ step t) as [r' t1].
  cbn [fst snd] in *. destruct (IH s1 t1 E2) as [E3 E4].
  destruct (nvtx_steps _ _ steps s1) as [rs s2], (nvtx_steps _ _ steps t1) as [rs' t2].
  cbn [fst snd] in *. split; [|done]. rewrite !fmap_app, E3. f_equal.
  destruct r, r'; simpl in *; congruence.
Qed.
End simulation.

Lemma refines_sim : store_sim refines.
Proof.
  split.
  - intros. by apply remember_refines.
  - intros. by apply take_refines.
  - intros s t [Hok Hc Hd Hu Hs]. split; try done. simpl. congruence.
  - intros f s t [Hok Hc Hd Hu Hs]. split; try done. simpl. congruence.
  - intros s t [Hok Hc Hd Hu Hs]. simpl. congruence.
Qed.
Lemma armed_refines capacity s : 0 < capacity → refines (arm_ranges capacity s) (no_ranges capacity s).
Proof.
  intros Hc. split; try done. unfold arm_ranges, no_ranges. cbn [nt_slots nt_capacity or_ranges].
  rewrite fmap_replicate.
  assert (∀ i x, replicate (Z.to_nat capacity) (set_slot_state 0 empty_range) !! i = Some x →
    x = set_slot_state 0 empty_range) as Hx by (intros i x [-> _]%lookup_replicate; done).
  assert (filter slot_live (replicate (Z.to_nat capacity) (set_slot_state 0 empty_range)) = [])
    as Hf.
  { apply filter_none. intros x [-> _]%elem_of_replicate. by unfold slot_live. }
  split; try done.
  - by rewrite length_replicate.
  - intros i x ->%Hx. by left.
  - intros i x ->%Hx. done.
  - intros i x ->%Hx. done.
  - by rewrite Hf; constructor.
  - by rewrite Hf.
Qed.

