(* ===== verification/AgentEvents.v ===== *)
(** * The records of the agent as events

    What the callbacks of the agent ([cupti/src/cupti_agent.c]) write is what the collector
    ([collector/src/cupti.rs]) reads: a record of an NVTX range, of a call of the CUDA API, of
    a kernel or of a transfer is decoded to the event with the values the callback was given.
    Names are the delicate part: they are cut to 127 bytes, and the collector refuses a
    capture with a name that is not UTF-8. *)
From S2P Require Import Prelude BTree RustString Text Bytes Protocol Selector.
From S2P Require Import Os Process Inspect Resolve Usdt Syscalls Validate Cupti CuptiFilter.
From S2P Require Import Session Agent AgentRecords AgentNvtx.
From stdpp Require Import gmap.
#[local] Open Scope Z_scope.

(** ** UTF-8

    [copy_nvtx_name] finds the character a cut falls into by its lead byte. *)
Record utf8_char (c : list Z) : Prop := {
  uc_lead : ∃ a rest, c = a :: rest ∧ is_byte a ∧ Z.land a 192 ≠ 128
    ∧ nvtx_expected a = length c ∧ Forall (λ b, Z.land b 192 = 128) rest;
  uc_valid : ∀ l, utf8_valid l = true → utf8_valid (c ++ l) = true }.

Lemma every_byte (P : Z → bool) :
  forallb P (Z.of_nat <$> seq 0 256) = true → ∀ b, is_byte b → P b = true.
Proof.
  intros Hall b Hb. rewrite forallb_forall in Hall. apply Hall.
  apply in_map_iff. exists (Z.to_nat b). unfold is_byte in Hb. split; [lia|].
  apply in_seq. lia.
Qed.
Lemma utf8_cont_mask b : is_byte b → utf8_cont b = true → Z.land b 192 = 128.
Proof.
  intros Hb Hc. pose proof (every_byte (λ b, negb (utf8_cont b) || (Z.land b 192 =? 128))
    eq_refl b Hb) as H. cbv beta in H. rewrite Hc in H. cbn [negb orb] in H. by apply Z.eqb_eq.
Qed.
(** The number of bytes of the characters that start with a byte. *)
Definition lead_size (a : Z) : nat :=
  if a <? 128 then 1 else if a <? 194 then 0 else if a <? 224 then 2
  else if a <? 240 then 3 else if a <? 245 then 4 else 0.
Lemma utf8_lead_mask a :
  is_byte a → lead_size a ≠ 0%nat → Z.land a 192 ≠ 128 ∧ nvtx_expected a = lead_size a.
Proof.
  intros Ha Hn.
  pose proof (every_byte (λ a, (lead_size a =? 0)%nat
    || (negb (Z.land a 192 =? 128) && (nvtx_expected a =? lead_size a)%nat)) eq_refl a Ha) as H.
  cbv beta in H. rewrite (proj2 (Nat.eqb_neq _ _) Hn) in H. cbn [orb] in H. bool_props.
  split; [by apply Z.eqb_neq|by apply Nat.eqb_eq].
Qed.

Lemma utf8_char_intro a rest :
  is_byte a → lead_size a = S (length rest) → Forall (λ b, is_byte b ∧ utf8_cont b = true) rest →
  (∀ l, utf8_valid l = true → utf8_valid (a :: rest ++ l) = true) → utf8_char (a :: rest).
Proof.
  intros Ha Hs Hr Hv. destruct (utf8_lead_mask a Ha) as [H1 H2]; [lia|]. split; [|done].
  exists a, rest. split_and!; [done..|by rewrite H2|].
  eapply Forall_impl; [exact Hr|]. intros b [Hb Hc]. by apply utf8_cont_mask.
Qed.
(** Text that is not empty starts with a character. *)
Lemma utf8_first l :
  Forall is_byte l → utf8_valid l = true → l ≠ [] →
  ∃ c rest, l = c ++ rest ∧ utf8_char c ∧ utf8_valid rest = true.
Proof.
  intros Hb Hv Hne. destruct l as [|a l]; [done|]. inversion Hb as [|? ? Ha Hb1]; subst.
  cbn [utf8_valid] in Hv. destruct (a <? 128) eqn:E1.
  { exists [a], l. split_and!; [done| |done]. apply utf8_char_intro; [done| |done|].
    - unfold lead_size. by rewrite E1.
    - intros r Hr. cbn [utf8_valid app]. by rewrite E1. }
  destruct l as [|b l]; [done|]. inversion Hb1 as [|? ? Hbb Hb2]; subst.
  destruct (utf8_2 a b) eqn:E2.
  { exists [a; b], l. split_and!; [done| |done]. pose proof E2 as E. unfold utf8_2 in E. bool_props.
    apply utf8_char_intro; [done| |by rewrite Forall_singleton|].
    - unfold lead_size. rewrite E1. rewrite (proj2 (Z.ltb_ge a 194)), (proj2 (Z.ltb_lt a 224)) by lia.
      done.
    - intros r Hr. cbn [utf8_valid app]. by rewrite E1, E2. }
  destruct l as [|c l]; [done|]. inversion Hb2 as [|? ? Hc Hb3]; subst.
  destruct (utf8_3 a b c) eqn:E3.
  { exists [a; b; c], l. split_and!; [done| |done]. pose proof E3 as E.
    unfold utf8_3, utf8_cont in E. bool_props. rewrite !orb_true_iff, !andb_true_iff in *.
    apply utf8_char_intro; [done| | |].
    - unfold lead_size. rewrite E1.
      rewrite (proj2 (Z.ltb_ge a 194)), (proj2 (Z.ltb_ge a 224)), (proj2 (Z.ltb_lt a 240)) by lia.
      done.
    - rewrite !Forall_cons, Forall_nil. unfold utf8_cont. rewrite !andb_true_iff. split_and!; try done; lia.
    - intros r Hr. cbn [utf8_valid app]. by rewrite E1, E2, E3. }
  destruct l as [|d l]; [done|]. inversion Hb3 as [|? ? Hd Hb4]; subst.
  destruct (utf8_4 a b c d) eqn:E4; [|done].
  exists [a; b; c; d], l. split_and!; [done| |done]. pose proof E4 as E.
  unfold utf8_4, utf8_cont in E. bool_props. rewrite !orb_true_iff, !andb_true_iff in *.
  apply utf8_char_intro; [done| | |].
  - unfold lead_size. rewrite E1.
    rewrite (proj2 (Z.ltb_ge a 194)), (proj2 (Z.ltb_ge a 224)), (proj2 (Z.ltb_ge a 240)),
      (proj2 (Z.ltb_lt a 245)) by lia. done.
  - rewrite !Forall_cons, Forall_nil. unfold utf8_cont. rewrite !andb_true_iff. split_and!; try done; lia.
  - intros r Hr. cbn [utf8_valid app]. by rewrite E1, E2, E3, E4.
Qed.
(** A cut falls at the end of a character or into one. *)
Lemma utf8_split l n :
  Forall is_byte l → utf8_valid l = true → (0 < n <= length l)%nat →
  ∃ before c after, l = before ++ c ++ after ∧ utf8_char c
    ∧ (∀ t, utf8_valid t = true → utf8_valid (before ++ t) = true)
    ∧ (length before < n <= length before + length c)%nat.
Proof.
  remember (length l) as m eqn:Em. revert l n Em.
  induction (lt_wf m) as [m _ IH]. intros l n -> Hb Hv Hn.
  destruct (utf8_first l Hb Hv) as (c & rest & -> & Hc & Hr); [by intros ->; simpl in Hn; lia|].
  rewrite length_app in *. apply Forall_app in Hb as [_ Hb].
  assert (0 < length c)%nat as Hpos
    by (destruct (uc_lead c Hc) as (a & r & -> & _); simpl; lia).
  destruct (decide (n <= length c)%nat) as [Hle|Hgt].
  { exists [], c, rest. split_and!; [done..|simpl; lia|simpl; lia]. }
  destruct (IH (length rest) ltac:(lia) rest (n - length c)%nat eq_refl Hb Hr ltac:(lia))
    as (before & d & after & -> & Hd & Hv' & Hlt).
  exists (c ++ before), d, after. rewrite length_app. split_and!; [by rewrite app_assoc|done| |lia|lia].
  intros t Ht. rewrite <-app_assoc. apply (uc_valid c Hc). auto.
Qed.

Lemma nvtx_lead_conts before a rest n :
  Z.land a 192 ≠ 128 → Forall (λ b, Z.land b 192 = 128) rest → (n <= length rest)%nat →
  nvtx_lead (before ++ a :: rest) (length before + 1 + n) = (length before + 1)%nat.
Proof.
  intros Ha Hr. induction n as [|n IH]; intros Hn.
  - rewrite Nat.add_0_r, Nat.add_1_r. cbn [nvtx_lead].
    rewrite list_lookup_middle by done. change (default 0 (Some a)) with a.
    by rewrite (proj2 (Z.eqb_neq _ _) Ha).
  - rewrite Nat.add_succ_r. cbn [nvtx_lead].
    destruct (lookup_lt_is_Some_2 rest n ltac:(lia)) as [b Hb].
    replace ((before ++ a :: rest) !! (length before + 1 + n)%nat) with (Some b).
    + change (default 0 (Some b)) with b. rewrite Forall_lookup in Hr. rewrite (Hr _ _ Hb). cbn [Z.eqb Pos.eqb].
      apply IH. lia.
    + rewrite lookup_app_r by lia.
      by replace (length before + 1 + n - length before)%nat with (S n) by lia.
Qed.
(** What [copy_nvtx_name] keeps of a text is a text. *)
Lemma kept_utf8 source :
  Forall is_byte source → utf8_valid source = true →
  utf8_valid (take (kept_length source) source) = true.
Proof.
  intros Hb Hv. unfold kept_length. destruct (Nat.leb_spec (length source) 127).
  { by rewrite take_ge by lia. }
  destruct (utf8_split source 127 Hb Hv ltac:(lia)) as (before & c & after & E & Hc & Hv' & Hlt).
  destruct (uc_lead c Hc) as (a & rest & Ec & Ha & Hm & Hx & Hr). subst c.
  set (n := (126 - length before)%nat).
  assert (take 127 source = before ++ a :: take n rest) as Ht.
  { rewrite E, take_app_ge by lia. f_equal. rewrite <-app_comm_cons.
    replace (127 - length before)%nat with (S n) by lia. cbn [take]. f_equal.
    rewrite take_app_le by (simpl in Hlt; lia). done. }
  simpl in Hlt. rewrite Ht. unfold nvtx_cut.
  replace (nvtx_lead (before ++ a :: take n rest) 127) with (S (length before)).
  2:{ symmetry. replace 127%nat with (length before + 1 + n)%nat by lia.
      rewrite nvtx_lead_conts; [lia|done|by apply Forall_take|].
      rewrite length_take. lia. }
  rewrite list_lookup_middle by done. change (default 0 (Some a)) with a. rewrite Hx. cbn [length].
  destruct (Nat.ltb_spec (127 - length before) (S (length rest))) as [Hcut|Hcut].
  - rewrite E, take_app_length. by rewrite <-(app_nil_r before), Hv'.
  - rewrite Ht. rewrite take_ge by lia. apply Hv'.
    rewrite <-(app_nil_r (a :: rest)). by apply (uc_valid _ Hc).
Qed.

(** ** What the collector makes of a record *)
Section decoding.
Context `{SerdeJson}.

Definition split_value (grid : Z * Z * Z) : Z :=
  let '(low, high, _) := grid in Z.lor low (Z.shiftl high 32).
Definition dim_value (dim : Z * Z * Z) : option Dim3 :=
  let '(x, y, z) := dim in
  if negb (x =? 0) || negb (y =? 0) || negb (z =? 0) then Some (BuildDim3 x y z) else None.
Definition is_nvtx_kind (kind : Z) : bool := (kind =? 9) || (kind =? 10).
Definition record_cuda (r : xprobe_cupti_record) (name : string) : CudaEvent :=
  let kind := xp_kind r in
  let is_kernel := (kind =? 3) || (kind =? 4) in
  let is_start := (kind =? 3) || (kind =? 5) || (kind =? 7) in
  let is_end := (kind =? 4) || (kind =? 6) || (kind =? 8) in
  BuildCudaEvent (optional_unknown (xp_device_id r)) (optional_unknown (xp_context_id r))
    (optional_unknown (xp_stream_id r)) (optional_nonzero (xp_correlation_id r))
    (optional_nonzero (xp_runtime_correlation_id r)) (optional_nonzero (xp_callback_domain r))
    (optional_nonzero (xp_callback_id r)) (if is_kernel then Some name else None) None
    (if is_start then Some (xp_timestamp_ns r) else None)
    (if is_end then Some (xp_timestamp_ns r) else None)
    (if is_kernel then dim_value (xp_grid r) else None)
    (if is_kernel then dim_value (xp_block r) else None)
    (if (5 <=? kind) && (kind <=? 8) then Some (split_value (xp_grid r)) else None)
    (if (kind =? 5) || (kind =? 6) then Some (decode_memcpy_kind (grid_z r)) else None).
Definition record_nvtx (r : xprobe_cupti_record) (name : string) : NvtxEvent :=
  BuildNvtxEvent name (negb ((xp_block r).1.2 =? 0))
    (if grid_z r =? 1 then NvtxRangeKind.Thread else NvtxRangeKind.Process)
    (split_value (xp_grid r)) (xp_block r).1.1.
Definition record_event (session_id : string) (flags : Z) (source : EventSource)
    (event_type : EventType) (name : string) (r : xprobe_cupti_record) : Event :=
  let is_nvtx := is_nvtx_kind (xp_kind r) in
  BuildEvent SchemaVersion.V2 session_id ""%string 0 source event_type (xp_pid r) (xp_tid r) None
    (xp_timestamp_ns r) (xp_timestamp_ns r) (record_clock_domain (xp_kind r) flags) None None None
    (if is_nvtx then None else Some (record_cuda r name))
    (if is_nvtx then Some (record_nvtx r name) else None)
    (record_attributes (xp_kind r) (xp_callback_domain r) (xp_block r).1.1 name).
Definition nvtx_fields_ok (r : xprobe_cupti_record) : Prop :=
  (grid_z r = 1 ∨ grid_z r = 2) ∧ split_value (xp_grid r) ≠ 0 ∧ (xp_block r).1.1 ≠ 0
  ∧ (xp_block r).1.2 ≤ 1.

Lemma decode_record_event r index session_id flags source event_type name :
  record_wf r → decode_record_kind (xp_kind r) index flags = Ok (source, event_type) →
  xp_timestamp_ns r ≠ 0 → from_utf8 (until_nul (xp_name r)) = Some name →
  (is_nvtx_kind (xp_kind r) = true → nvtx_fields_ok r) →
  decode_record (record_encode r) index session_id flags
  = Ok (record_event session_id flags source event_type name r).
Proof.
  destruct r as [t kind pid tid dev ctx stream corr cdom cid [[gx gy] gz] [[bx b_y] bz] rcorr nm].
  unfold nvtx_fields_ok, record_event, record_cuda, record_nvtx, record_wf, record_encode,
    record_fields, grid_z, split_value, dim_value, is_nvtx_kind.
  cbn [xp_timestamp_ns xp_kind xp_pid xp_tid xp_device_id xp_context_id xp_stream_id
    xp_correlation_id xp_callback_domain xp_callback_id xp_grid xp_block
    xp_runtime_correlation_id xp_name fst snd].
  intros [Hwf Hname] Hkind Ht Hutf Hnvtx.
  unfold decode_record, decode_nvtx_event, decode_cuda_event, decode_dim, decode_name,
    read_split_u64, read_u32, read_u64.
  match goal with |- context [encode_layout ?l] => set (layout := l) in * end.
  assert (slice (encode_layout layout ++ nm) 72 200 = Some nm) as Hslice.
  { rewrite <-(app_nil_r nm) at 1.
    apply slice_app; rewrite encode_layout_len; [done|]. by rewrite Hname. }
  rewrite Hslice.
  assert (∀ i n z a b, layout !! i = Some (n, z) → a = layout_size (take i layout) →
    b = a + Z.of_nat n → field (encode_layout layout ++ nm) a b = Some z) as Hf
    by (intros; by eapply layout_field_app).
  rewrite (Hf 0%nat _ _ 0 (0 + 8) eq_refl eq_refl eq_refl),
    (Hf 1%nat _ _ 8 (8 + 4) eq_refl eq_refl eq_refl),
    (Hf 2%nat _ _ 12 (12 + 4) eq_refl eq_refl eq_refl),
    (Hf 3%nat _ _ 16 (16 + 4) eq_refl eq_refl eq_refl),
    (Hf 4%nat _ _ 20 (20 + 4) eq_refl eq_refl eq_refl),
    (Hf 5%nat _ _ 24 (24 + 4) eq_refl eq_refl eq_refl),
    (Hf 6%nat _ _ 28 (28 + 4) eq_refl eq_refl eq_refl),
    (Hf 7%nat _ _ 32 (32 + 4) eq_refl eq_refl eq_refl),
    (Hf 8%nat _ _ 36 (36 + 4) eq_refl eq_refl eq_refl),
    (Hf 9%nat _ _ 40 (40 + 4) eq_refl eq_refl eq_refl),
    (Hf 10%nat _ _ 44 (44 + 4) eq_refl eq_refl eq_refl),
    (Hf 11%nat _ _ (44 + 4) (44 + 4 + 4) eq_refl eq_refl eq_refl),
    (Hf 12%nat _ _ 52 (52 + 4) eq_refl eq_refl eq_refl),
    (Hf 12%nat _ _ (44 + 8) (44 + 8 + 4) eq_refl eq_refl eq_refl),
    (Hf 13%nat _ _ 56 (56 + 4) eq_refl eq_refl eq_refl),
    (Hf 14%nat _ _ 60 (60 + 4) eq_refl eq_refl eq_refl),
    (Hf 14%nat _ _ (56 + 4) (56 + 4 + 4) eq_refl eq_refl eq_refl),
    (Hf 15%nat _ _ (56 + 8) (56 + 8 + 4) eq_refl eq_refl eq_refl),
    (Hf 16%nat _ _ 68 (68 + 4) eq_refl eq_refl eq_refl).
  clear Hf Hslice Hwf. clearbody layout. cbn [or_panic mbind res_bind].
  rewrite Hkind. cbn [mbind res_bind]. rewrite (proj2 (Z.eqb_neq _ _) Ht), Hutf.
  cbn [ok_or or_panic mbind res_bind].
  destruct ((kind =? 9) || (kind =? 10)) eqn:En; cbn [negb]; [|done].
  destruct (Hnvtx eq_refl) as (Hk & Hid & Htid & Hc).
  assert ((1 <? b_y) = false) as -> by (apply Z.ltb_ge; lia).
  rewrite (proj2 (Z.eqb_neq _ _) Hid), (proj2 (Z.eqb_neq _ _) Htid).
  by destruct Hk as [-> | ->].
Qed.

(** Bytes after the name play no part. *)
Lemma record_event_readable session_id flags source event_type name r r' :
  readable r = readable r' →
  record_event session_id flags source event_type name r
  = record_event session_id flags source event_type name r'.
Proof.
  destruct r as [t1 k1 p1 ti1 d1 c1 s1 co1 cd1 ci1 g1 b1 rc1 n1].
  destruct r' as [t2 k2 p2 ti2 d2 c2 s2 co2 cd2 ci2 g2 b2 rc2 n2].
  unfold readable, with_name, record_event, record_cuda, record_nvtx, grid_z.
  cbn [xp_timestamp_ns xp_kind xp_pid xp_tid xp_device_id xp_context_id xp_stream_id
    xp_correlation_id xp_callback_domain xp_callback_id xp_grid xp_block
    xp_runtime_correlation_id xp_name fst snd].
  intros E. injection E. intros. by subst.
Qed.
End decoding.

(** ** Ranges *)

(** A record of a range, without the bytes after the name. *)
Record Marker := BuildMarker {
  mk_caller : Caller;
  mk_start : bool;
  mk_time : Z;
  mk_key : Z * Z;
  mk_range : NvtxRange }.
Definition marker_record (k : Marker) : xprobe_cupti_record :=
  range_record (mk_caller k) (if mk_start k then 9 else 10) (mk_time k) (mk_key k).1 (mk_key k).2
    (nr_start_tid (mk_range k)) (nr_name_complete (mk_range k)) (pad_name (nr_name (mk_range k))).

Record caller_wf (c : Caller) : Prop := {
  cw_pid : in_u32 (cl_pid c);
  cw_tid : 0 < cl_tid c ≤ u32_max;
  cw_clock : ∀ t, cl_clock c = Some t → 0 < t ≤ u64_max }.
Definition key_wf (k : Z * Z) : Prop := (k.1 = 1 ∨ k.1 = 2) ∧ 0 < k.2 ≤ u64_max.
Record range_wf (r : NvtxRange) : Prop := {
  rw_tid : 0 < nr_start_tid r ≤ u32_max;
  rw_complete : nr_name_complete r = 0 ∨ nr_name_complete r = 1;
  rw_name : utf8_valid (nr_name r) = true;
  rw_nul : until_nul (nr_name r) = nr_name r;
  rw_short : (length (nr_name r) <= 127)%nat }.
Record marker_wf (k : Marker) : Prop := {
  mw_caller : caller_wf (mk_caller k);
  mw_time : 0 < mk_time k ≤ u64_max;
  mw_key : key_wf (mk_key k);
  mw_range : range_wf (mk_range k);
  mw_started : mk_start k = true → cl_tid (mk_caller k) = nr_start_tid (mk_range k) }.
(** An end follows its start, with nothing about that range in between. *)
Definition marker_paired (past : list Marker) (i : nat) (k : Marker) : Prop :=
  mk_start k = false →
  ∃ j s, (j < i)%nat ∧ past !! j = Some s ∧ mk_start s = true ∧ mk_key s = mk_key k
    ∧ mk_range s = mk_range k ∧ cl_tid (mk_caller s) = nr_start_tid (mk_range k)
    ∧ ∀ l x, (j < l < i)%nat → past !! l = Some x → mk_key x ≠ mk_key k.
Definition markers_ok (past : list Marker) : Prop :=
  Forall marker_wf past ∧ ∀ i k, past !! i = Some k → marker_paired past i k.
(** An open range was started, and nothing about it came after that. *)
Definition open_ok (past : list Marker) (o : OpenRanges) : Prop :=
  ∀ k range, or_ranges o !! k = Some range → key_wf k ∧ range_wf range ∧
    ∃ j s, past !! j = Some s ∧ mk_start s = true ∧ mk_key s = k ∧ mk_range s = range
      ∧ cl_tid (mk_caller s) = nr_start_tid range
      ∧ ∀ l x, (j < l)%nat → past !! l = Some x → mk_key x ≠ k.

(** What a step needs of the target: names are text, and numbers fit. *)
Definition text_wf (name : c_string) : Prop :=
  c_string_wf name ∧ utf8_valid (default [] name) = true.
Definition result_wf (data : NvtxCallback) : Prop :=
  match data with
  | RangeStartA _ (Some id) | RangeStartEx _ (Some id) => in_u64 id
  | _ => True
  end.
Definition step_ok (step : NvtxStep) : Prop :=
  match step with
  | Callback caller data =>
      caller_wf caller
      ∧ match data with Some data => text_wf (callback_name data) ∧ result_wf data | None => True end
  | Elsewhere _ => True
  end.

Lemma lookup_snoc_cases {A} (l : list A) x i y :
  (l ++ [x]) !! i = Some y → (l !! i = Some y) ∨ (i = length l ∧ x = y).
Proof.
  intros [Hi|[Hge Hi]]%lookup_app_Some; [by left|]. right.
  destruct (i - length l)%nat as [|n] eqn:E; [|by destruct n]. injection Hi as ->. split; [lia|done].
Qed.
Lemma markers_snoc past k :
  markers_ok past → marker_wf k → marker_paired past (length past) k → markers_ok (past ++ [k]).
Proof.
  intros [Hw Hp] Hk Hpair. split; [rewrite Forall_app, Forall_singleton; done|].
  assert (∀ i x, (i <= length past)%nat → marker_paired past i x → marker_paired (past ++ [k]) i x)
    as Hmono.
  { intros i x Hi Hx Hend. destruct (Hx Hend) as (j & s & Hj & Hs & ? & ? & ? & ? & Hl).
    exists j, s. split_and!; [done|by apply lookup_app_l_Some|done..|].
    intros l y Hly [Hy|[-> _]]%lookup_snoc_cases; [by eapply Hl|lia]. }
  intros i x [Hi|[-> <-]]%lookup_snoc_cases; apply Hmono; auto.
  apply lookup_lt_Some in Hi. lia.
Qed.
(** A marker leaves the other ranges open. *)
Lemma open_snoc past k o o' :
  open_ok past o →
  (∀ key range, or_ranges o' !! key = Some range → key ≠ mk_key k → or_ranges o !! key = Some range) →
  (∀ range, or_ranges o' !! mk_key k = Some range →
     mk_start k = true ∧ mk_range k = range ∧ key_wf (mk_key k) ∧ range_wf range
     ∧ cl_tid (mk_caller k) = nr_start_tid range) →
  open_ok (past ++ [k]) o'.
Proof.
  intros Ho Hother Hself key range Hk. destruct (decide (key = mk_key k)) as [->|Hne].
  - destruct (Hself range Hk) as (? & ? & ? & ? & ?). split_and!; [done..|].
    exists (length past), k. split_and!; [|done..|].
    + rewrite lookup_app_r, Nat.sub_diag by done. done.
    + intros l x Hl Hx. apply lookup_lt_Some in Hx. rewrite length_app in Hx. simpl in Hx. lia.
  - destruct (Ho key range (Hother key range Hk Hne)) as (? & ? & j & s & Hj & ? & ? & ? & ? & Hl).
    split_and!; [done..|]. exists j, s. split_and!; [by apply lookup_app_l_Some|done..|].
    intros l x Hlt [Hx|[-> <-]]%lookup_snoc_cases; [by eapply Hl|done].
Qed.

(** What a step of the abstract agent adds. *)
Definition step_adds (past : list Marker) (result : option xprobe_cupti_record * OpenRanges) : Prop :=
  ∃ added, option_list (readable <$> result.1) = readable <$> (marker_record <$> added)
    ∧ markers_ok (past ++ added) ∧ open_ok (past ++ added) result.2.
Lemma adds_nothing past o :
  markers_ok past → open_ok past o → step_adds past (None, o).
Proof. intros. exists []. by rewrite app_nil_r. Qed.
Lemma adds_one past r k o :
  readable r = readable (marker_record k) → markers_ok (past ++ [k]) → open_ok (past ++ [k]) o →
  step_adds past (Some r, o).
Proof. intros E ? ?. exists [k]. split; [|done]. cbn. by rewrite E. Qed.

Lemma kept_range_wf tid name :
  0 < tid ≤ u32_max → text_wf (Some name) →
  range_wf (BuildNvtxRange tid (kept_complete (Some name)) (kept_name (Some name))).
Proof.
  intros Ht [Hw Hu]. cbn [default] in Hu.
  assert (kept_name (Some name) = take (kept_length name) name) as Hk
    by (unfold kept_name; by rewrite copy_nvtx_name_read).
  split; cbn [nr_start_tid nr_name_complete nr_name]; [done|..].
  - unfold kept_complete. cbn. destruct (_ <=? _)%nat; auto.
  - rewrite Hk. apply kept_utf8; [|done]. eapply Forall_impl; [exact Hw|]. by intros b [? _].
  - unfold kept_name. apply until_nul_idem.
  - rewrite Hk, length_take. pose proof (kept_length_le name). lia.
Qed.
Section steps.
Context (past : list Marker) (o : OpenRanges).
Context (Hm : markers_ok past) (Ho : open_ok past o).

(** Counters and the status play no part. *)
Lemma same_ranges o' : or_ranges o' = or_ranges o → step_adds past (None, o').
Proof using Hm Ho. intros E. apply adds_nothing; [done|]. unfold open_ok. by rewrite E. Qed.

Lemma start_adds caller range_kind range_id name timestamp_ns :
  caller_wf caller → 0 < timestamp_ns ≤ u64_max → key_wf (range_kind, range_id) →
  text_wf (Some name) →
  step_adds past (enqueue_nvtx_range_start caller range_kind range_id name timestamp_ns o).
Proof using Hm Ho.
  intros Hc Ht Hk Hn. unfold enqueue_nvtx_range_start.
  destruct (store_active o); cbn [negb]; [|by apply same_ranges].
  cbn [store_remember OpenRanges_store]. unfold open_range.
  destruct (or_ranges o !! (range_kind, range_id)) as [range|] eqn:E; [by apply same_ranges|].
  destruct (_ <=? _); [by apply same_ranges|]. cbn [negb].
  set (range := BuildNvtxRange (cl_tid caller) (kept_complete (Some name)) (kept_name (Some name))).
  set (k := BuildMarker caller true timestamp_ns (range_kind, range_id) range).
  assert (range_wf range) as Hr by (apply kept_range_wf; [apply (cw_tid _ Hc)|done]).
  destruct (copy_nvtx_name (replicate 128 0) (Some name)) as [buffer complete] eqn:Ec.
  assert (buffer = (copy_nvtx_name (replicate 128 0) (Some name)).1) as Hbuf by by rewrite Ec.
  assert (complete = kept_complete (Some name)) as -> by (unfold kept_complete; by rewrite Ec).
  apply (adds_one _ _ k).
  - apply range_record_readable; cbn [k mk_range range nr_name].
    + unfold pad_name, kept_name. rewrite until_nul_padded. by rewrite Hbuf.
    + pose proof (rw_short _ Hr). rewrite pad_name_length by (cbn [nr_name range] in *; lia).
      rewrite Hbuf. by apply copy_nvtx_name_length.
  - apply markers_snoc; [done|by split|done].
  - eapply open_snoc; [exact Ho|..]; cbn [or_ranges mk_key k].
    + intros key r Hl Hne. by rewrite lookup_insert_ne in Hl.
    + intros r Hl. rewrite lookup_insert_eq in Hl. injection Hl as <-. done.
Qed.
Lemma end_adds caller range_kind range_id :
  caller_wf caller → step_adds past (enqueue_nvtx_range_end caller range_kind range_id o).
Proof using Hm Ho.
  intros Hc. unfold enqueue_nvtx_range_end.
  destruct (store_active o); cbn [negb]; [|by apply same_ranges].
  cbn [store_take OpenRanges_store]. unfold close_range.
  destruct (or_ranges o !! (range_kind, range_id)) as [range|] eqn:E; [|by apply same_ranges].
  destruct (Ho _ _ E) as (Hk & Hr & j & s & Hj & Hstart & Hkey & Hrange & Htid & Hlast).
  destruct (cl_clock caller) as [timestamp_ns|] eqn:Et.
  - set (k := BuildMarker caller false timestamp_ns (range_kind, range_id) range).
    apply (adds_one _ _ k).
    + done.
    + apply markers_snoc; [done|split; [done|by apply (cw_clock _ Hc)|done..]|].
      intros _. exists j, s. apply lookup_lt_Some in Hj as Hlt.
      split_and!; [done..|]. intros l x Hl Hx. eapply Hlast; [|done]. lia.
    + eapply open_snoc; [exact Ho|..]; cbn [or_ranges mk_key k].
      * intros key r Hl _. by apply lookup_delete_Some in Hl as [_ Hl].
      * intros r Hl. by rewrite lookup_delete_eq in Hl.
  - apply adds_nothing; [done|]. intros key r Hl. cbn [or_ranges] in Hl.
    apply lookup_delete_Some in Hl as [_ Hl]. by apply Ho.
Qed.
Lemma opened_adds enabled filters caller message result range_of :
  caller_wf caller → (∀ name, message = Some (MessageAscii name) → text_wf (Some name)) →
  (∀ value key, result = Some value → range_of value = Some key → key_wf key) →
  step_adds past (nvtx_range_opened enabled filters caller message result range_of o).
Proof using Hm Ho.
  intros Hc Hn Hk. unfold nvtx_range_opened.
  destruct message as [[| |name]|]; [by apply same_ranges..| |by apply same_ranges].
  destruct result as [value|]; [|by apply same_ranges].
  destruct (negb _); [by apply same_ranges|].
  destruct (cl_clock caller) as [t|] eqn:Et; [|by apply same_ranges].
  destruct (range_of value) as [[kind id]|] eqn:E; [|by apply same_ranges].
  apply start_adds; [done|by apply (cw_clock _ Hc)|by eapply Hk|auto].
Qed.
End steps.

Lemma process_range_wf id key : in_u64 id → process_range id = Some key → key_wf key.
Proof.
  unfold process_range, in_u64. intros Hid. destruct (Z.eqb_spec id 0); [done|].
  intros [= <-]. unfold key_wf, NVTX_RANGE_PROCESS. simpl. lia.
Qed.
(** Halves of a number. *)
Lemma lor_halves low high n :
  0 ≤ n → 0 ≤ low < 2 ^ n → Z.lor low (Z.shiftl high n) = low + high * 2 ^ n.
Proof.
  intros Hn Hl. assert (Z.land low (Z.shiftl high n) = 0) as Hd.
  { apply Z.bits_inj'. intros i Hi. rewrite Z.land_spec, Z.bits_0.
    destruct (Z_lt_le_dec i n) as [Hlt|Hge].
    - rewrite Z.shiftl_spec_low by lia. apply andb_false_r.
    - rewrite <-(Z.mod_small low (2 ^ n)) by lia. by rewrite Z.mod_pow2_bits_high by lia. }
  rewrite <-Z.lxor_lor by done. rewrite <-Z.add_nocarry_lxor by done.
  by rewrite Z.shiftl_mul_pow2.
Qed.
Lemma split_value_halves id z :
  0 ≤ id ≤ u64_max → split_value (id mod 2 ^ 32, Z.shiftr id 32 mod 2 ^ 32, z) = id.
Proof.
  intros Hid. unfold split_value, u64_max in *.
  rewrite lor_halves by (try apply Z.mod_pos_bound; lia). rewrite Z.shiftr_div_pow2 by lia.
  rewrite (Z.mod_small (id / 2 ^ 32)).
  - pose proof (Z.div_mod id (2 ^ 32) ltac:(lia)). lia.
  - split; [apply Z.div_pos; lia|]. apply Z.div_lt_upper_bound; lia.
Qed.
Lemma thread_range_wf tid level key :
  0 < tid ≤ u32_max → thread_range tid level = Some key → key_wf key.
Proof.
  unfold thread_range. intros Ht. destruct (level <? 0); [done|]. intros [= <-].
  pose proof (Z.mod_pos_bound level (2 ^ 32) ltac:(lia)) as Hl.
  unfold key_wf, NVTX_RANGE_THREAD. cbn [fst snd]. rewrite Z.lor_comm, lor_halves by lia.
  unfold u32_max, u64_max in *. lia.
Qed.

Lemma step_adds_markers enabled filters step past o :
  step_ok step → markers_ok past → open_ok past o →
  step_adds past (nvtx_step enabled filters step o).
Proof.
  intros Hs Hm Ho. destruct step as [caller data|change]; cbn [nvtx_step];
    [|by apply (same_ranges past o)].
  unfold nvtx_callback. destruct (store_active o); cbn [negb]; [|by apply (same_ranges past o)].
  destruct Hs as [Hc Hd].
  assert (∀ params name, message_status <$> params = Some (MessageAscii name) →
    default None params = Some name) as Hplain.
  { intros [message|] name; [|done]. intros [= Hms%message_status_ascii]. by subst. }
  assert (∀ params name, nvtx_attributes_message <$> params = Some (MessageAscii name) →
    match default None params with Some attributes => ea_message attributes | None => None end
    = Some name) as Hattr.
  { intros [[attributes|]|] name; [|done..]. cbn. intros [= Hms].
    destruct (negb _) in Hms; [done|]. destruct (negb _) in Hms; [done|].
    by apply message_status_ascii in Hms. }
  destruct data as [[params result|params result|params result|params result|params|result|]|];
    try by apply (same_ranges past o).
  all: try (destruct Hd as [Hn Hr]; cbn [callback_name result_wf] in Hn, Hr).
  - apply (opened_adds past o Hm Ho); [done| |].
    + intros name Hp%Hplain. by rewrite Hp in Hn.
    + intros value key -> Hk. by eapply process_range_wf.
  - apply (opened_adds past o Hm Ho); [done| |].
    + intros name Hp%Hattr. by rewrite Hp in Hn.
    + intros value key -> Hk. by eapply process_range_wf.
  - apply (opened_adds past o Hm Ho); [done| |].
    + intros name Hp%Hplain. by rewrite Hp in Hn.
    + intros value key -> Hk. eapply thread_range_wf; [|done]. apply (cw_tid _ Hc).
  - apply (opened_adds past o Hm Ho); [done| |].
    + intros name Hp%Hattr. by rewrite Hp in Hn.
    + intros value key -> Hk. eapply thread_range_wf; [|done]. apply (cw_tid _ Hc).
  - destruct params; [by apply (end_adds past o)|by apply (same_ranges past o)].
  - destruct result as [level|]; [|by apply (same_ranges past o)].
    destruct (thread_range _ _) as [[kind id]|];
      [by apply (end_adds past o)|by apply (same_ranges past o)].
Qed.
Lemma steps_add_markers enabled filters steps past o :
  Forall step_ok steps → markers_ok past → open_ok past o →
  ∃ added, readable <$> (nvtx_steps enabled filters steps o).1
      = readable <$> (marker_record <$> added)
    ∧ markers_ok (past ++ added).
Proof.
  intros Hs. revert past o. induction Hs as [|step steps Hstep _ IH]; intros past o Hm Ho.
  { exists []. by rewrite app_nil_r. }
  cbn [nvtx_steps]. destruct (step_adds_markers enabled filters step past o Hstep Hm Ho)
    as (added & E & Hm' & Ho').
  destruct (nvtx_step _ _ step o) as [r o1]. cbn [fst snd] in *.
  destruct (IH _ o1 Hm' Ho') as (rest & E' & Hm'').
  destruct (nvtx_steps _ _ steps o1) as [rs o2]. cbn [fst snd] in *.
  exists (added ++ rest). rewrite !fmap_app, E', <-E, app_assoc. split; [|done].
  f_equal. by destruct r.
Qed.

(** ** Ranges as events *)
Section range_events.
Context `{SerdeJson}.

Definition key_kind (k : Z * Z) : NvtxRangeKind :=
  if k.1 =? 1 then NvtxRangeKind.Thread else NvtxRangeKind.Process.
Definition marker_nvtx (k : Marker) : NvtxEvent :=
  BuildNvtxEvent (string_of_bytes (nr_name (mk_range k)))
    (negb (nr_name_complete (mk_range k) =? 0)) (key_kind (mk_key k)) (mk_key k).2
    (nr_start_tid (mk_range k)).
Definition marker_event (session_id : string) (flags : Z) (k : Marker) : Event :=
  record_event session_id flags EventSource.CuptiCallback
    (if mk_start k then EventType.NvtxRangeStart else EventType.NvtxRangeEnd)
    (string_of_bytes (nr_name (mk_range k))) (marker_record k).

Lemma key_kind_inj k k' :
  key_wf k → key_wf k' → (key_kind k, k.2) = (key_kind k', k'.2) → k = k'.
Proof.
  destruct k as [kind id], k' as [kind' id']. intros [Hk _] [Hk' _]. unfold key_kind.
  cbn [fst snd] in *. by destruct Hk as [-> | ->], Hk' as [-> | ->]; intros [= ->].
Qed.
Lemma marker_event_nvtx session_id flags k :
  marker_wf k → ev_nvtx (marker_event session_id flags k) = Some (marker_nvtx k).
Proof.
  intros [_ _ [Hk Hid] _ _]. unfold marker_event, record_event, marker_record, marker_nvtx, key_kind.
  cbn [ev_nvtx range_record xp_kind initialize_record]. unfold record_nvtx, grid_z, range_record.
  cbn [xp_grid xp_block fst snd]. rewrite split_value_halves by lia. by destruct (mk_start k).
Qed.

Lemma decode_marker r k index session_id host_monotonic :
  marker_wf k → readable r = readable (marker_record k) →
  decode_record (record_encode r) index session_id (feature_flags false true host_monotonic)
  = Ok (marker_event session_id (feature_flags false true host_monotonic) k).
Proof.
  intros Hw E. pose proof Hw as [[Hpid Htid _] Ht [Hk Hid] [Hst Hco Hutf Hnul Hsh] _].
  unfold marker_event. rewrite <-(record_event_readable _ _ _ _ _ r _ E).
  assert (∀ {A} (f : xprobe_cupti_record → A),
    (∀ x n, f (with_name n x) = f x) → f r = f (marker_record k)) as Hf.
  { intros A f Hi. rewrite <-(Hi r (zero_tail (xp_name r))), <-(Hi (marker_record k)
      (zero_tail (xp_name (marker_record k)))). f_equal. exact E. }
  assert (zero_tail (xp_name r) = zero_tail (pad_name (nr_name (mk_range k)))) as Ez
    by by apply (f_equal xp_name) in E.
  assert (length (xp_name r) = 128%nat) as Hn.
  { by rewrite <-zero_tail_length, Ez, zero_tail_length, pad_name_length by lia. }
  apply decode_record_event.
  - split; [|unfold len; by rewrite Hn].
    rewrite (Hf _ record_fields) by done. unfold layout_wf, record_fields, marker_record.
    cbn [range_record initialize_record xp_timestamp_ns xp_kind xp_pid xp_tid xp_device_id
      xp_context_id xp_stream_id xp_correlation_id xp_callback_domain xp_callback_id xp_grid
      xp_block xp_runtime_correlation_id].
    assert (0 ≤ (mk_key k).2 mod 2 ^ 32 < 2 ^ 32) by (apply Z.mod_pos_bound; lia).
    assert (0 ≤ Z.shiftr (mk_key k).2 32 mod 2 ^ 32 < 2 ^ 32) by (apply Z.mod_pos_bound; lia).
    unfold in_u32, u32_max, u64_max in *.
    rewrite !Forall_cons, Forall_nil. cbn [fst snd]. unfold VALUE_UNKNOWN.
    destruct (mk_start k); split_and!; try done; lia.
  - rewrite (Hf _ xp_kind) by done. cbn. by destruct (mk_start k), host_monotonic.
  - rewrite (Hf _ xp_timestamp_ns) by done. cbn. lia.
  - assert (until_nul (xp_name r) = nr_name (mk_range k)) as ->.
    { rewrite <-zero_tail_read, Ez, zero_tail_read. unfold pad_name.
      by rewrite <-Hnul, until_nul_padded. }
    unfold from_utf8. by rewrite Hutf.
  - intros _. unfold nvtx_fields_ok. rewrite (Hf _ grid_z), (Hf _ xp_grid), (Hf _ xp_block) by done.
    unfold grid_z, marker_record, range_record. cbn [xp_grid xp_block fst snd].
    rewrite split_value_halves by lia. split_and!; [done|lia..].
Qed.

End range_events.
