(* ===== verification/AgentActivities.v ===== *)
(** * The activities of the agent

    CUPTI hands the agent ([cupti/src/cupti_agent.c]) buffers of finished kernels and
    transfers, and calls it at the entry and exit of CUDA API calls.  Here are these
    callbacks: which records they write in an exact capture and what they count in an
    aggregate one.  The two modes agree: what is counted is the duration, the bytes and the
    group of the start and end event that an exact capture has for the same activity. *)
From S2P Require Import Prelude BTree RustString Text Bytes Protocol Selector Correlate.
From S2P Require Import Lifecycle GroupPairs Exact Greedy Nearest StackNested Measure.
From S2P Require Import Os Process Inspect Resolve Ring Uprobe Usdt Syscalls Validate Linux.
From S2P Require Import Cupti CuptiFilter Completed Live Session Aggregate Agent AgentAggregate.
From S2P Require Import AgentInventory AgentRecords AgentNvtx AgentEvents.
#[local] Open Scope Z_scope.

(** ** Calls of the CUDA API *)

(** [CUpti_CallbackData], as far as it is read. *)
Record ApiData := BuildApiData {
  ad_enter : bool;
  ad_context : Z;
  ad_correlation : Z;
  ad_function : c_string }.
(** [CUpti_CallbackDomain]: 1 is the driver and 2 the runtime API. *)
Definition DOMAIN_DRIVER_API : Z := 1.
Definition DOMAIN_RUNTIME_API : Z := 2.
Definition api_record (caller : Caller) (data : ApiData) (domain callback_id kind timestamp_ns : Z) :
    xprobe_cupti_record :=
  let r := initialize_record caller kind timestamp_ns in
  Build_xprobe_cupti_record (xp_timestamp_ns r) (xp_kind r) (xp_pid r) (xp_tid r) (xp_device_id r)
    (ad_context data) (xp_stream_id r) (ad_correlation data) domain callback_id (xp_grid r)
    (xp_block r) (ad_correlation data) (copy_name (xp_name r) (ad_function data)).
(** [api_callback] outside of NVTX: the record for [enqueue_record], and the status, which
    changes when the clock fails. *)
Definition api_callback (enabled : bool) (filters : list xprobe_cupti_filter) (caller : Caller)
    (domain callback_id : Z) (data : ApiData) (s : AgentStatus) :
    option xprobe_cupti_record * AgentStatus :=
  if negb (domain =? DOMAIN_RUNTIME_API) && negb (domain =? DOMAIN_DRIVER_API) then (None, s)
  else
    let kind := if ad_enter data then 1 else 2 in
    if negb (values_match_capture enabled filters kind 0 domain 0 (ad_function data)) then (None, s)
    else
      match cl_clock caller with
      | None => (None, remember_output_error s)
      | Some timestamp_ns => (Some (api_record caller data domain callback_id kind timestamp_ns), s)
      end.

(** ** Activities *)

(** [CUpti_ActivityKernel9] to [12], [CUpti_ActivityMemcpy6] and [CUpti_ActivityMemset4], as
    far as they are read. *)
Record KernelActivity := BuildKernelActivity {
  ka_device : Z;
  ka_context : Z;
  ka_stream : Z;
  ka_correlation : Z;
  ka_grid : Z * Z * Z;
  ka_block : Z * Z * Z;
  ka_name : c_string;
  ka_start : Z;
  ka_end : Z }.
Record MemcpyActivity := BuildMemcpyActivity {
  ma_device : Z;
  ma_context : Z;
  ma_stream : Z;
  ma_correlation : Z;
  ma_runtime_correlation : Z;
  ma_copy_kind : Z;
  ma_bytes : Z;
  ma_start : Z;
  ma_end : Z }.
Record MemsetActivity := BuildMemsetActivity {
  me_device : Z;
  me_context : Z;
  me_stream : Z;
  me_correlation : Z;
  me_value : Z;
  me_bytes : Z;
  me_start : Z;
  me_end : Z }.
Inductive CuptiActivity : Type :=
| ConcurrentKernel (kernel : KernelActivity)
| Memcpy (copy : MemcpyActivity)
| Memset (set : MemsetActivity)
| OtherActivity.

(** What a callback hands on: a record to [enqueue_record], an activity to
    [aggregate_activity]. *)
Inductive ActivityCall : Type :=
| EnqueueRecord (record : xprobe_cupti_record)
| AggregateActivity (activity : Activity).

(** [(uint32_t)value] of an [int32_t]. *)
Definition unsigned_dim (dim : Z * Z * Z) : Z * Z * Z :=
  let '(x, y, z) := dim in (x mod 2 ^ 32, y mod 2 ^ 32, z mod 2 ^ 32).

Section activities.
Context (aggregate : bool) (enabled : bool) (filters : list xprobe_cupti_filter).
Context (offset capture_start : Z) (caller : Caller).

Definition enqueue_kernel_record (kernel : KernelActivity) (kind timestamp_ns : Z) :
    xprobe_cupti_record :=
  let r := initialize_record caller kind (normalize_activity_timestamp offset timestamp_ns) in
  Build_xprobe_cupti_record (xp_timestamp_ns r) (xp_kind r) (xp_pid r) (xp_tid r) (ka_device kernel)
    (ka_context kernel) (ka_stream kernel) (ka_correlation kernel) (xp_callback_domain r)
    (xp_callback_id r) (unsigned_dim (ka_grid kernel)) (unsigned_dim (ka_block kernel))
    (xp_runtime_correlation_id r) (copy_name (xp_name r) (ka_name kernel)).
(** [ENQUEUE_KERNEL_RECORDS]. *)
Definition enqueue_kernel_activity (kernel : KernelActivity) : list ActivityCall :=
  if negb (activity_started_during_capture offset capture_start (ka_start kernel)) then []
  else if negb (values_match_capture enabled filters 3 4 0 0 (ka_name kernel)) then []
  else if aggregate then
    [AggregateActivity (BuildActivity 3 (ka_device kernel) 0 (ka_name kernel)
       (normalize_activity_timestamp offset (ka_start kernel))
       (normalize_activity_timestamp offset (ka_end kernel)) 0)]
  else [EnqueueRecord (enqueue_kernel_record kernel 3 (ka_start kernel));
        EnqueueRecord (enqueue_kernel_record kernel 4 (ka_end kernel))].

(** [set_transfer_bytes]: the halves of the number of bytes. *)
Definition transfer_bytes (bytes z : Z) : Z * Z * Z :=
  (bytes mod 2 ^ 32, Z.shiftr bytes 32 mod 2 ^ 32, z).
Definition enqueue_memcpy_record (copy : MemcpyActivity) (kind timestamp_ns : Z) :
    xprobe_cupti_record :=
  let r := initialize_record caller kind (normalize_activity_timestamp offset timestamp_ns) in
  Build_xprobe_cupti_record (xp_timestamp_ns r) (xp_kind r) (xp_pid r) (xp_tid r) (ma_device copy)
    (ma_context copy) (ma_stream copy) (ma_correlation copy) (xp_callback_domain r)
    (xp_callback_id r) (transfer_bytes (ma_bytes copy) (ma_copy_kind copy)) (xp_block r)
    (ma_runtime_correlation copy) (xp_name r).
Definition enqueue_memset_record (set : MemsetActivity) (kind timestamp_ns : Z) :
    xprobe_cupti_record :=
  let r := initialize_record caller kind (normalize_activity_timestamp offset timestamp_ns) in
  Build_xprobe_cupti_record (xp_timestamp_ns r) (xp_kind r) (xp_pid r) (xp_tid r) (me_device set)
    (me_context set) (me_stream set) (me_correlation set) (xp_callback_domain r)
    (xp_callback_id r) (transfer_bytes (me_bytes set) 0) (me_value set, 0, 0)
    (xp_runtime_correlation_id r) (xp_name r).

(** The branches of [activity_buffer_completed] for a copy and for a set. *)
Definition memcpy_calls (copy : MemcpyActivity) : list ActivityCall :=
  let semantic := semantic_memcpy_kind (ma_copy_kind copy) in
  if negb (activity_started_during_capture offset capture_start (ma_start copy)) then []
  else if negb (values_match_capture enabled filters 5 6 0 semantic None) then []
  else if aggregate then
    [AggregateActivity (BuildActivity 5 (ma_device copy) semantic None
       (normalize_activity_timestamp offset (ma_start copy))
       (normalize_activity_timestamp offset (ma_end copy)) (ma_bytes copy))]
  else [EnqueueRecord (enqueue_memcpy_record copy 5 (ma_start copy));
        EnqueueRecord (enqueue_memcpy_record copy 6 (ma_end copy))].
Definition memset_calls (set : MemsetActivity) : list ActivityCall :=
  if negb (activity_started_during_capture offset capture_start (me_start set)) then []
  else if negb (values_match_capture enabled filters 7 8 0 0 None) then []
  else if aggregate then
    [AggregateActivity (BuildActivity 7 (me_device set) 0 None
       (normalize_activity_timestamp offset (me_start set))
       (normalize_activity_timestamp offset (me_end set)) (me_bytes set))]
  else [EnqueueRecord (enqueue_memset_record set 7 (me_start set));
        EnqueueRecord (enqueue_memset_record set 8 (me_end set))].

(** What an activity of a buffer leads to: calls, and how many unknown records are counted. *)
Definition activity_handled (activity : CuptiActivity) : list ActivityCall * Z :=
  match activity with
  | ConcurrentKernel kernel => (enqueue_kernel_activity kernel, 0)
  | Memcpy copy => (memcpy_calls copy, 0)
  | Memset set => (memset_calls set, 0)
  | OtherActivity => ([], 1)
  end.
(** The loop of [activity_buffer_completed] over the activities
    [cuptiActivityGetNextRecord] finds, each with whether the capture is active when it is
    reached, and the error that ends the loop before the end of the buffer, if one does. *)
Definition remember_cupti_error (s : AgentStatus) : AgentStatus :=
  set_stop_reason STOP_CUPTI_ERROR
    (set_capture_state CAPTURE_FAILED (set_agent_status AGENT_CUPTI_ERROR s)).
Fixpoint activity_buffer_completed (buffer : list (CuptiActivity * bool)) (failed : bool)
    (unknown : Z) (s : AgentStatus) : list ActivityCall * Z * AgentStatus :=
  match buffer with
  | [] => ([], unknown, if failed then remember_cupti_error s else s)
  | (activity, active) :: buffer =>
      let '(calls, more) := if active then activity_handled activity else ([], 0) in
      let '(rest, unknown, s) :=
        activity_buffer_completed buffer failed ((unknown + more) mod 2 ^ 64) s in
      (calls ++ rest, unknown, s)
  end.
End activities.

(** ** What CUPTI gives *)
Definition dim_wf (dim : Z * Z * Z) : Prop := let '(x, y, z) := dim in in_u32 x ∧ in_u32 y ∧ in_u32 z.
Definition times_wf (offset start finish : Z) : Prop :=
  0 < normalize_activity_timestamp offset start ≤ normalize_activity_timestamp offset finish.
(** Numbers fit, an activity does not end before it starts, and a kernel has a name that is
    text where it is cut off. *)
Definition cupti_activity_wf (offset : Z) (activity : CuptiActivity) : Prop :=
  match activity with
  | ConcurrentKernel k =>
      (in_u32 (ka_device k) ∧ in_u32 (ka_context k) ∧ in_u32 (ka_stream k)
       ∧ in_u32 (ka_correlation k)) ∧ times_wf offset (ka_start k) (ka_end k)
      ∧ c_string_wf (ka_name k) ∧ short_name (ka_name k) ≠ []
      ∧ utf8_valid (short_name (ka_name k)) = true
  | Memcpy c =>
      (in_u32 (ma_device c) ∧ in_u32 (ma_context c) ∧ in_u32 (ma_stream c)
       ∧ in_u32 (ma_correlation c) ∧ in_u32 (ma_runtime_correlation c) ∧ in_u32 (ma_copy_kind c)
       ∧ in_u64 (ma_bytes c)) ∧ times_wf offset (ma_start c) (ma_end c)
  | Memset m =>
      (in_u32 (me_device m) ∧ in_u32 (me_context m) ∧ in_u32 (me_stream m)
       ∧ in_u32 (me_correlation m) ∧ in_u32 (me_value m) ∧ in_u64 (me_bytes m))
      ∧ times_wf offset (me_start m) (me_end m)
  | OtherActivity => True
  end.

(** ** Events *)
Section modes.
Context `{SerdeJson}.

(** How an inventory would group an event. *)
Definition event_key (e : Event) : option (Z * (option string * (option Z * Z))) :=
  cuda ← ev_cuda e;
  rank ← match ev_event_type e with
         | EventType.GpuKernelStart | EventType.GpuKernelEnd => Some 0
         | EventType.GpuMemcpyStart | EventType.GpuMemcpyEnd => Some 1
         | EventType.GpuMemsetStart | EventType.GpuMemsetEnd => Some 2
         | _ => None
         end;
  Some (rank, (cuda_kernel_name cuda,
               (cuda_device_id cuda, memcpy_kind_rank (cuda_memcpy_kind cuda)))).
Definition event_bytes (e : Event) : Z := default 0 (ev_cuda e ≫= cuda_bytes).
Definition event_correlation (e : Event) : option (option Z * option Z) :=
  cuda ← ev_cuda e; Some (cuda_correlation_id cuda, cuda_runtime_correlation_id cuda).

(** The events of an activity, and the activity that is counted. *)
Record counted_as (start finish : Event) (a : Activity) : Prop := {
  ca_types : (ev_event_type start, ev_event_type finish)
    = (if av_kind a =? 3 then (EventType.GpuKernelStart, EventType.GpuKernelEnd)
       else if av_kind a =? 5 then (EventType.GpuMemcpyStart, EventType.GpuMemcpyEnd)
       else (EventType.GpuMemsetStart, EventType.GpuMemsetEnd));
  ca_key : event_key start = Some (activity_key a) ∧ event_key finish = Some (activity_key a);
  ca_times : ev_timestamp_ns start = av_start_ns a ∧ ev_timestamp_ns finish = av_end_ns a;
  ca_bytes : event_bytes start = av_bytes a ∧ event_bytes finish = av_bytes a;
  ca_correlation : event_correlation start = event_correlation finish }.

Lemma semantic_decode kind :
  decode_semantic_memcpy_kind (semantic_memcpy_kind kind) = decode_memcpy_kind kind.
Proof.
  unfold semantic_memcpy_kind, decode_memcpy_kind.
  destruct (_ || _); [done|]. destruct (_ || _); [done|].
  replace ((5 <=? kind) && (kind <=? 8))
    with ((kind =? 5) || (kind =? 6) || (kind =? 7) || (kind =? 8)) by lia.
  destruct (_ || _); [done|]. destruct (kind =? 9); [done|]. by destruct (kind =? 10).
Qed.
Lemma semantic_range kind : in_u32 (semantic_memcpy_kind kind).
Proof.
  unfold semantic_memcpy_kind, in_u32, u32_max. repeat case_match; lia.
Qed.
Lemma normalize_range offset t :
  0 ≤ normalize_activity_timestamp offset t ≤ u64_max.
Proof.
  unfold normalize_activity_timestamp, u64_max. destruct (offset <? 0);
    match goal with |- context [?x mod _] => pose proof (Z.mod_pos_bound x (2 ^ 64) ltac:(lia)) end; lia.
Qed.
Lemma unsigned_dim_wf dim : dim_wf (unsigned_dim dim).
Proof.
  destruct dim as [[x y] z]. unfold unsigned_dim, dim_wf, in_u32, u32_max.
  split_and!; match goal with |- context [?x mod _] =>
    pose proof (Z.mod_pos_bound x (2 ^ 32) ltac:(lia)) end; lia.
Qed.
Lemma transfer_bytes_wf bytes z : in_u32 z → dim_wf (transfer_bytes bytes z).
Proof.
  intros Hz. unfold transfer_bytes, dim_wf, in_u32, u32_max in *.
  split_and!; try match goal with |- context [?x mod _] =>
    pose proof (Z.mod_pos_bound x (2 ^ 32) ltac:(lia)) end; lia.
Qed.
(** The fields of a record that fit give its bytes. *)
Lemma record_wf_intro r :
  in_u64 (xp_timestamp_ns r) → in_u32 (xp_kind r) → in_u32 (xp_pid r) → in_u32 (xp_tid r) →
  in_u32 (xp_device_id r) → in_u32 (xp_context_id r) → in_u32 (xp_stream_id r) →
  in_u32 (xp_correlation_id r) → in_u32 (xp_callback_domain r) → in_u32 (xp_callback_id r) →
  dim_wf (xp_grid r) → dim_wf (xp_block r) → in_u32 (xp_runtime_correlation_id r) →
  length (xp_name r) = 128%nat → record_wf r.
Proof.
  unfold record_wf, layout_wf, record_fields, dim_wf, in_u32, in_u64, u32_max, u64_max, len.
  destruct (xp_grid r) as [[gx gy] gz], (xp_block r) as [[bx b_y] bz].
  intros ? ? ? ? ? ? ? ? ? ? ? ? ? ->. split; [|done].
  rewrite !Forall_cons, Forall_nil. cbn [fst snd]. split_and!; try done; lia.
Qed.

Context (session_id : string) (nvtx_active host_monotonic : bool).
Abbreviation flags := (feature_flags false nvtx_active host_monotonic).
Definition decodes (r : xprobe_cupti_record) (e : Event) : Prop :=
  ∀ index, decode_record (record_encode r) index session_id flags = Ok e.

Section one.
Context (enabled : bool) (filters : list xprobe_cupti_filter) (offset capture_start : Z).
Context (caller : Caller) (Hcaller : caller_wf caller).

(** Both modes pass over an activity, or one counts what the other has two events of. *)
Definition modes_agree (exact counted : list ActivityCall) : Prop :=
  exact = [] ∧ counted = []
  ∨ ∃ a r1 r2 e1 e2, counted = [AggregateActivity a] ∧ exact = [EnqueueRecord r1; EnqueueRecord r2]
      ∧ activity_wf a ∧ activity_readable a ∧ decodes r1 e1 ∧ decodes r2 e2 ∧ counted_as e1 e2 a.

Lemma times_nonzero start finish :
  times_wf offset start finish →
  in_u64 (normalize_activity_timestamp offset start) ∧ normalize_activity_timestamp offset start ≠ 0
  ∧ in_u64 (normalize_activity_timestamp offset finish)
  ∧ normalize_activity_timestamp offset finish ≠ 0.
Proof using.
  intros Ht. unfold times_wf in Ht. unfold in_u64. pose proof (normalize_range offset start).
  pose proof (normalize_range offset finish). lia.
Qed.
Lemma caller_fields : in_u32 (cl_pid caller) ∧ in_u32 (cl_tid caller).
Proof using Hcaller. destruct Hcaller as [? [? ?] _]. unfold in_u32 in *. lia. Qed.

Lemma kernel_decodes k kind t event_type :
  (kind, event_type) ∈ [(3, EventType.GpuKernelStart); (4, EventType.GpuKernelEnd)] →
  cupti_activity_wf offset (ConcurrentKernel k) → in_u64 (normalize_activity_timestamp offset t) →
  normalize_activity_timestamp offset t ≠ 0 →
  decodes (enqueue_kernel_record offset caller k kind t)
    (record_event session_id flags EventSource.CuptiActivity event_type
       (string_of_bytes (short_name (ka_name k))) (enqueue_kernel_record offset caller k kind t)).
Proof using Hcaller.
  intros Hk ((Hd & Hc & Hs & Hco) & _ & Hn & _ & Hutf) Ht Ht0 index.
  destruct caller_fields as [Hpid Htid].
  assert (in_u32 kind ∧ is_nvtx_kind kind = false
    ∧ decode_record_kind kind index flags = Ok (EventSource.CuptiActivity, event_type))
    as (Hkind & Hnk & Hdk).
  { rewrite !elem_of_cons, elem_of_nil in Hk. by destruct Hk as [[= -> ->]|[[= -> ->]|[]]]. }
  unfold enqueue_kernel_record. apply decode_record_event;
    cbn [xp_kind xp_timestamp_ns xp_name initialize_record].
  - apply record_wf_intro; cbn; try done; try apply unsigned_dim_wf.
    by apply copy_name_length.
  - done.
  - done.
  - rewrite copy_name_read by done. unfold from_utf8. by rewrite Hutf.
  - by rewrite Hnk.
Qed.
Lemma transfer_decodes kind event_type r :
  (kind, event_type) ∈ [(5, EventType.GpuMemcpyStart); (6, EventType.GpuMemcpyEnd);
                        (7, EventType.GpuMemsetStart); (8, EventType.GpuMemsetEnd)] →
  xp_kind r = kind → record_wf r → xp_timestamp_ns r ≠ 0 → xp_name r = replicate 128 0 →
  decodes r (record_event session_id flags EventSource.CuptiActivity event_type ""%string r).
Proof using.
  intros Hk Hr Hw Ht Hn index. apply decode_record_event; [done| |done|by rewrite Hn|].
  - rewrite Hr. rewrite !elem_of_cons, elem_of_nil in Hk.
    by destruct Hk as [[= -> ->]|[[= -> ->]|[[= -> ->]|[[= -> ->]|[]]]]],
      nvtx_active, host_monotonic.
  - rewrite Hr. rewrite !elem_of_cons, elem_of_nil in Hk.
    by destruct Hk as [[= -> ->]|[[= -> ->]|[[= -> ->]|[[= -> ->]|[]]]]].
Qed.

Lemma kernel_agrees k :
  cupti_activity_wf offset (ConcurrentKernel k) →
  modes_agree (enqueue_kernel_activity false enabled filters offset capture_start caller k)
    (enqueue_kernel_activity true enabled filters offset capture_start caller k).
Proof using Hcaller.
  intros Hw. unfold enqueue_kernel_activity. destruct (negb _); [by left|].
  destruct (negb _); [by left|]. right. pose proof Hw as ((Hd & _) & Ht & Hn & Hne & Hutf).
  destruct (times_nonzero _ _ Ht) as (Hs & Hs0 & Hf & Hf0).
  eexists _, _, _, _, _. split; [reflexivity|]. split; [reflexivity|].
  split; [by split|]. split; [by left|].
  split; [eapply (kernel_decodes _ _ _ EventType.GpuKernelStart); [|done..];
          rewrite !elem_of_cons; auto|].
  split; [eapply (kernel_decodes _ _ _ EventType.GpuKernelEnd); [|done..];
          rewrite !elem_of_cons; auto|].
  by split.
Qed.
Lemma memcpy_agrees c :
  cupti_activity_wf offset (Memcpy c) →
  modes_agree (memcpy_calls false enabled filters offset capture_start caller c)
    (memcpy_calls true enabled filters offset capture_start caller c).
Proof using Hcaller.
  intros Hw. unfold memcpy_calls. destruct (negb _); [by left|].
  destruct (negb _); [by left|]. right. pose proof Hw as ((Hd & Hc & Hst & Hco & Hrc & Hck & Hb) & Ht).
  destruct (times_nonzero _ _ Ht) as (Hs & Hs0 & Hf & Hf0).
  destruct caller_fields as [Hpid Htid].
  assert (∀ kind t, in_u32 kind → in_u64 (normalize_activity_timestamp offset t) →
    record_wf (enqueue_memcpy_record offset caller c kind t)) as Hrec.
  { intros kind t ? ?. apply record_wf_intro; cbn [enqueue_memcpy_record xp_grid]; try done.
    by apply transfer_bytes_wf. }
  eexists _, _, _, _, _. split; [reflexivity|]. split; [reflexivity|].
  split; [split; try done; [apply semantic_range|by apply Forall_nil]|].
  split; [right; by auto|].
  split; [apply (transfer_decodes 5 EventType.GpuMemcpyStart); try done;
          [rewrite !elem_of_cons; auto|by apply Hrec]|].
  split; [apply (transfer_decodes 6 EventType.GpuMemcpyEnd); try done;
          [rewrite !elem_of_cons; auto|by apply Hrec]|].
  split; try done.
  - unfold event_key, activity_key, record_event, record_cuda, grid_z.
    cbn [enqueue_memcpy_record ev_cuda ev_event_type xp_kind initialize_record mbind option_bind
      is_nvtx_kind Z.eqb Pos.eqb orb cuda_kernel_name cuda_device_id cuda_memcpy_kind xp_device_id
      xp_grid transfer_bytes av_kind av_memcpy_kind av_device_id].
    by rewrite semantic_decode.
  - unfold event_bytes, record_event, record_cuda. unfold in_u64 in Hb.
    cbn -[split_value transfer_bytes Z.modulo]. unfold transfer_bytes.
    by rewrite split_value_halves.
Qed.
Lemma memset_agrees m :
  cupti_activity_wf offset (Memset m) →
  modes_agree (memset_calls false enabled filters offset capture_start caller m)
    (memset_calls true enabled filters offset capture_start caller m).
Proof using Hcaller.
  intros Hw. unfold memset_calls. destruct (negb _); [by left|].
  destruct (negb _); [by left|]. right. pose proof Hw as ((Hd & Hc & Hst & Hco & Hv & Hb) & Ht).
  destruct (times_nonzero _ _ Ht) as (Hs & Hs0 & Hf & Hf0).
  destruct caller_fields as [Hpid Htid].
  assert (∀ kind t, in_u32 kind → in_u64 (normalize_activity_timestamp offset t) →
    record_wf (enqueue_memset_record offset caller m kind t)) as Hrec.
  { intros kind t ? ?. apply record_wf_intro; cbn [enqueue_memset_record xp_grid]; try done.
    by apply transfer_bytes_wf. }
  eexists _, _, _, _, _. split; [reflexivity|]. split; [reflexivity|].
  split; [split; try done; by apply Forall_nil|]. split; [right; by auto|].
  split; [apply (transfer_decodes 7 EventType.GpuMemsetStart); try done;
          [rewrite !elem_of_cons; auto|by apply Hrec]|].
  split; [apply (transfer_decodes 8 EventType.GpuMemsetEnd); try done;
          [rewrite !elem_of_cons; auto|by apply Hrec]|].
  split; try done.
  unfold event_bytes, record_event, record_cuda. unfold in_u64 in Hb.
  cbn -[split_value transfer_bytes Z.modulo]. unfold transfer_bytes.
  by rewrite split_value_halves.
Qed.

Lemma activity_agrees activity :
  cupti_activity_wf offset activity →
  modes_agree (activity_handled false enabled filters offset capture_start caller activity).1
    (activity_handled true enabled filters offset capture_start caller activity).1.
Proof using Hcaller.
  destruct activity as [k|c|m|]; cbn [activity_handled fst]; intros Hw.
  - by apply kernel_agrees.
  - by apply memcpy_agrees.
  - by apply memset_agrees.
  - by left.
Qed.
End one.

(** A call of the CUDA API is read as the entry or exit of the function that was called. *)
Lemma api_callback_decodes enabled filters caller domain callback_id data s r s' :
  caller_wf caller → in_u32 (ad_context data) → in_u32 (ad_correlation data) → in_u32 callback_id →
  c_string_wf (ad_function data) → utf8_valid (short_name (ad_function data)) = true →
  api_callback enabled filters caller domain callback_id data s = (Some r, s') →
  let name := string_of_bytes (short_name (ad_function data)) in
  let event_type := if ad_enter data then EventType.CudaApiEntry else EventType.CudaApiExit in
  decodes r (record_event session_id flags EventSource.CuptiCallback event_type name r)
  ∧ bt_get "cuda_api_name"%string
      (ev_attributes (record_event session_id flags EventSource.CuptiCallback event_type name r))
    = Some (value_string name)
  ∧ s' = s.
Proof using.
  intros Hcaller Hctx Hco Hid Hn Hutf. unfold api_callback.
  destruct (negb _ && negb _) eqn:Ed; [done|].
  destruct (values_match_capture _ _ _ _ _ _ _); cbn [negb]; [|done].
  destruct (cl_clock caller) as [t|] eqn:Et; [|done]. intros [= <- <-].
  destruct (cw_clock _ Hcaller t Et) as [Ht0 Ht]. destruct (caller_fields caller Hcaller) as [Hp Htid].
  assert (in_u32 domain ∧ (domain = 1 ∨ domain = 2)) as [Hdom _].
  { apply andb_false_iff in Ed. rewrite !negb_false_iff, !Z.eqb_eq in Ed.
    unfold DOMAIN_RUNTIME_API, DOMAIN_DRIVER_API in Ed. unfold in_u32, u32_max. lia. }
  cbv zeta. split; [|split; [|done]].
  - intros index. apply decode_record_event.
    + apply record_wf_intro; cbn; try done; [unfold in_u64; lia|by destruct (ad_enter data)|].
      by apply copy_name_length.
    + cbn. by destruct (ad_enter data).
    + cbn. lia.
    + cbn [api_record xp_name initialize_record]. rewrite copy_name_read by done.
      unfold from_utf8. by rewrite Hutf.
    + cbn. by destruct (ad_enter data).
  - cbn. destruct (ad_enter data); cbn; by repeat case_bool_decide.
Qed.

(** What an exact capture has of an activity that an aggregate capture counts. *)
Definition activity_pair (p : Activity * (xprobe_cupti_record * xprobe_cupti_record)) : Prop :=
  let '(a, (r1, r2)) := p in
  activity_wf a ∧ activity_readable a
  ∧ ∃ start finish, decodes r1 start ∧ decodes r2 finish ∧ counted_as start finish a.

End modes.

(** ** Callbacks return *)

(** C39: callbacks never wait for each other: whatever other threads of CUPTI have done to the
    table and however far a call has got, a call that counts an activity or enqueues a record
    returns when it runs alone, after a number of operations bounded by the capacity of the
    table.  The process that is traced is not held up by a thread that was stopped inside the
    agent. *)
Theorem agent_calls_return (enabled : bool) (filters : list xprobe_cupti_filter)
    (table : AggregateTable) (counting : list (Activity * AggregatePc)) (a : Activity)
    (at_count : AggregatePc) (records : RecordTable)
    (enqueueing : list (xprobe_cupti_record * RecordPc)) (r : xprobe_cupti_record)
    (at_record : RecordPc) (i j n : nat)
    (Hcounting : counting !! i = Some (a, at_count))
    (Henqueueing : enqueueing !! j = Some (r, at_record))
    (Hn : 2 * Z.max (tb_record_capacity table) (rt_record_capacity records) + 20 ≤ Z.of_nat n)
    (Hplaces : 0 ≤ tb_record_capacity table ∧ 0 ≤ rt_committed records
       ∧ match at_count with LoadSlot p | ClaimSlot p => 0 ≤ p | _ => True end) :
  (∃ slot table', count_activities (replicate n (i, false)) (table, counting)
                  = (table', <[i := (a, Returned slot)]> counting))
  ∧ (∃ index records', enqueue_records enabled filters (replicate n (j, false)) (records, enqueueing)
                       = (records', <[j := (r, Enqueued index)]> enqueueing)).
Proof.
  split.
  - eapply activity_returns; [done|]. destruct at_count; cbn [steps_left]; try lia;
      match goal with |- context [if ?s == Some ?c then 0 else 1] =>
        pose proof (stale_bound s c) end; lia.
  - eapply record_returns; [done|]. destruct at_record; cbn [enqueue_left]; try lia;
      destruct (_ =? _); lia.
Qed.
