(* ===== verification/SyscallAggregate.v ===== *)
(** * Aggregated system calls

    [xprobe/collector/src/syscall_aggregate.rs]: reading the per-CPU counters of
    the BPF maps and adding them up; [xprobe/core/src/syscall_aggregate.rs]: the
    inventory reported for them.  The contents of the maps are arguments;
    [BpfAggregate] has the programs that fill them, [BpfCollect] the collector that reads
    them. *)
From S2P Require Import Prelude BTree RustString Text Bytes Protocol Selector Measure.
From S2P Require Import Os Process Inspect Doctor Syscalls Validate.
#[local] Open Scope Z_scope.

(** ** The collector *)
Module AggregateError.
Inductive AggregateError : Type :=
| InvalidRequest (message : string)
| TargetNamespace (path : string) (source : IoError)
| MissingObjectMember (kind name : string)
| Libbpf (operation : string) (source : IoError)
| MalformedMapValue (map : string) (expected actual : Z)
| Timeout.
End AggregateError.
Abbreviation AggregateError := AggregateError.AggregateError.

Definition aggregate_error_code (e : AggregateError) : ErrorCode :=
  match e with
  | AggregateError.InvalidRequest _ | AggregateError.Timeout => ErrorCode.SessionLimitExceeded
  | AggregateError.TargetNamespace _ source =>
      if io_kind source == ErrorKind.PermissionDenied then ErrorCode.PermissionDenied
      else if io_kind source == ErrorKind.NotFound then ErrorCode.TargetExited
      else ErrorCode.Internal
  | AggregateError.Libbpf operation source =>
      let kind := io_kind source in
      if operation == "disarm syscall aggregate" then ErrorCode.CleanupFailed
      else if kind == ErrorKind.PermissionDenied then ErrorCode.PermissionDenied
      else ErrorCode.Internal
  | AggregateError.MissingObjectMember _ _ | AggregateError.MalformedMapValue _ _ _ =>
      ErrorCode.Internal
  end.
Definition aggregate_error_recoverable (e : AggregateError) : bool :=
  match aggregate_error_code e with
  | ErrorCode.SessionLimitExceeded | ErrorCode.PermissionDenied | ErrorCode.TargetExited => true
  | _ => false
  end.
Definition aggregate_error_display (e : AggregateError) : string :=
  match e with
  | AggregateError.InvalidRequest message => "invalid syscall aggregate request: " +:+ message
  | AggregateError.TargetNamespace path source =>
      "failed to inspect target PID namespace at " +:+ path +:+ ": " +:+ io_message source
  | AggregateError.MissingObjectMember kind name =>
      "BPF object is missing " +:+ kind +:+ " " +:+ name
  | AggregateError.Libbpf operation source =>
      "failed to " +:+ operation +:+ ": " +:+ io_message source
  | AggregateError.MalformedMapValue map expected actual =>
      "BPF map " +:+ map +:+ " value has size " +:+ to_decimal actual +:+ ", expected "
        +:+ to_decimal expected
  | AggregateError.Timeout => "syscall aggregate collection timed out"
  end.

Record SyscallAggregateRequest := BuildSyscallAggregateRequest {
  sar_target : TargetIdentity;
  sar_duration : Z;
  sar_timeout : Z;
  sar_max_groups : Z;
  sar_max_inflight : Z }.

Definition aggregate_validate_request (request : SyscallAggregateRequest) :
    res AggregateError unit :=
  if sar_duration request =? 0 then
    Err (AggregateError.InvalidRequest "duration must be positive")
  else if sar_timeout request <? sar_duration request then
    Err (AggregateError.InvalidRequest "timeout must be at least the capture duration")
  else if sar_max_groups request =? 0 then
    Err (AggregateError.InvalidRequest "max_groups must be positive")
  else if sar_max_inflight request =? 0 then
    Err (AggregateError.InvalidRequest "max_inflight must be positive")
  else Ok ().

(** [configure_object] up to the update of the map, for the device and inode of the
    target's PID namespace; [set_armed] between the lookup and the update. *)
Definition AGGREGATE_CONFIG_SIZE : Z := 24.
Definition aggregate_config_bytes (dev ino : Z) (request : SyscallAggregateRequest) :
    option (list Z) :=
  let config := replicate 24 0 in
  config ← copy_from_slice config 0 (to_le_bytes 8 dev);
  config ← copy_from_slice config 8 (to_le_bytes 8 ino);
  copy_from_slice config 16 (to_le_bytes 4 (target_pid (sar_target request))).
Definition aggregate_arm (armed : bool) (config : list Z) : res AggregateError (list Z) :=
  if negb (len config =? AGGREGATE_CONFIG_SIZE) then
    Err (AggregateError.MalformedMapValue "syscall_aggregate_config" AGGREGATE_CONFIG_SIZE
           (len config))
  else or_panic (copy_from_slice config 20 (to_le_bytes 4 (Z.b2z armed))).

(** [decode_u32] and [decode_u64_fields::<n>]. *)
Definition decode_u32 (map : string) (bytes : list Z) : res AggregateError Z :=
  if len bytes =? 4 then Ok (from_le_bytes bytes)
  else Err (AggregateError.MalformedMapValue map 4 (len bytes)).
Definition decode_u64_fields (n : nat) (map : string) (bytes : list Z) :
    res AggregateError (list Z) :=
  let expected := Z.of_nat n * 8 in
  if negb (len bytes =? expected) then
    Err (AggregateError.MalformedMapValue map expected (len bytes))
  else
    or_panic (mapM (λ index, let start := Z.of_nat index * 8 in
                field bytes start (start + 8)) (seq 0 n)).

Record RawSyscallGroup := BuildRawSyscallGroup {
  raw_syscall_number : Z;
  raw_count : Z;
  raw_errors : Z;
  raw_total_duration_ns : Z;
  raw_min_duration_ns : Z;
  raw_max_duration_ns : Z }.

(** One iteration of the loop of [sum_group]: the counters of one CPU. *)
Definition add_cpu (group : RawSyscallGroup) (fields : list Z) : option RawSyscallGroup :=
  count ← fields !! 0%nat;
  errors ← fields !! 1%nat;
  total ← fields !! 2%nat;
  min ← fields !! 3%nat;
  max ← fields !! 4%nat;
  if count =? 0 then Some group
  else Some (BuildRawSyscallGroup (raw_syscall_number group)
               (saturating_add_u64 (raw_count group) count)
               (saturating_add_u64 (raw_errors group) errors)
               (saturating_add_u64 (raw_total_duration_ns group) total)
               (Z.min (raw_min_duration_ns group) min)
               (Z.max (raw_max_duration_ns group) max)).
Fixpoint add_cpus (group : RawSyscallGroup) (values : list (list Z)) :
    res AggregateError RawSyscallGroup :=
  match values with
  | [] => Ok group
  | value :: values =>
      fields ← decode_u64_fields 5 "syscall_aggregate_groups" value;
      group ← or_panic (add_cpu group fields);
      add_cpus group values
  end.
Definition sum_group (syscall_number : Z) (values : list (list Z)) :
    res AggregateError RawSyscallGroup :=
  group ← add_cpus (BuildRawSyscallGroup syscall_number 0 0 0 u64_max 0) values;
  Ok (if raw_count group =? 0
      then BuildRawSyscallGroup (raw_syscall_number group) (raw_count group) (raw_errors group)
             (raw_total_duration_ns group) 0 (raw_max_duration_ns group)
      else group).

Record SyscallCapture := BuildSyscallCapture {
  cap_groups : list RawSyscallGroup;
  cap_observed_entries : Z;
  cap_matched_exits : Z;
  cap_unmatched_exits : Z;
  cap_dropped_aggregates : Z;
  cap_inflight_at_end : Z }.

Definition raw_group_cmp (left right : RawSyscallGroup) : comparison :=
  then_with (raw_total_duration_ns right ?= raw_total_duration_ns left)
    (raw_syscall_number left ?= raw_syscall_number right).

(** [read_capture] on the contents of the maps: the keys of the group map with
    their per-CPU values, the summary and the keys of the inflight map. *)
Definition read_capture (group_map : list (list Z * list (list Z))) (summary : list Z)
    (inflight_keys : list (list Z)) : res AggregateError SyscallCapture :=
  groups ← res_mapM (λ '(key, values),
             syscall_number ← decode_u32 "syscall_aggregate_groups" key;
             sum_group syscall_number values) group_map;
  let groups := sort_by (λ left right, not_greater (raw_group_cmp left right)) groups in
  summary ← decode_u64_fields 4 "syscall_aggregate_summary" summary;
  observed ← or_panic (summary !! 0%nat);
  matched ← or_panic (summary !! 1%nat);
  unmatched ← or_panic (summary !! 2%nat);
  dropped ← or_panic (summary !! 3%nat);
  Ok (BuildSyscallCapture groups observed matched unmatched dropped (len inflight_keys)).

(** ** The report *)

(** [ratio] of this module, in 64-bit floats. *)
Definition group_ratio (numerator denominator : Z) : f64 :=
  f64_div (f64_of_int numerator) (f64_of_int denominator).

Module SyscallAggregateError.
Inductive SyscallAggregateError : Type :=
| Inspect (error : InspectError)
| Doctor (error : DoctorError).
End SyscallAggregateError.
Abbreviation SyscallAggregateError := SyscallAggregateError.SyscallAggregateError.
Definition syscall_aggregate_error_display (e : SyscallAggregateError) : string :=
  match e with
  | SyscallAggregateError.Inspect error => inspect_error_display error
  | SyscallAggregateError.Doctor error =>
      "syscall aggregate capability check failed: " +:+ doctor_error_display error
  end.
Definition syscall_aggregate_error_code (e : SyscallAggregateError) : ErrorCode :=
  match e with
  | SyscallAggregateError.Inspect error => inspect_error_code error
  | SyscallAggregateError.Doctor _ => ErrorCode.Internal
  end.
Definition syscall_aggregate_error_recoverable (e : SyscallAggregateError) : bool :=
  match e with
  | SyscallAggregateError.Inspect error => inspect_error_recoverable error
  | SyscallAggregateError.Doctor _ => false
  end.

Record SyscallAggregateGroup := BuildSyscallAggregateGroup {
  sg_syscall_number : Z;
  sg_syscall_name : option string;
  sg_count : Z;
  sg_errors : Z;
  sg_duration_ns : AggregateDuration;
  sg_entry_selector_hint : option string;
  sg_exit_selector_hint : option string }.
Module SyscallAggregateCompleteness.
Inductive SyscallAggregateCompleteness : Set := Complete | Incomplete.
End SyscallAggregateCompleteness.
Abbreviation SyscallAggregateCompleteness :=
  SyscallAggregateCompleteness.SyscallAggregateCompleteness.
Record SyscallAggregateSpec := BuildSyscallAggregateSpec {
  spec_name : option string;
  spec_target : TargetIdentity;
  spec_duration_ms : Z;
  spec_timeout_ms : Z;
  spec_max_groups : Z;
  spec_max_inflight : Z }.
Record SyscallAggregateCollectionSummary := BuildSyscallAggregateCollectionSummary {
  cs_completeness : SyscallAggregateCompleteness;
  cs_observed_entries : Z;
  cs_matched_exits : Z;
  cs_unmatched_exits : Z;
  cs_inflight_at_end : Z;
  cs_dropped_aggregates : Z;
  cs_group_capacity : Z;
  cs_groups : Z;
  cs_table_utilization : f64 }.

Definition normalize_group (group : RawSyscallGroup) : SyscallAggregateGroup :=
  let name := syscall_name (raw_syscall_number group) in
  BuildSyscallAggregateGroup (raw_syscall_number group) name (raw_count group)
    (raw_errors group)
    (BuildAggregateDuration (raw_min_duration_ns group)
       (group_ratio (raw_total_duration_ns group) (raw_count group))
       (raw_max_duration_ns group) (raw_total_duration_ns group))
    ((λ name, "syscall:" +:+ name +:+ ":entry") <$> name)
    ((λ name, "syscall:" +:+ name +:+ ":exit") <$> name).

Definition group_cmp (left right : SyscallAggregateGroup) : comparison :=
  then_with
    (then_with (ad_total (sg_duration_ns right) ?= ad_total (sg_duration_ns left))
       (sg_count right ?= sg_count left))
    (sg_syscall_number left ?= sg_syscall_number right).

Section report.
Context `{SerdeJson, Os}.

Record SyscallAggregateResult := BuildSyscallAggregateResult {
  sa_schema_version : SchemaVersion;
  sa_ok : bool;
  sa_session_id : string;
  sa_status : SessionStatus;
  sa_target : TargetIdentity;
  sa_name : option string;
  sa_duration_ms : Z;
  sa_groups : list SyscallAggregateGroup;
  sa_collection : SyscallAggregateCollectionSummary;
  sa_warnings : list Warning }.

(** [validate]; the requirements are constants. *)
Record SyscallAggregateValidationResult := BuildSyscallAggregateValidationResult {
  sv_schema_version : SchemaVersion;
  sv_ok : bool;
  sv_valid : bool;
  sv_target : TargetIdentity;
  sv_needs_ebpf : bool;
  sv_target_mutation : bool;
  sv_ebpf : CheckResult;
  sv_issues : list ValidationIssue;
  sv_warnings : list Warning }.
Definition syscall_validate (report : ProcessReport) :
    io SyscallAggregateError SyscallAggregateValidationResult :=
  _ ← map_io_err SyscallAggregateError.Inspect (verify_target (pr_target report));
  capabilities ← map_io_err SyscallAggregateError.Doctor doctor_run;
  let issues :=
    if negb (cap_tracepoint (pr_capabilities report)) then
      [BuildValidationIssue ErrorCode.PermissionDenied
         "syscall aggregation requires effective eBPF tracepoint privileges"]
    else [] in
  _ ← map_io_err SyscallAggregateError.Inspect (verify_target (pr_target report));
  mret (BuildSyscallAggregateValidationResult SchemaVersion.V2 true (len issues =? 0)
          (pr_target report) true false (sc_ebpf_permissions (cr_checks capabilities)) issues []).

(** [analyze]. *)
Definition syscall_analyze (report : ProcessReport) (spec : SyscallAggregateSpec)
    (session_id : string) (capture : SyscallCapture) :
    io SyscallAggregateError SyscallAggregateResult :=
  _ ← map_io_err SyscallAggregateError.Inspect (verify_target (pr_target report));
  let groups := sort_by (λ left right, not_greater (group_cmp left right))
    (normalize_group <$> filter (λ group, raw_count group ≠ 0) (cap_groups capture)) in
  let complete := (cap_unmatched_exits capture =? 0) && (cap_inflight_at_end capture =? 0)
    && (cap_dropped_aggregates capture =? 0) in
  let warnings :=
    (if negb (cap_dropped_aggregates capture =? 0) then
       [warning "SYSCALL_AGGREGATES_DROPPED"
          (to_decimal (cap_dropped_aggregates capture)
           +:+ " syscall lifecycles could not be retained; increase max_groups or max_inflight")]
     else [])
    ++ (if negb (cap_unmatched_exits capture =? 0) || negb (cap_inflight_at_end capture =? 0) then
          [warning "SYSCALL_LIFECYCLES_UNMATCHED"
             (to_decimal (cap_unmatched_exits capture) +:+ " exits had no start and "
              +:+ to_decimal (cap_inflight_at_end capture)
              +:+ " starts remained open at capture end")]
        else []) in
  _ ← map_io_err SyscallAggregateError.Inspect (verify_target (pr_target report));
  mret (BuildSyscallAggregateResult SchemaVersion.V2 true session_id SessionStatus.Completed
          (pr_target report) (spec_name spec) (spec_duration_ms spec) groups
          (BuildSyscallAggregateCollectionSummary
             (if complete then SyscallAggregateCompleteness.Complete
              else SyscallAggregateCompleteness.Incomplete)
             (cap_observed_entries capture) (cap_matched_exits capture)
             (cap_unmatched_exits capture) (cap_inflight_at_end capture)
             (cap_dropped_aggregates capture) (spec_max_groups spec) (len (cap_groups capture))
             (group_ratio (len (cap_groups capture)) (Z.max (spec_max_groups spec) 1)))
          warnings).
End report.

(** ** Fields *)
Definition encode_fields (fields : list Z) : list Z := encode_layout (pair 8%nat <$> fields).
Lemma u64_layout_size fields : layout_size (pair 8%nat <$> fields) = len fields * 8.
Proof.
  induction fields as [|x l IH]; [done|]. rewrite len_cons, fmap_cons.
  change (8 + layout_size (pair 8%nat <$> l) = (len l + 1) * 8). rewrite IH. lia.
Qed.
Lemma u64_layout_wf fields : Forall in_u64 fields → layout_wf (pair 8%nat <$> fields).
Proof.
  intros Hf. apply Forall_fmap. eapply Forall_impl; [exact Hf|].
  intros x [? ?]. unfold u64_max in *. simpl. lia.
Qed.
Lemma decode_encode_fields map fields :
  Forall in_u64 fields →
  decode_u64_fields (length fields) map (encode_fields fields) = Ok fields.
Proof.
  intros Hf. unfold decode_u64_fields, encode_fields.
  rewrite encode_layout_len, u64_layout_size. unfold len at 1. rewrite Z.eqb_refl.
  change (negb true) with false. cbv iota.
  match goal with |- or_panic ?m = _ => assert (m = Some fields) as ->; [|done] end.
  apply mapM_Some. apply Forall2_same_length_lookup. rewrite length_seq. split; [done|].
  intros i index x (-> & Hi)%lookup_seq Hx. simpl plus.
  apply (layout_field _ i 8 x); [by rewrite list_lookup_fmap, Hx|by apply u64_layout_wf| |done].
  rewrite <-fmap_take, u64_layout_size. unfold len. rewrite length_take_le by lia. done.
Qed.

(** ** Adding up the CPUs *)

(** The counters of one CPU. *)
Record Cell := BuildCell {
  cell_count : Z; cell_errors : Z; cell_total : Z; cell_min : Z; cell_max : Z }.
Definition cell_fields (c : Cell) : list Z :=
  [cell_count c; cell_errors c; cell_total c; cell_min c; cell_max c].
Definition encode_cell (c : Cell) : list Z := encode_fields (cell_fields c).
Definition cell_wf (c : Cell) : Prop := Forall in_u64 (cell_fields c).
Definition live (cells : list Cell) : list Cell := filter (λ c, cell_count c ≠ 0) cells.
Definition total_of (f : Cell → Z) (cells : list Cell) : Z := foldr (λ c acc, f c + acc) 0 cells.

(** The sum the loop computes, over the CPUs that counted anything. *)
Definition group_of (number : Z) (cells : list Cell) : RawSyscallGroup :=
  let cells := live cells in
  BuildRawSyscallGroup number
    (Z.min (total_of cell_count cells) u64_max)
    (Z.min (total_of cell_errors cells) u64_max)
    (Z.min (total_of cell_total cells) u64_max)
    (match cells with [] => 0 | _ => foldr (λ c acc, Z.min (cell_min c) acc) u64_max cells end)
    (foldr (λ c acc, Z.max (cell_max c) acc) 0 cells).

Lemma total_of_nonneg f cells : Forall (λ c, 0 ≤ f c) cells → 0 ≤ total_of f cells.
Proof. unfold total_of. induction 1; simpl; lia. Qed.
Lemma min_of_bounds (f : Cell → Z) cells :
  foldr (λ c acc, Z.min (f c) acc) u64_max cells ≤ u64_max.
Proof. induction cells; simpl; lia. Qed.

Lemma cell_decode map c :
  cell_wf c → decode_u64_fields 5 map (encode_cell c) = Ok (cell_fields c).
Proof. apply (decode_encode_fields map (cell_fields c)). Qed.
Lemma live_cons c cells :
  live (c :: cells) = if cell_count c =? 0 then live cells else c :: live cells.
Proof.
  unfold live. rewrite filter_cons.
  destruct (Z.eqb_spec (cell_count c) 0); by case_decide.
Qed.
Lemma live_wf cells : Forall cell_wf cells → Forall cell_wf (live cells).
Proof. intros Hc. rewrite Forall_forall in *. intros c [_ Hin]%list_elem_of_filter. eauto. Qed.

Lemma cell_wf_bounds c :
  cell_wf c → 0 ≤ cell_count c ≤ u64_max ∧ 0 ≤ cell_errors c ≤ u64_max
    ∧ 0 ≤ cell_total c ≤ u64_max ∧ 0 ≤ cell_min c ≤ u64_max ∧ 0 ≤ cell_max c ≤ u64_max.
Proof.
  unfold cell_wf, cell_fields. rewrite !Forall_cons. unfold in_u64. tauto.
Qed.

(** What the loop makes of an accumulator. *)
Lemma add_cpus_spec cells n c e t lo hi :
  Forall cell_wf cells → in_u64 c → in_u64 e → in_u64 t →
  add_cpus (BuildRawSyscallGroup n c e t lo hi) (encode_cell <$> cells)
  = Ok (BuildRawSyscallGroup n
          (Z.min (c + total_of cell_count (live cells)) u64_max)
          (Z.min (e + total_of cell_errors (live cells)) u64_max)
          (Z.min (t + total_of cell_total (live cells)) u64_max)
          (foldl (λ acc cell, Z.min acc (cell_min cell)) lo (live cells))
          (foldl (λ acc cell, Z.max acc (cell_max cell)) hi (live cells))).
Proof.
  intros Hwf. revert c e t lo hi.
  induction Hwf as [|cell cells Hcell Hcells IH]; intros c e t lo hi Hc He Ht.
  { unfold in_u64 in *. simpl. unfold live. simpl. do 2 f_equal; lia. }
  rewrite fmap_cons. cbn [add_cpus]. rewrite cell_decode by done.
  pose proof (cell_wf_bounds _ Hcell) as (? & ? & ? & ? & ?).
  cbn [mbind res_bind add_cpu cell_fields lookup list_lookup option_bind]. rewrite live_cons.
  destruct (Z.eqb_spec (cell_count cell) 0) as [Hz|Hnz]; cbn [or_panic mbind res_bind].
  { by apply IH. }
  assert (∀ f, Forall (λ c, 0 ≤ f c) (live cells) → 0 ≤ total_of f (live cells)) as Hn
    by (intros f; apply total_of_nonneg).
  assert (Forall (λ c, 0 ≤ cell_count c ∧ 0 ≤ cell_errors c ∧ 0 ≤ cell_total c) (live cells)) as Hl.
  { eapply Forall_impl; [by apply live_wf|]. intros x Hx%cell_wf_bounds. lia. }
  assert (0 ≤ total_of cell_count (live cells)) by (apply Hn; eapply Forall_impl; [done|]; simpl; tauto).
  assert (0 ≤ total_of cell_errors (live cells)) by (apply Hn; eapply Forall_impl; [done|]; simpl; tauto).
  assert (0 ≤ total_of cell_total (live cells)) by (apply Hn; eapply Forall_impl; [done|]; simpl; tauto).
  unfold saturating_add_u64, in_u64 in *. simpl. rewrite IH by lia. simpl.
  do 2 f_equal; lia.
Qed.

Lemma foldl_min cells lo :
  lo ≤ u64_max →
  foldl (λ acc cell, Z.min acc (cell_min cell)) lo cells
  = Z.min lo (foldr (λ c acc, Z.min (cell_min c) acc) u64_max cells).
Proof. revert lo. induction cells as [|c l IH]; intros lo Hlo; simpl; [|rewrite IH]; lia. Qed.
Lemma foldl_max cells hi :
  0 ≤ hi →
  foldl (λ acc cell, Z.max acc (cell_max cell)) hi cells
  = Z.max hi (foldr (λ c acc, Z.max (cell_max c) acc) 0 cells).
Proof. revert hi. induction cells as [|c l IH]; intros hi Hhi; simpl; [|rewrite IH]; lia. Qed.
Lemma foldr_max_nonneg cells : 0 ≤ foldr (λ c acc, Z.max (cell_max c) acc) 0 cells.
Proof. induction cells; simpl; lia. Qed.
Lemma live_total cells :
  Forall cell_wf cells → live cells ≠ [] → 0 < total_of cell_count (live cells).
Proof.
  intros Hwf Hne. pose proof (live_wf _ Hwf) as Hl.
  assert (Forall (λ c, 0 < cell_count c) (live cells)) as Hpos.
  { rewrite Forall_forall in *. intros c Hc. pose proof (cell_wf_bounds _ (Hl _ Hc)).
    apply list_elem_of_filter in Hc as [Hnz _]. lia. }
  destruct Hpos as [|c l Hc Hpos]; [done|]. simpl.
  assert (0 ≤ total_of cell_count l); [|lia].
  apply total_of_nonneg. eapply Forall_impl; [done|]. simpl. lia.
Qed.

Lemma sum_group_spec number cells :
  Forall cell_wf cells →
  sum_group number (encode_cell <$> cells) = Ok (group_of number cells).
Proof.
  intros Hwf. unfold sum_group. rewrite add_cpus_spec by (done || (unfold in_u64; done)).
  cbn [mbind res_bind raw_count raw_syscall_number raw_errors raw_total_duration_ns
       raw_max_duration_ns]. unfold group_of.
  rewrite foldl_min, foldl_max by done. rewrite !Z.add_0_l.
  pose proof (live_total _ Hwf) as Hpos. pose proof (foldr_max_nonneg (live cells)).
  pose proof (min_of_bounds cell_min (live cells)).
  destruct (live cells) as [|c l]; [done|]. specialize (Hpos ltac:(done)).
  rewrite (proj2 (Z.eqb_neq _ _)) by (unfold u64_max; lia). do 2 f_equal; lia.
Qed.

#[global] Instance total_of_proper f : Proper ((≡ₚ) ==> (=)) (total_of f).
Proof.
  intros l k Hp. unfold total_of. induction Hp; simpl; lia.
Qed.
Lemma group_of_perm number cells cells' :
  cells ≡ₚ cells' → group_of number cells = group_of number cells'.
Proof.
  intros Hp. assert (live cells ≡ₚ live cells') as Hl by (unfold live; by rewrite Hp).
  unfold group_of.
  assert (∀ l k : list Cell, l ≡ₚ k →
    foldr (λ c acc, Z.min (cell_min c) acc) u64_max l
    = foldr (λ c acc, Z.min (cell_min c) acc) u64_max k) as Hmin
    by (intros l k H'; induction H'; simpl; lia).
  assert (∀ l k : list Cell, l ≡ₚ k →
    foldr (λ c acc, Z.max (cell_max c) acc) 0 l
    = foldr (λ c acc, Z.max (cell_max c) acc) 0 k) as Hmax
    by (intros l k H'; induction H'; simpl; lia).
  rewrite !(total_of_proper _ _ _ Hl), (Hmin _ _ Hl), (Hmax _ _ Hl). f_equal.
  destruct (live cells), (live cells'); [done| | |done].
  - by apply Permutation_nil_cons in Hl.
  - symmetry in Hl. by apply Permutation_nil_cons in Hl.
Qed.

(** The counters of a system call.  Reading well-formed per-CPU values
    never fails, and gives the sums over the CPUs that counted something,
    saturated at 64 bits, the smallest minimum and the largest maximum among
    them, and a minimum of zero when no CPU did; the order of the CPUs does not
    matter.  A value of another size is refused with its size. *)
Theorem sum_group_refines (number : Z) (cells cells' : list Cell) (bad : list Z)
    (rest : list (list Z)) (Hwf : Forall cell_wf cells) (Hperm : cells ≡ₚ cells') :
  sum_group number (encode_cell <$> cells) = Ok (group_of number cells)
  ∧ sum_group number (encode_cell <$> cells') = Ok (group_of number cells)
  ∧ (len bad ≠ 40 →
     sum_group number ((encode_cell <$> cells) ++ bad :: rest)
     = Err (AggregateError.MalformedMapValue "syscall_aggregate_groups" 40 (len bad))).
Proof.
  split; [by apply sum_group_spec|]. split.
  { rewrite (group_of_perm _ _ _ Hperm). apply sum_group_spec. by rewrite <-Hperm. }
  intros Hbad. unfold sum_group.
  assert (∀ g, add_cpus g ((encode_cell <$> cells) ++ bad :: rest)
    = Err (AggregateError.MalformedMapValue "syscall_aggregate_groups" 40 (len bad))) as Herr.
  { clear Hperm. induction Hwf as [|c l Hc _ IH]; intros g.
    - cbn [fmap list_fmap app add_cpus]. unfold decode_u64_fields.
      by rewrite (proj2 (Z.eqb_neq _ _)) by done.
    - rewrite fmap_cons. cbn [app add_cpus]. rewrite cell_decode by done.
      cbn [mbind res_bind add_cpu cell_fields lookup list_lookup option_bind].
      destruct (cell_count c =? 0); apply IH. }
  by rewrite Herr.
Qed.

(** ** The inventory *)
Definition precedes (x y : SyscallAggregateGroup) : Prop :=
  let tx := ad_total (sg_duration_ns x) in let ty := ad_total (sg_duration_ns y) in
  ty < tx ∨ (tx = ty ∧ (sg_count y < sg_count x
    ∨ (sg_count x = sg_count y ∧ sg_syscall_number x ≤ sg_syscall_number y))).
Lemma group_cmp_precedes x y : not_greater (group_cmp x y) = true ↔ precedes x y.
Proof.
  unfold not_greater, group_cmp, then_with, precedes.
  destruct (Z.compare_spec (ad_total (sg_duration_ns y)) (ad_total (sg_duration_ns x)));
  destruct (Z.compare_spec (sg_count y) (sg_count x));
  destruct (Z.compare_spec (sg_syscall_number x) (sg_syscall_number y));
  split; try done; intros; lia.
Qed.
#[local] Instance group_order : TotalPreorderB (λ x y, not_greater (group_cmp x y)).
Proof.
  split.
  - intros x y. rewrite !group_cmp_precedes. unfold precedes. lia.
  - intros x y z. rewrite !group_cmp_precedes. unfold precedes. lia.
Qed.

(** The reported inventory.  It holds the groups that counted anything,
    each once, by decreasing total time, then decreasing count, then number; the
    collection is complete exactly when no exit lacked an entry, no entry stayed
    open and nothing was dropped, and exactly then there is no warning; every
    mean divides by a nonzero count; and the target's identity was confirmed
    before and after. *)
Theorem syscall_inventory `{SerdeJson, Os} (report : ProcessReport)
    (spec : SyscallAggregateSpec) (session_id : string) (capture : SyscallCapture)
    (w w' : World) (r : SyscallAggregateResult)
    (Hok : syscall_analyze report spec session_id capture w = (Ok r, w')) :
  sa_groups r ≡ₚ normalize_group <$> filter (λ group, raw_count group ≠ 0) (cap_groups capture)
  ∧ StronglySorted precedes (sa_groups r)
  ∧ (cs_completeness (sa_collection r) = SyscallAggregateCompleteness.Complete ↔
     cap_unmatched_exits capture = 0 ∧ cap_inflight_at_end capture = 0
     ∧ cap_dropped_aggregates capture = 0)
  ∧ (sa_warnings r = [] ↔
     cs_completeness (sa_collection r) = SyscallAggregateCompleteness.Complete)
  ∧ Forall (λ g, sg_count g ≠ 0
      ∧ ad_mean (sg_duration_ns g) = group_ratio (ad_total (sg_duration_ns g)) (sg_count g))
      (sa_groups r)
  ∧ (∃ w1, verify_target (pr_target report) w = (Ok (), w1))
  ∧ (∃ w2, verify_target (pr_target report) w2 = (Ok (), w')).
Proof.
  unfold syscall_analyze in Hok. io_steps.
  repeat match goal with u : unit |- _ => destruct u end. cbn [sa_groups sa_collection sa_warnings].
  split; [apply sort_by_perm|]. split.
  { eapply StronglySorted_impl; [|apply sort_by_sorted, _]. intros x y. apply group_cmp_precedes. }
  split.
  { cbn [cs_completeness]. repeat case_match; bool_props; split; try done; try lia. }
  split.
  { destruct (Z.eqb_spec (cap_unmatched_exits capture) 0),
      (Z.eqb_spec (cap_inflight_at_end capture) 0),
      (Z.eqb_spec (cap_dropped_aggregates capture) 0); done. }
  split; [|eauto].
  rewrite sort_by_perm. apply Forall_fmap, Forall_forall. intros g [Hg _]%list_elem_of_filter.
  by split.
Qed.

(** ** Selector hints *)
Lemma syscall_names_valid :
  Forall (λ '(_, name), valid_tracepoint_component name = true) syscall_names.
Proof. apply (bool_decide_unpack _). by vm_compute. Qed.

Lemma hint_fields name boundary :
  valid_tracepoint_component name = true →
  contains_char ":" boundary = false →
  split ":" ("syscall:" +:+ name +:+ ":" +:+ boundary) = ["syscall"; name; boundary]%string.
Proof.
  intros Hn Hb. change ("syscall:" +:+ ?t) with ("syscall" +:+ String ":" t).
  rewrite split_app by done. f_equal. change (":" +:+ boundary) with (String ":" boundary).
  rewrite split_app, split_no_char; [done..|].
  unfold valid_tracepoint_component in Hn. bool_props.
  eapply all_bytes_no_char; [done|]. done.
Qed.

Lemma hint_selector `{SerdeJson, RegexEngine} name boundary event_type :
  valid_tracepoint_component name = true →
  (boundary = "entry"%string ∧ event_type = EventType.SyscallEntry)
  ∨ (boundary = "exit"%string ∧ event_type = EventType.SyscallExit) →
  selector_parse ("syscall:" +:+ name +:+ ":" +:+ boundary) = Ok (Syscall event_type name).
Proof.
  intros Hv Hb. unfold selector_parse.
  rewrite (starts_with_app "syscall:").
  change (starts_with "uprobe:" _) with false. cbv iota. unfold parse_syscall.
  rewrite hint_fields by (done || by destruct Hb as [[-> _]|[-> _]]).
  change (valid_linux_component name) with (valid_tracepoint_component name). rewrite Hv.
  by destruct Hb as [[-> ->]|[-> ->]].
Qed.

(** Selector hints.  A group carries hints exactly when its number is in
    the table of names, and then both are selectors the validator and the
    correlator accept: the entry and the exit of the named call, which the
    validator, using its own table, resolves to the number that was counted. *)
Theorem syscall_hints `{SerdeJson, RegexEngine} (group : RawSyscallGroup) :
  let g := normalize_group group in
  match syscall_name (raw_syscall_number group) with
  | None => sg_entry_selector_hint g = None ∧ sg_exit_selector_hint g = None
  | Some name =>
      ∃ entry exit, sg_entry_selector_hint g = Some entry ∧ sg_exit_selector_hint g = Some exit
        ∧ selector_parse entry = Ok (Syscall EventType.SyscallEntry name)
        ∧ selector_parse exit = Ok (Syscall EventType.SyscallExit name)
        ∧ supports_exact (Syscall EventType.SyscallEntry name)
            (Syscall EventType.SyscallExit name) = true
        ∧ parse_linux_selector entry
          = Ok (BuildResolvedLinuxSelector EventType.SyscallEntry HostProbeKind.Syscall
                  "syscalls" name (Some (raw_syscall_number group)) None None,
                EndpointKind.SyscallEntry name)
        ∧ parse_linux_selector exit
          = Ok (BuildResolvedLinuxSelector EventType.SyscallExit HostProbeKind.Syscall
                  "syscalls" name (Some (raw_syscall_number group)) None None,
                EndpointKind.SyscallExit name)
  end.
Proof.
  simpl. destruct (syscall_name (raw_syscall_number group)) as [name|] eqn:En; [|done].
  assert (valid_tracepoint_component name = true) as Hv.
  { pose proof syscall_names_valid as Hall. rewrite Forall_forall in Hall.
    apply (assoc_elem _ _ _ syscall_names_NoDup) in En. by specialize (Hall _ En). }
  apply syscall_tables_agree in En.
  exists ("syscall:" +:+ name +:+ ":" +:+ "entry"), ("syscall:" +:+ name +:+ ":" +:+ "exit").
  split; [done|]. split; [done|].
  split; [apply (hint_selector name "entry"); auto|].
  split; [apply (hint_selector name "exit"); auto|].
  split; [by apply bool_decide_eq_true|].
  unfold parse_linux_selector.
  rewrite (hint_fields name "entry"), (hint_fields name "exit") by done. simpl.
  by rewrite Hv, En.
Qed.
