(* ===== verification/BpfAggregate.v ===== *)
(** * The BPF programs behind aggregated system calls

    [bpf/xprobe.bpf.c], the programs of [syscall_aggregate_groups]: they pair the
    entries and exits of system calls in the kernel and add the durations up per
    system call and CPU.  The maps are the state; what the kernel answers in a run
    of a program (current task, clock, CPU, whether an element could be stored,
    which elements the LRU map dropped to make room) is its environment.  Runs of
    the programs follow one another: the cells of a group belong to one CPU each, an
    inflight element to one thread, and the summary is updated atomically.

    The abstract view is a list of completed calls, [observed]; the theorems say
    that what [xprobe/collector/src/syscall_aggregate.rs] reads from the maps is
    that list, summed up. *)
From stdpp Require Import gmap.
From S2P Require Import Prelude BTree RustString Text Bytes Ring Protocol Selector Measure.
From S2P Require Import Os Process Inspect Resolve Uprobe Usdt Syscalls Validate Linux Bpf.
From S2P Require Import SyscallAggregate.
#[local] Open Scope Z_scope.

Record xprobe_syscall_aggregate_config := Build_xprobe_syscall_aggregate_config {
  ac_pidns_dev : Z;
  ac_pidns_ino : Z;
  ac_target_pid : Z;
  ac_armed : Z }.
Record xprobe_syscall_start := Build_xprobe_syscall_start {
  ss_timestamp_ns : Z;
  ss_syscall_number : Z }.
Record xprobe_syscall_aggregate_summary := Build_xprobe_syscall_aggregate_summary {
  su_entries : Z;
  su_exits : Z;
  su_unmatched_exits : Z;
  su_dropped_aggregates : Z }.

(** The value of [syscall_aggregate_config], as the C structure lays it out. *)
Definition read_aggregate_config (bytes : list Z) : option xprobe_syscall_aggregate_config :=
  dev ← field bytes 0 8; ino ← field bytes 8 16; pid ← field bytes 16 20;
  armed ← field bytes 20 24;
  Some (Build_xprobe_syscall_aggregate_config dev ino pid armed).

(** The environment of a run: [ae_inflight_stored] is whether the update of the inflight map
    succeeds, [ae_evicted] the threads the LRU map drops meanwhile, [ae_group_stored] whether
    an element for a group can be had while the map is not full. *)
Record aggregate_env := Build_aggregate_env {
  ae_ns_current_pid_tgid : Z → Z → option (Z * Z);
  ae_ktime_ns : Z;
  ae_cpu : nat;
  ae_inflight_stored : bool;
  ae_evicted : list Z;
  ae_group_stored : bool }.

(** The maps [syscall_aggregate_inflight], [syscall_aggregate_groups] (an element has a cell
    per CPU) and [syscall_aggregate_summary]. *)
Record aggregate_maps := Build_aggregate_maps {
  am_inflight : gmap Z xprobe_syscall_start;
  am_groups : gmap Z (list Cell);
  am_summary : xprobe_syscall_aggregate_summary }.
Definition fresh_maps : aggregate_maps :=
  Build_aggregate_maps ∅ ∅ (Build_xprobe_syscall_aggregate_summary 0 0 0 0).

(** The thread of the target a program runs in, if it is armed and runs in one. *)
Definition xprobe_target_syscall_aggregate (env : aggregate_env)
    (current : xprobe_syscall_aggregate_config) : option Z :=
  if ac_armed current =? 0 then None
  else
    '(tgid, pid) ← ae_ns_current_pid_tgid env (ac_pidns_dev current) (ac_pidns_ino current);
    if ac_target_pid current =? tgid then Some pid else None.

(** [xprobe_count_syscall_summary] on each field. *)
Definition count_entry (s : xprobe_syscall_aggregate_summary) :=
  Build_xprobe_syscall_aggregate_summary (count_u64 (su_entries s)) (su_exits s)
    (su_unmatched_exits s) (su_dropped_aggregates s).
Definition count_exit (s : xprobe_syscall_aggregate_summary) :=
  Build_xprobe_syscall_aggregate_summary (su_entries s) (count_u64 (su_exits s))
    (su_unmatched_exits s) (su_dropped_aggregates s).
Definition count_unmatched (s : xprobe_syscall_aggregate_summary) :=
  Build_xprobe_syscall_aggregate_summary (su_entries s) (su_exits s)
    (count_u64 (su_unmatched_exits s)) (su_dropped_aggregates s).
Definition count_dropped (s : xprobe_syscall_aggregate_summary) :=
  Build_xprobe_syscall_aggregate_summary (su_entries s) (su_exits s)
    (su_unmatched_exits s) (count_u64 (su_dropped_aggregates s)).

Definition evict {A} (threads : list Z) (inflight : gmap Z A) : gmap Z A :=
  foldr delete inflight threads.

Definition xprobe_aggregate_syscall_entry (env : aggregate_env)
    (current : xprobe_syscall_aggregate_config) (argument : Z) (maps : aggregate_maps) :
    aggregate_maps :=
  match xprobe_target_syscall_aggregate env current with
  | None => maps
  | Some thread_id =>
      if as_i64 argument <? 0 then maps
      else
        let start := Build_xprobe_syscall_start (ae_ktime_ns env) (argument mod 2 ^ 32) in
        let inflight := evict (ae_evicted env) (am_inflight maps) in
        if negb (ae_inflight_stored env) then
          Build_aggregate_maps inflight (am_groups maps) (count_dropped (am_summary maps))
        else
          Build_aggregate_maps (<[thread_id := start]> inflight) (am_groups maps)
            (count_entry (am_summary maps))
  end.

Section exit.
Context (cpus : nat) (max_groups : Z).
Definition zero_cell : Cell := BuildCell 0 0 0 0 0.

(** [bpf_map_lookup_elem] and [bpf_map_update_elem] with [BPF_NOEXIST] on the groups: a new
    element has the value on the CPU of the program and zeroes elsewhere. *)
Definition group_lookup (env : aggregate_env) (number : Z) (groups : gmap Z (list Cell)) :
    option Cell :=
  groups !! number ≫= (.!! ae_cpu env).
Definition group_create (env : aggregate_env) (number : Z) (initial : Cell)
    (groups : gmap Z (list Cell)) : bool * gmap Z (list Cell) :=
  if bool_decide (is_Some (groups !! number)) || (max_groups <=? Z.of_nat (size groups))
     || negb (ae_group_stored env)
  then (false, groups)
  else (true, <[number := <[ae_cpu env := initial]> (replicate cpus zero_cell)]> groups).

(** The counters of a call added to a cell. *)
Definition account (duration_ns argument : Z) (aggregate : Cell) : Cell :=
  BuildCell (count_u64 (cell_count aggregate))
    (if as_i64 argument <? 0 then count_u64 (cell_errors aggregate) else cell_errors aggregate)
    ((cell_total aggregate + duration_ns) mod 2 ^ 64)
    (if (cell_min aggregate =? 0) || (duration_ns <? cell_min aggregate) then duration_ns
     else cell_min aggregate)
    (if cell_max aggregate <? duration_ns then duration_ns else cell_max aggregate).

Definition xprobe_aggregate_syscall_exit (env : aggregate_env)
    (current : xprobe_syscall_aggregate_config) (argument : Z) (maps : aggregate_maps) :
    aggregate_maps :=
  match xprobe_target_syscall_aggregate env current with
  | None => maps
  | Some thread_id =>
      match am_inflight maps !! thread_id with
      | None =>
          Build_aggregate_maps (am_inflight maps) (am_groups maps)
            (count_unmatched (am_summary maps))
      | Some start =>
          let syscall_number := ss_syscall_number start in
          let duration_ns := (ae_ktime_ns env - ss_timestamp_ns start) mod 2 ^ 64 in
          let inflight := delete thread_id (am_inflight maps) in
          let summary := count_exit (am_summary maps) in
          let initial := BuildCell 0 0 0 duration_ns 0 in
          let '(aggregate, groups) :=
            match group_lookup env syscall_number (am_groups maps) with
            | Some aggregate => (Some aggregate, am_groups maps)
            | None =>
                let '(_, groups) :=
                  group_create env syscall_number initial (am_groups maps) in
                (group_lookup env syscall_number groups, groups)
            end in
          match aggregate with
          | None => Build_aggregate_maps inflight groups (count_dropped summary)
          | Some aggregate =>
              Build_aggregate_maps inflight
                (alter (λ cells, <[ae_cpu env := account duration_ns argument aggregate]> cells)
                   syscall_number groups)
                summary
          end
      end
  end.

(** A sequence of runs. *)
Inductive aggregate_run : Type :=
| Entry (env : aggregate_env) (argument : Z)
| Exit (env : aggregate_env) (argument : Z).
Definition run_env (run : aggregate_run) : aggregate_env :=
  match run with Entry env _ | Exit env _ => env end.
Definition aggregate_step (current : xprobe_syscall_aggregate_config) (maps : aggregate_maps)
    (run : aggregate_run) : aggregate_maps :=
  match run with
  | Entry env argument => xprobe_aggregate_syscall_entry env current argument maps
  | Exit env argument => xprobe_aggregate_syscall_exit env current argument maps
  end.
Definition aggregate_runs (current : xprobe_syscall_aggregate_config)
    (runs : list aggregate_run) : aggregate_maps :=
  foldl (aggregate_step current) fresh_maps runs.
End exit.

(** ** The calls the programs see *)

(** A call that was entered and left. *)
Record call := BuildCall {
  call_number : Z;
  call_cpu : nat;
  call_duration : Z;
  call_failed : bool }.

(** The calls counted, the open starts, the entries, the exits without a start, the starts
    that could not be stored, the calls without a group, and the starts that were dropped by
    the map or replaced by another start of their thread. *)
Record observed := BuildObserved {
  ob_calls : list call;
  ob_open : gmap Z xprobe_syscall_start;
  ob_entries : Z;
  ob_unmatched : Z;
  ob_refused : Z;
  ob_ungrouped : Z;
  ob_lost : Z }.
Definition nothing_observed : observed := BuildObserved [] ∅ 0 0 0 0 0.
Definition numbers (calls : list call) : gset Z := list_to_set (call_number <$> calls).

Section observe.
Context (max_groups : Z) (current : xprobe_syscall_aggregate_config).

Definition observe_entry (env : aggregate_env) (argument : Z) (ob : observed) : observed :=
  match xprobe_target_syscall_aggregate env current with
  | None => ob
  | Some thread =>
      if as_i64 argument <? 0 then ob
      else
        let kept := evict (ae_evicted env) (ob_open ob) in
        let start := Build_xprobe_syscall_start (ae_ktime_ns env) (argument mod 2 ^ 32) in
        let open := if ae_inflight_stored env then <[thread := start]> kept else kept in
        let stored := Z.b2z (ae_inflight_stored env) in
        BuildObserved (ob_calls ob) open (ob_entries ob + stored) (ob_unmatched ob)
          (ob_refused ob + (1 - stored)) (ob_ungrouped ob)
          (ob_lost ob + (Z.of_nat (size (ob_open ob)) + stored - Z.of_nat (size open)))
  end.
Definition observe_exit (env : aggregate_env) (argument : Z) (ob : observed) : observed :=
  match xprobe_target_syscall_aggregate env current with
  | None => ob
  | Some thread =>
      match ob_open ob !! thread with
      | None =>
          BuildObserved (ob_calls ob) (ob_open ob) (ob_entries ob) (ob_unmatched ob + 1)
            (ob_refused ob) (ob_ungrouped ob) (ob_lost ob)
      | Some start =>
          let number := ss_syscall_number start in
          let duration := (ae_ktime_ns env - ss_timestamp_ns start) mod 2 ^ 64 in
          let grouped := bool_decide (number ∈ numbers (ob_calls ob))
            || ((Z.of_nat (size (numbers (ob_calls ob))) <? max_groups) && ae_group_stored env) in
          BuildObserved
            (if grouped
             then BuildCall number (ae_cpu env) duration (as_i64 argument <? 0) :: ob_calls ob
             else ob_calls ob)
            (delete thread (ob_open ob)) (ob_entries ob) (ob_unmatched ob) (ob_refused ob)
            (ob_ungrouped ob + (1 - Z.b2z grouped)) (ob_lost ob)
      end
  end.
Definition observe_step (ob : observed) (run : aggregate_run) : observed :=
  match run with
  | Entry env argument => observe_entry env argument ob
  | Exit env argument => observe_exit env argument ob
  end.
Definition observe (runs : list aggregate_run) : observed :=
  foldl observe_step nothing_observed runs.
End observe.

(** ** Sums over calls *)
Definition duration_sum (calls : list call) : Z :=
  foldr (λ c acc, call_duration c + acc) 0 calls.
Definition duration_min (calls : list call) : Z :=
  foldr (λ c acc, Z.min (call_duration c) acc) u64_max calls.
Definition duration_max (calls : list call) : Z :=
  foldr (λ c acc, Z.max (call_duration c) acc) 0 calls.
Definition failures (calls : list call) : Z :=
  foldr (λ c acc, Z.b2z (call_failed c) + acc) 0 calls.
Definition call_count (calls : list call) : Z := foldr (λ c acc, 1 + acc) 0 calls.
Definition calls_of (number : Z) (calls : list call) : list call :=
  filter (λ c, call_number c = number) calls.
Definition calls_on (cpu : nat) (calls : list call) : list call :=
  filter (λ c, call_cpu c = cpu) calls.
(** The group of a system call. *)
Definition call_group (calls : list call) (number : Z) : RawSyscallGroup :=
  let calls := calls_of number calls in
  BuildRawSyscallGroup number (call_count calls) (failures calls) (duration_sum calls)
    (duration_min calls) (duration_max calls).

(** The calls of one CPU in its cell, and the cells of a group. *)
Definition cell_of (calls : list call) : Cell :=
  BuildCell (call_count calls) (failures calls) (duration_sum calls)
    (match calls with [] => 0 | _ => duration_min calls end) (duration_max calls).
Definition cells_of (cpus : nat) (number : Z) (calls : list call) : list Cell :=
  (λ cpu, cell_of (calls_on cpu (calls_of number calls))) <$> seq 0 cpus.

(** Durations are positive and their sum fits. *)
Definition durations_fit (calls : list call) : Prop :=
  Forall (λ c, 0 < call_duration c) calls ∧ duration_sum calls ≤ u64_max
  ∧ call_count calls ≤ u64_max.

Lemma call_count_len calls : call_count calls = len calls.
Proof. induction calls as [|c l IH]; [done|]. rewrite len_cons. simpl. lia. Qed.
Lemma failures_bounds calls : 0 ≤ failures calls ≤ call_count calls.
Proof. induction calls as [|c l IH]; simpl; [lia|]. destruct (call_failed c); simpl; lia. Qed.
Lemma duration_sum_nonneg calls :
  Forall (λ c, 0 < call_duration c) calls → 0 ≤ duration_sum calls.
Proof. induction 1; simpl; lia. Qed.
Lemma duration_min_bounds calls :
  Forall (λ c, 0 < call_duration c) calls → 0 < duration_min calls ≤ u64_max.
Proof. induction 1; simpl; [done|lia]. Qed.
Lemma duration_max_bounds calls :
  Forall (λ c, 0 < call_duration c) calls → 0 ≤ duration_max calls ≤ duration_sum calls.
Proof. induction 1 as [|c l Hc Hl IH]; simpl; [lia|]. pose proof (duration_sum_nonneg l Hl). lia. Qed.
Lemma call_count_nonneg calls : 0 ≤ call_count calls.
Proof. rewrite call_count_len. apply len_nonneg. Qed.
Lemma durations_fit_tail calls calls' :
  durations_fit (calls ++ calls') → durations_fit calls'.
Proof.
  intros (Hp & Hs & Hc). induction calls as [|c l IH]; [done|]. simpl in *.
  apply Forall_cons in Hp as [Hp Hl]. apply IH; [done|lia..].
Qed.
Lemma durations_fit_filter (P : call → Prop) `{∀ c, Decision (P c)} calls :
  durations_fit calls → durations_fit (filter P calls).
Proof.
  intros (Hp & Hs & Hc). induction calls as [|c l IH]; [done|].
  change (call_duration c + duration_sum l ≤ u64_max) in Hs.
  change (1 + call_count l ≤ u64_max) in Hc.
  apply Forall_cons in Hp as [Hc' Hl].
  pose proof (duration_sum_nonneg l Hl). pose proof (call_count_nonneg l).
  assert (durations_fit (filter P l)) as (Hp' & Hs' & Hn') by (apply IH; [done|lia..]).
  assert (duration_sum (filter P l) ≤ duration_sum l) as Hle1.
  { clear -Hl. induction Hl as [|x l Hx Hl IH]; [done|]. rewrite filter_cons.
    case_decide; simpl; lia. }
  assert (call_count (filter P l) ≤ call_count l) as Hle2.
  { clear. induction l as [|x l IH]; [done|]. rewrite filter_cons. case_decide; simpl; lia. }
  rewrite filter_cons. case_decide; [|done]. split; [by constructor|]. simpl. lia.
Qed.

(** A call added to the cell of its CPU. *)
Lemma count_u64_small n : 0 ≤ n < u64_max → count_u64 n = n + 1.
Proof. intros Hn. unfold count_u64, u64_max in *. apply Z.mod_small. lia. Qed.
Lemma account_cell c calls argument duration :
  durations_fit (c :: calls) → duration = call_duration c →
  call_failed c = (as_i64 argument <? 0) →
  account duration argument (cell_of calls) = cell_of (c :: calls)
  ∧ (calls = [] → account duration argument (BuildCell 0 0 0 duration 0) = cell_of [c]).
Proof.
  intros (Hp & Hs & Hn) -> Hf. simpl in Hs, Hn. apply Forall_cons in Hp as [Hc Hp].
  pose proof (failures_bounds calls). pose proof (call_count_nonneg calls).
  pose proof (duration_sum_nonneg calls Hp). pose proof (duration_min_bounds calls Hp).
  split; [|intros ->]; unfold account, cell_of; simpl; rewrite <-?Hf;
    [|destruct (call_failed c); simpl; rewrite ?Z.ltb_irrefl, ?orb_false_r;
      unfold u64_max in *; rewrite ?Z.mod_small by lia; f_equal;
      try (destruct (_ =? 0)); try destruct (Z.ltb_spec 0 (call_duration c)); lia || done].
  rewrite count_u64_small by lia. rewrite Z.mod_small by (unfold u64_max in *; lia).
  f_equal; [lia| |lia| |].
  - destruct (call_failed c); simpl; [rewrite count_u64_small|]; lia.
  - destruct calls as [|x calls]; [simpl; unfold u64_max in *; lia|].
    rewrite (proj2 (Z.eqb_neq _ 0)) by lia. cbn [orb].
    destruct (Z.ltb_spec (call_duration c) (duration_min (x :: calls))); simpl in *; lia.
  - destruct (Z.ltb_spec (duration_max calls) (call_duration c)); lia.
Qed.

(** ** Adding up the CPUs *)
Section by_cpu.
Context (op : Z → Z → Z) (e : Z) (f : call → Z).
Context (op_assoc : ∀ x y z, op (op x y) z = op x (op y z)).
Context (op_comm : ∀ x y, op x y = op y x) (op_e : op e e = e).
Definition fold_calls (calls : list call) : Z := foldr (λ c acc, op (f c) acc) e calls.

Lemma fold_one (g h : nat → Z) x k ks :
  NoDup ks → k ∈ ks → h k = op x (g k) → (∀ j, j ≠ k → h j = g j) →
  foldr (λ j acc, op (h j) acc) e ks = op x (foldr (λ j acc, op (g j) acc) e ks).
Proof.
  intros Hnd Hin Hk Hj. induction Hnd as [|j ks Hnot Hnd IH]; [by apply not_elem_of_nil in Hin|].
  simpl. apply elem_of_cons in Hin as [<-|Hin].
  - rewrite Hk, op_assoc. do 2 f_equal. clear -Hj Hnot. induction ks as [|i ks IH]; [done|].
    simpl. apply not_elem_of_cons in Hnot as [? Hnot]. by rewrite Hj, IH.
  - rewrite IH by done. rewrite Hj by set_solver. by rewrite <-!op_assoc, (op_comm _ x).
Qed.
Lemma fold_by_cpu cpus calls :
  Forall (λ c, (call_cpu c < cpus)%nat) calls →
  foldr (λ cpu acc, op (fold_calls (calls_on cpu calls)) acc) e (seq 0 cpus) = fold_calls calls.
Proof.
  induction 1 as [|c calls Hc Hcalls IH].
  - unfold calls_on, fold_calls. simpl. induction (seq 0 cpus) as [|k ks IHk]; [done|].
    simpl. by rewrite IHk.
  - simpl. rewrite <-IH. apply (fold_one _ _ _ (call_cpu c)).
    + apply NoDup_seq.
    + apply elem_of_seq. lia.
    + unfold calls_on. by rewrite filter_cons, decide_True.
    + intros j Hj. unfold calls_on. by rewrite filter_cons, decide_False by congruence.
Qed.
End by_cpu.

Lemma live_calls (parts : list (list call)) :
  Forall durations_fit parts →
  let cells := live (cell_of <$> parts) in
  total_of cell_count cells = foldr (λ l acc, call_count l + acc) 0 parts
  ∧ total_of cell_errors cells = foldr (λ l acc, failures l + acc) 0 parts
  ∧ total_of cell_total cells = foldr (λ l acc, duration_sum l + acc) 0 parts
  ∧ foldr (λ c acc, Z.min (cell_min c) acc) u64_max cells
    = foldr (λ l acc, Z.min (duration_min l) acc) u64_max parts
  ∧ foldr (λ c acc, Z.max (cell_max c) acc) 0 cells
    = foldr (λ l acc, Z.max (duration_max l) acc) 0 parts.
Proof.
  intros Hfit cells. subst cells.
  induction Hfit as [|part parts Hpart Hparts (H1 & H2 & H3 & H4 & H5)]; [done|].
  rewrite fmap_cons, live_cons. cbn [foldr]. rewrite <-H1, <-H2, <-H3, <-H4, <-H5.
  pose proof (min_of_bounds cell_min (live (cell_of <$> parts))).
  pose proof (foldr_max_nonneg (live (cell_of <$> parts))).
  destruct part as [|c part]; [simpl; change (duration_min []) with u64_max; lia|].
  destruct Hpart as (_ & _ & Hn). pose proof (call_count_nonneg part).
  change (cell_count (cell_of (c :: part))) with (1 + call_count part).
  rewrite (proj2 (Z.eqb_neq _ 0)) by lia. done.
Qed.

Lemma group_of_calls cpus number calls :
  Forall (λ c, (call_cpu c < cpus)%nat) calls → durations_fit calls →
  number ∈ numbers calls →
  group_of number (cells_of cpus number calls) = call_group calls number.
Proof.
  intros Hcpu Hfit Hin. unfold cells_of.
  rewrite (list_fmap_compose (λ cpu, calls_on cpu (calls_of number calls)) cell_of).
  assert (durations_fit (calls_of number calls)) as Hfit' by by apply durations_fit_filter.
  assert (Forall (λ c, (call_cpu c < cpus)%nat) (calls_of number calls)) as Hcpu'.
  { apply Forall_forall. intros c [_ Hc]%list_elem_of_filter. by eapply Forall_forall in Hcpu. }
  destruct (live_calls ((λ cpu, calls_on cpu (calls_of number calls)) <$> seq 0 cpus))
    as (H1 & H2 & H3 & H4 & H5).
  { apply Forall_fmap, Forall_forall. intros cpu _. by apply durations_fit_filter. }
  rewrite foldr_fmap in H1, H2, H3, H4, H5.
  pose proof (λ f, fold_by_cpu Z.add 0 f ltac:(lia) ltac:(lia) eq_refl cpus _ Hcpu') as Hsum.
  apply (λ H, eq_trans H (Hsum (λ _, 1))) in H1.
  apply (λ H, eq_trans H (Hsum (λ c, Z.b2z (call_failed c)))) in H2.
  apply (λ H, eq_trans H (Hsum call_duration)) in H3.
  apply (λ H, eq_trans H (fold_by_cpu Z.min u64_max call_duration ltac:(lia) ltac:(lia) eq_refl
    cpus _ Hcpu')) in H4.
  apply (λ H, eq_trans H (fold_by_cpu Z.max 0 call_duration ltac:(lia) ltac:(lia) eq_refl
    cpus _ Hcpu')) in H5.
  unfold group_of, call_group. rewrite H1, H2, H3, H4, H5. unfold fold_calls.
  destruct Hfit' as (_ & Hs & Hn). pose proof (failures_bounds (calls_of number calls)).
  f_equal; [by apply Z.min_l|apply Z.min_l; fold (failures (calls_of number calls)); lia|by apply Z.min_l|].
  destruct (live _) eqn:El; [|done]. exfalso. simpl in H1.
  unfold numbers in Hin. apply elem_of_list_to_set, list_elem_of_fmap in Hin as (c & -> & Hc).
  assert (c ∈ calls_of (call_number c) calls) as Hc' by by apply list_elem_of_filter.
  unfold fold_calls in H1. fold (call_count (calls_of (call_number c) calls)) in H1.
  rewrite call_count_len in H1.
  destruct (calls_of (call_number c) calls); [by apply not_elem_of_nil in Hc'|].
  rewrite len_cons in H1. pose proof (len_nonneg l). lia.
Qed.

(** ** The maps represent the calls *)
Section simulation.
Context (cpus : nat) (max_groups : Z) (current : xprobe_syscall_aggregate_config).
#[local] Abbreviation observe_step := (observe_step max_groups current).

(** What holds of the calls observed: ranges, and where every entry went. *)
Record observed_wf (ob : observed) : Prop := {
  ow_open : map_Forall (λ _ start, in_u32 (ss_syscall_number start)) (ob_open ob);
  ow_calls : Forall (λ c, in_u32 (call_number c) ∧ (call_cpu c < cpus)%nat) (ob_calls ob);
  ow_counts : 0 ≤ ob_unmatched ob ∧ 0 ≤ ob_refused ob ∧ 0 ≤ ob_ungrouped ob ∧ 0 ≤ ob_lost ob;
  ow_entries : ob_entries ob
    = call_count (ob_calls ob) + ob_ungrouped ob + Z.of_nat (size (ob_open ob)) + ob_lost ob }.
Definition tally (ob : observed) : Z :=
  ob_entries ob + call_count (ob_calls ob) + ob_ungrouped ob + ob_unmatched ob + ob_refused ob.

Lemma evict_spec {A} threads (inflight : gmap Z A) :
  evict threads inflight ⊆ inflight ∧ (size (evict threads inflight) ≤ size inflight)%nat.
Proof.
  assert (evict threads inflight ⊆ inflight) as Hsub.
  { induction threads as [|t l IH]; [done|]. simpl. etrans; [apply delete_subseteq|done]. }
  split; [done|]. by apply map_subseteq_size.
Qed.
Lemma observe_step_wf ob run :
  (ae_cpu (run_env run) < cpus)%nat → observed_wf ob →
  observed_wf (observe_step ob run) ∧ tally (observe_step ob run) ≤ tally ob + 1
  ∧ ∃ calls, ob_calls (observe_step ob run) = calls ++ ob_calls ob.
Proof.
  intros Hcpu Hwf. pose proof Hwf as [Ho Hc (H1 & H2 & H3 & H4) He].
  destruct run as [env argument|env argument]; simpl in *;
    unfold observe_entry, observe_exit;
    (destruct (xprobe_target_syscall_aggregate env current) as [thread|];
      [|split; [done|]; split; [lia|by exists []]]).
  - destruct (as_i64 argument <? 0); [split; [done|]; split; [lia|by exists []]|].
    destruct (evict_spec (ae_evicted env) (ob_open ob)) as [Hsub Hsize].
    split; [|split; [unfold tally; simpl; destruct (ae_inflight_stored env); simpl; lia|by exists []]].
    assert (map_Forall (λ _ start, in_u32 (ss_syscall_number start))
      (evict (ae_evicted env) (ob_open ob))) as Hk
      by (intros t start Ht; by eapply Ho, lookup_weaken).
    set (kept := evict _ _) in *.
    destruct (ae_inflight_stored env); (split; simpl; [|done|..]).
    + apply map_Forall_insert_2; [|done]. simpl. unfold in_u32, u32_max.
      pose proof (Z.mod_pos_bound argument (2 ^ 32)). lia.
    + rewrite map_size_insert. case_match; unfold id; lia.
    + lia.
    + done.
    + lia.
    + lia.
  - destruct (ob_open ob !! thread) as [start|] eqn:Es.
    2: { split; [|split; [unfold tally; simpl; lia|by exists []]]. split; simpl; try done; lia. }
    assert (in_u32 (ss_syscall_number start)) as Hn by exact (Ho _ _ Es).
    assert (Z.of_nat (size (ob_open ob)) = Z.of_nat (size (delete thread (ob_open ob))) + 1) as Hz.
    { rewrite <-(insert_delete_id _ _ _ Es) at 1.
      rewrite map_size_insert_None by apply lookup_delete_eq. lia. }
    set (grouped := _ || _). split; [|split].
    + split; simpl.
      * by apply map_Forall_delete.
      * destruct grouped; [|done]. constructor; [|done]. done.
      * destruct grouped; simpl; lia.
      * destruct grouped; simpl; lia.
    + unfold tally. simpl. destruct grouped; simpl; lia.
    + simpl. destruct grouped; [by eexists [_]|by exists []].
Qed.

Record represents (maps : aggregate_maps) (ob : observed) : Prop := {
  rp_inflight : am_inflight maps = ob_open ob;
  rp_groups : ∀ number, am_groups maps !! number
    = if decide (number ∈ numbers (ob_calls ob)) then Some (cells_of cpus number (ob_calls ob))
      else None;
  rp_summary : am_summary maps = Build_xprobe_syscall_aggregate_summary (ob_entries ob)
    (call_count (ob_calls ob) + ob_ungrouped ob) (ob_unmatched ob)
    (ob_refused ob + ob_ungrouped ob) }.
Lemma represents_dom maps ob :
  represents maps ob → size (am_groups maps) = size (numbers (ob_calls ob)).
Proof.
  intros [_ Hg _]. rewrite <-size_dom. f_equal. apply set_eq. intros n.
  rewrite elem_of_dom, Hg. case_decide; [naive_solver|]. split; [by intros []|done].
Qed.

(** A call added to the cells of its group, and the cells of the other groups. *)
Lemma cells_of_cons c calls :
  cells_of cpus (call_number c) (c :: calls)
  = <[call_cpu c := cell_of (c :: calls_on (call_cpu c) (calls_of (call_number c) calls))]>
      (cells_of cpus (call_number c) calls).
Proof.
  unfold cells_of, calls_of. rewrite filter_cons, decide_True by done.
  set (l := filter _ calls). apply list_eq. intros k.
  destruct (decide (k = call_cpu c)) as [->|Hk].
  - destruct (decide (call_cpu c < cpus)%nat) as [Hlt|Hge].
    + rewrite list_lookup_insert_eq by by rewrite length_fmap, length_seq.
      rewrite list_lookup_fmap, lookup_seq_lt by done. simpl. unfold calls_on.
      by rewrite filter_cons, decide_True.
    + rewrite !lookup_ge_None_2; [done|rewrite ?length_insert, length_fmap, length_seq; lia..].
  - rewrite list_lookup_insert_ne by done. rewrite !list_lookup_fmap.
    destruct (seq 0 cpus !! k) as [j|] eqn:Ej; [|done]. apply lookup_seq in Ej as [-> _].
    simpl. unfold calls_on. by rewrite filter_cons, decide_False by congruence.
Qed.
Lemma cells_of_other number c calls :
  call_number c ≠ number → cells_of cpus number (c :: calls) = cells_of cpus number calls.
Proof. intros Hn. unfold cells_of, calls_of. by rewrite filter_cons, decide_False. Qed.
Lemma cells_of_lookup number cpu calls :
  (cpu < cpus)%nat →
  cells_of cpus number calls !! cpu = Some (cell_of (calls_on cpu (calls_of number calls))).
Proof. intros Hk. unfold cells_of. by rewrite list_lookup_fmap, lookup_seq_lt. Qed.
Lemma calls_of_fresh number calls : number ∉ numbers calls → calls_of number calls = [].
Proof.
  intros Hn. unfold calls_of, numbers in *. induction calls as [|c calls IH]; [done|].
  rewrite fmap_cons, list_to_set_cons, not_elem_of_union, elem_of_singleton in Hn.
  destruct Hn as [Hc Hn]. rewrite filter_cons, decide_False by congruence. by apply IH.
Qed.
Lemma cells_of_fresh number calls :
  number ∉ numbers calls → cells_of cpus number calls = replicate cpus zero_cell.
Proof.
  intros Hn. unfold cells_of. rewrite calls_of_fresh by done. apply list_eq. intros k.
  destruct (decide (k < cpus)%nat).
  - by rewrite list_lookup_fmap, lookup_seq_lt, lookup_replicate_2.
  - by rewrite !lookup_ge_None_2 by (rewrite ?length_fmap, ?length_seq, ?length_replicate; lia).
Qed.

(** The element of a group after the call is accounted, in a map that has it or not. *)
Lemma group_accounted c calls argument groups env :
  durations_fit (c :: calls) → (call_cpu c < cpus)%nat → ae_cpu env = call_cpu c →
  call_failed c = (as_i64 argument <? 0) →
  (∀ number, groups !! number
     = if decide (number ∈ numbers calls) then Some (cells_of cpus number calls) else None) →
  let duration := call_duration c in
  let initial := BuildCell 0 0 0 duration 0 in
  let '(aggregate, groups') :=
    match group_lookup env (call_number c) groups with
    | Some aggregate => (Some aggregate, groups)
    | None => let '(_, groups') := group_create cpus max_groups env (call_number c) initial groups in
              (group_lookup env (call_number c) groups', groups')
    end in
  if bool_decide (call_number c ∈ numbers calls)
     || ((Z.of_nat (size groups) <? max_groups) && ae_group_stored env)
  then ∃ a, aggregate = Some a
    ∧ alter (λ cells, <[ae_cpu env := account duration argument a]> cells) (call_number c) groups'
      = <[call_number c := cells_of cpus (call_number c) (c :: calls)]> groups
  else aggregate = None ∧ groups' = groups.
Proof.
  intros Hfit Hcpu Henv Hf Hg. cbv zeta. unfold group_lookup, group_create.
  rewrite Henv, Hg. rewrite cells_of_cons.
  set (mine := calls_on (call_cpu c) (calls_of (call_number c) calls)).
  assert (durations_fit (c :: mine)) as Hmine.
  { apply (durations_fit_filter (λ x, call_number x = call_number c ∧ call_cpu x = call_cpu c))
      in Hfit. rewrite filter_cons, decide_True in Hfit by done.
    unfold mine, calls_on, calls_of. rewrite list_filter_filter.
    erewrite list_filter_iff; [exact Hfit|]. simpl. tauto. }
  destruct (account_cell c mine argument (call_duration c) Hmine eq_refl Hf) as [Hacc Hnew].
  destruct (decide (call_number c ∈ numbers calls)) as [Hin|Hnin].
  - cbn [mbind option_bind]. rewrite cells_of_lookup by done. fold mine.
    rewrite bool_decide_true by done. cbn [orb]. eexists. split; [done|].
    rewrite Hacc. apply map_eq. intros n. destruct (decide (n = call_number c)) as [->|Hne].
    + by rewrite lookup_alter_eq, lookup_insert_eq, Hg, decide_True.
    + by rewrite lookup_alter_ne, lookup_insert_ne.
  - cbn [mbind option_bind]. rewrite !bool_decide_false by (done || by intros []). cbn [orb].
    rewrite cells_of_fresh by done. rewrite Z.leb_antisym.
    destruct ((Z.of_nat (size groups) <? max_groups) && ae_group_stored env) eqn:Eroom.
    + apply andb_true_iff in Eroom as [-> ->]. cbn [negb orb]. rewrite lookup_insert_eq.
      cbn [mbind option_bind]. rewrite list_lookup_insert_eq by by rewrite length_replicate.
      assert (mine = []) as Emine by (unfold mine; by rewrite calls_of_fresh).
      eexists. split; [done|]. rewrite (Hnew Emine), Emine, alter_insert_eq.
      by rewrite list_insert_insert_eq.
    + apply andb_false_iff in Eroom as [-> | ->]; cbn [negb orb]; rewrite ?orb_true_r;
        rewrite Hg, decide_False; done.
Qed.

Lemma represents_step maps ob run :
  (ae_cpu (run_env run) < cpus)%nat → observed_wf ob → tally ob < u64_max →
  durations_fit (ob_calls (observe_step ob run)) →
  represents maps ob →
  represents (aggregate_step cpus max_groups current maps run) (observe_step ob run).
Proof.
  intros Hcpu [_ _ (H1 & H2 & H3 & H4) He] Htally Hfit Hrep.
  pose proof (represents_dom _ _ Hrep) as Hsize. pose proof Hrep as [Ho Hg Hs].
  pose proof (call_count_nonneg (ob_calls ob)).
  unfold tally in Htally. destruct run as [env argument|env argument]; simpl in *;
    unfold xprobe_aggregate_syscall_entry, xprobe_aggregate_syscall_exit, observe_entry,
      observe_exit in *;
    (destruct (xprobe_target_syscall_aggregate env current) as [thread|]; [|done]).
  - destruct (as_i64 argument <? 0); [done|]. rewrite Ho.
    destruct (ae_inflight_stored env); simpl; (split; [done|exact Hg|]); simpl; rewrite Hs;
      unfold count_entry, count_dropped; simpl; f_equal; try lia; apply eq_sym;
      rewrite count_u64_small; lia.
  - rewrite Ho. destruct (ob_open ob !! thread) as [start|].
    2: { split; [done|exact Hg|]. simpl. rewrite Hs. unfold count_unmatched. simpl.
         by rewrite count_u64_small by lia. }
    set (number := ss_syscall_number start) in *.
    set (duration := (ae_ktime_ns env - ss_timestamp_ns start) mod 2 ^ 64) in *.
    set (c := BuildCall number (ae_cpu env) duration (as_i64 argument <? 0)) in *.
    pose proof (group_accounted c (ob_calls ob) argument (am_groups maps) env) as Hgroup.
    rewrite Hsize in Hgroup. change (call_number c) with number in Hgroup.
    change (call_duration c) with duration in Hgroup.
    set (grouped := bool_decide (number ∈ numbers (ob_calls ob)) || _) in *.
    cbv zeta in Hgroup. destruct grouped eqn:Egrouped.
    + specialize (Hgroup Hfit Hcpu eq_refl eq_refl Hg).
      match type of Hgroup with let '(_, _) := ?m in _ => destruct m as [aggregate groups'] end.
      destruct Hgroup as (a & -> & Hgroups).
      split; simpl; [done| |].
      * rewrite Hgroups. intros n. unfold numbers. rewrite fmap_cons, list_to_set_cons.
        fold (numbers (ob_calls ob)). change (call_number c) with number.
        destruct (decide (n = number)) as [->|Hne].
        -- rewrite lookup_insert_eq, decide_True by set_solver. done.
        -- rewrite lookup_insert_ne, Hg, cells_of_other by done.
           destruct (decide (n ∈ numbers (ob_calls ob))); [by rewrite decide_True by set_solver|].
           by rewrite decide_False by set_solver.
      * rewrite Hs. unfold count_exit. simpl. rewrite count_u64_small by lia. f_equal; lia.
    + assert (group_lookup env number (am_groups maps) = None) as Hnone.
      { apply orb_false_iff in Egrouped as [Egrouped _]. apply bool_decide_eq_false in Egrouped.
        unfold group_lookup. by rewrite Hg, decide_False. }
      assert (∀ initial, group_create cpus max_groups env number initial (am_groups maps)
        = (false, am_groups maps)) as Hcreate.
      { intros initial. unfold group_create. subst grouped.
        apply orb_false_iff in Egrouped as [_ Egrouped].
        rewrite Hsize, Z.leb_antisym. rewrite <-orb_assoc, <-negb_andb, Egrouped.
        by rewrite orb_true_r. }
      rewrite Hnone, Hcreate, Hnone. split; simpl; [done|exact Hg|].
      rewrite Hs. unfold count_exit, count_dropped. simpl. rewrite !count_u64_small by lia.
      f_equal; lia.
Qed.

Lemma represents_runs runs maps ob :
  Forall (λ run, (ae_cpu (run_env run) < cpus)%nat) runs → observed_wf ob →
  tally ob + len runs ≤ u64_max →
  durations_fit (ob_calls (foldl observe_step ob runs)) →
  represents maps ob →
  observed_wf (foldl observe_step ob runs)
  ∧ tally (foldl observe_step ob runs) ≤ tally ob + len runs
  ∧ represents (foldl (aggregate_step cpus max_groups current) maps runs)
      (foldl observe_step ob runs).
Proof.
  intros Hruns. revert maps ob.
  induction Hruns as [|run runs Hrun Hruns IH]; intros maps ob Hwf Htally Hfit Hrep.
  { simpl. split; [done|]. split; [|done]. pose proof (len_nonneg (@nil aggregate_run)). lia. }
  rewrite len_cons in *. pose proof (len_nonneg runs).
  destruct (observe_step_wf ob run Hrun Hwf) as (Hwf' & Htally' & _).
  simpl. destruct (IH (aggregate_step cpus max_groups current maps run) (observe_step ob run))
    as (Hw & Ht & Hr); [done|lia|done| |split; [done|]; split; [lia|done]].
  apply represents_step; try done; [lia|].
  clear -Hruns Hwf' Hfit. simpl in Hfit. revert Hwf' Hfit.
  generalize (observe_step ob run). induction Hruns as [|r runs Hr Hruns IH]; intros ob' Hwf Hfit;
    [done|].
  simpl in Hfit. destruct (observe_step_wf ob' r Hr Hwf) as (Hwf' & _ & calls & Ecalls).
  apply IH in Hfit; [|done]. rewrite Ecalls in Hfit. by eapply durations_fit_tail.
Qed.
Lemma represents_fresh : observed_wf nothing_observed ∧ represents fresh_maps nothing_observed.
Proof. by split; split. Qed.
End simulation.

(** ** What the collector reads *)
Definition config_of (dev ino : Z) (request : SyscallAggregateRequest) (armed : Z) :
    xprobe_syscall_aggregate_config :=
  Build_xprobe_syscall_aggregate_config dev ino (target_pid (sar_target request)) armed.
Definition aggregate_layout (dev ino pid armed : Z) : list (nat * Z) :=
  [(8%nat, dev); (8%nat, ino); (4%nat, pid); (4%nat, armed)].

Lemma aggregate_configured dev ino request :
  in_u64 dev → in_u64 ino → in_u32 (target_pid (sar_target request)) →
  ∃ bytes armed disarmed, aggregate_config_bytes dev ino request = Some bytes
    ∧ aggregate_arm true bytes = Ok armed ∧ aggregate_arm false armed = Ok disarmed
    ∧ read_aggregate_config armed = Some (config_of dev ino request 1)
    ∧ read_aggregate_config disarmed = Some (config_of dev ino request 0).
Proof.
  intros Hd Hi Hp. set (pid := target_pid (sar_target request)) in *.
  exists (encode_layout (aggregate_layout dev ino pid 0)),
    (encode_layout (aggregate_layout dev ino pid 1)),
    (encode_layout (aggregate_layout dev ino pid 0)).
  assert (∀ armed, 0 ≤ armed ≤ 1 → layout_wf (aggregate_layout dev ino pid armed)) as Hwf.
  { intros armed Ha. unfold layout_wf, aggregate_layout, in_u64, in_u32, u64_max, u32_max in *.
    repeat constructor; lia. }
  split; [|split; [|split; [|split]]].
  - unfold aggregate_config_bytes. cbv zeta.
    change (replicate 24 0) with (encode_layout (aggregate_layout 0 0 0 0)).
    rewrite (copy_layout _ 0 8 0 dev) by done. cbn [mbind option_bind].
    rewrite (copy_layout _ 1 8 0 ino) by done. cbn [mbind option_bind].
    by rewrite (copy_layout _ 2 4 0 pid) by done.
  - unfold aggregate_arm. rewrite encode_layout_len. by rewrite (copy_layout _ 3 4 0).
  - unfold aggregate_arm. rewrite encode_layout_len. by rewrite (copy_layout _ 3 4 1).
  - unfold read_aggregate_config. specialize (Hwf 1 ltac:(lia)).
    unfold aggregate_layout in *. by read_fields Hwf.
  - unfold read_aggregate_config. specialize (Hwf 0 ltac:(lia)).
    unfold aggregate_layout in *. by read_fields Hwf.
Qed.

(** The bytes of the maps: of an element of the groups, and of the summary. *)
Definition encode_group (element : Z * list Cell) : list Z * list (list Z) :=
  (to_le_bytes 4 element.1, encode_cell <$> element.2).
Definition encode_summary (s : xprobe_syscall_aggregate_summary) : list Z :=
  encode_fields [su_entries s; su_exits s; su_unmatched_exits s; su_dropped_aggregates s].

Lemma cell_of_wf calls : durations_fit calls → cell_wf (cell_of calls).
Proof.
  intros (Hp & Hs & Hn). pose proof (duration_sum_nonneg _ Hp). pose proof (failures_bounds calls).
  pose proof (duration_max_bounds _ Hp). pose proof (duration_min_bounds _ Hp).
  pose proof (call_count_nonneg calls).
  unfold cell_wf, cell_fields, in_u64. repeat constructor; simpl; try lia;
    destruct calls; unfold u64_max in *; lia.
Qed.

Section reading.
Context (cpus : nat) (max_groups : Z) (ob : observed) (maps : aggregate_maps).
Context (Hwf : observed_wf cpus ob) (Hrep : represents cpus maps ob).
Context (Hfit : durations_fit (ob_calls ob)).

Lemma read_group number cells :
  am_groups maps !! number = Some cells →
  (syscall_number ← decode_u32 "syscall_aggregate_groups" (to_le_bytes 4 number);
   sum_group syscall_number (encode_cell <$> cells)) = Ok (call_group (ob_calls ob) number).
Proof.
  intros Hn. destruct Hrep as [_ Hg _]. rewrite Hg in Hn.
  destruct (decide (number ∈ numbers (ob_calls ob))) as [Hin|]; [|done].
  injection Hn as <-. destruct Hwf as [_ Hc _ _].
  assert (in_u32 number) as Hu.
  { unfold numbers in Hin. apply elem_of_list_to_set, list_elem_of_fmap in Hin as (c & -> & Hc').
    rewrite Forall_forall in Hc. by apply Hc. }
  unfold decode_u32. unfold len. rewrite to_le_bytes_length. cbn [mbind res_bind].
  change (Z.of_nat 4 =? 4) with true. cbv iota. cbn [mbind res_bind].
  rewrite from_to_le_bytes by (unfold in_u32, u32_max in Hu; lia).
  rewrite sum_group_spec.
  - f_equal. apply group_of_calls; [|done|done]. eapply Forall_impl; [exact Hc|]. by intros c [].
  - unfold cells_of. apply Forall_fmap, Forall_forall. intros cpu _. apply cell_of_wf.
    by do 2 apply durations_fit_filter.
Qed.

Lemma read_maps group_elements inflight_keys :
  group_elements ≡ₚ map_to_list (am_groups maps) →
  inflight_keys ≡ₚ to_le_bytes 4 <$> (map_to_list (am_inflight maps)).*1 →
  tally ob ≤ u64_max →
  ∃ capture, read_capture (encode_group <$> group_elements) (encode_summary (am_summary maps))
      inflight_keys = Ok capture
    ∧ cap_groups capture ≡ₚ call_group (ob_calls ob) <$> elements (numbers (ob_calls ob))
    ∧ cap_observed_entries capture = ob_entries ob
    ∧ cap_matched_exits capture = call_count (ob_calls ob) + ob_ungrouped ob
    ∧ cap_unmatched_exits capture = ob_unmatched ob
    ∧ cap_dropped_aggregates capture = ob_refused ob + ob_ungrouped ob
    ∧ cap_inflight_at_end capture = Z.of_nat (size (ob_open ob)).
Proof.
  intros Hgroups Hkeys Htally. unfold read_capture.
  assert (res_mapM (λ '(key, values),
      syscall_number ← decode_u32 "syscall_aggregate_groups" key;
      sum_group syscall_number values) (encode_group <$> group_elements)
    = Ok (call_group (ob_calls ob) <$> group_elements.*1)) as ->.
  { assert (Forall (λ e, am_groups maps !! e.1 = Some e.2) group_elements) as Hall.
    { rewrite Hgroups. apply Forall_forall. intros [n cells] He. by apply elem_of_map_to_list in He. }
    clear Hgroups. induction Hall as [|[number cells] l He Hl IH]; [done|].
    rewrite fmap_cons. cbn [res_mapM encode_group fst snd]. simpl in He.
    rewrite (read_group number cells He). cbn [mbind res_bind]. by rewrite IH. }
  cbn [mbind res_bind]. destruct Hrep as [Ho Hg Hs]. rewrite Hs.
  destruct Hwf as [_ _ (H1 & H2 & H3 & H4) He]. unfold tally in Htally.
  pose proof (call_count_nonneg (ob_calls ob)).
  unfold encode_summary. cbn [su_entries su_exits su_unmatched_exits su_dropped_aggregates].
  rewrite (decode_encode_fields _ [_; _; _; _]) by (repeat constructor; lia).
  cbn. eexists. split; [done|]. cbn. split; [|split_and!; try done].
  - rewrite sort_by_perm. apply fmap_Permutation. rewrite Hgroups.
    apply NoDup_Permutation; [apply NoDup_fst_map_to_list|apply NoDup_elements|].
    intros n. rewrite elem_of_elements, list_elem_of_fmap. split.
    + intros ([k cells] & -> & Hin%elem_of_map_to_list). rewrite Hg in Hin. by case_decide.
    + intros Hin. exists (n, cells_of cpus n (ob_calls ob)). split; [done|].
      apply elem_of_map_to_list. by rewrite Hg, decide_True.
  - rewrite (len_perm _ _ Hkeys), <-Ho. unfold len. by rewrite !length_fmap, length_map_to_list.
Qed.
End reading.

(** C17: the collector reports what the programs counted.  The bytes it writes configure the
    programs; from then on, whatever the target's threads do on whichever CPU, the maps read
    back in any order give, for every system call with a counted call, exactly one group with
    the number, failures, total, shortest and longest duration of those calls, provided that
    time passes between entry and exit and the sums fit in 64 bits.  The counters are the
    entries, the exits with and without a start, and what could not be stored; every entry
    observed was matched, is in flight, or its start was lost.  After disarming, no program
    changes a map. *)
Theorem syscall_aggregate_exact (cpus : nat) (dev ino : Z) (request : SyscallAggregateRequest)
    (runs : list aggregate_run) (group_elements : list (Z * list Cell))
    (inflight_keys : list (list Z))
    (Htyped : in_u64 dev ∧ in_u64 ino ∧ in_u32 (target_pid (sar_target request)))
    (Hcpus : Forall (λ run, (ae_cpu (run_env run) < cpus)%nat) runs)
    (Hruns : len runs ≤ u64_max) :
  let current := config_of dev ino request 1 in
  let maps := aggregate_runs cpus (sar_max_groups request) current runs in
  let ob := observe (sar_max_groups request) current runs in
  ∀ (Hfit : durations_fit (ob_calls ob))
    (Hgroups : group_elements ≡ₚ map_to_list (am_groups maps))
    (Hkeys : inflight_keys ≡ₚ to_le_bytes 4 <$> (map_to_list (am_inflight maps)).*1),
  ∃ bytes armed disarmed capture,
    aggregate_config_bytes dev ino request = Some bytes
    ∧ aggregate_arm true bytes = Ok armed ∧ read_aggregate_config armed = Some current
    ∧ read_capture (encode_group <$> group_elements) (encode_summary (am_summary maps))
        inflight_keys = Ok capture
    ∧ cap_groups capture ≡ₚ call_group (ob_calls ob) <$> elements (numbers (ob_calls ob))
    ∧ cap_observed_entries capture = ob_entries ob
    ∧ cap_matched_exits capture = call_count (ob_calls ob) + ob_ungrouped ob
    ∧ cap_unmatched_exits capture = ob_unmatched ob
    ∧ cap_dropped_aggregates capture = ob_refused ob + ob_ungrouped ob
    ∧ cap_observed_entries capture
      = cap_matched_exits capture + cap_inflight_at_end capture + ob_lost ob ∧ 0 ≤ ob_lost ob
    ∧ aggregate_arm false armed = Ok disarmed
    ∧ ∃ idle, read_aggregate_config disarmed = Some idle
      ∧ ∀ maps run, aggregate_step cpus (sar_max_groups request) idle maps run = maps.
Proof.
  intros current maps ob Hfit Hgroups Hkeys. destruct Htyped as (Hd & Hi & Hp).
  destruct (aggregate_configured dev ino request Hd Hi Hp)
    as (bytes & armed & disarmed & Hb & Ha & Hda & Hr & Hdr).
  destruct represents_fresh with (cpus := cpus) as [Hwf0 Hrep0].
  destruct (represents_runs cpus (sar_max_groups request) current runs fresh_maps nothing_observed)
    as (Hwf & Htally & Hrep); [done..|].
  destruct (read_maps cpus ob maps Hwf Hrep Hfit group_elements inflight_keys)
    as (capture & Hc & Hg & He & Hm & Hu & Hdrop & Hin); [done|done| |].
  { etrans; [exact Htally|]. change (tally nothing_observed) with 0. lia. }
  exists bytes, armed, disarmed, capture. do 4 (split; [done|]). do 5 (split; [done|]).
  destruct Hwf as [_ _ (_ & _ & _ & Hlost) Hentries].
  split; [rewrite He, Hm, Hin; exact Hentries|]. split; [done|]. split; [done|].
  exists (config_of dev ino request 0). split; [done|]. by intros maps' [env a|env a].
Qed.

(** ** A lost start is not noticed *)

(** Thread 7 enters a call and stays in it; the map drops its start to make room for thread 8,
    whose call ends. *)
Definition lost_start_runs : list aggregate_run :=
  let env thread time evicted :=
    Build_aggregate_env (λ _ _, Some (7, thread)) time 0 true evicted true in
  [Entry (env 7 100 []) 0; Entry (env 8 200 [7]) 1; Exit (env 8 250 []) 3].
Definition lost_start_maps : aggregate_maps :=
  aggregate_runs 1 256 (Build_xprobe_syscall_aggregate_config 4 5 7 1) lost_start_runs.

(** The collection is judged by exits without a start, open starts and drops, all zero here,
    though one entry observed has neither an exit nor an open start: a start dropped by the
    map while its thread is still in the call leaves no trace but the difference of the
    counters. *)
Theorem lost_start_unnoticed :
  match read_capture (encode_group <$> map_to_list (am_groups lost_start_maps))
          (encode_summary (am_summary lost_start_maps))
          (to_le_bytes 4 <$> (map_to_list (am_inflight lost_start_maps)).*1) with
  | Ok capture =>
      cap_unmatched_exits capture = 0 ∧ cap_inflight_at_end capture = 0
      ∧ cap_dropped_aggregates capture = 0
      ∧ cap_observed_entries capture = 2 ∧ cap_matched_exits capture = 1
  | _ => False
  end.
Proof. by vm_compute. Qed.
