(* ===== verification/BpfCollect.v ===== *)
(** * Collecting from BPF programs

    The collectors of [xprobe/collector/src/uprobe.rs], [linux.rs] and
    [syscall_aggregate.rs] over libbpf: loading and sizing the object, configuring,
    attaching and arming its programs, polling the ring buffer or waiting, and
    reading the maps.  libbpf, the clock, the cancellation flag and the readiness
    channel are parameters, class [Libbpf]; [LibbpfLaws] says that the clock does not
    go back, a sleep lasts as long as asked and a poll without records waits. *)
From S2P Require Import Prelude BTree RustString Text Bytes Ring Protocol Selector Measure.
From S2P Require Import Os Process Inspect Resolve Uprobe Usdt Syscalls Validate Linux Bpf.
From S2P Require Import Session SyscallAggregate.
#[local] Open Scope Z_scope.

(** What a program can be attached to. *)
Inductive Attachment : Type :=
| AttachRawTracepoint (program name : string)
| AttachTracepoint (program category name : string)
| AttachUsdt (program : string) (pid : Z) (path provider name : string)
| AttachUprobe (program : string) (pid : Z) (binary : string) (offset : Z)
    (func_name : option string) (retprobe : bool).
Definition attachment_program (attachment : Attachment) : string :=
  match attachment with
  | AttachRawTracepoint program _ | AttachTracepoint program _ _ | AttachUsdt program _ _ _ _
  | AttachUprobe program _ _ _ _ _ => program
  end.

(** [libbpf_rs], as far as it is used, for the object the collectors embed.  A poll hands over
    records and may fail by itself; the keys of a map are those an iteration gives.  With it,
    the clock, [Request::cancelled], [Request::ready] ([false]: the receiver is closed), the
    identity of the process and the counter of its sessions, and device and inode of a file. *)
Class Libbpf `{Os} := {
  BpfObject : Type;
  bpf_name : string → World → syscall_result unit * World;
  bpf_open : World → syscall_result BpfObject * World;
  bpf_load : BpfObject → World → syscall_result BpfObject * World;
  bpf_has_map : BpfObject → string → bool;
  bpf_has_program : BpfObject → string → bool;
  bpf_set_max_entries : BpfObject → string → Z → World → syscall_result unit * World;
  bpf_update : BpfObject → string → list Z → list Z → World → syscall_result unit * World;
  bpf_lookup : BpfObject → string → list Z → World → syscall_result (option (list Z)) * World;
  bpf_lookup_percpu :
    BpfObject → string → list Z → World → syscall_result (option (list (list Z))) * World;
  bpf_keys : BpfObject → string → World → list (list Z) * World;
  bpf_attach : BpfObject → Attachment → World → syscall_result unit * World;
  ring_add : BpfObject → string → World → syscall_result unit * World;
  ring_build : BpfObject → World → syscall_result unit * World;
  ring_poll : BpfObject → Z → World → (list (list Z) * option IoError) * World;
  monotonic_now : World → Z * World;
  sleep_for : Z → World → World;
  load_cancelled : World → bool * World;
  send_ready : World → bool * World;
  process_id : World → Z * World;
  next_session : World → Z * World;
  fs_dev_ino : string → World → syscall_result (Z * Z) * World }.

Definition POLL_INTERVAL : Z := 100 * 1000000.
Definition WAIT_INTERVAL : Z := 10 * 1000000.

Section collect.
Context `{SerdeJson, Os, !Libbpf}.

(** A call that does not fail. *)
Definition ask {E A} (f : World → A * World) : io E A := λ w, let '(a, w) := f w in (Ok a, w).
Definition run_sleep {E} (duration : Z) : io E unit := λ w, (Ok (), sleep_for duration w).

(** ** What the collectors share: errors are made by two functions of their own *)
Section shared.
Context {E A : Type} (missing : string → string → E) (libbpf_error : string → IoError → E).
Context (namespace_error : string → IoError → E).

Definition key_zero : list Z := to_le_bytes 4 0.
Definition find_object_map (object : BpfObject) (name : string) : io E unit :=
  if bpf_has_map object name then mret () else lift (Err (missing "map" name)).
Definition find_program (object : BpfObject) (name : string) : io E unit :=
  if bpf_has_program object name then mret () else lift (Err (missing "program" name)).
Definition find_value {B} (name : string) (value : option B) : io E B :=
  lift (ok_or value (missing "map value" name)).
Definition attach_program (operation : string) (object : BpfObject) (attachment : Attachment) :
    io E Attachment :=
  _ ← find_program object (attachment_program attachment);
  _ ← call (bpf_attach object attachment) (libbpf_error operation);
  mret attachment.
Definition target_namespace (pid : Z) : io E (Z * Z) :=
  let path := ("/proc/" +:+ to_decimal pid +:+ "/ns/pid")%string in
  call (fs_dev_ino path) (namespace_error path).

(** The [while] loop of [collect_raw_events]: the callback's error comes before that of the
    poll.  Running out of [fuel], which [ring_fuel] excludes, is a panic. *)
Fixpoint ring_loop (decode : list Z → res E A) (operation : string) (fuel : nat)
    (object : BpfObject) (limit deadline : Z) (events : list A) : io E (list A) :=
  match fuel with
  | O => lift Panic
  | S fuel =>
      if limit <=? len events then mret events
      else
        cancelled ← ask load_cancelled;
        if (cancelled : bool) then mret events
        else
          now ← ask monotonic_now;
          if deadline <=? now then mret events
          else
            let wait := Z.min (deadline - now) POLL_INTERVAL in
            polled ← ask (ring_poll object wait);
            match ring_consume decode limit (events, None) polled.1 with
            | None => lift Panic
            | Some ((events, Some error), _) => lift (Err error)
            | Some ((events, None), _) =>
                match polled.2 with
                | Some source => lift (Err (libbpf_error operation source))
                | None => ring_loop decode operation fuel object limit deadline events
                end
            end
  end.
Definition ring_fuel (limit timeout : Z) : nat :=
  (Z.to_nat limit + Z.to_nat (timeout / POLL_INTERVAL + 2))%nat.
End shared.

(** ** [uprobe.rs] *)
Definition uprobe_missing (kind name : string) : UprobeError :=
  UprobeError.MissingObjectMember kind name.
Definition uprobe_load_object : io UprobeError BpfObject :=
  _ ← call (bpf_name "xprobe_uprobe") (UprobeError.Libbpf "name BPF object");
  object ← call bpf_open (UprobeError.Libbpf "open BPF object");
  call (bpf_load object) (UprobeError.Libbpf "load BPF object").
(** [configure_object]. *)
Definition uprobe_configure_object (object : BpfObject) (request : UprobeRequest) :
    io UprobeError unit :=
  namespace ← target_namespace UprobeError.TargetNamespace (target_pid (ur_target request));
  config ← lift (or_panic (uprobe_config_bytes namespace.1 namespace.2 request));
  _ ← find_object_map uprobe_missing object "config";
  call (bpf_update object "config" key_zero config) (UprobeError.Libbpf "configure BPF map").
Definition uprobe_read_counter (object : BpfObject) (name : string) : io UprobeError Z :=
  _ ← find_object_map uprobe_missing object name;
  value ← call (bpf_lookup object name key_zero) (UprobeError.Libbpf "read BPF map");
  value ← find_value uprobe_missing name value;
  lift (if len value =? 8 then Ok (from_le_bytes value)
        else Err (UprobeError.MalformedEvent 8 (len value))).
Definition uprobe_collect_raw_events (object : BpfObject) (request : UprobeRequest)
    (pid deadline : Z) (ready : bool) : io UprobeError (list RawEvent * Z) :=
  _ ← lift (if ur_offset request <=? usize_max then Ok ()
            else Err (UprobeError.InvalidRequest
                        "probe offset exceeds the platform address size"));
  _ ← find_object_map uprobe_missing object "events";
  _ ← call (ring_add object "events") (UprobeError.Libbpf "register ring buffer");
  _ ← call (ring_build object) (UprobeError.Libbpf "build ring buffer");
  let retprobe := ur_probe_kind request == HostProbeKind.Uretprobe in
  let operation := (if retprobe then "attach uretprobe" else "attach uprobe")%string in
  _ ← attach_program uprobe_missing UprobeError.Libbpf operation object
        (AttachUprobe "xprobe_handle_uprobe" pid (ur_binary request) (ur_offset request)
           (ur_symbol request) retprobe);
  _ ← (if ready then
         sent ← ask send_ready;
         if (sent : bool) then mret ()
         else lift (Err (UprobeError.InvalidRequest "host collector readiness receiver closed"))
       else mret ());
  raw_events ← ring_loop UprobeError.Libbpf raw_event_decode "poll ring buffer"
    (ring_fuel (ur_samples request) (ur_timeout request)) object (ur_samples request) deadline [];
  dropped ← uprobe_read_counter object "dropped";
  mret (raw_events, dropped).
(** [capture]; [ready] is whether the request has a readiness channel.  Paths are text. *)
Definition uprobe_capture (request : UprobeRequest) (ready : bool) :
    io UprobeError HostCaptureResult :=
  _ ← lift (validate_request request);
  now ← ask monotonic_now;
  deadline ← lift (ok_or (instant_checked_add now (ur_timeout request))
    (UprobeError.InvalidRequest "timeout exceeds Instant range"));
  let pid := target_pid (ur_target request) in
  _ ← lift (if pid <? 2 ^ 31 then Ok ()
            else Err (UprobeError.InvalidRequest "PID exceeds i32 range"));
  object ← uprobe_load_object;
  _ ← uprobe_configure_object object request;
  collected ← uprobe_collect_raw_events object request pid deadline ready;
  own ← ask process_id;
  sequence ← ask next_session;
  let session_id := ("xp_uprobe_" +:+ to_decimal pid +:+ "_" +:+ to_decimal own +:+ "_"
                     +:+ to_decimal sequence)%string in
  mret (capture_result request session_id collected.1 collected.2).

(** ** [linux.rs] *)
Definition linux_missing (kind name : string) : LinuxCaptureError :=
  LinuxCaptureError.MissingObjectMember kind name.
Definition linux_load_object (event_limit : Z) : io LinuxCaptureError BpfObject :=
  ring_bytes ← lift (linux_ring_bytes event_limit);
  _ ← call (bpf_name "xprobe_linux") (LinuxCaptureError.Libbpf "name BPF object");
  object ← call bpf_open (LinuxCaptureError.Libbpf "open BPF object");
  _ ← find_object_map linux_missing object "linux_events";
  _ ← call (bpf_set_max_entries object "linux_events" ring_bytes)
        (LinuxCaptureError.Libbpf "size Linux ring buffer");
  call (bpf_load object) (LinuxCaptureError.Libbpf "load BPF object").
Definition linux_configure_object (object : BpfObject) (request : LinuxCaptureRequest) :
    io LinuxCaptureError unit :=
  namespace ← target_namespace LinuxCaptureError.TargetNamespace (target_pid (lcr_target request));
  config ← lift (or_panic (linux_config_bytes namespace.1 namespace.2 request));
  _ ← find_object_map linux_missing object "linux_config";
  call (bpf_update object "linux_config" key_zero config)
    (LinuxCaptureError.Libbpf "configure Linux BPF map").
Definition arm_object (object : BpfObject) : io LinuxCaptureError unit :=
  _ ← find_object_map linux_missing object "linux_config";
  config ← call (bpf_lookup object "linux_config" key_zero)
             (LinuxCaptureError.Libbpf "read Linux BPF config");
  config ← find_value linux_missing "linux_config" config;
  config ← lift (linux_arm config);
  call (bpf_update object "linux_config" key_zero config)
    (LinuxCaptureError.Libbpf "arm Linux BPF collection").

(** The three loops of [attach_probes]; each gives the links it pushes. *)
Fixpoint io_mapM {E A B} (f : A → io E B) (l : list A) : io E (list B) :=
  match l with
  | [] => mret []
  | x :: l => y ← f x; ys ← io_mapM f l; mret (y :: ys)
  end.
Definition linux_attach : string → BpfObject → Attachment → io LinuxCaptureError Attachment :=
  attach_program linux_missing LinuxCaptureError.Libbpf.
Definition attach_syscalls (object : BpfObject) (probes : list ResolvedLinuxSelector) :
    io LinuxCaptureError (list Attachment) :=
  links ← io_mapM (λ '(event_type, program, name),
      if existsb (λ probe, rl_event_type probe == event_type) probes then
        link ← linux_attach "attach tracepoint" object (AttachRawTracepoint program name);
        mret [link]
      else mret [])
    [(EventType.SyscallEntry, "xprobe_handle_syscall_entry"%string, "sys_enter"%string);
     (EventType.SyscallExit, "xprobe_handle_syscall_exit"%string, "sys_exit"%string)];
  mret (concat links).
Definition attach_tracepoint_probe (object : BpfObject) (index : nat)
    (probe : ResolvedLinuxSelector) : io LinuxCaptureError (list Attachment) :=
  if rl_event_type probe != EventType.Tracepoint then mret []
  else
    let raw := rl_category probe == "raw_syscalls"%string in
    let stem := (if raw then "xprobe_handle_raw_tracepoint" else "xprobe_handle_tracepoint")%string in
    let program := (stem +:+ "_" +:+ to_decimal (Z.of_nat index + 1))%string in
    link ← linux_attach "attach tracepoint" object
      (if raw then AttachRawTracepoint program (rl_name probe)
       else AttachTracepoint program (rl_category probe) (rl_name probe));
    mret [link].
Definition attach_usdt_probe (object : BpfObject) (target_pid : Z) (index : nat)
    (probe : ResolvedLinuxSelector) : io LinuxCaptureError (list Attachment) :=
  if rl_probe_kind probe != HostProbeKind.Usdt then mret []
  else
    let program := ("xprobe_handle_usdt_" +:+ to_decimal (Z.of_nat index + 1))%string in
    _ ← find_program linux_missing object program;
    _ ← lift (if target_pid <? 2 ^ 31 then Ok ()
              else Err (LinuxCaptureError.InvalidRequest "target PID exceeds i32"));
    path ← lift (or_panic (rl_binary_path probe));
    provider ← lift (or_panic (rl_provider probe));
    link ← linux_attach "attach USDT" object
      (AttachUsdt program target_pid path provider (rl_name probe));
    mret [link].
Definition attach_probes (object : BpfObject) (target_pid : Z)
    (probes : list ResolvedLinuxSelector) : io LinuxCaptureError (list Attachment) :=
  syscalls ← attach_syscalls object probes;
  tracepoints ← io_mapM (λ p, attach_tracepoint_probe object p.1 p.2) (imap pair probes);
  usdts ← io_mapM (λ p, attach_usdt_probe object target_pid p.1 p.2) (imap pair probes);
  mret (syscalls ++ concat tracepoints ++ concat usdts).

Definition linux_counter (object : BpfObject) (name : string) : io LinuxCaptureError Z :=
  _ ← find_object_map linux_missing object name;
  value ← call (bpf_lookup object name key_zero) (LinuxCaptureError.Libbpf "read Linux BPF map");
  value ← find_value linux_missing name value;
  lift (linux_read_counter value).
Definition linux_collect_raw_events (object : BpfObject) (request : LinuxCaptureRequest)
    (deadline : Z) (ready : bool) : io LinuxCaptureError (list LinuxRawEvent * Z) :=
  _ ← find_object_map linux_missing object "linux_events";
  _ ← call (ring_add object "linux_events") (LinuxCaptureError.Libbpf "register Linux ring buffer");
  _ ← call (ring_build object) (LinuxCaptureError.Libbpf "build Linux ring buffer");
  _ ← attach_probes object (target_pid (lcr_target request)) (lcr_probes request);
  _ ← arm_object object;
  _ ← (if ready then
         sent ← ask send_ready;
         if (sent : bool) then mret ()
         else lift (Err (LinuxCaptureError.InvalidRequest
                           "Linux collector readiness receiver closed"))
       else mret ());
  raw_events ← ring_loop LinuxCaptureError.Libbpf linux_event_decode "poll Linux ring buffer"
    (ring_fuel (lcr_event_limit request) (lcr_timeout request)) object (lcr_event_limit request)
    deadline [];
  dropped ← linux_counter object "linux_dropped";
  mret (raw_events, dropped).
Definition linux_capture (request : LinuxCaptureRequest) (ready : bool) :
    io LinuxCaptureError HostCaptureResult :=
  _ ← lift (linux_validate_request request);
  now ← ask monotonic_now;
  deadline ← lift (ok_or (instant_checked_add now (lcr_timeout request))
    (LinuxCaptureError.InvalidRequest "timeout exceeds Instant range"));
  object ← linux_load_object (lcr_event_limit request);
  _ ← linux_configure_object object request;
  collected ← linux_collect_raw_events object request deadline ready;
  own ← ask process_id;
  sequence ← ask next_session;
  let session_id := ("xp_linux_" +:+ to_decimal (target_pid (lcr_target request)) +:+ "_"
                     +:+ to_decimal own +:+ "_" +:+ to_decimal sequence)%string in
  lift (linux_capture_result request session_id collected.1 collected.2).

(** ** [syscall_aggregate.rs] *)
Definition aggregate_missing (kind name : string) : AggregateError :=
  AggregateError.MissingObjectMember kind name.
Definition aggregate_load_object (max_groups max_inflight : Z) : io AggregateError BpfObject :=
  _ ← call (bpf_name "xprobe_syscalls") (AggregateError.Libbpf "name BPF object");
  object ← call bpf_open (AggregateError.Libbpf "open BPF object");
  _ ← find_object_map aggregate_missing object "syscall_aggregate_groups";
  _ ← call (bpf_set_max_entries object "syscall_aggregate_groups" max_groups)
        (AggregateError.Libbpf "size syscall aggregate groups");
  _ ← find_object_map aggregate_missing object "syscall_aggregate_inflight";
  _ ← call (bpf_set_max_entries object "syscall_aggregate_inflight" max_inflight)
        (AggregateError.Libbpf "size syscall inflight table");
  call (bpf_load object) (AggregateError.Libbpf "load BPF object").
Definition aggregate_configure_object (object : BpfObject) (request : SyscallAggregateRequest) :
    io AggregateError unit :=
  namespace ← target_namespace AggregateError.TargetNamespace (target_pid (sar_target request));
  config ← lift (or_panic (aggregate_config_bytes namespace.1 namespace.2 request));
  _ ← find_object_map aggregate_missing object "syscall_aggregate_config";
  call (bpf_update object "syscall_aggregate_config" key_zero config)
    (AggregateError.Libbpf "configure syscall aggregate").
Definition attach_programs (object : BpfObject) : io AggregateError (list Attachment) :=
  io_mapM (λ '(program, tracepoint),
      attach_program aggregate_missing AggregateError.Libbpf "attach syscall aggregate tracepoint"
        object (AttachRawTracepoint program tracepoint))
    [("xprobe_aggregate_syscall_entry"%string, "sys_enter"%string);
     ("xprobe_aggregate_syscall_exit"%string, "sys_exit"%string)].
Definition set_armed (object : BpfObject) (armed : bool) : io AggregateError unit :=
  _ ← find_object_map aggregate_missing object "syscall_aggregate_config";
  config ← call (bpf_lookup object "syscall_aggregate_config" key_zero)
             (AggregateError.Libbpf "read syscall aggregate config");
  config ← find_value aggregate_missing "syscall_aggregate_config" config;
  config ← lift (aggregate_arm armed config);
  call (bpf_update object "syscall_aggregate_config" key_zero config)
    (AggregateError.Libbpf
       (if armed then "arm syscall aggregate" else "disarm syscall aggregate")).

(** One group of the loop of [read_capture], [read_summary] and [read_capture]. *)
Definition read_group_value (object : BpfObject) (key : list Z) :
    io AggregateError RawSyscallGroup :=
  syscall_number ← lift (decode_u32 "syscall_aggregate_groups" key);
  values ← call (bpf_lookup_percpu object "syscall_aggregate_groups" key)
             (AggregateError.Libbpf "read syscall aggregate group");
  values ← find_value aggregate_missing "syscall_aggregate_groups" values;
  lift (sum_group syscall_number values).
Definition read_summary (object : BpfObject) : io AggregateError (list Z) :=
  _ ← find_object_map aggregate_missing object "syscall_aggregate_summary";
  value ← call (bpf_lookup object "syscall_aggregate_summary" key_zero)
            (AggregateError.Libbpf "read syscall aggregate summary");
  value ← find_value aggregate_missing "syscall_aggregate_summary" value;
  lift (decode_u64_fields 4 "syscall_aggregate_summary" value).
Definition collector_read_capture (object : BpfObject) : io AggregateError SyscallCapture :=
  _ ← find_object_map aggregate_missing object "syscall_aggregate_groups";
  keys ← ask (bpf_keys object "syscall_aggregate_groups");
  groups ← io_mapM (read_group_value object) keys;
  let groups := sort_by (λ left right, not_greater (raw_group_cmp left right)) groups in
  summary ← read_summary object;
  _ ← find_object_map aggregate_missing object "syscall_aggregate_inflight";
  inflight ← ask (bpf_keys object "syscall_aggregate_inflight");
  observed ← lift (or_panic (summary !! 0%nat));
  matched ← lift (or_panic (summary !! 1%nat));
  unmatched ← lift (or_panic (summary !! 2%nat));
  dropped ← lift (or_panic (summary !! 3%nat));
  mret (BuildSyscallCapture groups observed matched unmatched dropped (len inflight)).

(** The [while] loop of [collect]; [false] is the timeout.  Running out of [fuel], which
    [window_fuel] excludes, is a panic. *)
Fixpoint window_loop (fuel : nat) (capture_end timeout_at : Z) : io AggregateError bool :=
  match fuel with
  | O => lift Panic
  | S fuel =>
      now ← ask monotonic_now;
      if capture_end <=? now then mret true
      else
        now ← ask monotonic_now;
        if timeout_at <=? now then mret false
        else
          now ← ask monotonic_now;
          _ ← run_sleep (Z.min WAIT_INTERVAL (saturating_sub capture_end now));
          window_loop fuel capture_end timeout_at
  end.
Definition window_fuel (duration : Z) : nat := Z.to_nat (duration / WAIT_INTERVAL + 2).
Definition syscall_collect (request : SyscallAggregateRequest) :
    io AggregateError SyscallCapture :=
  _ ← lift (aggregate_validate_request request);
  started ← ask monotonic_now;
  timeout_at ← lift (ok_or (instant_checked_add started (sar_timeout request))
    (AggregateError.InvalidRequest "timeout overflows the monotonic clock"));
  object ← aggregate_load_object (sar_max_groups request) (sar_max_inflight request);
  _ ← aggregate_configure_object object request;
  _ ← attach_programs object;
  _ ← set_armed object true;
  now ← ask monotonic_now;
  capture_end ← lift (ok_or (instant_checked_add now (sar_duration request))
    (AggregateError.InvalidRequest "duration overflows the monotonic clock"));
  finished ← window_loop (window_fuel (sar_duration request)) capture_end timeout_at;
  _ ← set_armed object false;
  if (finished : bool) then collector_read_capture object else lift (Err AggregateError.Timeout).
End collect.

(** ** What libbpf and the clock promise *)
Definition steady_by `{Os} {A} (clock : World → Z) (f : World → A * World) : Prop :=
  ∀ w, clock w ≤ clock (f w).2.
Class LibbpfLaws `{Libbpf} := {
  bpf_clock : World → Z;
  now_reads : ∀ w, (monotonic_now w).1 = bpf_clock (monotonic_now w).2;
  sleep_lasts : ∀ d w, 0 ≤ d → bpf_clock w + d ≤ bpf_clock (sleep_for d w);
  poll_waits : ∀ object wait w, 0 ≤ wait → (ring_poll object wait w).1 = ([], None) →
    bpf_clock w + wait ≤ bpf_clock (ring_poll object wait w).2;
  now_steady : steady_by bpf_clock monotonic_now;
  poll_steady : ∀ object wait, steady_by bpf_clock (ring_poll object wait);
  cancelled_steady : steady_by bpf_clock load_cancelled;
  ready_steady : steady_by bpf_clock send_ready;
  name_steady : ∀ name, steady_by bpf_clock (bpf_name name);
  open_steady : steady_by bpf_clock bpf_open;
  load_steady : ∀ object, steady_by bpf_clock (bpf_load object);
  size_steady : ∀ object name n, steady_by bpf_clock (bpf_set_max_entries object name n);
  update_steady : ∀ object name key value, steady_by bpf_clock (bpf_update object name key value);
  lookup_steady : ∀ object name key, steady_by bpf_clock (bpf_lookup object name key);
  attach_steady : ∀ object attachment, steady_by bpf_clock (bpf_attach object attachment);
  add_steady : ∀ object name, steady_by bpf_clock (ring_add object name);
  build_steady : ∀ object, steady_by bpf_clock (ring_build object);
  namespace_steady : ∀ path, steady_by bpf_clock (fs_dev_ino path) }.

Section laws.
Context `{SerdeJson, Os, !Libbpf, !LibbpfLaws}.

(** Computations during which the clock does not go back. *)
Definition steady {E A} (m : io E A) : Prop := steady_by bpf_clock m.
Lemma steady_ret {E A} (a : A) : steady (mret (M := io E) a).
Proof. intros w. simpl. lia. Qed.
Lemma steady_lift {E A} (m : res E A) : steady (lift m).
Proof. intros w. simpl. lia. Qed.
Lemma steady_bind {E A B} (m : io E A) (f : A → io E B) :
  steady m → (∀ a, steady (f a)) → steady (m ≫= f).
Proof.
  intros Hm Hf w. specialize (Hm w). unfold mbind, io_bind.
  destruct (m w) as [[a|e|] w1]; simpl in *; [|done..]. etrans; [exact Hm|apply Hf].
Qed.
Lemma steady_call {E A} (f : World → syscall_result A * World) (wrap : IoError → E) :
  steady_by bpf_clock f → steady (call f wrap).
Proof. intros Hf w. specialize (Hf w). unfold call. by destruct (f w) as [[] ?]. Qed.
Lemma steady_ask {E A} (f : World → A * World) : steady_by bpf_clock f → steady (E := E) (ask f).
Proof. intros Hf w. specialize (Hf w). unfold ask. by destruct (f w). Qed.
Lemma steady_mapM {E A B} (f : A → io E B) l : (∀ x, steady (f x)) → steady (io_mapM f l).
Proof.
  intros Hf. induction l as [|x l IH]; [apply steady_ret|]. cbn [io_mapM].
  apply steady_bind; [done|]. intros y. apply steady_bind; [done|]. intros ys. apply steady_ret.
Qed.
End laws.
#[export] Hint Resolve now_steady poll_steady cancelled_steady ready_steady name_steady open_steady
  load_steady size_steady update_steady lookup_steady attach_steady add_steady build_steady
  namespace_steady steady_ret steady_lift : xprobe.
Ltac steady_steps :=
  repeat match goal with
  | |- steady (_ ≫= _) => apply steady_bind; [|intros ?]
  | |- steady (call _ _) => apply steady_call
  | |- steady (ask _) => apply steady_ask
  | |- steady (io_mapM _ _) => apply steady_mapM; intros ?
  | |- steady (if ?b then _ else _) => destruct b
  | |- steady (match ?x with _ => _ end) => destruct x
  | |- _ => solve [auto with xprobe]
  end.

Section loops.
Context `{SerdeJson, Os, !Libbpf, !LibbpfLaws}.

Lemma ask_ok {E A} (f : World → A * World) w a w' :
  ask (E := E) f w = (Ok a, w') → f w = (a, w').
Proof. unfold ask. destruct (f w). by intros [= -> ->]. Qed.
Lemma now_ok {E} w t w' :
  ask (E := E) monotonic_now w = (Ok t, w') → t = bpf_clock w' ∧ bpf_clock w ≤ bpf_clock w'.
Proof.
  intros Hn%ask_ok. pose proof (now_reads w) as Ht. pose proof (now_steady w) as Hs.
  rewrite Hn in Ht, Hs. done.
Qed.

(** *** The ring buffer *)
Section ring_loop.
Context {E A : Type} (libbpf_error : string → IoError → E) (decode : list Z → res E A).
Context (operation : string) (object : BpfObject) (limit deadline : Z).
Context (decode_total : ∀ bytes, decode bytes ≠ Panic).

(** The records that the turns of a loop were handed. *)
Inductive ring_turns : World → list (list Z) → World → Prop :=
| turns_done w : ring_turns w [] w
| turns_poll w1 w2 w3 w4 w' t wait records rest :
    load_cancelled w1 = (false, w2) → monotonic_now w2 = (t, w3) →
    ring_poll object wait w3 = ((records, None), w4) → ring_turns w4 rest w' →
    ring_turns w1 (records ++ rest) w'.
(** Why a loop ended in a world: cancelled, or at the deadline. *)
Definition stopped (w w' : World) : Prop :=
  load_cancelled w = (true, w') ∨ deadline ≤ bpf_clock w'.

Lemma ring_loop_ok fuel events w events' w' :
  ring_loop libbpf_error decode operation fuel object limit deadline events w = (Ok events', w') →
  ∃ records new w1, ring_turns w records w1
    ∧ Forall2 (λ record a, decode record = Ok a)
        (take (Z.to_nat (limit - len events)) records) new
    ∧ events' = events ++ new
    ∧ (limit ≤ len events' ∧ w1 = w' ∨ len events' < limit ∧ stopped w1 w').
Proof.
  revert events w. induction fuel as [|fuel IH]; intros events w; cbn [ring_loop]; [done|].
  assert (∀ w1, limit ≤ len events ∧ w = w1 ∨ len events < limit ∧ stopped w w1 →
    ∃ records new w2, ring_turns w records w2
      ∧ Forall2 (λ record a, decode record = Ok a)
          (take (Z.to_nat (limit - len events)) records) new
      ∧ events = events ++ new ∧ (limit ≤ len events ∧ w2 = w1 ∨ len events < limit ∧ stopped w2 w1))
    as Hstop.
  { intros w1 Hend. exists [], [], w. rewrite take_nil, app_nil_r. repeat split; try done.
    constructor. }
  destruct (Z.leb_spec limit (len events)) as [Hfull|Hroom].
  { intros [= <- <-]. apply Hstop. auto. }
  intros (cancelled & w1 & Hc%ask_ok & Hrest)%io_bind_ok.
  destruct cancelled. { injection Hrest as <- <-. apply Hstop. unfold stopped. auto. }
  apply io_bind_ok in Hrest as (t & w2 & Hn & Hrest). pose proof (now_ok _ _ _ Hn) as [Ht Hle].
  destruct (Z.leb_spec deadline t) as [Hdead|Halive].
  { injection Hrest as <- <-. apply Hstop. right. split; [done|]. right. by rewrite <-Ht. }
  apply io_bind_ok in Hrest as ([records failed] & w3 & Hp%ask_ok & Hrest). simpl in Hrest.
  destruct (ring_consume decode limit (events, None) records) as [[[events1 [error|]] code]|] eqn:Er;
    [done| |done].
  destruct failed; [done|]. apply ring_consume_ok in Er as (new1 & Hnew1 & ->).
  apply IH in Hrest as (rest & new2 & w4 & Hturns & Hnew2 & -> & Hend).
  exists (records ++ rest), (new1 ++ new2), w4. split; [by econstructor; eauto; apply ask_ok in Hn|].
  split; [|by rewrite app_assoc]. rewrite take_app. apply Forall2_app; [done|].
  apply Forall2_length in Hnew1 as Hl. rewrite length_take in Hl. rewrite len_app in Hnew2.
  destruct (decide (Z.to_nat (limit - len events) ≤ length records)%nat) as [Hlong|Hshort].
  - replace (_ - length records)%nat with 0%nat by lia.
    replace (Z.to_nat (limit - (len events + len new1))) with 0%nat in Hnew2
      by (unfold len in *; lia). by rewrite take_0 in *.
  - replace (Z.to_nat (limit - len events) - length records)%nat
      with (Z.to_nat (limit - (len events + len new1))) by (unfold len in *; lia). done.
Qed.

Lemma ring_loop_ends fuel events w k :
  0 ≤ k → deadline - bpf_clock w ≤ k * POLL_INTERVAL →
  Z.max 0 (limit - len events) + k < Z.of_nat fuel →
  (ring_loop libbpf_error decode operation fuel object limit deadline events w).1 ≠ Panic.
Proof.
  revert events w k. induction fuel as [|fuel IH]; intros events w k Hk Htime Hfuel; [lia|].
  cbn [ring_loop]. destruct (Z.leb_spec limit (len events)) as [|Hroom]; [done|].
  unfold mbind, io_bind, ask. pose proof (cancelled_steady w) as Hc.
  destruct (load_cancelled w) as [[] w1]; [done|]. simpl in Hc.
  pose proof (now_steady w1) as Hn. pose proof (now_reads w1) as Ht.
  destruct (monotonic_now w1) as [t w2]. simpl in Hn, Ht. subst t.
  destruct (Z.leb_spec deadline (bpf_clock w2)) as [|Halive]; [done|].
  set (wait := Z.min _ _).
  assert (0 ≤ wait) as Hwait by (unfold wait, POLL_INTERVAL; lia).
  pose proof (poll_steady object wait w2) as Hp. pose proof (poll_waits object wait w2 Hwait) as Hw.
  destruct (ring_poll object wait w2) as [[records failed] w3]. cbn [fst snd] in *.
  destruct (ring_consume decode limit (events, None) records) as [[[events1 [error|]] code]|] eqn:Er;
    [done| |by apply ring_consume_total in Er].
  destruct failed; [done|]. apply ring_consume_ok in Er as (new & Hnew & ->).
  pose proof (len_nonneg new). destruct records as [|record records].
  - specialize (Hw eq_refl).
    apply (IH _ _ (Z.max 0 (k - 1))); unfold wait, POLL_INTERVAL in *; rewrite ?len_app; lia.
  - apply (IH _ _ k); [done|unfold POLL_INTERVAL in *; lia|]. rewrite len_app.
    apply Forall2_length in Hnew. rewrite length_take in Hnew. simpl in Hnew.
    assert (1 ≤ len new) by (unfold len in *; lia). lia.
Qed.
Lemma ring_fuel_enough events w timeout :
  0 ≤ timeout → deadline - bpf_clock w ≤ timeout → 0 ≤ len events →
  (ring_loop libbpf_error decode operation (ring_fuel limit timeout) object limit deadline events
     w).1 ≠ Panic.
Proof.
  intros Ht Hd He. apply (ring_loop_ends _ _ _ (timeout / POLL_INTERVAL + 1));
    unfold ring_fuel, POLL_INTERVAL in *;
    pose proof (Z.div_pos timeout (100 * 1000000) Ht ltac:(lia));
    pose proof (Z.mod_pos_bound timeout (100 * 1000000) ltac:(lia));
    pose proof (Z.div_mod timeout (100 * 1000000) ltac:(lia)); lia.
Qed.
End ring_loop.

(** *** Steps that come before the loops *)
Lemma later_bind {E A B} (m : io E A) (f : A → io E B) w t :
  t ≤ bpf_clock w → total m → steady m →
  (∀ a w1, t ≤ bpf_clock w1 → (f a w1).1 ≠ Panic) → ((m ≫= f) w).1 ≠ Panic.
Proof.
  intros Ht Hm Hs Hf. specialize (Hm w). specialize (Hs w). unfold mbind, io_bind.
  destruct (m w) as [[a|e|] w1]; simpl in *; [|done..]. apply Hf. lia.
Qed.
Lemma now_bind {E B} (f : Z → io E B) w :
  (∀ t w1, t = bpf_clock w1 → bpf_clock w ≤ t → (f t w1).1 ≠ Panic) →
  ((ask monotonic_now ≫= f) w).1 ≠ Panic.
Proof.
  intros Hf. unfold mbind, io_bind. destruct (ask monotonic_now w) as [[t|e|] w1] eqn:En.
  - apply now_ok in En as [Ht Hle]. apply Hf; [done|lia].
  - done.
  - unfold ask in En. by destruct (monotonic_now w).
Qed.
Lemma lift_bind {E A B} (m : res E A) (f : A → io E B) w :
  m ≠ Panic → (∀ a, m = Ok a → (f a w).1 ≠ Panic) → ((lift m ≫= f) w).1 ≠ Panic.
Proof. intros Hm Hf. unfold mbind, io_bind, lift. destruct m; [by apply Hf|done|done]. Qed.
Lemma ok_or_ok {E A} (o : option A) (e : E) a : ok_or o e = Ok a → o = Some a.
Proof. destruct o; simpl; congruence. Qed.
Lemma instant_add_some now duration t : instant_checked_add now duration = Some t → t = now + duration.
Proof. unfold instant_checked_add. destruct (_ <? _); congruence. Qed.
Lemma total_ask {E A} (f : World → A * World) : total (E := E) (ask f).
Proof. intros w. unfold ask. by destruct (f w). Qed.
Lemma total_mapM {E A B} (f : A → io E B) l : Forall (λ x, total (f x)) l → total (io_mapM f l).
Proof.
  induction 1 as [|x l Hx _ IH]; [apply total_ret|]. cbn [io_mapM].
  apply total_bind; [done|]. intros w y w' _. apply total_bind; [done|]. intros. apply total_ret.
Qed.
End loops.
#[export] Hint Resolve total_ask : xprobe.

Section captures.
Context `{SerdeJson, Os, !Libbpf, !LibbpfLaws}.

(** ** [linux::capture] *)
Lemma linux_validate_total request : linux_validate_request request ≠ Panic.
Proof. unfold linux_validate_request. no_panic. Qed.
Lemma linux_arm_total config : linux_arm config ≠ Panic.
Proof.
  unfold linux_arm. destruct (Z.eqb_spec (len config) LINUX_CONFIG_SIZE) as [Hlen|]; [|done].
  destruct (copy_from_slice_some config 20 (to_le_bytes 4 1)) as (l & -> & _); [lia| |done].
  rewrite to_le_bytes_len, Hlen. unfold LINUX_CONFIG_SIZE. lia.
Qed.
Lemma linux_ring_bytes_total limit : linux_ring_bytes limit ≠ Panic.
Proof. unfold linux_ring_bytes. by destruct (_ <=? _). Qed.
Lemma linux_load_total limit : total (linux_load_object limit).
Proof.
  unfold linux_load_object, find_object_map. total_steps. apply linux_ring_bytes_total.
Qed.
Lemma linux_load_steady limit : steady (linux_load_object limit).
Proof. unfold linux_load_object, find_object_map. steady_steps. Qed.
Lemma linux_configure_total object request :
  (length (lcr_probes request) ≤ 2)%nat → total (linux_configure_object object request).
Proof.
  intros Hlen. unfold linux_configure_object, find_object_map, target_namespace. total_steps.
  rewrite linux_config_fields by done. done.
Qed.
Lemma linux_configure_steady object request : steady (linux_configure_object object request).
Proof. unfold linux_configure_object, find_object_map, target_namespace. steady_steps. Qed.
Lemma arm_object_total object : total (arm_object object).
Proof.
  unfold arm_object, find_object_map, find_value. total_steps. apply linux_arm_total.
Qed.
Lemma arm_object_steady object : steady (arm_object object).
Proof. unfold arm_object, find_object_map, find_value. steady_steps. Qed.
Lemma linux_counter_total object name : total (linux_counter object name).
Proof.
  unfold linux_counter, find_object_map, find_value, linux_read_counter. total_steps; by destruct a0.
Qed.
Lemma attach_program_total {E} (missing : string → string → E) libbpf_error operation object a :
  total (attach_program missing libbpf_error operation object a).
Proof. unfold attach_program, find_program. total_steps. Qed.
Lemma attach_program_steady {E} (missing : string → string → E) libbpf_error operation object a :
  steady (attach_program missing libbpf_error operation object a).
Proof. unfold attach_program, find_program. steady_steps. Qed.
Lemma attach_probes_steady object pid probes : steady (attach_probes object pid probes).
Proof.
  pose proof (@attach_program_steady LinuxCaptureError linux_missing LinuxCaptureError.Libbpf).
  unfold attach_probes, attach_syscalls, attach_tracepoint_probe, attach_usdt_probe, linux_attach,
    find_program. steady_steps.
Qed.
Lemma attach_probes_total object pid probes :
  Forall (λ probe, linux_probe_valid probe = true) probes → total (attach_probes object pid probes).
Proof.
  intros Hv. pose proof (@attach_program_total LinuxCaptureError linux_missing
    LinuxCaptureError.Libbpf) as Ha. unfold attach_probes.
  apply total_bind; [|intros _ syscalls _ _; apply total_bind; [|intros _ points _ _;
    apply total_bind; [|intros; apply total_ret]]].
  - unfold attach_syscalls, linux_attach. total_steps. apply total_mapM, Forall_forall.
    intros [[event_type program] name] _. total_steps.
  - apply total_mapM, Forall_forall. intros [i probe] _. unfold attach_tracepoint_probe, linux_attach.
    total_steps.
  - apply total_mapM, Forall_forall. intros [i probe] Hin. apply elem_of_lookup_imap in Hin
      as (j & p & [= -> ->] & Hp). eapply Forall_lookup_1 in Hv; [|exact Hp].
    unfold attach_usdt_probe, linux_attach, find_program, linux_probe_valid in *. simpl.
    destruct (bool_decide_reflect (rl_probe_kind p = HostProbeKind.Usdt)) as [Ek|]; simpl.
    + rewrite Ek in Hv. rewrite !andb_true_iff in Hv. destruct Hv as [[_ Hpath] Hprov].
      apply bool_decide_eq_true in Hprov. rewrite Hprov.
      destruct (rl_binary_path p); [|done]. total_steps.
    + total_steps.
Qed.

Lemma total_ready {E} (ready : bool) (e : E) :
  total (if ready then sent ← ask send_ready; if (sent : bool) then mret () else lift (Err e)
         else mret ()).
Proof. total_steps. Qed.
Lemma steady_ready {E} (ready : bool) (e : E) :
  steady (if ready then sent ← ask send_ready; if (sent : bool) then mret () else lift (Err e)
          else mret ()).
Proof. steady_steps. Qed.
Lemma steady_find_map {E} (missing : string → string → E) object name :
  steady (find_object_map missing object name) ∧ total (find_object_map missing object name).
Proof. unfold find_object_map. split; [steady_steps|total_steps]. Qed.

Lemma linux_result_total request session_id raws dropped :
  Forall (λ probe, linux_probe_valid probe = true) (lcr_probes request) →
  Forall (λ raw, lre_values raw ≠ []) raws →
  linux_capture_result request session_id raws dropped ≠ Panic.
Proof.
  intros Hv Hr. unfold linux_capture_result. apply res_bind_no_panic; [|done].
  apply res_mapM_no_panic. eapply Forall_impl; [exact Hr|]. intros raw Hraw.
  unfold linux_normalize_event.
  destruct (get_z (lcr_probes request) _) as [probe|] eqn:Ep; [|done].
  cbn [ok_or mbind res_bind].
  assert (linux_probe_valid probe = true) as Hp.
  { unfold get_z in Ep. destruct (_ <? _); [done|].
    eapply Forall_lookup_1 in Hv; [exact Hv|exact Ep]. }
  unfold linux_probe_valid in Hp. cbn beta in Hraw. destruct (lre_values raw) as [|v values] eqn:Evalues; [done|].
  destruct (bool_decide_reflect (rl_probe_kind probe = HostProbeKind.Usdt)) as [Ek|];
    [|cbn; done].
  rewrite Ek in Hp. rewrite !andb_true_iff in Hp. destruct Hp as [_ Hprov].
  apply bool_decide_eq_true in Hprov. by rewrite Hprov.
Qed.

Lemma linux_collect_total object request deadline ready w :
  Forall (λ probe, linux_probe_valid probe = true) (lcr_probes request) →
  0 ≤ lcr_timeout request → deadline - lcr_timeout request ≤ bpf_clock w →
  (linux_collect_raw_events object request deadline ready w).1 ≠ Panic.
Proof.
  intros Hv Ht Hw. unfold linux_collect_raw_events.
  destruct (steady_find_map linux_missing object "linux_events") as [Hs1 Hs2].
  eapply later_bind; [exact Hw|done|done|]. intros _ w1 Hw1.
  eapply later_bind; [exact Hw1|auto with xprobe|steady_steps|]. intros _ w2 Hw2.
  eapply later_bind; [exact Hw2|auto with xprobe|steady_steps|]. intros _ w3 Hw3.
  eapply later_bind; [exact Hw3|by apply attach_probes_total|apply attach_probes_steady|].
  intros _ w4 Hw4.
  eapply later_bind; [exact Hw4|apply arm_object_total|apply arm_object_steady|]. intros _ w5 Hw5.
  eapply later_bind; [exact Hw5|apply total_ready|apply steady_ready|]. intros _ w6 Hw6.
  unfold mbind at 1, io_bind at 1.
  pose proof (ring_fuel_enough LinuxCaptureError.Libbpf linux_event_decode "poll Linux ring buffer"
    object (lcr_event_limit request) deadline linux_decode_total [] w6 (lcr_timeout request) Ht)
    as Hloop. specialize (Hloop ltac:(lia) ltac:(done)).
  destruct (ring_loop _ _ _ _ _ _ _ _ w6) as [[raws|e|] w7]; [|done..].
  assert (total (dropped ← linux_counter object "linux_dropped"; mret (raws, dropped))) as Htot;
    [|apply Htot].
  apply total_bind; [apply linux_counter_total|]. intros. apply total_ret.
Qed.

(** What the raw events of a collection are. *)
Lemma linux_collect_ok object request deadline ready w raws dropped w' :
  linux_collect_raw_events object request deadline ready w = (Ok (raws, dropped), w') →
  ∃ records links w1 w2 w3 w4 w5,
    attach_probes object (target_pid (lcr_target request)) (lcr_probes request) w1 = (Ok links, w2)
    ∧ arm_object object w2 = (Ok (), w3) ∧ ring_turns object w4 records w5
    ∧ Forall2 (λ record raw, linux_event_decode record = Ok raw)
        (take (Z.to_nat (lcr_event_limit request)) records) raws
    ∧ (∃ w7 w8, linux_counter object "linux_dropped" w7 = (Ok dropped, w8))
    ∧ (len raws < lcr_event_limit request → ∃ w6, stopped deadline w5 w6).
Proof.
  unfold linux_collect_raw_events. intros Hok. io_steps.
  repeat match goal with u : unit |- _ => destruct u end.
  match goal with H : ring_loop _ _ _ _ _ _ _ _ _ = _ |- _ =>
    apply ring_loop_ok in H as (records & new & w1' & Hturns & Hnew & -> & Hend) end.
  rewrite app_nil_l in *. change (len []) with 0 in Hnew. rewrite Z.sub_0_r in Hnew.
  do 7 eexists. split; [eassumption|]. split; [eassumption|]. split; [eassumption|].
  split; [done|]. split; [eauto|]. intros Hlt. destruct Hend as [[? _]|[_ Hs]]; [lia|]. by eexists.
Qed.


(** ** [uprobe::capture] *)
Lemma uprobe_decode_total bytes : raw_event_decode bytes ≠ Panic.
Proof.
  unfold raw_event_decode. destruct (Z.eqb_spec (len bytes) RAW_EVENT_SIZE) as [Hlen|]; [|done].
  change RAW_EVENT_SIZE with 32 in Hlen. cbn [negb].
  assert (∀ a b, 0 ≤ a ≤ b → b ≤ 32 → ∃ v, field bytes a b = Some v) as Hf
    by (intros; apply field_some; lia).
  repeat match goal with |- context [field bytes ?a ?b] =>
    destruct (Hf a b ltac:(lia) ltac:(lia)) as [? ->] end. done.
Qed.
Lemma uprobe_configure_total object request : total (uprobe_configure_object object request).
Proof. unfold uprobe_configure_object, find_object_map, target_namespace. total_steps. Qed.
Lemma uprobe_counter_total object name : total (uprobe_read_counter object name).
Proof. unfold uprobe_read_counter, find_object_map, find_value. total_steps. Qed.
Lemma uprobe_collect_total object request pid deadline ready w :
  0 ≤ ur_timeout request → deadline - ur_timeout request ≤ bpf_clock w →
  (uprobe_collect_raw_events object request pid deadline ready w).1 ≠ Panic.
Proof.
  intros Ht Hw. unfold uprobe_collect_raw_events. apply lift_bind; [by destruct (_ <=? _)|].
  intros _ _. destruct (steady_find_map uprobe_missing object "events") as [Hs1 Hs2].
  eapply later_bind; [exact Hw|done|done|]. intros _ w1 Hw1.
  eapply later_bind; [exact Hw1|auto with xprobe|steady_steps|]. intros _ w2 Hw2.
  eapply later_bind; [exact Hw2|auto with xprobe|steady_steps|]. intros _ w3 Hw3.
  eapply later_bind; [exact Hw3|apply attach_program_total|apply attach_program_steady|].
  intros _ w4 Hw4.
  eapply later_bind; [exact Hw4|apply total_ready|apply steady_ready|]. intros _ w5 Hw5.
  unfold mbind at 1, io_bind at 1.
  pose proof (ring_fuel_enough UprobeError.Libbpf raw_event_decode "poll ring buffer"
    object (ur_samples request) deadline uprobe_decode_total [] w5 (ur_timeout request) Ht) as Hloop.
  specialize (Hloop ltac:(lia) ltac:(done)).
  destruct (ring_loop _ _ _ _ _ _ _ _ w5) as [[raws|e|] w6]; [|done..].
  assert (total (dropped ← uprobe_read_counter object "dropped"; mret (raws, dropped))) as Htot;
    [|apply Htot].
  apply total_bind; [apply uprobe_counter_total|]. intros. apply total_ret.
Qed.

(** Capturing userspace probes returns as well, and its result holds the first [samples]
    records handed over after the program was attached. *)
Theorem uprobe_capture_collects (request : UprobeRequest) (ready : bool) (w : World)
    (Htimeout : 0 ≤ ur_timeout request) :
  (uprobe_capture request ready w).1 ≠ Panic
  ∧ ∀ r w', uprobe_capture request ready w = (Ok r, w') →
    ∃ object records raws session_id dropped w1 w2,
      ring_turns object w1 records w2
      ∧ Forall2 (λ record raw, raw_event_decode record = Ok raw)
          (take (Z.to_nat (ur_samples request)) records) raws
      ∧ r = capture_result request session_id raws dropped.
Proof.
  unfold uprobe_capture. split.
  - apply lift_bind; [unfold validate_request; no_panic|]. intros [] Evalid.
    apply now_bind. intros start w1 -> Hn.
    apply lift_bind; [by destruct (instant_checked_add _ _)|].
    intros deadline ->%ok_or_ok%instant_add_some.
    apply lift_bind; [by destruct (_ <? _)|]. intros [] _.
    eapply later_bind; [reflexivity|unfold uprobe_load_object; total_steps
      |unfold uprobe_load_object; steady_steps|]. intros object w2 Hw2.
    eapply later_bind; [exact Hw2|apply uprobe_configure_total
      |unfold uprobe_configure_object, find_object_map, target_namespace; steady_steps|].
    intros _ w3 Hw3. unfold mbind at 1, io_bind at 1.
    pose proof (uprobe_collect_total object request (target_pid (ur_target request))
      (bpf_clock w1 + ur_timeout request) ready w3 Htimeout) as Hcollect.
    specialize (Hcollect ltac:(lia)).
    destruct (uprobe_collect_raw_events object request _ _ ready w3) as [[c|e|] w4]; [|done..].
    unfold mbind, io_bind, ask. destruct (process_id w4) as [own w5].
    by destruct (next_session w5) as [sequence w6].
  - intros r w' Hok. io_steps.
    match goal with H : uprobe_collect_raw_events _ _ _ _ _ _ = (Ok ?c, _) |- _ =>
      unfold uprobe_collect_raw_events in H; io_steps end.
    match goal with H : ring_loop _ _ _ _ _ _ _ _ _ = _ |- _ =>
      apply ring_loop_ok in H as (records & new & w1' & Hturns & Hnew & -> & Hend) end.
    rewrite app_nil_l in *. change (len []) with 0 in Hnew. rewrite Z.sub_0_r in Hnew.
    do 7 eexists. split; [exact Hturns|]. split; [exact Hnew|]. reflexivity.
Qed.

(** ** [syscall_aggregate::collect] *)
Lemma window_loop_ends fuel : ∀ capture_end timeout_at w,
  capture_end - bpf_clock w ≤ (Z.of_nat fuel - 1) * WAIT_INTERVAL → (0 < fuel)%nat →
  (window_loop fuel capture_end timeout_at w).1 ≠ Panic.
Proof.
  induction fuel as [|fuel IH]; intros capture_end timeout_at w Hfuel Hpos; [lia|].
  cbn [window_loop]. apply now_bind. intros t1 w1 -> Hle1.
  destruct (Z.leb_spec capture_end (bpf_clock w1)) as [|Hlt]; [done|].
  apply now_bind. intros t2 w2 -> Hle2. destruct (timeout_at <=? bpf_clock w2); [done|].
  apply now_bind. intros t3 w3 -> Hle3.
  unfold mbind, io_bind, run_sleep. set (d := Z.min _ _).
  pose proof (sleep_lasts d w3) as Hs.
  assert (0 ≤ d) as Hd by (unfold d, saturating_sub, WAIT_INTERVAL; lia).
  specialize (Hs Hd). unfold d, saturating_sub, WAIT_INTERVAL in *.
  destruct fuel as [|fuel]; [lia|]. apply IH; lia.
Qed.
Lemma window_loop_ok fuel : ∀ capture_end timeout_at w b w',
  window_loop fuel capture_end timeout_at w = (Ok b, w') →
  bpf_clock w ≤ bpf_clock w'
  ∧ if b then capture_end ≤ bpf_clock w' else timeout_at ≤ bpf_clock w'.
Proof.
  induction fuel as [|fuel IH]; intros capture_end timeout_at w b w' Hok; [done|].
  cbn [window_loop] in Hok. apply io_bind_ok in Hok as (t1 & w1 & Hn1 & Hok).
  apply now_ok in Hn1 as [-> Hle1]. destruct (Z.leb_spec capture_end (bpf_clock w1)).
  { by injection Hok as <- <-. }
  apply io_bind_ok in Hok as (t2 & w2 & Hn2 & Hok). apply now_ok in Hn2 as [-> Hle2].
  destruct (Z.leb_spec timeout_at (bpf_clock w2)). { injection Hok as <- <-. split; lia. }
  apply io_bind_ok in Hok as (t3 & w3 & Hn3 & Hok). apply now_ok in Hn3 as [-> Hle3].
  apply io_bind_ok in Hok as ([] & w4 & Hsleep & Hok). unfold run_sleep in Hsleep.
  injection Hsleep as <-. apply IH in Hok as [Hle4 Hb]. split; [|done].
  pose proof (sleep_lasts (Z.min WAIT_INTERVAL (saturating_sub capture_end (bpf_clock w3))) w3).
  unfold saturating_sub, WAIT_INTERVAL in *. lia.
Qed.

Lemma decode_fields_total n map bytes :
  decode_u64_fields n map bytes ≠ Panic
  ∧ ∀ fields, decode_u64_fields n map bytes = Ok fields → length fields = n.
Proof.
  unfold decode_u64_fields. destruct (Z.eqb_spec (len bytes) (Z.of_nat n * 8)) as [Hlen|]; [|done].
  cbn [negb]. set (f := λ index : nat, _).
  assert (∃ fields, mapM f (seq 0 n) = Some fields) as [fields Hm].
  { apply mapM_is_Some, Forall_forall. intros i Hi%elem_of_seq. unfold f, compose. cbv zeta beta.
    destruct (field_some bytes (Z.of_nat i * 8) (Z.of_nat i * 8 + 8)) as [v ->]; [lia..|]. by eexists. }
  rewrite Hm. split; [done|]. intros fields' [= <-]. apply length_mapM in Hm.
  by rewrite length_seq in Hm.
Qed.
Lemma sum_group_total number values : sum_group number values ≠ Panic.
Proof.
  unfold sum_group. apply res_bind_no_panic; [|done].
  generalize (BuildRawSyscallGroup number 0 0 0 u64_max 0).
  induction values as [|value values IH]; intros group; [done|]. cbn [add_cpus].
  destruct (decode_fields_total 5 "syscall_aggregate_groups" value) as [Hp Hl].
  destruct (decode_u64_fields 5 _ value) as [fields|e|]; [|done..]. specialize (Hl fields eq_refl).
  do 5 (destruct fields as [|? fields]; [done|]). cbn. destruct (_ =? 0); apply IH.
Qed.
Lemma read_group_total object key : total (read_group_value object key).
Proof.
  unfold read_group_value, decode_u32, find_value. total_steps. apply sum_group_total.
Qed.
Lemma collector_read_total object : total (collector_read_capture object).
Proof.
  unfold collector_read_capture.
  destruct (steady_find_map aggregate_missing object "syscall_aggregate_groups") as [_ Hm].
  destruct (steady_find_map aggregate_missing object "syscall_aggregate_inflight") as [_ Hi].
  apply total_bind; [done|]. intros _ _ _ _. apply total_bind; [apply total_ask|]. intros _ keys _ _.
  apply total_bind; [apply total_mapM, Forall_forall; intros; apply read_group_total|].
  intros _ groups _ _. apply total_bind.
  { unfold read_summary, find_object_map, find_value. total_steps. apply decode_fields_total. }
  intros w1 summary w2 Hs. unfold read_summary in Hs. io_steps.
  apply decode_fields_total in Hs. do 4 (destruct summary as [|? summary]; [done|]).
  apply total_bind; [done|]. intros _ _ _ _. apply total_bind; [apply total_ask|].
  intros. cbn [lookup list_lookup or_panic]. total_steps.
Qed.

(** The maps a successful reading found, read at once. *)
Definition group_answer (object : BpfObject) (entry : list Z * list (list Z)) : Prop :=
  ∃ w w', bpf_lookup_percpu object "syscall_aggregate_groups" entry.1 w = (inr (Some entry.2), w').
Lemma read_groups_ok object keys w groups w' :
  io_mapM (read_group_value object) keys w = (Ok groups, w') →
  ∃ group_map, group_map.*1 = keys ∧ Forall (group_answer object) group_map
    ∧ res_mapM (λ '(key, values), syscall_number ← decode_u32 "syscall_aggregate_groups" key;
                sum_group syscall_number values) group_map = Ok groups.
Proof.
  revert w groups. induction keys as [|key keys IH]; intros w groups Hok; cbn [io_mapM] in Hok.
  { injection Hok as <- <-. by exists []. }
  io_steps. match goal with H : read_group_value _ _ _ = _ |- _ =>
    unfold read_group_value in H; io_steps end.
  match goal with H : io_mapM _ keys _ = _ |- _ => apply IH in H as (group_map & <- & Hg & Hm) end.
  match goal with H : call _ _ _ = (Ok ?v, _) |- _ => apply call_ok in H; destruct v as [values|] end;
    [|done].
  match goal with H : find_value _ _ _ _ = _ |- _ => injection H as <- <- end.
  exists ((key, values) :: group_map). split; [done|]. split.
  { constructor; [|done]. do 2 eexists. eassumption. }
  cbn [res_mapM]. rewrite Hm.
  match goal with H : decode_u32 _ _ = _ |- _ => rewrite H end. cbn [mbind res_bind].
  match goal with H : sum_group _ _ = _ |- _ => rewrite H end. done.
Qed.
Lemma collector_reads object w capture w' :
  collector_read_capture object w = (Ok capture, w') →
  ∃ group_map summary inflight w1 w2 w3 w4 w5 w6,
    bpf_keys object "syscall_aggregate_groups" w1 = (group_map.*1, w2)
    ∧ Forall (group_answer object) group_map
    ∧ bpf_lookup object "syscall_aggregate_summary" key_zero w3 = (inr (Some summary), w4)
    ∧ bpf_keys object "syscall_aggregate_inflight" w5 = (inflight, w6)
    ∧ read_capture group_map summary inflight = Ok capture.
Proof.
  unfold collector_read_capture. intros Hok. io_steps.
  repeat match goal with H : ask _ _ = (Ok _, _) |- _ => apply ask_ok in H end.
  match goal with H : io_mapM _ _ _ = _ |- _ =>
    apply read_groups_ok in H as (group_map & <- & Hg & Hm) end.
  match goal with H : read_summary _ _ = _ |- _ => unfold read_summary in H; io_steps end.
  match goal with H : call _ _ _ = (Ok ?v, _) |- _ => apply call_ok in H; destruct v as [summary|] end;
    [|done].
  match goal with H : find_value _ _ _ _ = _ |- _ => injection H as <- <- end.
  do 9 eexists. split; [eassumption|]. split; [done|]. split; [eassumption|].
  split; [eassumption|]. unfold read_capture. rewrite Hm. cbn [mbind res_bind].
  match goal with H : decode_u64_fields _ _ _ = _ |- _ => rewrite H end. cbn [mbind res_bind].
  repeat match goal with H : or_panic _ = Ok _ |- _ => rewrite H; clear H; cbn [mbind res_bind] end.
  done.
Qed.

(** Steps that do not fail with a timeout. *)
Definition no_timeout {A} (m : io AggregateError A) : Prop :=
  ∀ w w', m w ≠ (Err AggregateError.Timeout, w').
Lemma no_timeout_bind {A B} (m : io AggregateError A) (f : A → io AggregateError B) w w' :
  no_timeout m → (m ≫= f) w = (Err AggregateError.Timeout, w') →
  ∃ a w1, m w = (Ok a, w1) ∧ f a w1 = (Err AggregateError.Timeout, w').
Proof.
  intros Hm. unfold mbind, io_bind. specialize (Hm w). destruct (m w) as [[a|e|] w1]; [eauto| |done].
  intros [= -> ->]. by destruct (Hm w').
Qed.
Lemma no_timeout_seq {A B} (m : io AggregateError A) (f : A → io AggregateError B) :
  no_timeout m → (∀ a, no_timeout (f a)) → no_timeout (m ≫= f).
Proof. intros Hm Hf w w' (a & w1 & _ & He)%no_timeout_bind; [|done]. by apply Hf in He. Qed.
Lemma no_timeout_call {A} (f : World → syscall_result A * World) wrap :
  (∀ e, wrap e ≠ AggregateError.Timeout) → no_timeout (call f wrap).
Proof. intros Hw w w'. unfold call. destruct (f w) as [[e|a] w1]; [|done]. intros [= E _]. by apply Hw in E. Qed.
Lemma no_timeout_mapM {A B} (f : A → io AggregateError B) l :
  (∀ x, no_timeout (f x)) → no_timeout (io_mapM f l).
Proof.
  intros Hf. induction l as [|x l IH]; [done|]. apply no_timeout_seq; [done|]. intros y.
  by apply no_timeout_seq.
Qed.
Ltac no_timeout_steps :=
  repeat match goal with
  | |- no_timeout (_ ≫= _) => apply no_timeout_seq; [|intros ?]
  | |- no_timeout (call _ _) => apply no_timeout_call; done
  | |- no_timeout (ask ?f) => intros ? ?; unfold ask; destruct (f _); done
  | |- no_timeout (io_mapM _ _) => apply no_timeout_mapM; intros ?
  | |- no_timeout (match ?x with _ => _ end) => destruct x
  | |- no_timeout (lift (ok_or ?o _)) => by destruct o
  | |- no_timeout (lift (or_panic ?o)) => by destruct o
  | |- no_timeout _ => done
  end.
Lemma aggregate_arm_errors armed config :
  aggregate_arm armed config ≠ Panic ∧ aggregate_arm armed config ≠ Err AggregateError.Timeout.
Proof.
  unfold aggregate_arm. destruct (Z.eqb_spec (len config) AGGREGATE_CONFIG_SIZE) as [Hl|]; [|done].
  destruct (copy_from_slice_some config 20 (to_le_bytes 4 (Z.b2z armed))) as (l & -> & _); [lia| |done].
  rewrite to_le_bytes_len, Hl. unfold AGGREGATE_CONFIG_SIZE. lia.
Qed.
Lemma set_armed_steps object armed :
  total (set_armed object armed) ∧ steady (set_armed object armed)
  ∧ no_timeout (set_armed object armed).
Proof.
  unfold set_armed, find_object_map, find_value. split; [|split].
  - total_steps. apply aggregate_arm_errors.
  - steady_steps.
  - no_timeout_steps. intros w w' [= E _]. by apply aggregate_arm_errors in E.
Qed.

Lemma window_no_timeout fuel capture_end timeout_at :
  no_timeout (window_loop fuel capture_end timeout_at).
Proof.
  induction fuel as [|fuel IH]; [done|]. cbn [window_loop]. no_timeout_steps.
Qed.
Lemma decode_fields_no_timeout n map bytes :
  decode_u64_fields n map bytes ≠ Err AggregateError.Timeout.
Proof. unfold decode_u64_fields. destruct (negb _); [done|]. by destruct (mapM _ _). Qed.
Lemma sum_group_no_timeout number values : sum_group number values ≠ Err AggregateError.Timeout.
Proof.
  unfold sum_group. generalize (BuildRawSyscallGroup number 0 0 0 u64_max 0).
  induction values as [|value values IH]; intros group; [done|]. cbn [add_cpus].
  pose proof (decode_fields_no_timeout 5 "syscall_aggregate_groups" value) as Hn.
  destruct (decode_u64_fields 5 _ value) as [fields|e|]; cbn [mbind res_bind] in *; [|congruence|done].
  destruct (add_cpu group fields); cbn [or_panic mbind res_bind]; [apply IH|done].
Qed.
Lemma read_no_timeout object : no_timeout (collector_read_capture object).
Proof.
  unfold collector_read_capture, read_summary, read_group_value, find_object_map, find_value, decode_u32.
  no_timeout_steps.
  - intros w w' [= E _]. by destruct (_ =? _).
  - intros w w' [= E _]. by apply sum_group_no_timeout in E.
  - intros w w' [= E _]. by apply decode_fields_no_timeout in E.
Qed.

(** The steps before the programs are armed. *)
Definition prepare_aggregate (request : SyscallAggregateRequest) : io AggregateError BpfObject :=
  object ← aggregate_load_object (sar_max_groups request) (sar_max_inflight request);
  _ ← aggregate_configure_object object request;
  _ ← attach_programs object;
  mret object.
Lemma prepare_steps request :
  total (prepare_aggregate request) ∧ steady (prepare_aggregate request)
  ∧ no_timeout (prepare_aggregate request).
Proof.
  unfold prepare_aggregate, aggregate_load_object, aggregate_configure_object, attach_programs,
    attach_program, find_object_map, find_program, target_namespace. split; [|split].
  - total_steps. apply total_mapM, Forall_forall. intros [program tracepoint] _. total_steps.
  - steady_steps.
  - no_timeout_steps.
Qed.

(** [collect] from the arming on. *)
Definition collect_armed (request : SyscallAggregateRequest) (timeout_at : Z) (object : BpfObject) :
    io AggregateError SyscallCapture :=
  _ ← set_armed object true;
  now ← ask monotonic_now;
  capture_end ← lift (ok_or (instant_checked_add now (sar_duration request))
    (AggregateError.InvalidRequest "duration overflows the monotonic clock"));
  finished ← window_loop (window_fuel (sar_duration request)) capture_end timeout_at;
  _ ← set_armed object false;
  if (finished : bool) then collector_read_capture object else lift (Err AggregateError.Timeout).
Lemma collect_steps request w :
  syscall_collect request w
  = (_ ← lift (aggregate_validate_request request);
     started ← ask monotonic_now;
     timeout_at ← lift (ok_or (instant_checked_add started (sar_timeout request))
       (AggregateError.InvalidRequest "timeout overflows the monotonic clock"));
     object ← prepare_aggregate request;
     collect_armed request timeout_at object) w.
Proof.
  unfold syscall_collect, prepare_aggregate, collect_armed, mbind, io_bind, mret, io_ret.
  destruct (lift _ w) as [[[]|e|] w1]; [|done..]. destruct (ask _ w1) as [[t|e|] w2]; [|done..].
  destruct (lift _ w2) as [[a|e|] w3]; [|done..].
  destruct (aggregate_load_object _ _ w3) as [[o|e|] w4]; [|done..].
  destruct (aggregate_configure_object o request w4) as [[c|e|] w5]; [|done..].
  by destruct (attach_programs o w5) as [[l|e|] w6].
Qed.

Lemma collect_armed_total request timeout_at object :
  0 ≤ sar_duration request → total (collect_armed request timeout_at object).
Proof.
  intros Hd w. unfold collect_armed. destruct (set_armed_steps object true) as (Ht & _ & _).
  destruct (set_armed_steps object false) as (Hf & _ & _). unfold mbind at 1, io_bind at 1.
  specialize (Ht w). destruct (set_armed object true w) as [[[]|e|] w1]; [|done..].
  apply now_bind. intros t w2 -> Hle. apply lift_bind; [by destruct (instant_checked_add _ _)|].
  intros capture_end ->%ok_or_ok%instant_add_some. unfold mbind at 1, io_bind at 1.
  pose proof (window_loop_ends (window_fuel (sar_duration request))
    (bpf_clock w2 + sar_duration request) timeout_at w2) as Hend.
  destruct (window_loop _ _ _ w2) as [[b|e|] w3]; [|done|].
  - assert (total (_ ← set_armed object false;
      if (b : bool) then collector_read_capture object else lift (Err AggregateError.Timeout)))
      as Htot; [|apply Htot]. apply total_bind; [done|]. intros _ _ _ _.
    destruct b; [apply collector_read_total|by apply total_lift].
  - exfalso. apply Hend; [|..|done].
    all: unfold window_fuel, WAIT_INTERVAL in *;
      pose proof (Z.div_pos (sar_duration request) (10 * 1000000) Hd ltac:(lia));
      pose proof (Z.mod_pos_bound (sar_duration request) (10 * 1000000) ltac:(lia));
      pose proof (Z.div_mod (sar_duration request) (10 * 1000000) ltac:(lia)); lia.
Qed.

(** Collecting aggregated system calls.  The collection returns and reaches no panic.  A
    capture is what the maps held after the programs had been told to stop, at least the
    requested duration after they were armed; and a collection that times out has disarmed the
    programs too, no earlier than the timeout after it began. *)
Theorem syscall_collect_window (request : SyscallAggregateRequest) (w : World)
    (Hduration : 0 ≤ sar_duration request) :
  (syscall_collect request w).1 ≠ Panic
  ∧ (∀ capture w', syscall_collect request w = (Ok capture, w') →
     ∃ object w1 w2 w3 w4 group_map summary inflight,
       set_armed object true w1 = (Ok (), w2) ∧ set_armed object false w3 = (Ok (), w4)
       ∧ bpf_clock w2 + sar_duration request ≤ bpf_clock w3
       ∧ collector_read_capture object w4 = (Ok capture, w')
       ∧ Forall (group_answer object) group_map
       ∧ read_capture group_map summary inflight = Ok capture)
  ∧ (∀ w', syscall_collect request w = (Err AggregateError.Timeout, w') →
     ∃ object w1, set_armed object false w1 = (Ok (), w')
       ∧ bpf_clock w + sar_timeout request ≤ bpf_clock w1).
Proof.
  destruct (prepare_steps request) as (Hpt & Hps & Hpn). split; [|split].
  - rewrite collect_steps. apply lift_bind; [unfold aggregate_validate_request; no_panic|].
    intros [] _. apply now_bind. intros t w1 -> _.
    apply lift_bind; [by destruct (instant_checked_add _ _)|]. intros timeout_at _.
    eapply later_bind; [reflexivity|done|done|]. intros object w2 _. by apply collect_armed_total.
  - intros capture w'. rewrite collect_steps. intros Hok. io_steps. unfold collect_armed in Hok.
    io_steps. repeat match goal with u : unit |- _ => destruct u end.
    repeat match goal with H : ask monotonic_now _ = _ |- _ => apply now_ok in H as [-> ?] end.
    repeat match goal with H : ok_or _ _ = _ |- _ => apply ok_or_ok, instant_add_some in H as -> end.
    match goal with H : window_loop _ _ _ _ = (Ok ?b, _) |- _ =>
      destruct b; [|done]; apply window_loop_ok in H as [Hle Hend] end.
    pose proof (collector_reads _ _ _ _ Hok) as
      (group_map & summary & inflight & _ & _ & _ & _ & _ & _ & _ & Hg & _ & _ & Hread).
    do 8 eexists. split; [eassumption|]. split; [eassumption|]. split; [lia|].
    split; [exact Hok|]. split; [exact Hg|exact Hread].
  - intros w'. rewrite collect_steps. intros He.
    apply no_timeout_bind in He as ([] & w0 & Hv & He).
    2: { intros v v' [= E _]. unfold aggregate_validate_request in E. by repeat case_match. }
    injection Hv as _ <-. apply no_timeout_bind in He as (t & w1 & Hn & He); [|no_timeout_steps].
    apply now_ok in Hn as [-> Hle].
    apply no_timeout_bind in He as (timeout_at & w2 & Ht & He); [|no_timeout_steps].
    apply lift_ok in Ht as [->%ok_or_ok%instant_add_some ->].
    apply no_timeout_bind in He as (object & w3 & Hp & He); [|done].
    unfold collect_armed in He. destruct (set_armed_steps object true) as (_ & _ & Hna).
    destruct (set_armed_steps object false) as (_ & _ & Hnd).
    apply no_timeout_bind in He as ([] & w4 & Ha & He); [|done].
    apply no_timeout_bind in He as (t & w5 & Hn & He); [|no_timeout_steps].
    apply no_timeout_bind in He as (capture_end & w6 & Hc & He); [|no_timeout_steps].
    apply no_timeout_bind in He as (b & w7 & Hloop & He); [|apply window_no_timeout].
    apply window_loop_ok in Hloop as [_ Hend].
    apply no_timeout_bind in He as ([] & w8 & Hd & He); [|done].
    destruct b; [by apply read_no_timeout in He|]. injection He as <-.
    exists object, w7. split; [done|]. lia.
Qed.
End captures.
