(* ===== verification/CpuAnalysis.v ===== *)
(** * CPU samples

    [xprobe/core/src/cpu_sampling_analysis.rs]: the stacks of a bounded CPU capture are
    grouped and counted, addresses are symbolized with the process's mappings, the modules'
    symbol tables and CPython's perf map, and hotspots get selector hints.  Counts of things
    held in memory fit in 64 bits. *)
From S2P Require Import Prelude BTree RustString Text Bytes Protocol Selector Measure.
From S2P Require Import Os Process Inspect Resolve.
#[local] Open Scope Z_scope.

(** ** Data *)
Module PythonSymbolizationStatus.
Inductive PythonSymbolizationStatus : Set := NotDetected | Inactive | Active | Unsupported.
#[global] Instance PythonSymbolizationStatus_eq_dec : EqDecision PythonSymbolizationStatus.
Proof. solve_decision. Defined.
End PythonSymbolizationStatus.
Abbreviation PythonSymbolizationStatus := PythonSymbolizationStatus.PythonSymbolizationStatus.
Module CpuFrameLanguage.
Inductive CpuFrameLanguage : Set := Native | Python | Unknown.
#[global] Instance CpuFrameLanguage_eq_dec : EqDecision CpuFrameLanguage.
Proof. solve_decision. Defined.
End CpuFrameLanguage.
Abbreviation CpuFrameLanguage := CpuFrameLanguage.CpuFrameLanguage.
Module CpuCaptureCompleteness.
Inductive CpuCaptureCompleteness : Set := Complete | Incomplete.
End CpuCaptureCompleteness.
Abbreviation CpuCaptureCompleteness := CpuCaptureCompleteness.CpuCaptureCompleteness.

Record RawCpuSample := BuildRawCpuSample { rcs_thread_id : Z; rcs_addresses : list Z }.
Record CpuCaptureData := BuildCpuCaptureData {
  cd_samples : list RawCpuSample;
  cd_observed_samples : Z;
  cd_lost_samples : Z;
  cd_truncated_stacks : Z;
  cd_throttled_records : Z;
  cd_threads_observed : Z;
  cd_threads_attached : Z;
  cd_skipped_threads : list Z;
  cd_capacity_reached : bool;
  cd_python_status : PythonSymbolizationStatus }.
(** The specification, without the fields that are only checked before the capture. *)
Record CpuSamplingSpec := BuildCpuSamplingSpec {
  css_name : option string;
  css_target : TargetIdentity;
  css_frequency_hz : Z;
  css_duration_ms : Z;
  css_timeout_ms : Z;
  css_max_samples : Z;
  css_max_groups : Z;
  css_stack_depth : Z;
  css_max_threads : Z }.
Record CpuStackFrame := BuildCpuStackFrame {
  fr_address : Z;
  fr_module_path : option string;
  fr_build_id : option string;
  fr_file_offset : option Z;
  fr_symbol : option string;
  fr_symbol_offset : option Z;
  fr_language : CpuFrameLanguage;
  fr_source_path : option string;
  fr_line : option Z }.
Record CpuStackGroup := BuildCpuStackGroup {
  csg_frames : list CpuStackFrame;
  csg_samples : Z;
  csg_proportion : f64 }.
Record CpuHotspot := BuildCpuHotspot {
  hot_frame : CpuStackFrame;
  hot_inclusive_samples : Z;
  hot_exclusive_samples : Z;
  hot_inclusive_proportion : f64;
  hot_exclusive_proportion : f64;
  hot_entry_selector_hint : option string;
  hot_return_selector_hint : option string }.
Record CpuSampleCollectionSummary := BuildCpuSampleCollectionSummary {
  ccl_completeness : CpuCaptureCompleteness;
  ccl_observed_samples : Z;
  ccl_grouped_samples : Z;
  ccl_lost_samples : Z;
  ccl_sample_capacity : Z;
  ccl_group_capacity : Z;
  ccl_groups : Z;
  ccl_table_utilization : f64;
  ccl_stack_depth : Z;
  ccl_truncated_stacks : Z;
  ccl_threads_observed : Z;
  ccl_threads_attached : Z;
  ccl_thread_capacity : Z }.
Record CpuSymbolizationSummary := BuildCpuSymbolizationSummary {
  sy_total_frames : Z;
  sy_resolved_native_frames : Z;
  sy_resolved_python_frames : Z;
  sy_unresolved_frames : Z;
  sy_python_status : PythonSymbolizationStatus }.

(** ** Errors *)
Module CpuAnalysisError.
Inductive CpuAnalysisError : Type :=
| Inspect (error : InspectError)
| Io (path : string) (source : IoError)
| InvalidMaps (path reason : string)
| InvalidPerfMap (path reason : string)
| InvalidUtf8 (path : string)
| Limit (name : string) (value : Z).
End CpuAnalysisError.
Abbreviation CpuAnalysisError := CpuAnalysisError.CpuAnalysisError.
Definition cpu_error_code (e : CpuAnalysisError) : ErrorCode :=
  match e with
  | CpuAnalysisError.Inspect error => inspect_error_code error
  | CpuAnalysisError.Io _ source =>
      if io_kind source == ErrorKind.PermissionDenied then ErrorCode.PermissionDenied
      else ErrorCode.Internal
  | CpuAnalysisError.Limit _ _ => ErrorCode.SessionLimitExceeded
  | _ => ErrorCode.Internal
  end.
Definition cpu_error_recoverable (e : CpuAnalysisError) : bool :=
  match e with
  | CpuAnalysisError.Inspect error => inspect_error_recoverable error
  | CpuAnalysisError.Io _ source =>
      (io_kind source == ErrorKind.NotFound) || (io_kind source == ErrorKind.PermissionDenied)
  | CpuAnalysisError.Limit _ _ => true
  | _ => false
  end.

Definition cpu_error_display (e : CpuAnalysisError) : string :=
  match e with
  | CpuAnalysisError.Inspect error => inspect_error_display error
  | CpuAnalysisError.Io path source => "failed to read " +:+ path +:+ ": " +:+ io_message source
  | CpuAnalysisError.InvalidMaps path reason => "invalid " +:+ path +:+ ": " +:+ reason
  | CpuAnalysisError.InvalidPerfMap path reason =>
      "invalid Python perf map " +:+ path +:+ ": " +:+ reason
  | CpuAnalysisError.InvalidUtf8 path => path +:+ " is not valid UTF-8"
  | CpuAnalysisError.Limit name value =>
      "CPU analysis " +:+ name +:+ " exceeds the supported bound: " +:+ to_decimal value
  end.

(** ** Mappings, modules and perf maps *)
Record CpuMapRegion := BuildCpuMapRegion {
  cm_start : Z;
  cm_end : Z;
  cm_file_offset : Z;
  cm_path : string }.
Record ModuleSymbol := BuildModuleSymbol {
  ms_file_offset : Z;
  ms_size : Z;
  ms_name : string }.
Record SymbolModule := BuildSymbolModule {
  sm_build_id : option string;
  sm_symbols : list ModuleSymbol }.
Record PerfMapSymbol := BuildPerfMapSymbol { pm_start : Z; pm_end : Z; pm_name : string }.

Definition cpu_invalid_maps (path reason : string) : CpuAnalysisError :=
  CpuAnalysisError.InvalidMaps path reason.
Definition cpu_parse_hex (value path reason : string) : res CpuAnalysisError Z :=
  ok_or (from_str_radix_16 value) (cpu_invalid_maps path reason).
Definition required_field (fields : list string) (n : nat) (path name : string) :
    res CpuAnalysisError string :=
  ok_or (fields !! n) (cpu_invalid_maps path ("missing " +:+ name)).
Definition parse_map_line (path line : string) : res CpuAnalysisError (option CpuMapRegion) :=
  let fields := split_whitespace line in
  range ← required_field fields 0 path "address range";
  permissions ← required_field fields 1 path "permissions";
  offset ← required_field fields 2 path "file offset";
  _ ← required_field fields 3 path "device";
  _ ← required_field fields 4 path "inode";
  let mapped_path := join " " (drop 5 fields) in
  if is_empty mapped_path then Ok None
  else if negb (contains_char "x" permissions) || negb (starts_with "/" mapped_path) then Ok None
  else
    let mapped_path := default mapped_path (strip_suffix " (deleted)" mapped_path) in
    '(start, finish) ← ok_or (split_once "-" range) (cpu_invalid_maps path "invalid address range");
    start ← cpu_parse_hex start path "invalid mapping start";
    finish ← cpu_parse_hex finish path "invalid mapping end";
    file_offset ← cpu_parse_hex offset path "invalid mapping file offset";
    if finish <=? start then
      Err (cpu_invalid_maps path "mapping start must precede its end")
    else Ok (Some (BuildCpuMapRegion start finish file_offset mapped_path)).
Definition parse_executable_maps (text path : string) : res CpuAnalysisError (list CpuMapRegion) :=
  regions ← res_mapM (parse_map_line path) (lines text);
  Ok (concat (option_list <$> regions)).

(** One line of [parse_perf_map]; [index] counts from zero. *)
Definition parse_perf_line (path : string) (index : nat) (line : string) :
    res CpuAnalysisError PerfMapSymbol :=
  let number := to_decimal (Z.of_nat index + 1) in
  let fields := splitn 3 " " line in
  let start := default EmptyString (fields !! 0%nat) in
  let size := default EmptyString (fields !! 1%nat) in
  let name := default EmptyString (fields !! 2%nat) in
  start ← ok_or (from_str_radix_16 start)
    (CpuAnalysisError.InvalidPerfMap path ("line " +:+ number +:+ " has an invalid address"));
  size ← ok_or (from_str_radix_16 size)
    (CpuAnalysisError.InvalidPerfMap path ("line " +:+ number +:+ " has an invalid size"));
  if (size =? 0) || is_empty name then
    Err (CpuAnalysisError.InvalidPerfMap path
           ("line " +:+ number +:+ " has an empty symbol or zero size"))
  else
    finish ← ok_or (checked_add_u64 start size)
      (CpuAnalysisError.InvalidPerfMap path ("line " +:+ number +:+ " address range overflows"));
    Ok (BuildPerfMapSymbol start finish name).
Definition parse_perf_map (text path : string) : res CpuAnalysisError (list PerfMapSymbol) :=
  symbols ← res_mapM (λ '(index, line),
      if is_empty line then Ok None
      else symbol ← parse_perf_line path index line; Ok (Some symbol)) (imap pair (lines text));
  Ok (sort_by_key pm_start (concat (option_list <$> symbols))).

(** [slice::partition_point] on a slice whose first elements are those that satisfy the
    predicate. *)
Fixpoint partition_point {A} (p : A → bool) (l : list A) : nat :=
  match l with [] => 0 | x :: l => if p x then S (partition_point p l) else 0 end.

Definition find_module_symbol (symbols : list ModuleSymbol) (offset : Z) : option ModuleSymbol :=
  let index := partition_point (λ symbol, ms_file_offset symbol <=? offset) symbols in
  match index with
  | O => None
  | S previous =>
      symbol ← symbols !! previous;
      let next_start := ms_file_offset <$> symbols !! index in
      let within_size :=
        negb (ms_size symbol =? 0) && (offset - ms_file_offset symbol <? ms_size symbol) in
      let before_next :=
        (ms_size symbol =? 0)
        && match next_start with Some next => offset <? next | None => true end in
      if within_size || before_next then Some symbol else None
  end.
Definition find_perf_symbol (symbols : list PerfMapSymbol) (address : Z) : option PerfMapSymbol :=
  match partition_point (λ symbol, pm_start symbol <=? address) symbols with
  | O => None
  | S previous =>
      symbol ← symbols !! previous;
      if address <? pm_end symbol then Some symbol else None
  end.
Definition unresolved_frame (address : Z) : CpuStackFrame :=
  BuildCpuStackFrame address None None None None None CpuFrameLanguage.Unknown None None.

(** ** Counting *)

(** [entry(key).and_modify(|count| count.saturating_add(1)).or_insert(1)]. *)
Definition count_stack (groups : btree (list Z) Z) (sample : RawCpuSample) : btree (list Z) Z :=
  bt_insert (rcs_addresses sample)
    match bt_get (rcs_addresses sample) groups with
    | Some count => saturating_add_u64 count 1
    | None => 1
    end groups.
Definition stack_cmp (left right : list Z * Z) : comparison :=
  then_with (right.2 ?= left.2) (kcmp left.1 right.1).
Definition aggregate_raw_stacks (samples : list RawCpuSample) (max_groups : Z) :
    list (list Z * Z) * bool :=
  let groups := sort_by (λ left right, not_greater (stack_cmp left right))
                  (foldl count_stack [] samples) in
  (take (Z.to_nat max_groups) groups, max_groups <? len groups).

(** The inclusive and exclusive samples of an address. *)
Definition count_exclusive (stack : list Z) (samples : Z) (counts : btree Z (Z * Z)) :
    btree Z (Z * Z) :=
  match stack with
  | [] => counts
  | address :: _ =>
      let entry := default (0, 0) (bt_get address counts) in
      bt_insert address (entry.1, saturating_add_u64 entry.2 samples) counts
  end.
Fixpoint count_inclusive (seen stack : list Z) (samples : Z) (counts : btree Z (Z * Z)) :
    btree Z (Z * Z) :=
  match stack with
  | [] => counts
  | address :: stack =>
      if bool_decide (address ∈ seen) then count_inclusive seen stack samples counts
      else
        let entry := default (0, 0) (bt_get address counts) in
        count_inclusive (address :: seen) stack samples
          (bt_insert address (saturating_add_u64 entry.1 samples, entry.2) counts)
  end.
Definition count_group (counts : btree Z (Z * Z)) (group : list Z * Z) : btree Z (Z * Z) :=
  count_inclusive [] group.1 group.2 (count_exclusive group.1 group.2 counts).

Definition selector_hints (frame : CpuStackFrame) : option string * option string :=
  if negb (fr_language frame == CpuFrameLanguage.Native) then (None, None)
  else
    match fr_module_path frame, fr_file_offset frame, fr_symbol_offset frame with
    | Some path, Some offset, Some symbol_offset =>
        match checked_sub_u64 offset symbol_offset with
        | None => (None, None)
        | Some symbol_start =>
            (Some ("uprobe:" +:+ path +:+ ":+0x" +:+ to_hex symbol_start +:+ ":entry"),
             Some ("uprobe:" +:+ path +:+ ":+0x" +:+ to_hex symbol_start +:+ ":return"))
        end
    | _, _, _ => (None, None)
    end.
Definition cpu_ratio (numerator denominator : Z) : f64 :=
  f64_div (f64_of_int numerator) (f64_of_int denominator).
Definition hotspot_cmp (left right : CpuHotspot) : comparison :=
  then_with
    (then_with (hot_inclusive_samples right ?= hot_inclusive_samples left)
       (hot_exclusive_samples right ?= hot_exclusive_samples left))
    (fr_address (hot_frame left) ?= fr_address (hot_frame right)).

Definition summarize_symbolization (groups : list CpuStackGroup)
    (python_status : PythonSymbolizationStatus) : CpuSymbolizationSummary :=
  let frames := concat (csg_frames <$> groups) in
  foldl (λ summary frame,
    let total := sy_total_frames summary + 1 in
    match fr_language frame, fr_symbol frame with
    | CpuFrameLanguage.Native, Some _ =>
        BuildCpuSymbolizationSummary total (sy_resolved_native_frames summary + 1)
          (sy_resolved_python_frames summary) (sy_unresolved_frames summary) python_status
    | CpuFrameLanguage.Python, Some _ =>
        BuildCpuSymbolizationSummary total (sy_resolved_native_frames summary)
          (sy_resolved_python_frames summary + 1) (sy_unresolved_frames summary) python_status
    | _, _ =>
        BuildCpuSymbolizationSummary total (sy_resolved_native_frames summary)
          (sy_resolved_python_frames summary) (sy_unresolved_frames summary + 1) python_status
    end) (BuildCpuSymbolizationSummary 0 0 0 0 python_status) frames.
Definition capture_is_complete (capture : CpuCaptureData) (grouped_samples : Z)
    (group_capacity_reached : bool) : bool :=
  negb (cd_capacity_reached capture) && negb group_capacity_reached
  && (cd_lost_samples capture =? 0) && (cd_throttled_records capture =? 0)
  && (len (cd_skipped_threads capture) =? 0)
  && (grouped_samples =? cd_observed_samples capture).

Section analysis.
Context `{SerdeJson, Os, ObjectCrate}.

(** The symbols of a module by file offset; a second one only enlarges the size.  [None] is
    the overflow of an offset. *)
Definition add_module_symbol (segments : list ObjectSegment) (symbols : btree Z ModuleSymbol)
    (symbol : ObjectSymbol) : option (btree Z ModuleSymbol) :=
  if negb (sym_is_definition symbol) || negb (sym_is_text symbol) then Some symbols
  else
    match sym_name symbol with
    | None => Some symbols
    | Some name =>
        found ← virtual_address_to_file_offset segments (sym_address symbol);
        match found with
        | None => Some symbols
        | Some file_offset =>
            Some match bt_get file_offset symbols with
                 | Some current =>
                     bt_insert file_offset
                       (BuildModuleSymbol (ms_file_offset current)
                          (Z.max (ms_size current) (sym_size symbol)) (ms_name current)) symbols
                 | None =>
                     bt_insert file_offset
                       (BuildModuleSymbol file_offset (sym_size symbol)
                          (default name (demangle_cpp name))) symbols
                 end
        end
    end.
Definition module_symbols (file : ObjectFile) : option (list ModuleSymbol) :=
  symbols ← foldl (λ acc symbol, symbols ← acc; add_module_symbol (obj_segments file) symbols symbol)
    (Some []) (obj_dynamic_symbols file ++ obj_symbols file);
  Some (bt_values symbols).
Definition load_module (path : string) : io string SymbolModule :=
  bytes ← call (fs_read path) io_message;
  lift
    (file ← match object_parse bytes with inl error => Err error | inr file => Ok file end;
     build_id ← match obj_build_id file with
                | inl error => Err error
                | inr build_id => Ok (hex_encode <$> build_id)
                end;
     symbols ← or_panic (module_symbols file);
     Ok (BuildSymbolModule build_id symbols)).

Definition MAX_PERF_MAP_BYTES : Z := 16 * 1024 * 1024.
Definition load_python_symbols (report : ProcessReport)
    (detected_status : PythonSymbolizationStatus) :
    io CpuAnalysisError (list PerfMapSymbol * PythonSymbolizationStatus) :=
  match detected_status with
  | PythonSymbolizationStatus.NotDetected | PythonSymbolizationStatus.Unsupported =>
      mret ([], detected_status)
  | _ =>
      let pid := to_decimal (target_pid (pr_target report)) in
      let path := "/proc/" +:+ pid +:+ "/root/tmp/perf-" +:+ pid +:+ ".map" in
      λ w,
        match fs_metadata path w with
        | (inl source, w) =>
            if io_kind source == ErrorKind.NotFound then
              (Ok ([], PythonSymbolizationStatus.Inactive), w)
            else (Err (CpuAnalysisError.Io path source), w)
        | (inr metadata, w) =>
            if MAX_PERF_MAP_BYTES <? md_len metadata then
              (Err (CpuAnalysisError.Limit "Python perf map bytes" (md_len metadata)), w)
            else
              (bytes ← call (fs_read path) (CpuAnalysisError.Io path);
               lift
                 (text ← ok_or (from_utf8 bytes) (CpuAnalysisError.InvalidUtf8 path);
                  symbols ← parse_perf_map text path;
                  Ok (symbols,
                      if len symbols =? 0 then PythonSymbolizationStatus.Inactive
                      else PythonSymbolizationStatus.Active))) w
        end
  end.

(** ** The symbolizer *)
Record Symbolizer := BuildSymbolizer {
  szr_maps : list CpuMapRegion;
  szr_modules : btree (list (Z * string)) SymbolModule;
  szr_python_symbols : list PerfMapSymbol;
  szr_python_status : PythonSymbolizationStatus;
  szr_warnings : list Warning }.

(** The set of the mapped paths, by components as [PathBuf] is ordered; collecting keeps the
    last of equal paths. *)
Definition mapped_paths (maps : list CpuMapRegion) : btree (list (Z * string)) string :=
  foldl (λ paths region, bt_insert (components (cm_path region)) (cm_path region) paths) [] maps.
(** The loop over the paths; a module that cannot be read gives a warning. *)
Fixpoint load_modules (paths : list (list (Z * string) * string))
    (modules : btree (list (Z * string)) SymbolModule) (warnings : list Warning) :
    io CpuAnalysisError (btree (list (Z * string)) SymbolModule * list Warning) :=
  match paths with
  | [] => mret (modules, warnings)
  | (key, path) :: paths => λ w,
      match load_module path w with
      | (Ok module, w) => load_modules paths (bt_insert key module modules) warnings w
      | (Err message, w) =>
          load_modules paths modules
            (warnings ++ [warning "NATIVE_MODULE_UNAVAILABLE"
                            ("could not symbolize " +:+ path +:+ ": " +:+ message)]) w
      | (Panic, w) => (Panic, w)
      end
  end.
Definition symbolizer_load (report : ProcessReport) (python_status : PythonSymbolizationStatus) :
    io CpuAnalysisError Symbolizer :=
  let maps_path := "/proc/" +:+ to_decimal (target_pid (pr_target report)) +:+ "/maps" in
  maps_text ← call (fs_read_to_string maps_path) (CpuAnalysisError.Io maps_path);
  maps ← lift (parse_executable_maps maps_text maps_path);
  '(modules, warnings) ← load_modules (mapped_paths maps) [] [];
  '(python_symbols, python_status) ← load_python_symbols report python_status;
  mret (BuildSymbolizer maps modules python_symbols python_status warnings).

(** [Symbolizer::symbolize]; [None] is the overflow of a file offset. *)
Definition symbolize (s : Symbolizer) (address : Z) : option CpuStackFrame :=
  match find_perf_symbol (szr_python_symbols s) address with
  | Some symbol =>
      Some (BuildCpuStackFrame address None None None (Some (pm_name symbol))
              (Some (address - pm_start symbol)) CpuFrameLanguage.Python None None)
  | None =>
      match list_find_bool (λ mapping, (cm_start mapping <=? address)
                                       && (address <? cm_end mapping)) (szr_maps s) with
      | None => Some (unresolved_frame address)
      | Some mapping =>
          file_offset ← checked_add_u64 (cm_file_offset mapping) (address - cm_start mapping);
          let module := bt_get (components (cm_path mapping)) (szr_modules s) in
          let symbol := module ≫= λ module, find_module_symbol (sm_symbols module) file_offset in
          Some (BuildCpuStackFrame address (Some (cm_path mapping)) (module ≫= sm_build_id)
                  (Some file_offset) (ms_name <$> symbol)
                  ((λ symbol, file_offset - ms_file_offset symbol) <$> symbol)
                  CpuFrameLanguage.Native None None)
      end
  end.

(** ** The inventory *)
Record CpuSampleInventoryResult := BuildCpuSampleInventoryResult {
  cir_schema_version : SchemaVersion;
  cir_ok : bool;
  cir_session_id : string;
  cir_status : SessionStatus;
  cir_target : TargetIdentity;
  cir_name : option string;
  cir_frequency_hz : Z;
  cir_duration_ms : Z;
  cir_stack_groups : list CpuStackGroup;
  cir_hotspots : list CpuHotspot;
  cir_collection : CpuSampleCollectionSummary;
  cir_symbolization : CpuSymbolizationSummary;
  cir_warnings : list Warning }.

Definition hotspot (symbolizer : Symbolizer) (denominator : Z) (count : Z * (Z * Z)) :
    option CpuHotspot :=
  let '(address, (inclusive, exclusive)) := count in
  frame ← symbolize symbolizer address;
  let '(entry_hint, return_hint) := selector_hints frame in
  Some (BuildCpuHotspot frame inclusive exclusive (cpu_ratio inclusive denominator)
          (cpu_ratio exclusive denominator) entry_hint return_hint).
Definition aggregate_hotspots (groups : list (list Z * Z)) (symbolizer : Symbolizer)
    (denominator max_hotspots : Z) : option (list CpuHotspot) :=
  hotspots ← mapM (hotspot symbolizer denominator) (foldl count_group [] groups);
  Some (take (Z.to_nat max_hotspots)
          (sort_by (λ left right, not_greater (hotspot_cmp left right)) hotspots)).
Definition stack_group (symbolizer : Symbolizer) (denominator : Z) (group : list Z * Z) :
    option CpuStackGroup :=
  frames ← mapM (symbolize symbolizer) group.1;
  Some (BuildCpuStackGroup frames group.2 (cpu_ratio group.2 denominator)).
Definition append_capture_warnings (capture : CpuCaptureData) (warnings : list Warning) :
    list Warning :=
  warnings
  ++ (if cd_capacity_reached capture then
        [warning "CPU_SAMPLE_CAPACITY_REACHED"
           "the configured sample capacity was reached; shorten or lower the sampling frequency before interpreting proportions"]
      else [])
  ++ (if negb (cd_lost_samples capture =? 0) then
        [warning "CPU_SAMPLES_LOST"
           ("perf reported " +:+ to_decimal (cd_lost_samples capture) +:+ " lost samples")]
      else [])
  ++ (if negb (cd_throttled_records capture =? 0) then
        [warning "CPU_SAMPLING_THROTTLED"
           ("perf reported " +:+ to_decimal (cd_throttled_records capture)
              +:+ " throttle records")]
      else [])
  ++ (if negb (len (cd_skipped_threads capture) =? 0) then
        [warning "CPU_THREADS_NOT_ATTACHED"
           (to_decimal (len (cd_skipped_threads capture))
              +:+ " observed threads exited or exceeded max_threads before attachment")]
      else []).

(** The parts of [analyze] between the two checks of the target. *)
Definition analyze_capture (report : ProcessReport) (spec : CpuSamplingSpec)
    (session_id : string) (capture : CpuCaptureData) (symbolizer : Symbolizer) :
    res CpuAnalysisError CpuSampleInventoryResult :=
  let '(raw_groups, group_capacity_reached) :=
    aggregate_raw_stacks (cd_samples capture) (css_max_groups spec) in
  let grouped_samples := sum_by snd raw_groups in
  let sample_denominator := Z.max (cd_observed_samples capture) 1 in
  stack_groups ← or_panic (mapM (stack_group symbolizer sample_denominator) raw_groups);
  hotspots ← or_panic
    (aggregate_hotspots raw_groups symbolizer sample_denominator (css_max_groups spec));
  let symbolization := summarize_symbolization stack_groups (szr_python_status symbolizer) in
  let warnings :=
    append_capture_warnings capture (szr_warnings symbolizer)
    ++ (if group_capacity_reached then
          [warning "CPU_GROUP_CAPACITY_REACHED"
             "distinct stack groups exceeded max_groups; only the heaviest groups and hotspots were retained"]
        else [])
    ++ (if (sy_python_status symbolization == PythonSymbolizationStatus.Active)
           && (sy_resolved_python_frames symbolization =? 0) then
          [warning "PYTHON_FRAMES_UNRESOLVED"
             "the CPython perf map is active, but sampled callchains contained no resolvable Python trampoline frames"]
        else []) in
  Ok (BuildCpuSampleInventoryResult SchemaVersion.V2 true session_id SessionStatus.Completed
        (pr_target report) (css_name spec) (css_frequency_hz spec) (css_duration_ms spec)
        stack_groups hotspots
        (BuildCpuSampleCollectionSummary
           (if capture_is_complete capture grouped_samples group_capacity_reached
            then CpuCaptureCompleteness.Complete else CpuCaptureCompleteness.Incomplete)
           (cd_observed_samples capture) grouped_samples (cd_lost_samples capture)
           (css_max_samples spec) (css_max_groups spec) (len raw_groups)
           (cpu_ratio (len raw_groups) (Z.max (css_max_groups spec) 1)) (css_stack_depth spec)
           (cd_truncated_stacks capture) (cd_threads_observed capture)
           (cd_threads_attached capture) (css_max_threads spec))
        symbolization warnings).
(** The conversions of the thread counts, after the second check. *)
Definition check_thread_counts (capture : CpuCaptureData) : res CpuAnalysisError unit :=
  if u32_max <? cd_threads_observed capture then
    Err (CpuAnalysisError.Limit "observed thread count" u64_max)
  else if u32_max <? cd_threads_attached capture then
    Err (CpuAnalysisError.Limit "attached thread count" u64_max)
  else Ok ().
Definition cpu_analyze (report : ProcessReport) (spec : CpuSamplingSpec) (session_id : string)
    (capture : CpuCaptureData) : io CpuAnalysisError CpuSampleInventoryResult :=
  _ ← map_io_err CpuAnalysisError.Inspect (verify_target (pr_target report));
  symbolizer ← symbolizer_load report (cd_python_status capture);
  result ← lift (analyze_capture report spec session_id capture symbolizer);
  _ ← map_io_err CpuAnalysisError.Inspect (verify_target (pr_target report));
  _ ← lift (check_thread_counts capture);
  mret result.
End analysis.

(** ** Stacks are counted exactly *)
Definition occurrences (samples : list RawCpuSample) (stack : list Z) : Z :=
  len (filter (λ sample, rcs_addresses sample = stack) samples).

Lemma occurrences_snoc samples sample stack :
  occurrences (samples ++ [sample]) stack
  = occurrences samples stack + (if decide (rcs_addresses sample = stack) then 1 else 0).
Proof.
  unfold occurrences. rewrite filter_app, len_app, filter_cons, filter_nil.
  by destruct (decide _).
Qed.
Lemma occurrences_bounds samples stack : 0 ≤ occurrences samples stack ≤ len samples.
Proof.
  unfold occurrences. split; [apply len_nonneg|]. apply len_submseteq, sublist_submseteq, sublist_filter.
Qed.

(** The counts of all samples, by stack: nothing saturates while the samples fit in memory. *)
Lemma count_stacks samples :
  len samples ≤ u64_max →
  let groups := foldl count_stack [] samples in
  bt_wf groups ∧ sum_by snd groups = len samples
  ∧ ∀ stack, bt_get stack groups
             = if occurrences samples stack =? 0 then None else Some (occurrences samples stack).
Proof.
  induction samples as [|sample samples IH] using rev_ind; intros Hlen; simpl.
  { split_and!; [apply bt_wf_nil|done|done]. }
  rewrite len_app, len_singleton in Hlen |- *. destruct IH as (Hwf & Hsum & Hget); [lia|].
  rewrite foldl_snoc. unfold count_stack at 1 3 5.
  pose proof (Hget (rcs_addresses sample)) as Hself.
  pose proof (occurrences_bounds samples (rcs_addresses sample)) as Hb.
  set (v := match bt_get _ _ with Some _ => _ | None => _ end).
  assert (v = occurrences samples (rcs_addresses sample) + 1) as Hv.
  { unfold v. rewrite Hself. destruct (Z.eqb_spec (occurrences samples (rcs_addresses sample)) 0).
    - lia.
    - unfold saturating_add_u64. lia. }
  split_and!; [by apply bt_wf_insert| |].
  - destruct (bt_get (rcs_addresses sample) (foldl count_stack [] samples)) as [n|] eqn:E.
    + rewrite (sum_by_perm _ _ _ (bt_insert_perm_Some _ _ _ _ E)), <-Hsum.
      rewrite (sum_by_perm _ _ _ (bt_remove_perm _ _ _ E)). simpl.
      destruct (_ =? 0) in Hself; [done|]. injection Hself as ->. lia.
    + rewrite (sum_by_perm _ _ _ (bt_insert_perm_None _ _ _ E)), <-Hsum. simpl.
      destruct (Z.eqb_spec (occurrences samples (rcs_addresses sample)) 0); [|done]. lia.
  - intros stack. rewrite occurrences_snoc. destruct (decide _) as [<-|Hne].
    + rewrite bt_get_insert_eq, Hv. destruct (Z.eqb_spec (occurrences samples (rcs_addresses sample) + 1) 0); [lia|done].
    + by rewrite bt_get_insert_ne, Hget, Z.add_0_r by done.
Qed.

#[local] Instance stack_order : TotalPreorderB (λ l r, not_greater (stack_cmp l r)).
Proof.
  apply (key_preorder (λ g : list Z * Z, (- g.2, g.1))). intros x y. unfold stack_cmp.
  simpl. unfold pair_cmp. simpl. rewrite Z.compare_opp. by destruct (_ ?= _).
Qed.
#[local] Instance hotspot_order : TotalPreorderB (λ l r, not_greater (hotspot_cmp l r)).
Proof.
  apply (key_preorder (λ h, (- hot_inclusive_samples h, (- hot_exclusive_samples h,
                              fr_address (hot_frame h))))).
  intros x y. unfold hotspot_cmp. simpl. unfold pair_cmp. simpl. unfold pair_cmp. simpl.
  rewrite !Z.compare_opp. by repeat case_match.
Qed.

(** The heaviest first, equal counts by address list. *)
Definition heavier (x y : list Z * Z) : Prop :=
  y.2 < x.2 ∨ x.2 = y.2 ∧ kcmp x.1 y.1 ≠ Gt.
Lemma stack_cmp_heavier x y : not_greater (stack_cmp x y) = true → heavier x y.
Proof.
  unfold not_greater, stack_cmp, then_with, heavier.
  destruct (Z.compare_spec y.2 x.2); [|by left|done]. intros Hc. right. split; [done|].
  by destruct (kcmp x.1 y.1).
Qed.
(** Every sampled stack once with the number of its samples, heaviest first. *)
Record stack_totals (samples : list RawCpuSample) (all : list (list Z * Z)) : Prop := {
  totals_once : NoDup all.*1;
  totals_sorted : StronglySorted heavier all;
  totals_count : ∀ stack n, (stack, n) ∈ all ↔ 0 < n ∧ n = occurrences samples stack;
  totals_sum : sum_by snd all = len samples }.
Lemma raw_stacks samples max_groups :
  len samples ≤ u64_max →
  ∃ all, stack_totals samples all
    ∧ aggregate_raw_stacks samples max_groups
      = (take (Z.to_nat max_groups) all, max_groups <? len all).
Proof.
  intros Hlen. destruct (count_stacks samples Hlen) as (Hwf & Hsum & Hget).
  eexists. split; [|reflexivity]. split.
  - rewrite sort_by_perm. apply bt_wf_NoDup, Hwf.
  - eapply StronglySorted_impl; [|apply sort_by_sorted, _]. apply stack_cmp_heavier.
  - intros stack n. rewrite sort_by_elem, <-bt_get_elem, Hget by done.
    pose proof (occurrences_bounds samples stack).
    destruct (Z.eqb_spec (occurrences samples stack) 0); split; [done|lia| |].
    + intros [= <-]. lia.
    + by intros [_ ->].
  - by rewrite (sum_by_perm _ _ _ (sort_by_perm _ _)).
Qed.

(** ** Hotspots *)

(** The samples of the groups that hold an address, and of those whose leaf it is. *)
Definition inclusive (groups : list (list Z * Z)) (address : Z) : Z :=
  sum_by snd (filter (λ group, address ∈ group.1) groups).
Definition exclusive (groups : list (list Z * Z)) (address : Z) : Z :=
  sum_by snd (filter (λ group, head group.1 = Some address) groups).

Definition entry_at (counts : btree Z (Z * Z)) (address : Z) : Z * Z :=
  default (0, 0) (bt_get address counts).
Lemma entry_at_insert counts k v a :
  entry_at (bt_insert k v counts) a = if decide (a = k) then v else entry_at counts a.
Proof.
  unfold entry_at. case_decide; subst; [by rewrite bt_get_insert_eq|].
  by rewrite bt_get_insert_ne.
Qed.
Lemma is_Some_insert (counts : btree Z (Z * Z)) k v a :
  is_Some (bt_get a (bt_insert k v counts)) ↔ a = k ∨ is_Some (bt_get a counts).
Proof.
  destruct (decide (a = k)) as [->|Hne]; [rewrite bt_get_insert_eq; split; eauto|].
  rewrite bt_get_insert_ne by done. tauto.
Qed.
Lemma count_inclusive_entry samples stack : ∀ seen counts,
  bt_wf counts →
  let counts' := count_inclusive seen stack samples counts in
  bt_wf counts'
  ∧ (∀ a, entry_at counts' a
          = if bool_decide (a ∈ stack ∧ a ∉ seen)
            then (saturating_add_u64 (entry_at counts a).1 samples, (entry_at counts a).2)
            else entry_at counts a)
  ∧ ∀ a, is_Some (bt_get a counts') ↔ is_Some (bt_get a counts) ∨ a ∈ stack ∧ a ∉ seen.
Proof.
  induction stack as [|x stack IH]; intros seen counts Hwf; cbn [count_inclusive].
  { split_and!; [done|..]; intros a; [rewrite bool_decide_eq_false_2|]; set_solver. }
  case_bool_decide as Hin.
  - destruct (IH seen counts Hwf) as (Hwf' & Hentry & Hsome). split_and!; [done|..]; intros a.
    + rewrite Hentry. erewrite bool_decide_ext; [reflexivity|]. set_solver.
    + rewrite Hsome. set_solver.
  - edestruct (IH (x :: seen)) as (Hwf' & Hentry & Hsome); [by apply bt_wf_insert|].
    split_and!; [exact Hwf'|..]; intros a.
    + rewrite Hentry, entry_at_insert. destruct (decide (a = x)) as [->|Hne].
      * rewrite bool_decide_eq_false_2 by set_solver. by rewrite bool_decide_eq_true_2 by set_solver.
      * erewrite bool_decide_ext; [reflexivity|]. set_solver.
    + rewrite Hsome, is_Some_insert. destruct (decide (a = x)) as [->|Hne]; set_solver.
Qed.

Lemma count_group_entry counts group :
  bt_wf counts →
  let counts' := count_group counts group in
  bt_wf counts'
  ∧ (∀ a, entry_at counts' a
          = ((if bool_decide (a ∈ group.1)
              then saturating_add_u64 (entry_at counts a).1 group.2 else (entry_at counts a).1),
             (if bool_decide (head group.1 = Some a)
              then saturating_add_u64 (entry_at counts a).2 group.2 else (entry_at counts a).2)))
  ∧ ∀ a, is_Some (bt_get a counts') ↔ is_Some (bt_get a counts) ∨ a ∈ group.1.
Proof.
  destruct group as [[|x stack] samples]; intros Hwf; unfold count_group.
  { split_and!; [done|..]; intros a; cbn [fst snd count_exclusive count_inclusive];
      [rewrite !bool_decide_eq_false_2 by set_solver; by destruct (entry_at counts a)|].
    set_solver. }
  edestruct (count_inclusive_entry samples (x :: stack) [])
    as (Hwf' & Hentry & Hsome); [by apply bt_wf_insert|].
  cbn [fst snd count_exclusive]. split_and!; [exact Hwf'|..]; intros a.
  - rewrite Hentry, entry_at_insert. fold (entry_at counts x).
    rewrite (bool_decide_ext (a ∈ x :: stack ∧ a ∉ []) (a ∈ x :: stack));
      last (split; [by intros []|intros ?; split; [done|apply not_elem_of_nil]]).
    destruct (decide (a = x)) as [->|Hne].
    + by rewrite !bool_decide_eq_true_2 by set_solver.
    + rewrite (bool_decide_eq_false_2 (head _ = _)) by (simpl; congruence).
      case_bool_decide; by destruct (entry_at counts a).
  - rewrite Hsome, is_Some_insert. set_solver.
Qed.

Lemma filtered_sum_bounds {A} (f : A → Z) (P : A → Prop) `{∀ x, Decision (P x)} l :
  Forall (λ x, 0 ≤ f x) l → 0 ≤ sum_by f (filter P l) ≤ sum_by f l.
Proof.
  induction 1 as [|x l Hx Hl IH]; [done|]. rewrite filter_cons.
  case_decide; cbn [sum_by foldr]; fold (sum_by f (filter P l)); fold (sum_by f l); lia.
Qed.
Lemma sum_by_filter_snoc {A} (f : A → Z) (P : A → Prop) `{∀ x, Decision (P x)} l x :
  sum_by f (filter P (l ++ [x])) = sum_by f (filter P l) + (if decide (P x) then f x else 0).
Proof. rewrite filter_app, sum_by_app, filter_cons, filter_nil. case_decide; simpl; lia. Qed.

Lemma count_groups groups :
  Forall (λ group, 0 ≤ group.2) groups → sum_by snd groups ≤ u64_max →
  let counts := foldl count_group [] groups in
  bt_wf counts
  ∧ (∀ a, entry_at counts a = (inclusive groups a, exclusive groups a))
  ∧ ∀ a, is_Some (bt_get a counts) ↔ a ∈ concat groups.*1.
Proof.
  induction groups as [|group groups IH] using rev_ind; intros Hpos Hsum; simpl.
  { split_and!; [apply bt_wf_nil|done|]. intros a. split; [by intros []|set_solver]. }
  apply Forall_app in Hpos as [Hpos [Hg _]%Forall_cons]. rewrite sum_by_snoc in Hsum.
  destruct IH as (Hwf & Hentry & Hsome); [done|lia|]. rewrite foldl_snoc.
  destruct (count_group_entry (foldl count_group [] groups) group Hwf) as (Hwf' & Hentry' & Hsome').
  split_and!; [exact Hwf'|..]; intros a.
  - rewrite Hentry', Hentry. unfold inclusive, exclusive. rewrite !sum_by_filter_snoc.
    pose proof (filtered_sum_bounds snd (λ group, a ∈ group.1) groups Hpos).
    pose proof (filtered_sum_bounds snd (λ group, head group.1 = Some a) groups Hpos).
    cbn [fst snd]. unfold saturating_add_u64. f_equal; case_bool_decide; case_decide; done || lia.
  - rewrite Hsome', Hsome, fmap_app, concat_app, elem_of_app. simpl. by rewrite app_nil_r.
Qed.
Lemma exclusive_le_inclusive groups a :
  Forall (λ group, 0 ≤ group.2) groups → exclusive groups a ≤ inclusive groups a.
Proof.
  unfold exclusive, inclusive. induction 1 as [|[stack n] groups Hx Hl IH]; [done|].
  rewrite !filter_cons. cbn [fst snd] in *.
  destruct (decide (head stack = Some a)) as [Hh|], (decide (a ∈ stack)) as [|Hn];
    cbn [sum_by foldr snd];
    fold (@sum_by (list Z * Z) snd (filter (λ group, a ∈ group.1) groups));
    fold (@sum_by (list Z * Z) snd (filter (λ group, head group.1 = Some a) groups)); try lia.
  destruct stack; simplify_eq/=. set_solver.
Qed.

Definition hotter (x y : CpuHotspot) : Prop :=
  hot_inclusive_samples y < hot_inclusive_samples x
  ∨ hot_inclusive_samples x = hot_inclusive_samples y
    ∧ (hot_exclusive_samples y < hot_exclusive_samples x
       ∨ hot_exclusive_samples x = hot_exclusive_samples y
         ∧ fr_address (hot_frame x) ≤ fr_address (hot_frame y)).
Lemma hotspot_cmp_hotter x y : not_greater (hotspot_cmp x y) = true → hotter x y.
Proof.
  unfold not_greater, hotspot_cmp, then_with, hotter.
  destruct (Z.compare_spec (hot_inclusive_samples y) (hot_inclusive_samples x));
  destruct (Z.compare_spec (hot_exclusive_samples y) (hot_exclusive_samples x));
  destruct (Z.compare_spec (fr_address (hot_frame x)) (fr_address (hot_frame y)));
  try done; lia.
Qed.
(** Every address of the groups once, with the samples of the groups that hold it and of
    those whose leaf it is, the hottest first. *)
Record hotspot_totals (groups : list (list Z * Z)) (hotspots : list CpuHotspot) : Prop := {
  hot_once : NoDup ((λ h, fr_address (hot_frame h)) <$> hotspots);
  hot_sorted : StronglySorted hotter hotspots;
  hot_all : ∀ a, a ∈ ((λ h, fr_address (hot_frame h)) <$> hotspots) ↔ a ∈ concat groups.*1;
  hot_counts : Forall (λ h, let a := fr_address (hot_frame h) in
    hot_inclusive_samples h = inclusive groups a ∧ hot_exclusive_samples h = exclusive groups a
    ∧ hot_exclusive_samples h ≤ hot_inclusive_samples h) hotspots }.

Section inventory.
Context `{SerdeJson, Os, ObjectCrate}.

(** The kernel's mappings lie within 64-bit file offsets. *)
Definition maps_fit (s : Symbolizer) : Prop :=
  Forall (λ m, cm_file_offset m + (cm_end m - cm_start m) ≤ u64_max) (szr_maps s).

Lemma symbolize_total s address :
  maps_fit s → ∃ frame, symbolize s address = Some frame ∧ fr_address frame = address.
Proof.
  intros Hfit. unfold symbolize. destruct (find_perf_symbol _ _); [eauto|].
  destruct (list_find_bool _ _) as [mapping|] eqn:E; [|eauto].
  apply list_find_bool_Some in E as [Hin Hm]. bool_props.
  eapply Forall_forall in Hfit; [|exact Hin]. cbn beta in Hfit.
  unfold checked_add_u64. destruct (Z.leb_spec (cm_file_offset mapping + (address - cm_start mapping)) u64_max); [|lia]. eauto.
Qed.
Lemma mapM_total {A B} (f : A → option B) (R : A → B → Prop) l :
  (∀ x, ∃ y, f x = Some y ∧ R x y) → ∃ k, mapM f l = Some k ∧ Forall2 R l k.
Proof.
  intros Hf. induction l as [|x l (k & Hk & HR)]; [by exists []; split; [|constructor]|].
  destruct (Hf x) as (y & Hy & Hxy). exists (y :: k). simpl. rewrite Hy, Hk.
  by split; [|constructor].
Qed.
Lemma hotspots_total s groups denominator max_hotspots :
  maps_fit s → Forall (λ group, 0 ≤ group.2) groups → sum_by snd groups ≤ u64_max →
  ∃ all, aggregate_hotspots groups s denominator max_hotspots
           = Some (take (Z.to_nat max_hotspots) all)
    ∧ hotspot_totals groups all.
Proof.
  intros Hfit Hpos Hsum. destruct (count_groups groups Hpos Hsum) as (Hwf & Hentry & Hsome).
  unfold aggregate_hotspots.
  destruct (mapM_total (hotspot s denominator)
    (λ count h, fr_address (hot_frame h) = count.1 ∧ hot_inclusive_samples h = count.2.1
                ∧ hot_exclusive_samples h = count.2.2) (foldl count_group [] groups))
    as (all & -> & HR).
  { intros [a [i e]]. unfold hotspot. destruct (symbolize_total s a Hfit) as (frame & -> & Ha).
    cbn. destruct (selector_hints frame). by eexists. }
  assert ((λ h, fr_address (hot_frame h)) <$> all = (foldl count_group [] groups).*1) as Haddr.
  { clear -HR. induction HR as [|count h ? ? [Ha _] _ IH]; [done|].
    rewrite !fmap_cons. by rewrite Ha, IH. }
  eexists. split; [reflexivity|]. split.
  - rewrite sort_by_perm, Haddr. by apply bt_wf_NoDup.
  - eapply StronglySorted_impl; [|apply sort_by_sorted, _]. apply hotspot_cmp_hotter.
  - intros a. rewrite sort_by_perm, Haddr, <-Hsome. split.
    + intros ([k v] & -> & Hin)%list_elem_of_fmap. apply bt_get_elem in Hin; [|done]. eauto.
    + intros [v Hv]. apply bt_get_elem in Hv; [|done]. apply list_elem_of_fmap.
      by exists (a, v).
  - rewrite sort_by_perm. apply Forall_forall. intros h Hh.
    destruct (list_elem_of_lookup_1 _ _ Hh) as [i Hi].
    destruct (Forall2_lookup_r _ _ _ _ _ HR Hi) as ([k [n e]] & Hk & Ha & Hn & He).
    apply list_elem_of_lookup_2, bt_get_elem in Hk; [|done]. cbn [fst snd] in Ha, Hn, He.
    specialize (Hentry k). unfold entry_at in Hentry. rewrite Hk in Hentry.
    injection Hentry as -> ->. cbn zeta. rewrite Ha, Hn, He.
    split_and!; [done..|]. by apply exclusive_le_inclusive.
Qed.
Lemma symbolize_address s address frame :
  symbolize s address = Some frame → fr_address frame = address.
Proof.
  unfold symbolize. destruct (find_perf_symbol _ _); [by intros [= <-]|].
  destruct (list_find_bool _ _); [|by intros [= <-]].
  destruct (checked_add_u64 _ _); [|done]. by intros [= <-].
Qed.
Lemma mapM_fmap {A B} (f : A → option B) (g : B → A) l k :
  (∀ x y, f x = Some y → g y = x) → mapM f l = Some k → g <$> k = l.
Proof.
  intros Hf Hk%mapM_Some. induction Hk as [|x y l k Hxy _ IH]; [done|].
  rewrite fmap_cons. f_equal; [by apply Hf|exact IH].
Qed.
Lemma stack_groups_addresses s groups denominator stack_groups :
  mapM (stack_group s denominator) groups = Some stack_groups →
  (λ g, (fr_address <$> csg_frames g, csg_samples g)) <$> stack_groups = groups.
Proof.
  apply mapM_fmap. intros [stack n] g. unfold stack_group. cbn [fst snd].
  destruct (mapM (symbolize s) stack) as [frames|] eqn:E; [|done]. intros [= <-]. cbn. f_equal.
  by apply (mapM_fmap (symbolize s)), E; apply symbolize_address.
Qed.
Lemma stack_groups_total s groups denominator :
  maps_fit s → ∃ stack_groups, mapM (stack_group s denominator) groups = Some stack_groups.
Proof.
  intros Hfit. destruct (mapM_total (stack_group s denominator) (λ _ _, True) groups)
    as (k & Hk & _); [|eauto]. intros [stack n]. unfold stack_group.
  destruct (mapM_total (symbolize s) (λ _ _, True) stack) as (frames & Hframes & _).
  - intros a. destruct (symbolize_total s a Hfit) as (frame & ? & _). eauto.
  - cbn [fst snd]. rewrite Hframes. eauto.
Qed.

Lemma totals_nonneg samples all n :
  stack_totals samples all → Forall (λ group : list Z * Z, 0 ≤ group.2) (take n all).
Proof.
  intros Ht. apply Forall_take, Forall_forall. intros [stack m] Hin.
  apply (totals_count _ _ Ht) in Hin. cbn. lia.
Qed.
Lemma totals_take_sum samples all n :
  stack_totals samples all → sum_by snd (take n all) ≤ len samples.
Proof.
  intros Ht. rewrite <-(totals_sum _ _ Ht). rewrite <-(take_drop n all) at 2.
  apply sum_by_mono.
  apply Forall_drop, Forall_forall. intros [stack m] Hin.
  apply (totals_count _ _ Ht) in Hin. cbn. lia.
Qed.

Lemma capture_complete_spec capture all max_groups :
  0 ≤ max_groups → stack_totals (cd_samples capture) all →
  capture_is_complete capture (sum_by snd (take (Z.to_nat max_groups) all)) (max_groups <? len all)
    = true ↔
  len all ≤ max_groups ∧ cd_observed_samples capture = len (cd_samples capture)
  ∧ cd_lost_samples capture = 0 ∧ cd_throttled_records capture = 0
  ∧ cd_skipped_threads capture = [] ∧ cd_capacity_reached capture = false.
Proof.
  intros Hmax Ht. unfold capture_is_complete. rewrite <-(totals_sum _ _ Ht).
  destruct (Z.ltb_spec max_groups (len all)) as [Hlt|Hle].
  { rewrite andb_false_r. split; [done|lia]. }
  rewrite take_ge by (unfold len in Hle; lia). rewrite !andb_true_iff, !negb_true_iff, !Z.eqb_eq.
  split.
  - intros (((((? & _) & ?) & ?) & Hs) & ?). apply len_zero in Hs. done.
  - intros (_ & ? & ? & ? & -> & ?). done.
Qed.

(** What any inventory says of its capture, whether or not the mappings fit. *)
Lemma analyzed_capture report spec session_id capture symbolizer r :
  len (cd_samples capture) ≤ u64_max → 0 ≤ css_max_groups spec →
  analyze_capture report spec session_id capture symbolizer = Ok r →
  ∃ all, stack_totals (cd_samples capture) all
    ∧ (λ g, (fr_address <$> csg_frames g, csg_samples g)) <$> cir_stack_groups r
      = take (Z.to_nat (css_max_groups spec)) all
    ∧ (ccl_completeness (cir_collection r) = CpuCaptureCompleteness.Complete ↔
       len all ≤ css_max_groups spec
       ∧ cd_observed_samples capture = len (cd_samples capture)
       ∧ cd_lost_samples capture = 0 ∧ cd_throttled_records capture = 0
       ∧ cd_skipped_threads capture = [] ∧ cd_capacity_reached capture = false).
Proof.
  intros Hmem Hmax. destruct (raw_stacks (cd_samples capture) (css_max_groups spec) Hmem)
    as (all & Ht & Hraw). unfold analyze_capture. rewrite Hraw. cbn zeta.
  destruct (mapM (stack_group _ _) _) as [groups|] eqn:Hgroups; [|done].
  destruct (aggregate_hotspots _ _ _ _) as [hotspots|]; [|done]. intros [= <-].
  exists all. split; [done|]. split; [by eapply stack_groups_addresses|].
  rewrite <-(capture_complete_spec _ _ _ Hmax Ht). cbn [ccl_completeness cir_collection].
  by destruct (capture_is_complete _ _ _).
Qed.

(** C34: the CPU inventory.  Whenever the kernel's mappings fit, the analysis returns one;
    its groups are the heaviest of the distinct sampled stacks, each once, with its frames
    at the sampled addresses and the exact number of its samples; its hotspots are the
    hottest addresses of those groups, each once, counting every group that holds the
    address once and, exclusively, those that end in it; and it is called complete exactly
    when no stack was left out, every observed sample was kept and nothing was lost,
    throttled or skipped. *)
Theorem cpu_inventory_exact (report : ProcessReport) (spec : CpuSamplingSpec)
    (session_id : string) (capture : CpuCaptureData) (symbolizer : Symbolizer)
    (Hmem : len (cd_samples capture) ≤ u64_max) (Hfit : maps_fit symbolizer)
    (Hmax : 0 ≤ css_max_groups spec) :
  ∃ r all hot,
    let reported := take (Z.to_nat (css_max_groups spec)) all in
    analyze_capture report spec session_id capture symbolizer = Ok r
    ∧ stack_totals (cd_samples capture) all
    ∧ (λ g, (fr_address <$> csg_frames g, csg_samples g)) <$> cir_stack_groups r = reported
    ∧ cir_hotspots r = take (Z.to_nat (css_max_groups spec)) hot
    ∧ hotspot_totals reported hot
    ∧ (ccl_completeness (cir_collection r) = CpuCaptureCompleteness.Complete ↔
       len all ≤ css_max_groups spec
       ∧ cd_observed_samples capture = len (cd_samples capture)
       ∧ cd_lost_samples capture = 0 ∧ cd_throttled_records capture = 0
       ∧ cd_skipped_threads capture = [] ∧ cd_capacity_reached capture = false).
Proof.
  destruct (raw_stacks (cd_samples capture) (css_max_groups spec) Hmem) as (all & Ht & Hraw).
  pose proof (totals_take_sum _ _ (Z.to_nat (css_max_groups spec)) Ht) as Hsum.
  unfold analyze_capture. rewrite Hraw. cbn zeta.
  destruct (stack_groups_total symbolizer (take (Z.to_nat (css_max_groups spec)) all)
    (Z.max (cd_observed_samples capture) 1) Hfit) as (groups & Hgroups).
  destruct (hotspots_total symbolizer (take (Z.to_nat (css_max_groups spec)) all)
    (Z.max (cd_observed_samples capture) 1) (css_max_groups spec) Hfit
    (totals_nonneg _ _ _ Ht) ltac:(lia)) as (hot & Hhot & Htotals).
  rewrite Hgroups, Hhot. eexists _, all, hot. cbn zeta. split; [reflexivity|].
  split_and!; [done|by eapply stack_groups_addresses|reflexivity|exact Htotals|].
  rewrite <-(capture_complete_spec _ _ _ Hmax Ht). cbn [ccl_completeness cir_collection].
  by destruct (capture_is_complete _ _ _).
Qed.
End inventory.
