(* ===== verification/CpuSymbols.v ===== *)
(** * Symbols of sampled addresses

    What the symbolizer of [xprobe/core/src/cpu_sampling_analysis.rs] finds and that the
    selector hints of a hotspot name the start of the function that was sampled. *)
From S2P Require Import Prelude BTree RustString Text Bytes Protocol Selector Os Process Inspect.
From S2P Require Import Resolve CpuAnalysis.
#[local] Open Scope Z_scope.

(** ** Searching a sorted table *)
Lemma partition_point_spec {A} (R : relation A) (p : A → bool) l :
  StronglySorted R l → (∀ x y, R x y → p y = true → p x = true) →
  ∀ i x, l !! i = Some x → p x = true ↔ (i < partition_point p l)%nat.
Proof.
  intros Hl Hp. induction Hl as [|y l Hl IH Hy]; [done|]. intros i x Hi. cbn [partition_point].
  destruct i as [|i]; simpl in Hi.
  - injection Hi as ->. destruct (p x); split; done || lia.
  - specialize (IH i x Hi). destruct (p y) eqn:E; [rewrite IH; lia|].
    split; [|lia]. intros Hx. eapply Forall_lookup_1 in Hy; [|exact Hi].
    rewrite (Hp _ _ Hy Hx) in E. done.
Qed.
Lemma StronglySorted_lookup_le {A} (R : relation A) `{!Reflexive R} l i j x y :
  StronglySorted R l → l !! i = Some x → l !! j = Some y → (i ≤ j)%nat → R x y.
Proof.
  intros Hl. revert i j. induction Hl as [|z l Hl IH Hz]; [done|].
  intros [|i] [|j]; simpl; intros Hi Hj Hij; simplify_eq; [done| |lia|by eapply IH; eauto; lia].
  by eapply Forall_lookup_1.
Qed.

(** The symbols of a module, by increasing 64-bit offset. *)
Definition symbols_wf (symbols : list ModuleSymbol) : Prop :=
  StronglySorted (λ x y, ms_file_offset x ≤ ms_file_offset y) symbols
  ∧ Forall (λ s, in_u64 (ms_file_offset s)) symbols.
Lemma find_module_symbol_spec symbols offset symbol :
  symbols_wf symbols → find_module_symbol symbols offset = Some symbol →
  symbol ∈ symbols ∧ ms_file_offset symbol ≤ offset
  ∧ (ms_size symbol = 0 ∨ offset < ms_file_offset symbol + ms_size symbol)
  ∧ Forall (λ other, ms_file_offset other ≤ offset →
                     ms_file_offset other ≤ ms_file_offset symbol) symbols.
Proof.
  intros [Hsorted _]. unfold find_module_symbol.
  assert (∀ i s, symbols !! i = Some s → (ms_file_offset s <=? offset) = true
    ↔ (i < partition_point (λ s, (ms_file_offset s <=? offset)%Z) symbols)%nat) as Hpp.
  { apply (partition_point_spec _ (λ s, ms_file_offset s <=? offset) _ Hsorted).
    intros x y. rewrite !Z.leb_le. lia. }
  destruct (partition_point _ symbols) as [|previous]; [done|].
  destruct (symbols !! previous) as [s|] eqn:E; [|done]. cbn [mbind option_bind].
  destruct (_ || _) eqn:Et; [|done]. intros [= <-].
  split; [by eapply list_elem_of_lookup_2|]. split.
  { destruct (Hpp _ _ E) as [_ Hle]. apply Z.leb_le, Hle. lia. }
  split; [bool_props; lia|].
  apply Forall_lookup. intros j other Hj Hle. apply Z.leb_le in Hle.
  apply (Hpp _ _ Hj) in Hle.
  refine (StronglySorted_lookup_le _ _ j previous _ _ Hsorted Hj E _); [|lia].
  intros x. lia.
Qed.

(** ** The tables the symbolizer loads *)
Lemma offset_in_u64 segments address offset :
  Forall (λ segment, 0 ≤ seg_file_offset segment) segments →
  virtual_address_to_file_offset segments address = Some (Some offset) → in_u64 offset.
Proof.
  induction 1 as [|segment segments Hs _ IH]; cbn [virtual_address_to_file_offset]; [done|].
  unfold checked_sub_u64. destruct (_ <=? _) eqn:E1; [|done].
  destruct (_ <? seg_file_size segment); [|done]. unfold checked_add_u64.
  destruct (_ <=? u64_max) eqn:E2; [|done]. intros [= <-]. bool_props. split; lia.
Qed.

Section load.
Context `{SerdeJson, Os, ObjectCrate}.

(** The table under construction: each symbol under its own offset. *)
Definition table_wf (symbols : btree Z ModuleSymbol) : Prop :=
  bt_wf symbols ∧ Forall (λ '(k, s), ms_file_offset s = k ∧ in_u64 k) symbols.
Lemma table_wf_insert symbols k s :
  ms_file_offset s = k → in_u64 k → table_wf symbols → table_wf (bt_insert k s symbols).
Proof.
  intros Hk Hu [Hwf Hall]. split; [by apply bt_wf_insert|]. apply Forall_forall. intros [j t] Hin.
  apply bt_get_elem in Hin; [|by apply bt_wf_insert].
  destruct (decide (j = k)) as [->|Hne].
  - rewrite bt_get_insert_eq in Hin. by injection Hin as <-.
  - rewrite bt_get_insert_ne, bt_get_elem in Hin by done.
    by apply (proj1 (Forall_forall _ _) Hall (j, t)).
Qed.
Lemma add_module_symbol_wf segments symbols symbol symbols' :
  Forall (λ segment, 0 ≤ seg_file_offset segment) segments →
  add_module_symbol segments symbols symbol = Some symbols' → table_wf symbols →
  table_wf symbols'.
Proof.
  intros Hseg. unfold add_module_symbol. destruct (_ || _); [by intros [= <-]|].
  destruct (sym_name symbol) as [name|]; [|by intros [= <-]].
  destruct (virtual_address_to_file_offset _ _) as [[offset|]|] eqn:E; cbn [mbind option_bind];
    [|by intros [= <-]|done].
  apply offset_in_u64 in E; [|done]. intros Hadd Hwf. injection Hadd as <-.
  destruct (bt_get offset symbols) as [current|] eqn:Eg; apply table_wf_insert; try done.
  destruct Hwf as [Hwf Hall]. apply bt_get_elem in Eg; [|done].
  by destruct (proj1 (Forall_forall _ _) Hall _ Eg).
Qed.
Lemma table_symbols_wf symbols : table_wf symbols → symbols_wf (bt_values symbols).
Proof.
  intros [Hwf Hall]. split.
  - unfold bt_wf in Hwf. induction symbols as [|[k s] symbols IH]; [constructor|].
    apply Forall_cons in Hall as [[Hk _] Hall]. cbn in Hwf |- *.
    apply StronglySorted_cons in Hwf as [Hlt Hwf]. constructor; [by apply IH|].
    apply Forall_fmap, Forall_forall. intros [j t] Hin. cbn.
    pose proof (proj1 (Forall_forall _ _) Hall _ Hin) as [Hj _]. rewrite Hk, Hj.
    assert (klt k j) as Hkj.
    { eapply Forall_forall in Hlt; [exact Hlt|]. apply list_elem_of_fmap. by exists (j, t). }
    unfold klt in Hkj. cbn in Hkj. by apply Z.lt_le_incl, Z.compare_lt_iff.
  - apply Forall_fmap. eapply Forall_impl; [exact Hall|]. intros [k s] [Hk Hu]. cbn. by rewrite Hk.
Qed.
(** Offsets of the object crate are unsigned. *)
Definition segments_unsigned : Prop :=
  ∀ bytes file, object_parse bytes = inr file →
  Forall (λ segment, 0 ≤ seg_file_offset segment) (obj_segments file).
Lemma module_symbols_wf file symbols :
  Forall (λ segment, 0 ≤ seg_file_offset segment) (obj_segments file) →
  module_symbols file = Some symbols → symbols_wf symbols.
Proof.
  intros Hseg. unfold module_symbols.
  destruct (foldl _ _ _) as [table|] eqn:E; [|done]. cbn. intros [= <-].
  apply table_symbols_wf. revert table E.
  induction (obj_dynamic_symbols file ++ obj_symbols file) as [|symbol l IH] using rev_ind; intros table.
  - intros [= <-]. split; [apply bt_wf_nil|constructor].
  - rewrite foldl_snoc. destruct (foldl _ _ l) as [table'|]; [|done]. cbn [mbind option_bind].
    intros Hadd. eapply add_module_symbol_wf; [exact Hseg|exact Hadd|]. by apply IH.
Qed.
Lemma load_module_wf path w m w' :
  segments_unsigned → load_module path w = (Ok m, w') → symbols_wf (sm_symbols m).
Proof.
  intros Hseg Hload. unfold load_module in Hload. io_steps. res_steps.
  destruct (object_parse a) as [e|file] eqn:Ep; simplify_eq.
  repeat case_match; simplify_eq/=. eapply module_symbols_wf; [|eassumption]. by eapply Hseg.
Qed.
Lemma load_modules_wf (paths : list (list (Z * string) * string)) : ∀ modules warnings w r w',
  segments_unsigned →
  (∀ key m, bt_get key modules = Some m → symbols_wf (sm_symbols m)) →
  load_modules paths modules warnings w = (Ok r, w') →
  ∀ key m, bt_get key r.1 = Some m → symbols_wf (sm_symbols m).
Proof.
  induction paths as [|[k path] paths IH]; intros modules warnings w r w' Hseg Hm; cbn [load_modules].
  { by intros [= <- _]. }
  destruct (load_module path w) as [[m|e|] w1] eqn:E; [|by apply IH|done].
  apply IH; [done|]. intros key m'. destruct (decide (key = k)) as [->|Hne].
  - rewrite bt_get_insert_eq. intros [= <-]. by eapply load_module_wf.
  - rewrite bt_get_insert_ne by done. apply Hm.
Qed.

Lemma parse_map_line_path path line m :
  parse_map_line path line = Ok (Some m) → cm_path m ≠ EmptyString.
Proof.
  unfold parse_map_line. generalize (split_whitespace line). intros fields Hm.
  res_steps. bool_props. repeat case_match; simplify_eq/=.
  destruct (strip_suffix " (deleted)" _) as [t|] eqn:Es; cbn [default from_option id].
  - intros ->. apply strip_suffix_Some in Es. by rewrite Es in *.
  - intros Hj. by rewrite Hj in *.
Qed.
Lemma parse_executable_maps_paths text path maps :
  parse_executable_maps text path = Ok maps → Forall (λ m, cm_path m ≠ EmptyString) maps.
Proof.
  unfold parse_executable_maps. destruct (res_mapM _ _) as [regions| |] eqn:E; [|done..].
  cbn. intros [= <-]. apply Forall_concat, Forall_fmap.
  eapply res_mapM_Forall; [|exact E]. intros line [m|] Hm; cbn; [|constructor].
  constructor; [|constructor]. by eapply parse_map_line_path.
Qed.
Lemma symbolizer_load_wf report python_status w s w' :
  segments_unsigned → symbolizer_load report python_status w = (Ok s, w') →
  Forall (λ m, cm_path m ≠ EmptyString) (szr_maps s)
  ∧ ∀ key m, bt_get key (szr_modules s) = Some m → symbols_wf (sm_symbols m).
Proof.
  intros Hseg Hload. unfold symbolizer_load in Hload. io_steps.
  repeat (match goal with r : _ * _ |- _ => destruct r end; io_steps). cbn. split.
  - by eapply parse_executable_maps_paths.
  - intros key m Hm. by eapply (load_modules_wf (mapped_paths _) [] []); [exact Hseg| |eassumption|].
Qed.
End load.

(** ** Hints *)

(** A pattern that starts with a character it holds once is not found across a later
    occurrence of the character. *)
Lemma strip_prefix_app_char c pat s t :
  contains_char c pat = false → strip_prefix pat s = None →
  strip_prefix pat (s +:+ String c t) = None.
Proof.
  revert s. induction pat as [|a pat IH]; intros s; [done|]. cbn [contains_char].
  rewrite orb_false_iff. intros [Ha Hc]. destruct s as [|b s]; cbn.
  - intros _. by rewrite Ha.
  - case_match; [|done]. by apply IH.
Qed.
Lemma split_once_app_char c pat s t :
  contains_char c pat = false → split_once (String c pat) s = None →
  contains_char c t = false → strip_prefix pat t = None →
  split_once (String c pat) (s +:+ String c t) = None.
Proof.
  intros Hpat Hs Ht Hp. induction s as [|b s IH].
  - cbn. rewrite bool_decide_eq_true_2, Hp by done.
    assert (split_once (String c pat) t = None) as ->; [|done].
    clear Hs Hp. induction t as [|a t IH]; [done|]. cbn [contains_char] in Ht.
    apply orb_false_iff in Ht as [Ha Ht]. cbn [split_once strip_prefix].
    apply bool_decide_eq_false in Ha. rewrite bool_decide_eq_false_2 by congruence.
    by rewrite IH.
  - cbn [split_once strip_prefix String.app] in Hs |- *. destruct (c == b) eqn:E.
    + destruct (strip_prefix pat s) eqn:Es; [done|]. rewrite strip_prefix_app_char by done.
      destruct (split_once (String c pat) s) as [[]|]; [done|]. by rewrite IH.
    + destruct (split_once (String c pat) s) as [[]|]; [done|]. by rewrite IH.
Qed.

(** The text of a hint reads back as the probe it stands for. *)
Lemma hint_parses path start suffix boundary :
  path ≠ EmptyString → split_once ":symbol=" path = None → in_u64 start →
  suffix = "entry" ∧ boundary = Boundary.Entry ∨ suffix = "return" ∧ boundary = Boundary.Return →
  parse_selector ("uprobe:" +:+ path +:+ ":+0x" +:+ to_hex start +:+ ":" +:+ suffix)
  = Ok (BuildProbeSelector path (ProbeTarget.FileOffset start) boundary).
Proof.
  intros Hne Hclean Hu Hsuffix. unfold parse_selector. rewrite strip_prefix_app. cbn [mbind res_bind ok_or].
  assert (path +:+ ":+0x" +:+ to_hex start +:+ ":" +:+ suffix
          = (path +:+ ":+0x" +:+ to_hex start) +:+ String ":" suffix) as ->.
  { by rewrite !string_app_assoc. }
  rewrite rsplit_once_app by (by destruct Hsuffix as [[-> _]|[-> _]]). cbn [mbind res_bind ok_or].
  assert (contains_char ":" ("+0x" +:+ to_hex start) = false) as Hcolon.
  { change (contains_char ":" (to_hex start) = false).
    apply hex_loop_no_colon; [apply Hu|done]. }
  assert (split_once ":symbol=" (path +:+ ":+0x" +:+ to_hex start) = None) as Hs.
  { by apply (split_once_app_char ":" "symbol="). }
  assert (rsplit_once ":" (path +:+ ":+0x" +:+ to_hex start)
          = Some (path, "+0x" +:+ to_hex start)) as Hr by by apply rsplit_once_app.
  assert (strip_prefix "+0x" ("+0x" +:+ to_hex start) = Some (to_hex start)) as Hx
    by apply strip_prefix_app.
  assert (∀ (k : Boundary → res ResolveError ProbeSelector), 
    (if suffix == "entry" then Ok Boundary.Entry
     else if suffix == "return" then Ok Boundary.Return
     else Err (ResolveError.InvalidSelector "probe boundary must be entry or return")) ≫= k
    = k boundary) as Hb by (by destruct Hsuffix as [[-> ->]|[-> ->]]).
  rewrite Hb, Hs, Hr. cbn [mbind res_bind ok_or]. rewrite Hx. cbn [mbind res_bind ok_or].
  rewrite from_str_radix_16_to_hex by done. by destruct path.
Qed.

Section hints.
Context `{SerdeJson, Os, ObjectCrate}.

(** Hotspot hints.  An address that symbolizes to a native function gets the two hints
    that the probe resolver reads as the entry and the return of the file offset where that
    function starts: the last symbol at or before the sampled offset, which it covers.  Any
    other frame gets none. *)
Theorem hotspot_hints (report : ProcessReport) (python_status : PythonSymbolizationStatus)
    (w w' : World) (s : Symbolizer) (address : Z) (frame : CpuStackFrame)
    (Hseg : segments_unsigned) (Hload : symbolizer_load report python_status w = (Ok s, w'))
    (Hframe : symbolize s address = Some frame)
    (Hclean : ∀ path, fr_module_path frame = Some path → split_once ":symbol=" path = None) :
  match fr_language frame, fr_symbol frame with
  | CpuFrameLanguage.Native, Some name =>
      ∃ path offset m symbol entry return_hint,
        fr_module_path frame = Some path ∧ fr_file_offset frame = Some offset
        ∧ bt_get (components path) (szr_modules s) = Some m
        ∧ symbol ∈ sm_symbols m ∧ ms_name symbol = name ∧ ms_file_offset symbol ≤ offset
        ∧ (ms_size symbol = 0 ∨ offset < ms_file_offset symbol + ms_size symbol)
        ∧ Forall (λ other, ms_file_offset other ≤ offset →
                           ms_file_offset other ≤ ms_file_offset symbol) (sm_symbols m)
        ∧ selector_hints frame = (Some entry, Some return_hint)
        ∧ parse_selector entry = Ok (BuildProbeSelector path
            (ProbeTarget.FileOffset (ms_file_offset symbol)) Boundary.Entry)
        ∧ parse_selector return_hint = Ok (BuildProbeSelector path
            (ProbeTarget.FileOffset (ms_file_offset symbol)) Boundary.Return)
  | _, _ => selector_hints frame = (None, None)
  end.
Proof.
  destruct (symbolizer_load_wf _ _ _ _ _ Hseg Hload) as [Hpaths Hmodules].
  unfold symbolize in Hframe. destruct (find_perf_symbol _ _); [by injection Hframe as <-|].
  destruct (list_find_bool _ _) as [mapping|] eqn:Emap; [|by injection Hframe as <-].
  apply list_find_bool_Some in Emap as [Hin _].
  pose proof (proj1 (Forall_forall _ _) Hpaths _ Hin) as Hne. cbn beta in Hne.
  destruct (checked_add_u64 _ _) as [offset|]; [|done]. cbn [mbind option_bind] in Hframe.
  injection Hframe as <-. specialize (Hclean _ eq_refl).
  cbn [fr_language fr_symbol fr_module_path fr_file_offset].
  destruct (bt_get (components (cm_path mapping)) (szr_modules s)) as [m|] eqn:Em; [|done].
  cbn [mbind option_bind].
  destruct (find_module_symbol (sm_symbols m) offset) as [symbol|] eqn:Es; [|done].
  pose proof (Hmodules _ _ Em) as Hwf.
  destruct (find_module_symbol_spec _ _ _ Hwf Es) as (Hsym & Hle & Hsize & Hlast).
  pose proof (proj1 (Forall_forall _ _) (proj2 Hwf) _ Hsym) as Hu. cbn beta in Hu.
  eexists _, offset, m, symbol, _, _. split_and!; try done.
  - unfold selector_hints. cbn. unfold checked_sub_u64.
    destruct (Z.leb_spec (offset - ms_file_offset symbol) offset); [|destruct Hu; lia].
    replace (offset - (offset - ms_file_offset symbol)) with (ms_file_offset symbol) by lia.
    reflexivity.
  - apply (hint_parses _ _ "entry"); auto.
  - apply (hint_parses _ _ "return"); auto.
Qed.
End hints.
