(* ===== verification/CpuSampling.v ===== *)
(** * CPU sampling

    [xprobe/core/src/cpu_sampling.rs] checks that a target can be sampled and lists its
    threads; [xprobe/collector/src/cpu_sampling.rs] opens a perf counter per thread, drains
    the rings until the capture ends and reports what was seen.  The kernel's side of a
    capture - outcomes of the calls, instants the clock shows, records that arrive in the
    rings before each drain - is an argument of [collect]. *)
From S2P Require Import Prelude BTree RustString Text Protocol Selector Os Process Inspect.
From S2P Require Import Measure CuptiCompat Doctor Resolve Validate Session CpuAnalysis.
#[local] Open Scope Z_scope.

(** ** Validation *)
Module CpuSamplingError.
Inductive CpuSamplingError : Type :=
| Inspect (error : InspectError)
| Doctor (error : DoctorError)
| Io (path : string) (source : IoError)
| InvalidElf (path reason : string)
| InvalidTask (path value : string)
| Limit (name : string) (value : Z).
End CpuSamplingError.
Abbreviation CpuSamplingError := CpuSamplingError.CpuSamplingError.
Definition cpu_sampling_error_code (e : CpuSamplingError) : ErrorCode :=
  match e with
  | CpuSamplingError.Inspect error => inspect_error_code error
  | CpuSamplingError.Io _ source =>
      if io_kind source == ErrorKind.PermissionDenied then ErrorCode.PermissionDenied
      else ErrorCode.Internal
  | CpuSamplingError.Limit _ _ => ErrorCode.SessionLimitExceeded
  | _ => ErrorCode.Internal
  end.
Definition cpu_sampling_error_recoverable (e : CpuSamplingError) : bool :=
  match e with
  | CpuSamplingError.Inspect error => inspect_error_recoverable error
  | CpuSamplingError.Io _ source =>
      (io_kind source == ErrorKind.PermissionDenied) || (io_kind source == ErrorKind.NotFound)
  | CpuSamplingError.Limit _ _ => true
  | _ => false
  end.
Definition cpu_sampling_error_display (e : CpuSamplingError) : string :=
  match e with
  | CpuSamplingError.Inspect error => inspect_error_display error
  | CpuSamplingError.Doctor error =>
      "CPU sampling capability check failed: " +:+ doctor_error_display error
  | CpuSamplingError.Io path source => "failed to read " +:+ path +:+ ": " +:+ io_message source
  | CpuSamplingError.InvalidElf path reason =>
      "failed to parse ELF " +:+ path +:+ ": " +:+ reason
  | CpuSamplingError.InvalidTask path value =>
      "invalid task entry " +:+ debug_str value +:+ " in " +:+ path
  | CpuSamplingError.Limit name value =>
      "CPU sampling " +:+ name +:+ " exceeds the supported bound: " +:+ to_decimal value
  end.

Section validation.
Context `{SerdeJson, Os, ObjectCrate}.

(** The requirements of the result are constants and flattened. *)
Record CpuSamplingValidationResult := BuildCpuSamplingValidationResult {
  cv_schema_version : SchemaVersion;
  cv_ok : bool;
  cv_valid : bool;
  cv_target : TargetIdentity;
  cv_target_threads : Z;
  cv_needs_perf_event : bool;
  cv_target_mutation : bool;
  cv_perf_event : CheckResult;
  cv_python_status : PythonSymbolizationStatus;
  cv_issues : list ValidationIssue;
  cv_warnings : list Warning }.

(** The loop over the entries of [/proc/<pid>/task], into a [BTreeSet]. *)
Fixpoint thread_entries (path : string) (entries : list (syscall_result (list Z)))
    (threads : btree Z ()) : res CpuSamplingError (btree Z ()) :=
  match entries with
  | [] => Ok threads
  | inl source :: _ => Err (CpuSamplingError.Io path source)
  | inr name :: entries =>
      text ← ok_or (from_utf8 name)
        (CpuSamplingError.InvalidTask path (from_utf8_lossy name));
      tid ← ok_or (parse_u32 text) (CpuSamplingError.InvalidTask path text);
      thread_entries path entries (bt_insert tid () threads)
  end.
Definition target_thread_ids (target : TargetIdentity) : io CpuSamplingError (list Z) :=
  _ ← map_io_err CpuSamplingError.Inspect (verify_target target);
  let path := "/proc/" +:+ to_decimal (target_pid target) +:+ "/task" in
  entries ← call (fs_read_dir path) (CpuSamplingError.Io path);
  threads ← lift (thread_entries path entries []);
  _ ← map_io_err CpuSamplingError.Inspect (verify_target target);
  mret (bt_keys threads).
Definition target_threads (target : TargetIdentity) : io CpuSamplingError Z :=
  threads ← target_thread_ids target;
  lift (if u32_max <? len threads
        then Err (CpuSamplingError.Limit "thread count" (len threads)) else Ok (len threads)).

Definition effective_perf_check (report : CapabilityReport) (target_effective_uid : Z) :
    CheckResult :=
  let paranoid := sc_perf_event_paranoid (cr_checks report) in
  let same_user := env_effective_uid (cr_environment report) =? target_effective_uid in
  let user_space_process_sampling_allowed :=
    match check_detail paranoid ≫= parse_i32 with Some value => value <=? 2 | None => false end in
  if (env_effective_uid (cr_environment report) =? 0)
     || cap_uprobe (cr_capabilities report)
     || (same_user && user_space_process_sampling_allowed) then
    check CheckStatus.Available
      ("PID-scoped user-space sampling is permitted; perf_event_paranoid="
         +:+ default "unknown"%string (check_detail paranoid))
  else paranoid.

Definition elf_symbol_names (path : string) : io CpuSamplingError (list string) :=
  bytes ← call (fs_read path) (CpuSamplingError.Io path);
  file ← lift match object_parse bytes with
              | inl error => Err (CpuSamplingError.InvalidElf path error)
              | inr file => Ok file
              end;
  mret (omap sym_name (obj_symbols file ++ obj_dynamic_symbols file)).

(** [sort] and [dedup] of paths, which compare by components. *)
Fixpoint dedup_paths (kept : option string) (paths : list string) : list string :=
  match paths with
  | [] => []
  | path :: paths =>
      if match kept with Some kept => path_eq kept path | None => false end
      then dedup_paths kept paths
      else path :: dedup_paths (Some path) paths
  end.
Definition python_candidates (report : ProcessReport) : list string :=
  dedup_paths None (sort_by (λ a b, not_greater (kcmp (components a) (components b)))
    (pr_executable report
     :: filter (λ path, match file_name path with
                        | Some name => starts_with "libpython" name
                        | None => false
                        end = true) (pr_loaded_libraries report))).
(** The loop over the candidates: whether CPython was found, and its trampoline. *)
Fixpoint inspect_python (paths : list string) (found supported : bool) :
    io CpuSamplingError (bool * bool) :=
  match paths with
  | [] => mret (found, supported)
  | path :: paths =>
      symbols ← elf_symbol_names path;
      let has name := bool_decide (name ∈ symbols) in
      let is_python := has "Py_Initialize"%string || has "_PyEval_EvalFrameDefault"%string
                       || has "PyUnstable_PerfMapState_Init"%string in
      if negb is_python then inspect_python paths found supported
      else inspect_python paths true
             (supported || (has "_Py_trampoline_func_start"%string
                            && has "PyUnstable_WritePerfMapEntry"%string))
  end.
Definition python_symbolization_status (report : ProcessReport) :
    io CpuSamplingError PythonSymbolizationStatus :=
  '(python_detected, trampoline_supported) ← inspect_python (python_candidates report) false false;
  if negb python_detected then mret PythonSymbolizationStatus.NotDetected
  else if negb trampoline_supported then mret PythonSymbolizationStatus.Unsupported
  else
    let pid := to_decimal (target_pid (pr_target report)) in
    let path := "/proc/" +:+ pid +:+ "/root/tmp/perf-" +:+ pid +:+ ".map" in
    metadata ← call_optional (fs_metadata path) (CpuSamplingError.Io path);
    match metadata with
    | Some metadata =>
        if MAX_PERF_MAP_BYTES <? md_len metadata then
          lift (Err (CpuSamplingError.Limit "perf map bytes" (md_len metadata)))
        else if md_is_file metadata && negb (md_len metadata =? 0)
        then mret PythonSymbolizationStatus.Active
        else mret PythonSymbolizationStatus.Inactive
    | None => mret PythonSymbolizationStatus.Inactive
    end.

Definition python_warnings (status : PythonSymbolizationStatus) : list Warning :=
  match status with
  | PythonSymbolizationStatus.Inactive =>
      [warning "PYTHON_PERF_TRAMPOLINE_INACTIVE"
         "CPython perf trampoline support is present but inactive; native frames remain available"]
  | PythonSymbolizationStatus.Unsupported =>
      [warning "PYTHON_PERF_TRAMPOLINE_UNSUPPORTED"
         "the mapped CPython build does not expose perf trampoline symbols; native frames remain available"]
  | _ => []
  end.
Definition cpu_validate (report : ProcessReport) :
    io CpuSamplingError CpuSamplingValidationResult :=
  _ ← map_io_err CpuSamplingError.Inspect (verify_target (pr_target report));
  target_threads ← target_threads (pr_target report);
  capabilities ← map_io_err CpuSamplingError.Doctor doctor_run;
  let perf_event :=
    effective_perf_check capabilities (cred_effective_uid (pr_credentials report)) in
  python_status ← python_symbolization_status report;
  let issues :=
    if check_status perf_event != CheckStatus.Available then
      [BuildValidationIssue ErrorCode.PermissionDenied
         "CPU sampling is restricted by the effective perf event policy"]
    else [] in
  _ ← map_io_err CpuSamplingError.Inspect (verify_target (pr_target report));
  mret (BuildCpuSamplingValidationResult SchemaVersion.V2 true (len issues =? 0)
          (pr_target report) target_threads true false perf_event python_status issues
          (python_warnings python_status)).
End validation.
