(* ===== verification/CpuCollect.v ===== *)
(** * Collecting CPU samples

    [xprobe/collector/src/cpu_sampling.rs]: a perf counter per thread, the rings drained until
    the capture ends.  The kernel's side of a capture is an argument, [Perf]: what its calls
    return, the instants the clock shows and the records that arrive in the rings before each
    drain; the sleeps between the drains only pass time.  Instants and durations are in
    nanoseconds. *)
From S2P Require Import Prelude BTree RustString Text Protocol Os Measure Session.
#[local] Open Scope Z_scope.

(** ** Requests and results *)
Definition ESRCH : Z := 3.

Record CpuSamplingRequest := BuildCpuSamplingRequest {
  cq_thread_ids : list Z;
  cq_frequency_hz : Z;
  cq_duration : Z;
  cq_timeout : Z;
  cq_max_samples : Z;
  cq_max_threads : Z;
  cq_stack_depth : Z }.
Record RawCpuStack := BuildRawCpuStack { rs_thread_id : Z; rs_addresses : list Z }.
Record CpuSampleCapture := BuildCpuSampleCapture {
  cc_stacks : list RawCpuStack;
  cc_observed_samples : Z;
  cc_lost_samples : Z;
  cc_truncated_stacks : Z;
  cc_throttled_records : Z;
  cc_threads_observed : Z;
  cc_threads_attached : Z;
  cc_skipped_threads : list Z;
  cc_capacity_reached : bool;
  cc_elapsed : Z }.

Module CpuCollectorError.
Inductive CpuCollectorError : Type :=
| InvalidRequest (message : string)
| Open (thread_id : Z) (source : IoError)
| Ring (thread_id : Z) (source : IoError)
| Arm (thread_id : Z) (source : IoError)
| Cleanup (failures : list string)
| Timeout
| NoThreadsAttached (skipped_threads : list Z).
End CpuCollectorError.
Abbreviation CpuCollectorError := CpuCollectorError.CpuCollectorError.
Definition debug_threads (threads : list Z) : string :=
  "[" +:+ join ", " (to_decimal <$> threads) +:+ "]".
Definition cpu_collector_error_display (e : CpuCollectorError) : string :=
  match e with
  | CpuCollectorError.InvalidRequest message => "invalid CPU sampling request: " +:+ message
  | CpuCollectorError.Open thread_id source =>
      "failed to open perf event for thread " +:+ to_decimal thread_id +:+ ": "
        +:+ io_message source
  | CpuCollectorError.Ring thread_id source =>
      "failed to map perf ring for thread " +:+ to_decimal thread_id +:+ ": "
        +:+ io_message source
  | CpuCollectorError.Arm thread_id source =>
      "failed to enable perf event for thread " +:+ to_decimal thread_id +:+ ": "
        +:+ io_message source
  | CpuCollectorError.Cleanup failures =>
      "failed to disable perf events: " +:+ join "; " failures
  | CpuCollectorError.Timeout => "CPU sampling timed out"
  | CpuCollectorError.NoThreadsAttached skipped =>
      "no target threads remained attachable; exited threads: " +:+ debug_threads skipped
  end.

Definition cpu_validate_request (request : CpuSamplingRequest) : res CpuCollectorError unit :=
  let invalid message := Err (CpuCollectorError.InvalidRequest message) in
  if len (cq_thread_ids request) =? 0 then invalid "thread_ids must not be empty"%string
  else if cq_frequency_hz request =? 0 then invalid "frequency_hz must be positive"%string
  else if cq_duration request =? 0 then invalid "duration must be positive"%string
  else if cq_timeout request <? cq_duration request then
    invalid "timeout must be at least the capture duration"%string
  else if cq_max_samples request =? 0 then invalid "max_samples must be positive"%string
  else if cq_max_threads request =? 0 then invalid "max_threads must be positive"%string
  else if cq_stack_depth request =? 0 then invalid "stack_depth must be positive"%string
  else Ok ().

(** ** Records *)
Inductive CallChain : Type := UserChain (addresses : list Z) | OtherChain.
Inductive PerfRecord : Type :=
| Sample (code_addr : option Z) (call_chain : option (list CallChain))
| LostRecords (lost_records : Z)
| LostSamples (lost_samples : Z)
| Throttle
| OtherRecord.

Definition user_chain (chains : list CallChain) : option (list Z) :=
  find_map (λ chain, match chain with UserChain addresses => Some addresses | OtherChain => None end)
    chains.
Definition user_addresses (code_addr : option Z) (call_chain : option (list CallChain))
    (stack_depth : Z) : option (list Z * bool) :=
  let addresses := default [] (call_chain ≫= user_chain) in
  let addresses := if len addresses =? 0 then addresses ++ option_list code_addr else addresses in
  let addresses := filter (λ address, address ≠ 0) addresses in
  let truncated := stack_depth <=? len addresses in
  let addresses := take (Z.to_nat stack_depth) addresses in
  if len addresses =? 0 then None else Some (addresses, truncated).

(** ** Draining *)
Definition add_sample (thread_id : Z) (stack : option (list Z * bool))
    (capture : CpuSampleCapture) : CpuSampleCapture :=
  let '(stacks, truncated) :=
    match stack with
    | Some (addresses, truncated) =>
        (cc_stacks capture ++ [BuildRawCpuStack thread_id addresses],
         cc_truncated_stacks capture + Z.b2z truncated)
    | None => (cc_stacks capture, cc_truncated_stacks capture)
    end in
  BuildCpuSampleCapture stacks (cc_observed_samples capture + 1) (cc_lost_samples capture)
    truncated (cc_throttled_records capture) (cc_threads_observed capture)
    (cc_threads_attached capture) (cc_skipped_threads capture) (cc_capacity_reached capture)
    (cc_elapsed capture).
Definition set_lost (lost : Z) (c : CpuSampleCapture) : CpuSampleCapture :=
  BuildCpuSampleCapture (cc_stacks c) (cc_observed_samples c) lost (cc_truncated_stacks c)
    (cc_throttled_records c) (cc_threads_observed c) (cc_threads_attached c)
    (cc_skipped_threads c) (cc_capacity_reached c) (cc_elapsed c).
Definition set_throttled (throttled : Z) (c : CpuSampleCapture) : CpuSampleCapture :=
  BuildCpuSampleCapture (cc_stacks c) (cc_observed_samples c) (cc_lost_samples c)
    (cc_truncated_stacks c) throttled (cc_threads_observed c) (cc_threads_attached c)
    (cc_skipped_threads c) (cc_capacity_reached c) (cc_elapsed c).
Definition set_capacity (reached : bool) (c : CpuSampleCapture) : CpuSampleCapture :=
  BuildCpuSampleCapture (cc_stacks c) (cc_observed_samples c) (cc_lost_samples c)
    (cc_truncated_stacks c) (cc_throttled_records c) (cc_threads_observed c)
    (cc_threads_attached c) (cc_skipped_threads c) reached (cc_elapsed c).
Definition set_elapsed (elapsed : Z) (c : CpuSampleCapture) : CpuSampleCapture :=
  BuildCpuSampleCapture (cc_stacks c) (cc_observed_samples c) (cc_lost_samples c)
    (cc_truncated_stacks c) (cc_throttled_records c) (cc_threads_observed c)
    (cc_threads_attached c) (cc_skipped_threads c) (cc_capacity_reached c) elapsed.

(** The arms of the match on a record, for a sample the one below the capacity. *)
Definition see_record (request : CpuSamplingRequest) (thread_id : Z) (record : PerfRecord)
    (capture : CpuSampleCapture) : CpuSampleCapture :=
  match record with
  | Sample code_addr call_chain =>
      add_sample thread_id (user_addresses code_addr call_chain (cq_stack_depth request)) capture
  | LostRecords lost | LostSamples lost =>
      set_lost (saturating_add_u64 (cc_lost_samples capture) lost) capture
  | Throttle => set_throttled (saturating_add_u64 (cc_throttled_records capture) 1) capture
  | OtherRecord => capture
  end.
(** The records of one ring: the capture, the records left in the ring, and whether [drain]
    returns. *)
Fixpoint drain_ring (request : CpuSamplingRequest) (thread_id : Z) (records : list PerfRecord)
    (capture : CpuSampleCapture) : CpuSampleCapture * list PerfRecord * bool :=
  match records with
  | [] => (capture, [], false)
  | record :: records =>
      match record, cc_observed_samples capture <? cq_max_samples request with
      | Sample _ _, false => (set_capacity true capture, records, true)
      | _, _ =>
          let capture := see_record request thread_id record capture in
          if cq_max_samples request <=? cc_observed_samples capture
          then (set_capacity true capture, records, true)
          else drain_ring request thread_id records capture
      end
  end.
(** The rings in order; each is its thread and its pending records. *)
Fixpoint drain (request : CpuSamplingRequest) (rings : list (Z * list PerfRecord))
    (capture : CpuSampleCapture) : CpuSampleCapture * list (Z * list PerfRecord) :=
  match rings with
  | [] => (capture, [])
  | (thread_id, records) :: rings =>
      let '(capture, pending, stop) := drain_ring request thread_id records capture in
      if stop : bool then (capture, (thread_id, pending) :: rings)
      else
        let '(capture, rings) := drain request rings capture in
        (capture, (thread_id, pending) :: rings)
  end.
(** What arrives in the rings, by their position, before a drain. *)
Definition Arrivals : Type := nat → list PerfRecord.
Definition arrive (rings : list (Z * list PerfRecord)) (arrivals : Arrivals) :
    list (Z * list PerfRecord) :=
  imap (λ i ring, (ring.1, ring.2 ++ arrivals i)) rings.

(** ** The kernel's side *)

(** What happens to the [n]th selected thread: the instant before its counter is opened, and
    the outcomes of the calls on the counter. *)
Record PerfThread := BuildPerfThread {
  pt_now : Z;
  pt_open : option IoError;
  pt_sampler : option IoError;
  pt_enable : option IoError;
  pt_disable : option IoError }.
(** One round of the loop: the two instants it reads and what has arrived before its drain. *)
Record PerfRound := BuildPerfRound {
  rd_now : Z;
  rd_check : Z;
  rd_arrivals : Arrivals }.
Record Perf := BuildPerf {
  pf_started : Z;
  pf_thread : nat → PerfThread;
  pf_capture_started : Z;
  pf_rounds : list PerfRound;
  pf_last : Arrivals;
  pf_finished : Z }.

(** ** Opening, arming, disabling *)

(** A sampler: the position of its thread among the selected ones, and the thread. *)
Definition ThreadSampler : Type := nat * Z.
Fixpoint open_all (kernel : Perf) (deadline : Z) (index : nat) (selected skipped : list Z)
    (samplers : list ThreadSampler) :
    res CpuCollectorError (list ThreadSampler * list Z) :=
  match selected with
  | [] => Ok (samplers, skipped)
  | thread_id :: selected =>
      let outcome := pf_thread kernel index in
      if deadline <=? pt_now outcome then Err CpuCollectorError.Timeout
      else
        match pt_open outcome with
        | Some source =>
            if io_errno source == Some ESRCH
            then open_all kernel deadline (S index) selected (skipped ++ [thread_id]) samplers
            else Err (CpuCollectorError.Open thread_id source)
        | None =>
            match pt_sampler outcome with
            | Some source => Err (CpuCollectorError.Ring thread_id source)
            | None =>
                open_all kernel deadline (S index) selected skipped
                  (samplers ++ [(index, thread_id)])
            end
        end
  end.

(** The calls on the counters that change what is being sampled. *)
Inductive PerfCall : Set := Enable (thread : nat) | Disable (thread : nat).
Definition disable_subset (kernel : Perf) (samplers : list ThreadSampler) : list string :=
  omap (λ '(index, thread_id),
    error ← pt_disable (pf_thread kernel index);
    Some ("thread " +:+ to_decimal thread_id +:+ ": " +:+ io_message error)) samplers.
Definition disable_calls (samplers : list ThreadSampler) : list PerfCall :=
  (λ sampler, Disable sampler.1) <$> samplers.
Definition disable_all (kernel : Perf) (samplers : list ThreadSampler) :
    res CpuCollectorError unit :=
  let failures := disable_subset kernel samplers in
  if len failures =? 0 then Ok () else Err (CpuCollectorError.Cleanup failures).
(** [armed] are the samplers before the current one. *)
Fixpoint arm_all (kernel : Perf) (armed samplers : list ThreadSampler) :
    list PerfCall * res CpuCollectorError unit :=
  match samplers with
  | [] => ([], Ok ())
  | (index, thread_id) :: samplers =>
      match pt_enable (pf_thread kernel index) with
      | Some source =>
          let cleanup := disable_subset kernel armed in
          (Enable index :: disable_calls armed,
           if len cleanup =? 0 then Err (CpuCollectorError.Arm thread_id source)
           else Err (CpuCollectorError.Cleanup
                       (cleanup ++ ["original enable failure for thread " +:+ to_decimal thread_id
                                      +:+ ": " +:+ io_message source])))
      | None =>
          let '(calls, r) := arm_all kernel (armed ++ [(index, thread_id)]) samplers in
          (Enable index :: calls, r)
      end
  end.

(** ** The loop *)
Inductive LoopEnd : Type :=
| Finished (capture : CpuSampleCapture) (rings : list (Z * list PerfRecord))
| TimedOut
| Running.
Fixpoint sampling_loop (request : CpuSamplingRequest) (deadline capture_deadline : Z)
    (rounds : list PerfRound) (rings : list (Z * list PerfRecord)) (capture : CpuSampleCapture) :
    LoopEnd :=
  match rounds with
  | [] => Running
  | round :: rounds =>
      if negb ((rd_now round <? capture_deadline)
               && (cc_observed_samples capture <? cq_max_samples request))
      then Finished capture rings
      else if deadline <=? rd_check round then TimedOut
      else
        let '(capture, rings) := drain request (arrive rings (rd_arrivals round)) capture in
        sampling_loop request deadline capture_deadline rounds rings capture
  end.

(** [collect]: the calls on the counters in order, and the result, [None] while the rounds
    given do not end the loop. *)
Definition collect (kernel : Perf) (request : CpuSamplingRequest) :
    list PerfCall * option (res CpuCollectorError CpuSampleCapture) :=
  let failed calls (e : CpuCollectorError) := (calls, Some (Err e)) in
  match cpu_validate_request request with
  | Err e => failed [] e
  | Panic => ([], Some Panic)
  | Ok _ =>
      match instant_checked_add (pf_started kernel) (cq_timeout request) with
      | None => failed [] (CpuCollectorError.InvalidRequest "timeout overflows the monotonic clock")
      | Some deadline =>
          let observed := len (cq_thread_ids request) in
          let selected := take (Z.to_nat (cq_max_threads request)) (cq_thread_ids request) in
          let skipped := drop (Z.to_nat (cq_max_threads request)) (cq_thread_ids request) in
          match open_all kernel deadline 0 selected skipped [] with
          | Err e => failed [] e
          | Panic => ([], Some Panic)
          | Ok ([], skipped) => failed [] (CpuCollectorError.NoThreadsAttached skipped)
          | Ok (samplers, skipped) =>
              match arm_all kernel [] samplers with
              | (armed, Err e) => failed armed e
              | (armed, Panic) => (armed, Some Panic)
              | (armed, Ok _) =>
                  match instant_checked_add (pf_capture_started kernel) (cq_duration request) with
                  | None =>
                      failed armed
                        (CpuCollectorError.InvalidRequest "duration overflows the monotonic clock")
                  | Some capture_deadline =>
                      let capture := BuildCpuSampleCapture [] 0 0 0 0 observed (len samplers)
                                       skipped false 0 in
                      let rings := (λ sampler, (sampler.2, [])) <$> samplers in
                      let calls := armed ++ disable_calls samplers in
                      match sampling_loop request deadline capture_deadline (pf_rounds kernel)
                              rings capture with
                      | Running => (armed, None)
                      | TimedOut =>
                          match disable_all kernel samplers with
                          | Ok _ => failed calls CpuCollectorError.Timeout
                          | Err e => failed calls e
                          | Panic => (calls, Some Panic)
                          end
                      | Finished capture rings =>
                          match disable_all kernel samplers with
                          | Ok _ =>
                              let '(capture, _) :=
                                drain request (arrive rings (pf_last kernel)) capture in
                              let capture :=
                                set_capacity (cq_max_samples request
                                              <=? cc_observed_samples capture) capture in
                              (calls, Some (Ok (set_elapsed
                                 (pf_finished kernel - pf_capture_started kernel) capture)))
                          | Err e => failed calls e
                          | Panic => (calls, Some Panic)
                          end
                      end
                  end
              end
          end
      end
  end.

(** ** What a capture accounts for *)
Definition is_sample (r : Z * PerfRecord) : bool :=
  match r.2 with Sample _ _ => true | _ => false end.
Definition stack_of (depth : Z) (r : Z * PerfRecord) : option RawCpuStack :=
  match r.2 with
  | Sample code_addr call_chain =>
      '(addresses, _) ← user_addresses code_addr call_chain depth;
      Some (BuildRawCpuStack r.1 addresses)
  | _ => None
  end.
Definition lost_of (r : Z * PerfRecord) : Z :=
  match r.2 with LostRecords n | LostSamples n => n | _ => 0 end.
Definition throttles (r : Z * PerfRecord) : Z := match r.2 with Throttle => 1 | _ => 0 end.
Definition record_wf (r : Z * PerfRecord) : Prop := 0 ≤ lost_of r.

(** [c'] is [c] after the records [seen], in order. *)
Record accounts (depth : Z) (c : CpuSampleCapture) (seen : list (Z * PerfRecord))
    (c' : CpuSampleCapture) : Prop := {
  ac_stacks : cc_stacks c' = cc_stacks c ++ omap (stack_of depth) seen;
  ac_observed :
    cc_observed_samples c' = cc_observed_samples c + len (filter (λ r, is_sample r = true) seen);
  ac_lost : cc_lost_samples c' = Z.min (cc_lost_samples c + sum_by lost_of seen) u64_max;
  ac_throttled :
    cc_throttled_records c' = Z.min (cc_throttled_records c + sum_by throttles seen) u64_max;
  ac_threads : cc_threads_observed c' = cc_threads_observed c
               ∧ cc_threads_attached c' = cc_threads_attached c
               ∧ cc_skipped_threads c' = cc_skipped_threads c }.
Definition bounded (c : CpuSampleCapture) : Prop :=
  cc_lost_samples c ≤ u64_max ∧ cc_throttled_records c ≤ u64_max.

Lemma accounts_bounded depth c seen c' : accounts depth c seen c' → bounded c'.
Proof. intros [_ _ Hl Ht _]. split; lia. Qed.
Lemma accounts_nil depth c : bounded c → accounts depth c [] c.
Proof.
  intros [Hl Ht]. split; cbn; rewrite ?app_nil_r; try done; [change (len []) with 0; lia|lia..].
Qed.
Lemma throttles_nonneg seen : 0 ≤ sum_by throttles seen.
Proof. apply sum_by_nonneg, Forall_forall. intros [? []] _; cbn; lia. Qed.
Lemma accounts_app depth c s1 c1 s2 c2 :
  Forall record_wf s2 → accounts depth c s1 c1 → accounts depth c1 s2 c2 →
  accounts depth c (s1 ++ s2) c2.
Proof.
  intros Hwf [S1 O1 L1 T1 (A1 & B1 & D1)] [S2 O2 L2 T2 (A2 & B2 & D2)].
  pose proof (sum_by_nonneg lost_of s2 Hwf). pose proof (throttles_nonneg s2).
  split.
  - by rewrite S2, S1, omap_app, app_assoc.
  - rewrite O2, O1, filter_app, len_app. lia.
  - rewrite L2, L1, sum_by_app. lia.
  - rewrite T2, T1, sum_by_app. lia.
  - by rewrite A2, A1, B2, B1, D2, D1.
Qed.
Lemma accounts_capacity depth c seen c' b :
  accounts depth c seen c' → accounts depth c seen (set_capacity b c').
Proof. by intros [? ? ? ? ?]. Qed.
Lemma accounts_elapsed depth c seen c' t :
  accounts depth c seen c' → accounts depth c seen (set_elapsed t c').
Proof. by intros [? ? ? ? ?]. Qed.

Section drain.
Context (request : CpuSamplingRequest).
Abbreviation depth := (cq_stack_depth request).

Lemma see_record_accounts tid record c :
  bounded c → accounts depth c [(tid, record)] (see_record request tid record c).
Proof.
  intros [Hl Ht]. destruct record as [code chain|n|n| |].
  1: unfold see_record, add_sample; split; cbn;
      destruct (user_addresses code chain depth) as [[addresses truncated]|]; cbn;
      rewrite ?app_nil_r; try done; lia.
  all: split; cbn; rewrite ?app_nil_r, ?Z.add_0_r; try done; unfold saturating_add_u64; lia.
Qed.
Lemma see_record_observed tid record c :
  cc_observed_samples (see_record request tid record c)
  = cc_observed_samples c + Z.b2z (is_sample (tid, record)).
Proof. 
  destruct record as [code chain|n|n| |]; cbn; try lia. unfold add_sample.
  by destruct (user_addresses code chain depth) as [[]|].
Qed.

Lemma drain_ring_cons tid record records c :
  drain_ring request tid (record :: records) c
  = if is_sample (tid, record) && (cq_max_samples request <=? cc_observed_samples c)
    then (set_capacity true c, records, true)
    else
      let c := see_record request tid record c in
      if cq_max_samples request <=? cc_observed_samples c
      then (set_capacity true c, records, true)
      else drain_ring request tid records c.
Proof.
  destruct record; cbn [drain_ring is_sample snd andb]; try done.
  destruct (Z.ltb_spec (cc_observed_samples c) (cq_max_samples request)),
    (Z.leb_spec (cq_max_samples request) (cc_observed_samples c)); done || lia.
Qed.
(** What draining a ring sees, and when it stops. *)
Lemma drain_ring_spec tid records : ∀ c c' pending stop,
  drain_ring request tid records c = (c', pending, stop) →
  Forall record_wf (pair tid <$> records) → bounded c →
  cc_observed_samples c ≤ cq_max_samples request →
  ∃ seen, accounts depth c (pair tid <$> seen) c'
    ∧ cc_observed_samples c' ≤ cq_max_samples request
    ∧ seen ++ pending ⊆+ records
    ∧ (if stop : bool then cc_observed_samples c' = cq_max_samples request
       else seen = records ∧ pending = []).
Proof.
  induction records as [|record records IH]; intros c c' pending stop.
  { intros [= <- <- <-] _ Hb Hle. exists []. split_and!; [by apply accounts_nil|done..]. }
  rewrite drain_ring_cons, fmap_cons, Forall_cons. intros Hd [Hr Hwf] Hb Hle.
  destruct (is_sample (tid, record) && (cq_max_samples request <=? cc_observed_samples c)) eqn:Hcap.
  { injection Hd as <- <- <-. bool_props. exists [].
    split_and!; [by apply accounts_capacity, accounts_nil|done|by apply submseteq_cons|cbn; lia]. }
  cbn zeta in Hd. pose proof (see_record_accounts tid record c Hb) as Ha.
  assert (cc_observed_samples (see_record request tid record c) ≤ cq_max_samples request) as Hle'.
  { rewrite see_record_observed. destruct (is_sample (tid, record)); cbn in Hcap |- *; bool_props; lia. }
  destruct (Z.leb_spec (cq_max_samples request)
    (cc_observed_samples (see_record request tid record c))) as [Hge|Hlt].
  { injection Hd as <- <- <-. exists [record].
    split_and!; [by apply accounts_capacity|exact Hle'|done|cbn; lia]. }
  destruct (IH _ _ _ _ Hd Hwf (accounts_bounded _ _ _ _ Ha) Hle')
    as (seen & Hs & Ho & Hsub & Hstop).
  exists (record :: seen). split_and!.
  - rewrite fmap_cons.
    refine (accounts_app depth c [(tid, record)] _ (pair tid <$> seen) _ _ Ha Hs).
    eapply Forall_submseteq; [|exact Hwf]. apply fmap_submseteq.
    etrans; [|exact Hsub]. by apply submseteq_inserts_r.
  - exact Ho.
  - cbn. by apply submseteq_skip.
  - destruct stop; [exact Hstop|]. by destruct Hstop as [-> ->].
Qed.

(** The pending records of the rings with their threads. *)
Definition flat (rings : list (Z * list PerfRecord)) : list (Z * PerfRecord) :=
  concat ((λ ring : Z * list PerfRecord, pair ring.1 <$> ring.2) <$> rings).
Lemma drain_spec rings : ∀ c c' rings',
  drain request rings c = (c', rings') →
  Forall record_wf (flat rings) → bounded c → cc_observed_samples c ≤ cq_max_samples request →
  ∃ seen, accounts depth c seen c'
    ∧ cc_observed_samples c' ≤ cq_max_samples request
    ∧ rings'.*1 = rings.*1
    ∧ seen ++ flat rings' ⊆+ flat rings
    ∧ (cc_observed_samples c' < cq_max_samples request → seen = flat rings ∧ flat rings' = []).
Proof.
  induction rings as [|[tid records] rings IH]; intros c c' rings'; cbn [drain].
  { intros [= <- <-] _ Hb Hle. exists []. split_and!; [by apply accounts_nil|done..]. }
  destruct (drain_ring request tid records c) as [[c1 pending] stop] eqn:Hring.
  intros Hd Hwf Hb Hle. unfold flat in Hwf. rewrite fmap_cons in Hwf. cbn in Hwf.
  apply Forall_app in Hwf as [Hwf1 Hwf2].
  destruct (drain_ring_spec _ _ _ _ _ _ Hring Hwf1 Hb Hle) as (seen & Ha & Ho & Hsub & Hstop).
  destruct stop.
  - injection Hd as <- <-. exists (pair tid <$> seen). split_and!; [done..| |lia].
    unfold flat. rewrite !fmap_cons. cbn. rewrite app_assoc, <-fmap_app.
    by apply submseteq_app; [apply fmap_submseteq|].
  - destruct Hstop as [-> ->].
    destruct (drain request rings c1) as [c2 rings2] eqn:Hrest. injection Hd as <- <-.
    destruct (IH _ _ _ Hrest Hwf2 (accounts_bounded _ _ _ _ Ha) Ho)
      as (seen2 & Ha2 & Ho2 & Hids & Hsub2 & Hall).
    exists ((pair tid <$> records) ++ seen2). split_and!; [|exact Ho2|cbn; by rewrite Hids| |].
    + eapply accounts_app; [|exact Ha|exact Ha2]. eapply Forall_submseteq; [|exact Hwf2].
      etrans; [|exact Hsub2]. by apply submseteq_inserts_r.
    + unfold flat. rewrite !fmap_cons. cbn. rewrite <-app_assoc. by apply submseteq_app.
    + intros [-> Hnil]%Hall. unfold flat in *. rewrite !fmap_cons. cbn. by rewrite Hnil.
Qed.

(** ** The loop *)
Definition arrived (tids : list Z) (arrivals : Arrivals) : list (Z * PerfRecord) :=
  concat (imap (λ i tid, pair tid <$> arrivals i) tids).
Lemma arrive_ids rings arrivals : (arrive rings arrivals).*1 = rings.*1.
Proof.
  unfold arrive. revert arrivals. induction rings as [|ring rings IH]; intros arrivals; [done|].
  cbn. f_equal. apply (IH (λ i, arrivals (S i))).
Qed.
Lemma flat_arrive rings arrivals :
  flat (arrive rings arrivals) ≡ₚ flat rings ++ arrived rings.*1 arrivals.
Proof.
  unfold flat, arrive, arrived. revert arrivals.
  induction rings as [|[tid records] rings IH]; intros arrivals; [done|]. cbn.
  pose proof (IH (λ i, arrivals (S i))) as IH'.
  unfold compose. rewrite IH', fmap_app. solve_Permutation.
Qed.
Definition wf_arrivals (tids : list Z) (arrivals : Arrivals) : Prop :=
  Forall record_wf (arrived tids arrivals).

(** After some rounds: what was seen, of what arrived. *)
Record progress (tids : list Z) (c0 : CpuSampleCapture) (came seen : list (Z * PerfRecord))
    (rings : list (Z * list PerfRecord)) (c : CpuSampleCapture) : Prop := {
  pr_ids : rings.*1 = tids;
  pr_accounts : accounts depth c0 seen c;
  pr_max : cc_observed_samples c ≤ cq_max_samples request;
  pr_seen : seen ++ flat rings ⊆+ came;
  pr_all : cc_observed_samples c < cq_max_samples request → seen ≡ₚ came }.
Lemma progress_drain tids c0 came seen rings c arrivals c' rings' :
  progress tids c0 came seen rings c → Forall record_wf came → wf_arrivals tids arrivals →
  drain request (arrive rings arrivals) c = (c', rings') →
  ∃ seen', progress tids c0 (came ++ arrived tids arrivals) seen' rings' c'.
Proof.
  intros [<- Ha Hm Hs Hall] Hwf Hwa Hd.
  assert (Forall record_wf (flat (arrive rings arrivals))) as Hwf'.
  { rewrite flat_arrive. apply Forall_app. split; [|exact Hwa].
    eapply Forall_submseteq; [|exact Hwf]. etrans; [|exact Hs]. by apply submseteq_inserts_l. }
  destruct (drain_spec _ _ _ _ Hd Hwf' (accounts_bounded _ _ _ _ Ha) Hm)
    as (seen' & Ha' & Hm' & Hids & Hsub & Hall').
  exists (seen ++ seen'). split.
  - by rewrite Hids, arrive_ids.
  - eapply accounts_app; [|exact Ha|exact Ha']. eapply Forall_submseteq; [|exact Hwf'].
    etrans; [|exact Hsub]. by apply submseteq_inserts_r.
  - exact Hm'.
  - rewrite <-app_assoc. etrans; [apply submseteq_app; [reflexivity|exact Hsub]|].
    rewrite flat_arrive, app_assoc. by apply submseteq_app.
  - intros Hlt. destruct (Hall' Hlt) as [-> Hnil].
    assert (cc_observed_samples c < cq_max_samples request) as Hlt0.
    { rewrite (ac_observed _ _ _ _ Ha') in Hlt. pose proof (len_nonneg
        (filter (λ r, is_sample r = true) (flat (arrive rings arrivals)))). lia. }
    pose proof (Hall Hlt0) as Hp. rewrite flat_arrive.
    assert (flat rings = []) as ->; [|by rewrite Hp].
    rewrite <-Hp in Hs. apply submseteq_length in Hs. rewrite length_app in Hs.
    apply nil_length_inv. lia.
Qed.
End drain.

Section loop.
Context (request : CpuSamplingRequest).

(** The records of some rounds. *)
Definition round_records (tids : list Z) (rounds : list PerfRound) : list (Z * PerfRecord) :=
  concat ((λ round, arrived tids (rd_arrivals round)) <$> rounds).
Lemma loop_progress tids c0 deadline capture_deadline rounds : ∀ came seen rings c c' rings',
  progress request tids c0 came seen rings c → Forall record_wf came →
  Forall record_wf (round_records tids rounds) →
  sampling_loop request deadline capture_deadline rounds rings c = Finished c' rings' →
  ∃ used rest seen', rounds = used ++ rest
    ∧ progress request tids c0 (came ++ round_records tids used) seen' rings' c'.
Proof.
  induction rounds as [|round rounds IH]; intros came seen rings c c' rings' Hp Hwf Hr;
    cbn [sampling_loop]; [done|].
  destruct (negb _).
  { intros [= <- <-]. exists [], (round :: rounds), seen. split; [done|].
    by rewrite app_nil_r. }
  destruct (deadline <=? rd_check round); [done|].
  destruct (drain request _ c) as [c1 rings1] eqn:Hd. intros Hloop.
  unfold round_records in Hr. cbn in Hr. apply Forall_app in Hr as [Hr1 Hr2].
  destruct (progress_drain request _ _ _ _ _ _ _ _ _ Hp Hwf Hr1 Hd) as [seen1 Hp1].
  destruct (IH _ _ _ _ _ _ Hp1 ltac:(by apply Forall_app) Hr2 Hloop)
    as (used & rest & seen' & -> & Hp').
  exists (round :: used), rest, seen'. split; [done|].
  unfold round_records. cbn. by rewrite app_assoc.
Qed.

(** The loop ends once the clock has passed the end of the capture. *)
Lemma loop_ends deadline capture_deadline rounds : ∀ rings c,
  Exists (λ round, capture_deadline ≤ rd_now round) rounds →
  sampling_loop request deadline capture_deadline rounds rings c ≠ Running.
Proof.
  induction rounds as [|round rounds IH]; intros rings c; [by intros ?%Exists_nil|].
  intros Hr. cbn [sampling_loop].
  destruct (Z.ltb_spec (rd_now round) capture_deadline); cbn; [|done].
  destruct (_ <? _); cbn; [|done]. destruct (deadline <=? rd_check round); [done|].
  destruct (drain _ _ _) as [c1 rings1]. apply IH.
  apply Exists_cons in Hr as [Hr|Hr]; [lia|done].
Qed.
End loop.

Lemma open_all_threads kernel deadline selected : ∀ index skipped samplers samplers' skipped',
  open_all kernel deadline index selected skipped samplers = Ok (samplers', skipped') →
  samplers'.*2 ++ skipped' ≡ₚ samplers.*2 ++ selected ++ skipped.
Proof.
  induction selected as [|tid selected IH]; intros index skipped samplers samplers' skipped';
    cbn [open_all]; [by intros [= <- <-]|].
  destruct (deadline <=? _); [done|]. destruct (pt_open _) as [source|].
  - destruct (_ == _); [|done]. intros ->%IH. solve_Permutation.
  - destruct (pt_sampler _); [done|]. intros ->%IH. rewrite fmap_app. cbn. solve_Permutation.
Qed.
Definition enable_calls (samplers : list ThreadSampler) : list PerfCall :=
  (λ sampler, Enable sampler.1) <$> samplers.
Lemma arm_all_calls kernel samplers : ∀ armed calls,
  arm_all kernel armed samplers = (calls, Ok ()) → calls = enable_calls samplers.
Proof.
  induction samplers as [|[index tid] samplers IH]; intros armed calls; cbn [arm_all];
    [by intros [= <-]|].
  destruct (pt_enable _); [by destruct (_ =? 0)|].
  destruct (arm_all _ _ _) as [calls' r] eqn:E. intros [= <- ->]. cbn. by rewrite (IH _ _ E).
Qed.
(** A failed arming disables what it had enabled. *)
Lemma arm_all_failed kernel samplers : ∀ armed calls e,
  arm_all kernel armed samplers = (calls, Err e) →
  ∃ before failed, calls = enable_calls (before ++ [failed]) ++ disable_calls (armed ++ before)
    ∧ is_Some (pt_enable (pf_thread kernel failed.1)).
Proof.
  induction samplers as [|[index tid] samplers IH]; intros armed calls e; cbn [arm_all]; [done|].
  destruct (pt_enable _) as [source|] eqn:Ee.
  - intros [= <- _]. exists [], (index, tid). cbn. rewrite app_nil_r. by rewrite Ee.
  - destruct (arm_all _ _ _) as [calls' r] eqn:E. intros [= <- ->].
    destruct (IH _ _ _ E) as (before & failed & -> & Hf).
    exists ((index, tid) :: before), failed. split; [|done]. cbn. by rewrite <-app_assoc.
Qed.
Lemma arm_all_no_panic kernel samplers : ∀ armed, (arm_all kernel armed samplers).2 ≠ Panic.
Proof.
  induction samplers as [|[index tid] samplers IH]; intros armed; cbn [arm_all]; [done|].
  destruct (pt_enable _); [by destruct (_ =? 0)|]. specialize (IH (armed ++ [(index, tid)])).
  by destruct (arm_all _ _ _) as [calls r].
Qed.
Lemma enable_in i samplers : Enable i ∈ enable_calls samplers ↔ i ∈ samplers.*1.
Proof. unfold enable_calls. rewrite !list_elem_of_fmap. split; intros (x & Hx & ?); exists x; simplify_eq; done. Qed.
Lemma disable_in i samplers : Disable i ∈ disable_calls samplers ↔ i ∈ samplers.*1.
Proof. unfold disable_calls. rewrite !list_elem_of_fmap. split; intros (x & Hx & ?); exists x; simplify_eq; done. Qed.
Lemma enable_not_disable i samplers : Enable i ∉ disable_calls samplers.
Proof. unfold disable_calls. rewrite list_elem_of_fmap. by intros (x & Hx & _). Qed.

(** A kept stack: some addresses, none zero, no more than asked for. *)
Definition stack_wf (depth : Z) (stack : RawCpuStack) : Prop :=
  rs_addresses stack ≠ [] ∧ 0 ∉ rs_addresses stack ∧ len (rs_addresses stack) ≤ depth.
Lemma stack_of_wf depth r stack : 0 ≤ depth → stack_of depth r = Some stack → stack_wf depth stack.
Proof.
  intros Hdepth. destruct r as [tid []]; unfold stack_of; cbn [fst snd]; try done.
  unfold user_addresses. set (l := filter _ _). destruct (Z.eqb_spec (len (take (Z.to_nat depth) l)) 0);
    cbn; [done|]. intros [= <-]. split_and!; cbn [rs_addresses].
  - by intros Hn; rewrite Hn in *.
  - intros Hin%elem_of_take. destruct Hin as (i & Hi & _). apply list_elem_of_lookup_2 in Hi.
    by apply list_elem_of_filter in Hi as [? _].
  - by apply len_take_le.
Qed.

(** ** The capture *)
Section capture.
Context (kernel : Perf) (request : CpuSamplingRequest).

(** The records the kernel delivers are well-formed. *)
Definition perf_wf : Prop :=
  ∀ tids, Forall record_wf (round_records tids (pf_rounds kernel) ++ arrived tids (pf_last kernel)).
(** The initial capture and rings. *)
Definition initial_capture (samplers : list ThreadSampler) (skipped : list Z) : CpuSampleCapture :=
  BuildCpuSampleCapture [] 0 0 0 0 (len (cq_thread_ids request)) (len samplers) skipped false 0.
Definition initial_rings (samplers : list ThreadSampler) : list (Z * list PerfRecord) :=
  (λ sampler, (sampler.2, [])) <$> samplers.
Lemma initial_progress samplers skipped :
  0 ≤ cq_max_samples request →
  progress request samplers.*2 (initial_capture samplers skipped) [] []
    (initial_rings samplers) (initial_capture samplers skipped).
Proof.
  intros Hm. assert (flat (initial_rings samplers) = []) as Hf.
  { unfold flat, initial_rings. by induction samplers as [|s l IH]. }
  split; [|by apply accounts_nil|done|by rewrite Hf|done].
  unfold initial_rings. by rewrite <-list_fmap_compose.
Qed.

(** What the collector did when it returned a capture. *)
Lemma collect_ok calls capture :
  collect kernel request = (calls, Some (Ok capture)) →
  ∃ deadline capture_deadline samplers skipped c rings c',
    cpu_validate_request request = Ok ()
    ∧ samplers.*2 ++ skipped ≡ₚ cq_thread_ids request
    ∧ calls = enable_calls samplers ++ disable_calls samplers
    ∧ sampling_loop request deadline capture_deadline (pf_rounds kernel)
        (initial_rings samplers) (initial_capture samplers skipped) = Finished c rings
    ∧ c' = (drain request (arrive rings (pf_last kernel)) c).1
    ∧ capture = set_elapsed (pf_finished kernel - pf_capture_started kernel)
                  (set_capacity (cq_max_samples request <=? cc_observed_samples c') c').
Proof.
  unfold collect. destruct (cpu_validate_request request) as [[]|e|]; [|done..].
  destruct (instant_checked_add _ (cq_timeout request)) as [deadline|]; [|done].
  destruct (open_all _ _ _ _ _ _) as [[samplers skipped]|e|] eqn:Hopen; [|done..].
  apply open_all_threads in Hopen. cbn [fmap list_fmap app] in Hopen. rewrite take_drop in Hopen.
  destruct samplers as [|s samplers]; [done|].
  destruct (arm_all _ _ _) as [armed [[]|e|]] eqn:Harm; [|done..].
  apply arm_all_calls in Harm as ->.
  destruct (instant_checked_add _ (cq_duration request)) as [capture_deadline|]; [|done].
  destruct (sampling_loop _ _ _ _ _ _) as [c rings| |] eqn:Hloop;
    [|by destruct (disable_all kernel (s :: samplers))|done].
  destruct (disable_all kernel (s :: samplers)); [|done..].
  destruct (drain _ _ _) as [c' rings'] eqn:Hd. intros [= <- <-].
  exists deadline, capture_deadline, (s :: samplers), skipped, c, rings, c'.
  rewrite Hd. done.
Qed.
(** A CPU capture accounts for its records.  Every thread of the request was attached or
    is listed as skipped; the counters of the attached ones were enabled and, at the end,
    disabled; the samples seen are at most the capacity, which is called reached exactly when
    they are that many; the stacks are those of the samples seen, in order, each with some
    non-zero addresses and no deeper than asked; lost and throttled records add up; and below
    the capacity everything that arrived in the rings was seen. *)
Lemma capture_accounts (calls : list PerfCall) (capture : CpuSampleCapture)
    (Hwf : perf_wf) (Hmax : 0 ≤ cq_max_samples request) (Hdepth : 0 ≤ cq_stack_depth request)
    (Hok : collect kernel request = (calls, Some (Ok capture))) :
  ∃ samplers used rest seen,
    let tids := samplers.*2 in
    let came := round_records tids used ++ arrived tids (pf_last kernel) in
    pf_rounds kernel = used ++ rest
    ∧ calls = enable_calls samplers ++ disable_calls samplers
    ∧ tids ++ cc_skipped_threads capture ≡ₚ cq_thread_ids request
    ∧ cc_threads_observed capture = len (cq_thread_ids request)
    ∧ cc_threads_attached capture = len samplers
    ∧ seen ⊆+ came
    ∧ cc_stacks capture = omap (stack_of (cq_stack_depth request)) seen
    ∧ Forall (stack_wf (cq_stack_depth request)) (cc_stacks capture)
    ∧ cc_observed_samples capture = len (filter (λ r, is_sample r = true) seen)
    ∧ cc_lost_samples capture = Z.min (sum_by lost_of seen) u64_max
    ∧ cc_throttled_records capture = Z.min (sum_by throttles seen) u64_max
    ∧ cc_observed_samples capture ≤ cq_max_samples request
    ∧ (cc_capacity_reached capture = true ↔
       cc_observed_samples capture = cq_max_samples request)
    ∧ (cc_capacity_reached capture = false → seen ≡ₚ came).
Proof.
  destruct (collect_ok _ _ Hok) as (deadline & capture_deadline & samplers & skipped & c & rings &
    c' & Hv & Hthreads & Hcalls & Hloop & Hc' & ->).
  pose proof (Hwf samplers.*2) as [Hr Hl]%Forall_app.
  destruct (loop_progress request _ _ _ _ _ _ _ _ _ _ _ (initial_progress samplers skipped Hmax)
    (Forall_nil_2 _) Hr Hloop) as (used & rest & seen & Hrounds & Hp).
  destruct (drain request (arrive rings (pf_last kernel)) c) as [c1 rings'] eqn:Hd. cbn in Hc'.
  subst c1.
  assert (Forall record_wf ([] ++ round_records samplers.*2 used)) as Hr'.
  { rewrite Hrounds in Hr. unfold round_records in *. rewrite fmap_app, concat_app in Hr.
    by apply Forall_app in Hr as [? _]. }
  destruct (progress_drain request _ _ _ _ _ _ _ _ _ Hp Hr' Hl Hd) as [seen' [_ Ha Hm Hs Hall]].
  destruct Ha as [Hst Hob Hlo Hth (Hto & Hta & Hsk)].
  exists samplers, used, rest, seen'. cbn zeta. cbn [set_elapsed set_capacity cc_stacks
    cc_observed_samples cc_lost_samples cc_throttled_records cc_threads_observed
    cc_threads_attached cc_skipped_threads cc_capacity_reached].
  split_and!; [exact Hrounds|exact Hcalls|by rewrite Hsk|by rewrite Hto|by rewrite Hta| |exact Hst| 
              |exact Hob|exact Hlo|exact Hth|exact Hm| |].
  - etrans; [|exact Hs]. by apply submseteq_inserts_r.
  - rewrite Hst. apply Forall_forall. intros stack (r & _ & Hr1)%list_elem_of_omap.
    by eapply stack_of_wf.
  - rewrite Z.leb_le. lia.
  - rewrite Z.leb_gt. exact Hall.
Qed.

(** A capture returns once the clock passes its end. *)
Lemma collect_returns :
  (∀ capture_deadline,
     instant_checked_add (pf_capture_started kernel) (cq_duration request) = Some capture_deadline →
     Exists (λ round, capture_deadline ≤ rd_now round) (pf_rounds kernel)) →
  ∃ calls r, collect kernel request = (calls, Some r).
Proof.
  intros Hclock. unfold collect. destruct (cpu_validate_request request) as [[]|e|]; eauto.
  destruct (instant_checked_add _ (cq_timeout request)) as [deadline|]; eauto.
  destruct (open_all _ _ _ _ _ _) as [[[|s samplers] skipped]|e|]; eauto.
  destruct (arm_all _ _ _) as [armed [[]|e|]]; eauto.
  destruct (instant_checked_add (pf_capture_started kernel) _) as [capture_deadline|]; eauto.
  pose proof (loop_ends request deadline capture_deadline (pf_rounds kernel)
    ((λ sampler, (sampler.2, [])) <$> s :: samplers)
    (BuildCpuSampleCapture [] 0 0 0 0 (len (cq_thread_ids request)) (len (s :: samplers))
       skipped false 0) (Hclock _ eq_refl)) as Hend.
  destruct (sampling_loop _ _ _ _ _ _) as [c rings| |]; [| |done];
    destruct (disable_all kernel (s :: samplers)); try destruct (drain _ _ _); eauto.
Qed.

End capture.
