(* ===== verification/CpuCommand.v ===== *)
(** * The CPU sampling command

    [run_cpu_sampling_spec] of [xprobe/cli/src/main.rs]: validate, build the request, collect,
    analyze.  A command is a computation that fails with the error it prints or gives the
    result it prints.  What the collector returns for a request is an argument; the theorem
    instantiates it with [CpuCollect.collect]. *)
From S2P Require Import Prelude BTree RustString Text Protocol Selector Os Process Inspect.
From S2P Require Import Measure Doctor Resolve Validate CuptiFilter.
From S2P Require Import CpuAnalysis CpuSampling CpuCollect.
#[local] Open Scope Z_scope.

Section command.
Context `{SerdeJson, Os, ObjectCrate}.

(** [emit_error] with the code, the text and the recoverability of an error. *)
Definition inspect_failure (e : InspectError) : CommandFailure :=
  failure (inspect_error_code e) (inspect_error_display e) (inspect_error_recoverable e).
Definition cpu_sampling_failure (e : CpuSamplingError) : CommandFailure :=
  failure (cpu_sampling_error_code e) (cpu_sampling_error_display e)
    (cpu_sampling_error_recoverable e).
Definition cpu_analysis_failure (e : CpuAnalysisError) : CommandFailure :=
  failure (cpu_error_code e) (cpu_error_display e) (cpu_error_recoverable e).

(** [usize] has 64 bits, so that only the stack depth can be out of range. *)
Definition u16_max : Z := 2 ^ 16 - 1.
Definition cpu_collector_request (spec : CpuSamplingSpec) : io CommandFailure CpuSamplingRequest :=
  if (css_frequency_hz spec =? 0) || (css_duration_ms spec =? 0) || (css_max_samples spec =? 0)
     || (css_max_groups spec =? 0) || (css_stack_depth spec =? 0) || (css_max_threads spec =? 0)
  then
    lift (Err (failure ErrorCode.SessionLimitExceeded
      "CPU sampling frequency, duration, samples, groups, stack depth, and threads must be positive"
      true))
  else if u16_max <? css_stack_depth spec then
    lift (Err (failure ErrorCode.SessionLimitExceeded
      "CPU stack_depth exceeds the perf ABI: out of range integral type conversion attempted"
      true))
  else
    thread_ids ← map_io_err cpu_sampling_failure (target_thread_ids (css_target spec));
    mret (BuildCpuSamplingRequest thread_ids (css_frequency_hz spec)
            (css_duration_ms spec * 1000000) (css_timeout_ms spec * 1000000)
            (css_max_samples spec) (css_max_threads spec) (css_stack_depth spec)).

Definition cpu_collector_failure (error : CpuCollectorError) : CommandFailure :=
  let denied source (code : ErrorCode) :=
    if io_kind source == ErrorKind.PermissionDenied then ErrorCode.PermissionDenied else code in
  let code :=
    match error with
    | CpuCollectorError.InvalidRequest _ | CpuCollectorError.Timeout =>
        ErrorCode.SessionLimitExceeded
    | CpuCollectorError.Open _ source | CpuCollectorError.Arm _ source =>
        denied source ErrorCode.Internal
    | CpuCollectorError.Cleanup _ => ErrorCode.CleanupFailed
    | CpuCollectorError.NoThreadsAttached _ => ErrorCode.TargetExited
    | CpuCollectorError.Ring _ _ => ErrorCode.Internal
    end in
  failure code (cpu_collector_error_display error)
    (negb ((code == ErrorCode.Internal) || (code == ErrorCode.CleanupFailed))).

Definition capture_data (capture : CpuSampleCapture) (status : PythonSymbolizationStatus) :
    CpuCaptureData :=
  BuildCpuCaptureData
    ((λ stack, BuildRawCpuSample (rs_thread_id stack) (rs_addresses stack)) <$> cc_stacks capture)
    (cc_observed_samples capture) (cc_lost_samples capture) (cc_truncated_stacks capture)
    (cc_throttled_records capture) (cc_threads_observed capture) (cc_threads_attached capture)
    (cc_skipped_threads capture) (cc_capacity_reached capture) status.
Definition run_cpu_sampling_spec
    (collector : CpuSamplingRequest → res CpuCollectorError CpuSampleCapture) (own_pid : Z)
    (spec : CpuSamplingSpec) (inspected : option ProcessReport) :
    io CommandFailure CpuSampleInventoryResult :=
  report ← match inspected with
           | Some report => mret report
           | None => map_io_err inspect_failure (inspect_process (target_pid (css_target spec)))
           end;
  _ ← map_io_err inspect_failure (verify_target (css_target spec));
  validation ← map_io_err cpu_sampling_failure (cpu_validate report);
  if negb (cv_valid validation) then
    lift (Err (failure ErrorCode.PermissionDenied
      (default "CPU sampling requirements are not satisfied"%string
         (vi_message <$> head (cv_issues validation))) true))
  else
    request ← cpu_collector_request spec;
    capture ← lift (map_err cpu_collector_failure (collector request));
    if cc_observed_samples capture =? 0 then
      lift (Err (failure ErrorCode.NoMatchedSamples
        "CPU sampling completed without observing an on-CPU sample" true))
    else
      map_io_err cpu_analysis_failure
        (cpu_analyze report spec ("xp_cpu_" +:+ to_decimal own_pid)
           (capture_data capture (cv_python_status validation))).
(** [run_direct_cpu_sampling]; the arguments of the command line are the specification
    without its target. *)
Definition run_direct_cpu_sampling
    (collector : CpuSamplingRequest → res CpuCollectorError CpuSampleCapture) (own_pid pid : Z)
    (name : option string) (frequency_hz duration_ms timeout_ms max_samples max_groups
     stack_depth max_threads : Z) : io CommandFailure CpuSampleInventoryResult :=
  report ← map_io_err inspect_failure (inspect_process pid);
  run_cpu_sampling_spec collector own_pid
    (BuildCpuSamplingSpec name (pr_target report) frequency_hz duration_ms timeout_ms max_samples
       max_groups stack_depth max_threads) (Some report).

(** ** A complete profile *)

(** The samples among some records whose stack is the given one. *)
Definition sampled (depth : Z) (records : list (Z * PerfRecord)) (stack : list Z) : Z :=
  len (filter (λ r, rs_addresses <$> stack_of depth r = Some stack) records).
Lemma sampled_perm depth l k stack : l ≡ₚ k → sampled depth l stack = sampled depth k stack.
Proof. intros Hp. unfold sampled. apply len_perm. by rewrite Hp. Qed.
Lemma occurrences_sampled depth records stack :
  occurrences ((λ stack, BuildRawCpuSample (rs_thread_id stack) (rs_addresses stack))
               <$> omap (stack_of depth) records) stack
  = sampled depth records stack.
Proof.
  unfold occurrences, sampled. induction records as [|r records IH]; [done|].
  rewrite list_omap_cons, filter_cons. destruct (stack_of depth r) as [s|]; cbn [fmap option_fmap option_map].
  - rewrite fmap_cons, filter_cons. cbn [rcs_addresses].
    destruct (decide (rs_addresses s = stack)), (decide (Some (rs_addresses s) = Some stack));
      try congruence; rewrite ?len_cons; by rewrite IH.
  - rewrite decide_False by done. exact IH.
Qed.
Lemma stacks_observed depth records :
  len (omap (stack_of depth) records) ≤ len (filter (λ r, is_sample r = true) records).
Proof.
  induction records as [|r records IH]; [done|]. rewrite list_omap_cons, filter_cons.
  destruct (stack_of depth r) as [s|] eqn:E.
  - rewrite decide_True, !len_cons by (destruct r as [tid []]; done). lia.
  - destruct (decide _); rewrite ?len_cons; lia.
Qed.

(** What a printed profile came from. *)
Lemma run_cpu_sampling_ok collector own_pid spec inspected w w' result :
  run_cpu_sampling_spec collector own_pid spec inspected w = (Ok result, w') →
  ∃ request capture status report symbolizer session_id,
    collector request = Ok capture
    ∧ cq_max_samples request = css_max_samples spec
    ∧ cq_stack_depth request = css_stack_depth spec
    ∧ analyze_capture report spec session_id (capture_data capture status) symbolizer = Ok result.
Proof.
  unfold run_cpu_sampling_spec. intros Hrun. io_steps.
  match type of Hrun with (if ?b then _ else _) _ = _ => destruct b; [done|] end. io_steps.
  match type of Hrun with (if ?b then _ else _) _ = _ => destruct b; [done|] end. io_steps.
  unfold cpu_analyze in Hrun. io_steps.
  match goal with Hr : cpu_collector_request spec _ = (Ok ?r, _), Hc : map_err _ (collector ?r) = Ok ?c |- _ =>
    rename Hr into Hreq; rename Hc into Hcol; exists r, c end.
  do 4 eexists. split; [by destruct (collector _); simplify_eq/=|].
  unfold cpu_collector_request in Hreq.
  destruct (_ || _); [done|]. destruct (_ <? _); [done|]. io_steps.
  split; [reflexivity|]. split; [reflexivity|]. eassumption.
Qed.

End command.
