(* ===== verification/Command.v ===== *)
(** * The commands

    [xprobe/cli/src/main.rs]: what the commands do between the command line and the printed
    result.  A command is a computation that gives the result it prints or fails with the
    error it prints; [exit_status] is the exit code.  What the live collectors return, and the
    JSON of specification files, are arguments; the arguments of a command are those [clap]
    has parsed. *)
From S2P Require Import Prelude BTree RustString Text Protocol Selector Measure Os Process Inspect.
From S2P Require Import CuptiCompat Doctor Discover Resolve Uprobe Usdt Validate Cupti CuptiFilter.
From S2P Require Import Completed Live Session Export Aggregate SyscallAggregate.
From S2P Require Import CuptiClient BpfCollect CpuAnalysis CpuSampling CpuCollect CpuCommand.
#[local] Open Scope Z_scope.

(** ** Errors and exit codes *)
Section failures.
Context `{SerdeJson}.

Definition error_exit (code : ErrorCode) : Z :=
  match code with
  | ErrorCode.TargetNotFound | ErrorCode.TargetExited | ErrorCode.TargetReused => 3
  | ErrorCode.PermissionDenied => 4
  | _ => 1
  end.
(** The exit code of a command: [emit_xprobe_error], or success. *)
Definition exit_status {A} (r : res CommandFailure A) : option Z :=
  match r with
  | Ok _ => Some 0
  | Err error => Some (error_exit (fail_code error))
  | Panic => None
  end.

Definition resolve_failure (e : ResolveError) : CommandFailure :=
  failure (resolve_error_code e) (resolve_error_display e) (resolve_error_recoverable e).
Definition validate_failure (e : ValidateError) : CommandFailure :=
  failure (validate_error_code e) (validate_error_display e) (validate_error_recoverable e).
Definition discover_failure (e : DiscoverError) : CommandFailure :=
  failure (discover_error_code e) (discover_error_display e) (discover_error_recoverable e).
Definition uprobe_failure (e : UprobeError) : CommandFailure :=
  failure (uprobe_error_code e) (uprobe_error_display e) (uprobe_error_recoverable e).
Definition syscall_failure (e : SyscallAggregateError) : CommandFailure :=
  failure (syscall_aggregate_error_code e) (syscall_aggregate_error_display e)
    (syscall_aggregate_error_recoverable e).
Definition aggregate_failure (e : AggregateError) : CommandFailure :=
  failure (aggregate_error_code e) (aggregate_error_display e) (aggregate_error_recoverable e).

(** ** The arguments of [measure] *)
Definition from_millis (milliseconds : Z) : Z := milliseconds * 1000000.

Definition validate_measure_source (pid : option Z) (input : list string) :
    res CommandFailure unit :=
  if bool_decide (is_Some pid) && negb (len input =? 0) then
    Err (failure ErrorCode.InvalidEventSelector
           "--pid and --input select different collection modes" true)
  else Ok ().
Definition parse_measure_selection (from to policy : option string) :
    res CommandFailure (string * string * MatchPolicy) :=
  from ← ok_or from (failure ErrorCode.InvalidEventSelector
                       "measure requires --from unless --spec is used" true);
  to ← ok_or to (failure ErrorCode.InvalidEventSelector
                   "measure requires --to unless --spec is used" true);
  policy ← ok_or policy (failure ErrorCode.InvalidCorrelationPolicy
                           "measure requires --match unless --spec is used" true);
  policy ←
    (if policy == "exact" then Ok MatchPolicy.Exact
     else if (policy == "first-after") || (policy == "first_after") then Ok MatchPolicy.FirstAfter
     else if policy == "nearest" then Ok MatchPolicy.Nearest
     else if (policy == "stack-nested") || (policy == "stack_nested") then
       Ok MatchPolicy.StackNested
     else if (policy == "stream-order") || (policy == "stream_order") then
       Ok MatchPolicy.StreamOrder
     else Err (failure ErrorCode.InvalidCorrelationPolicy
                 "unsupported measurement correlation policy" true));
  Ok (from, to, policy).
(** The path of the agent is passed on next to the request. *)
Definition direct_aggregate_request (pid : option Z) (cupti_socket : option string)
    (timeout_ms : Z) (duration_ms max_groups : option Z) (options : MeasureOptions) :
    res CommandFailure LiveMeasureRequest :=
  pid ← ok_or pid (failure ErrorCode.InvalidEventSelector "--aggregate requires --pid" true);
  duration_ms ← ok_or duration_ms
    (failure ErrorCode.SessionLimitExceeded "--aggregate requires --duration-ms" true);
  max_groups ← or_panic max_groups;
  Ok (BuildLiveMeasureRequest pid
        (BuildMeasureOptions (opt_session_id options) (opt_name options)
           (opt_start_selector options) (opt_end_selector options) (opt_match_policy options)
           (opt_samples options) (Some (from_millis duration_ms)) max_groups
           (opt_dropped_events options))
        (match_policy_name (opt_match_policy options)) (from_millis timeout_ms)
        MeasurementMode.Aggregate cupti_socket None).

(** ** Specification files *)
Record MeasurementSpec := BuildMeasurementSpec {
  ms_name : option string;
  ms_target : TargetIdentity;
  ms_start_selector : string;
  ms_end_selector : string;
  ms_match_policy : MatchPolicy;
  ms_samples : option Z;
  ms_duration_ms : option Z;
  ms_timeout_ms : Z;
  ms_max_events : option Z;
  ms_measurement_mode : MeasurementMode;
  ms_max_groups : option Z }.
(** [usize] has 64 bits. *)
Definition measurement_spec_capacity (spec : MeasurementSpec) : res CommandFailure Z :=
  match ms_measurement_mode spec with
  | MeasurementMode.Exact =>
      if bool_decide (is_Some (ms_max_groups spec)) then
        Err (failure ErrorCode.SessionLimitExceeded
               "MeasurementSpec max_groups is only valid in aggregate mode" true)
      else ok_or (ms_max_events spec)
             (failure ErrorCode.SessionLimitExceeded "exact MeasurementSpec requires max_events" true)
  | MeasurementMode.Aggregate =>
      ok_or (ms_max_groups spec)
        (failure ErrorCode.SessionLimitExceeded "aggregate MeasurementSpec requires max_groups" true)
  end.
Definition spec_request (session_id : string) (spec : MeasurementSpec)
    (cupti_socket : option string) (mode : MeasurementMode) (max_events : Z) :
    LiveMeasureRequest :=
  BuildLiveMeasureRequest (target_pid (ms_target spec))
    (BuildMeasureOptions session_id (ms_name spec) (ms_start_selector spec) (ms_end_selector spec)
       (ms_match_policy spec) (ms_samples spec) (from_millis <$> ms_duration_ms spec) max_events 0)
    (match_policy_name (ms_match_policy spec)) (from_millis (ms_timeout_ms spec)) mode cupti_socket
    (Some (ms_target spec)).

Definition syscall_collector_request (spec : SyscallAggregateSpec) :
    res CommandFailure SyscallAggregateRequest :=
  let too_large (message : string) (value : Z) :=
    if u32_max <? value then
      Err (failure ErrorCode.SessionLimitExceeded
             (message +:+ ": out of range integral type conversion attempted") true)
    else Ok value in
  if (spec_duration_ms spec =? 0) || (spec_max_groups spec =? 0) || (spec_max_inflight spec =? 0)
  then
    Err (failure ErrorCode.SessionLimitExceeded
           "syscall aggregate duration, groups, and inflight capacity must be positive" true)
  else
    max_groups ← too_large "syscall max_groups exceed the BPF map ABI"%string (spec_max_groups spec);
    max_inflight ← too_large "syscall max_inflight exceeds the BPF map ABI"%string
      (spec_max_inflight spec);
    Ok (BuildSyscallAggregateRequest (spec_target spec) (from_millis (spec_duration_ms spec))
          (from_millis (spec_timeout_ms spec)) max_groups max_inflight).
End failures.

(** [serde_json] on specification files. *)
Class SpecReader `{SerdeJson} := {
  json_value : list Z → res string Value;
  measurement_spec_of : list Z → res string MeasurementSpec;
  cpu_spec_of : Value → res string CpuSamplingSpec;
  syscall_spec_of : Value → res string SyscallAggregateSpec }.

(** What [measure] prints. *)
Inductive MeasureOutput `{SerdeJson} : Type :=
| PrintMeasurement (result : MeasurementResult)
| PrintInventory (result : AggregateInventoryResult)
| PrintCpuInventory (result : CpuSampleInventoryResult)
| PrintSyscallInventory (result : SyscallAggregateResult).

Record MeasureArgs := BuildMeasureArgs {
  ma_spec : option string;
  ma_input : list string;
  ma_pid : option Z;
  ma_cupti_socket : option string;
  ma_agent : option string;
  ma_events_out : option string;
  ma_format : option ExportFormat;
  ma_timeout_ms : Z;
  ma_from : option string;
  ma_to : option string;
  ma_match_policy : option string;
  ma_cpu_sample : bool;
  ma_frequency_hz : option Z;
  ma_max_samples : option Z;
  ma_stack_depth : option Z;
  ma_max_threads : option Z;
  ma_syscall_aggregate : bool;
  ma_max_inflight : option Z;
  ma_samples : option Z;
  ma_duration_ms : option Z;
  ma_max_events : Z;
  ma_aggregate : bool;
  ma_max_groups : option Z;
  ma_name : option string }.

Section commands.
Context `{SerdeJson} `{!RegexEngine} `{Files} `{ObjectCrate} `{!NoteParser}.
Context `{!JsonReader} `{!JsonWriter} `{!SpecReader}.
(** The process id of the command and what its other collectors return. *)
Context (own_pid : Z).
Context (live_measurement :
  LiveMeasureRequest → option string → io CommandFailure MeasurementExecution).
Context (live_aggregate :
  LiveMeasureRequest → option string → io CommandFailure AggregateInventoryResult).
Context (cpu_collector : CpuSamplingRequest → res CpuCollectorError CpuSampleCapture).
Context `{!Libbpf} `{!UnixSocket}.

Definition session (prefix : string) : string := prefix +:+ to_decimal own_pid.
Definition read_file (path : string) : io CommandFailure (list Z) :=
  call (fs_read path) (λ error, failure ErrorCode.TraceExportFailed
    ("failed to read " +:+ path +:+ ": " +:+ io_message error) false).

(** ** Artifacts; a command writes at most one *)
Definition finish_measurement (execution : MeasurementExecution) (events_out : option string)
    (format : option ExportFormat) : io CommandFailure MeasurementResult :=
  match format, events_out with
  | Some _, None =>
      lift (Err (failure ErrorCode.TraceExportFailed "--format requires --events-out" true))
  | _, Some path =>
      _ ← export_measurement_capture own_pid 0 (ex_events execution) path
            (default ExportFormat.Jsonl format);
      mret (ex_result execution)
  | _, None => mret (ex_result execution)
  end.
(** The error a failed measurement ends with: [take] removes the events from it. *)
Definition without_events (error : CommandFailure) : CommandFailure :=
  BuildCommandFailure (fail_code error) (fail_message error) (fail_recoverable error)
    (fail_details error) (fail_hints error) None.
Definition finish_measurement_failure (error : CommandFailure) (events_out : option string)
    (format : option ExportFormat) : io CommandFailure MeasurementResult :=
  match format, events_out, fail_artifact_events error with
  | Some _, None, _ =>
      lift (Err (failure ErrorCode.TraceExportFailed "--format requires --events-out" true))
  | _, Some path, Some events =>
      let format := default ExportFormat.Jsonl format in
      _ ← map_io_err (λ export,
            with_hint "the measurement also failed; rerun after fixing artifact output"
              (with_detail "original_error_code" (value_string (as_code_str (fail_code error)))
                 export))
            (export_measurement_capture own_pid 0 events path format);
      lift (Err
        (with_detail "artifact_event_count" (value_number (len events))
           (with_detail "artifact_format" (value_string (export_format_name format))
              (with_detail "artifact_path" (value_string path) (without_events error)))))
  | _, _, _ => lift (Err error)
  end.
(** A measurement and how it is finished. *)
Definition finish (measurement : io CommandFailure MeasurementExecution)
    (events_out : option string) (format : option ExportFormat) :
    io CommandFailure MeasurementResult := λ w,
  match measurement w with
  | (Ok execution, w) => finish_measurement execution events_out format w
  | (Err error, w) => finish_measurement_failure error events_out format w
  | (Panic, w) => (Panic, w)
  end.

(** ** Completed inputs *)
Definition measure_completed_inputs (input : list string) (options : MeasureOptions) :
    io CommandFailure MeasurementExecution :=
  captures ← read_inputs input (opt_session_id options);
  capture ← lift (merge_captures captures (opt_session_id options));
  lift (measure_capture capture options false true).
Definition run_completed_measurement (input : list string) (options : MeasureOptions)
    (has_cupti_socket has_agent : bool) (events_out : option string)
    (format : option ExportFormat) : io CommandFailure MeasurementResult :=
  if len input =? 0 then
    lift (Err (failure ErrorCode.TraceExportFailed "measure requires --input or --pid" true))
  else if has_cupti_socket then
    lift (Err (failure ErrorCode.InvalidEventSelector "--cupti-socket requires --pid" true))
  else if has_agent then
    lift (Err (failure ErrorCode.InvalidEventSelector "--agent requires --pid" true))
  else finish (measure_completed_inputs input options) events_out format.

(** ** System call aggregation *)
Definition run_syscall_aggregate_spec (spec : SyscallAggregateSpec)
    (inspected : option ProcessReport) : io CommandFailure SyscallAggregateResult :=
  report ← match inspected with
           | Some report => mret report
           | None => map_io_err inspect_failure (inspect_process (target_pid (spec_target spec)))
           end;
  _ ← map_io_err inspect_failure (verify_target (spec_target spec));
  validation ← map_io_err syscall_failure (syscall_validate report);
  if negb (sv_valid validation) then
    lift (Err (failure ErrorCode.PermissionDenied
      (default "syscall aggregate requirements are not satisfied"%string
         (vi_message <$> head (sv_issues validation))) true))
  else
    request ← lift (syscall_collector_request spec);
    capture ← map_io_err aggregate_failure (syscall_collect request);
    map_io_err syscall_failure
      (syscall_analyze report spec (session "xp_syscalls_") capture).
Definition run_direct_syscall_aggregate (pid : Z) (name : option string)
    (duration_ms timeout_ms max_groups max_inflight : Z) :
    io CommandFailure SyscallAggregateResult :=
  report ← map_io_err inspect_failure (inspect_process pid);
  run_syscall_aggregate_spec
    (BuildSyscallAggregateSpec name (pr_target report) duration_ms timeout_ms max_groups
       max_inflight) (Some report).

(** ** Specification files *)
Definition run_cpu_sampling_file_spec (value : Value) (path : string)
    (has_device_options has_artifact_options : bool) :
    io CommandFailure CpuSampleInventoryResult :=
  if has_device_options || has_artifact_options then
    lift (Err (failure ErrorCode.InvalidEventSelector
                 "CpuSamplingSpec does not accept CUPTI or event artifact options" true))
  else
    spec ← lift (map_err (λ error, failure ErrorCode.InvalidEventSelector
      ("invalid CpuSamplingSpec " +:+ path +:+ ": " +:+ error) true) (cpu_spec_of value));
    run_cpu_sampling_spec cpu_collector own_pid spec None.
Definition run_syscall_aggregate_file_spec (value : Value) (path : string)
    (has_device_options has_artifact_options : bool) :
    io CommandFailure SyscallAggregateResult :=
  if has_device_options || has_artifact_options then
    lift (Err (failure ErrorCode.InvalidEventSelector
                 "SyscallAggregateSpec does not accept CUPTI or event artifact options" true))
  else
    spec ← lift (map_err (λ error, failure ErrorCode.InvalidEventSelector
      ("invalid SyscallAggregateSpec " +:+ path +:+ ": " +:+ error) true) (syscall_spec_of value));
    run_syscall_aggregate_spec spec None.
Definition run_measure_spec (path : string) (cupti_socket agent_path events_out : option string)
    (format : option ExportFormat) : io CommandFailure MeasureOutput :=
  let given {A} (o : option A) := bool_decide (is_Some o) in
  bytes ← read_file path;
  value ← lift (map_err (λ error, failure ErrorCode.InvalidEventSelector
    ("invalid measurement spec " +:+ path +:+ ": " +:+ error) true) (json_value bytes));
  if given (json_get value "sample_event") then
    result ← run_cpu_sampling_file_spec value path (given cupti_socket || given agent_path)
               (given events_out || given format);
    mret (PrintCpuInventory result)
  else if given (json_get value "max_inflight") then
    result ← run_syscall_aggregate_file_spec value path (given cupti_socket || given agent_path)
               (given events_out || given format);
    mret (PrintSyscallInventory result)
  else
    spec ← lift (map_err (λ error, failure ErrorCode.InvalidEventSelector
      ("invalid MeasurementSpec " +:+ path +:+ ": " +:+ error) true) (measurement_spec_of bytes));
    max_events ← lift (measurement_spec_capacity spec);
    let mode := ms_measurement_mode spec in
    let request := spec_request (session "xp_measure_") spec cupti_socket mode max_events in
    match mode with
    | MeasurementMode.Exact =>
        result ← finish (live_measurement request agent_path) events_out format;
        mret (PrintMeasurement result)
    | MeasurementMode.Aggregate =>
        if given events_out || given format then
          lift (Err (failure ErrorCode.TraceExportFailed
                       "aggregate measurement does not produce event evidence artifacts" true))
        else
          result ← live_aggregate request agent_path;
          mret (PrintInventory result)
    end.
Definition run_trace (path : string) (cupti_socket : option string) :
    io CommandFailure MeasurementResult :=
  bytes ← read_file path;
  spec ← lift (map_err (λ error, failure ErrorCode.InvalidEventSelector
    ("invalid MeasurementSpec " +:+ path +:+ ": " +:+ error) true) (measurement_spec_of bytes));
  if negb (ms_measurement_mode spec == MeasurementMode.Exact)
     || bool_decide (is_Some (ms_max_groups spec)) then
    lift (Err (failure ErrorCode.InvalidEventSelector
                 "legacy trace accepts only exact MeasurementSpec requests" true))
  else
    max_events ← lift (ok_or (ms_max_events spec)
      (failure ErrorCode.SessionLimitExceeded "exact MeasurementSpec requires max_events" true));
    execution ← live_measurement
      (spec_request (session "xp_trace_") spec cupti_socket MeasurementMode.Exact max_events) None;
    mret (ex_result execution).

(** ** [measure] *)
Definition run_measure (args : MeasureArgs) : io CommandFailure MeasureOutput :=
  match ma_spec args with
  | Some spec =>
      run_measure_spec spec (ma_cupti_socket args) (ma_agent args) (ma_events_out args)
        (ma_format args)
  | None =>
  if ma_cpu_sample args then
    pid ← lift (ok_or (ma_pid args)
      (failure ErrorCode.InvalidEventSelector "--cpu-sample requires --pid" true));
    duration_ms ← lift (ok_or (ma_duration_ms args)
      (failure ErrorCode.SessionLimitExceeded "--cpu-sample requires --duration-ms" true));
    frequency_hz ← lift (or_panic (ma_frequency_hz args));
    max_samples ← lift (or_panic (ma_max_samples args));
    max_groups ← lift (or_panic (ma_max_groups args));
    stack_depth ← lift (or_panic (ma_stack_depth args));
    max_threads ← lift (or_panic (ma_max_threads args));
    result ← run_direct_cpu_sampling cpu_collector own_pid pid (ma_name args) frequency_hz
               duration_ms (ma_timeout_ms args) max_samples max_groups stack_depth max_threads;
    mret (PrintCpuInventory result)
  else if ma_syscall_aggregate args then
    pid ← lift (ok_or (ma_pid args)
      (failure ErrorCode.InvalidEventSelector "--syscall-aggregate requires --pid" true));
    duration_ms ← lift (ok_or (ma_duration_ms args)
      (failure ErrorCode.SessionLimitExceeded "--syscall-aggregate requires --duration-ms" true));
    max_groups ← lift (or_panic (ma_max_groups args));
    max_inflight ← lift (or_panic (ma_max_inflight args));
    result ← run_direct_syscall_aggregate pid (ma_name args) duration_ms (ma_timeout_ms args)
               max_groups max_inflight;
    mret (PrintSyscallInventory result)
  else if bool_decide (is_Some (ma_max_groups args)) && negb (ma_aggregate args) then
    lift (Err (failure ErrorCode.InvalidEventSelector
      "--max-groups requires --aggregate, --cpu-sample, or --syscall-aggregate" true))
  else
    '(from, to, match_policy) ← lift (parse_measure_selection (ma_from args) (ma_to args)
                                        (ma_match_policy args));
    let options := BuildMeasureOptions (session "xp_measure_") (ma_name args) from to match_policy
      (ma_samples args) (from_millis <$> ma_duration_ms args) (ma_max_events args) 0 in
    _ ← lift (validate_measure_source (ma_pid args) (ma_input args));
    if ma_aggregate args then
      request ← lift (direct_aggregate_request (ma_pid args) (ma_cupti_socket args)
                        (ma_timeout_ms args) (ma_duration_ms args) (ma_max_groups args) options);
      result ← live_aggregate request (ma_agent args);
      mret (PrintInventory result)
    else
      match ma_pid args with
      | Some pid =>
          let request := BuildLiveMeasureRequest pid options (match_policy_name match_policy)
            (from_millis (ma_timeout_ms args)) MeasurementMode.Exact (ma_cupti_socket args) None in
          result ← finish (live_measurement request (ma_agent args)) (ma_events_out args)
                     (ma_format args);
          mret (PrintMeasurement result)
      | None =>
          result ← run_completed_measurement (ma_input args) options
                     (bool_decide (is_Some (ma_cupti_socket args)))
                     (bool_decide (is_Some (ma_agent args))) (ma_events_out args) (ma_format args);
          mret (PrintMeasurement result)
      end
  end.

(** ** The other commands *)
Definition run_doctor : io CommandFailure CapabilityReport :=
  map_io_err (λ error, failure ErrorCode.Internal (doctor_error_display error) false) doctor_run.
Definition run_inspect (pid : Z) : io CommandFailure ProcessReport :=
  map_io_err inspect_failure (inspect_process pid).
Definition run_discover (pid limit : Z) : io CommandFailure DiscoveryResult :=
  report ← map_io_err inspect_failure (inspect_process pid);
  map_io_err discover_failure (discover_run report limit).
Definition run_resolve (pid : Z) (selector : string) : io CommandFailure ResolvedProbe :=
  report ← map_io_err inspect_failure (inspect_process pid);
  map_io_err resolve_failure (resolve_run report selector).

(** What [validate] prints. *)
Inductive ValidateOutput : Type :=
| PrintValidation (result : ValidationResult)
| PrintCpuValidation (result : CpuSamplingValidationResult)
| PrintSyscallValidation (result : SyscallAggregateValidationResult).
Definition run_validate (pid : Z) (from to match_policy : option string)
    (cpu_sample syscall_aggregate : bool) : io CommandFailure ValidateOutput :=
  report ← map_io_err inspect_failure (inspect_process pid);
  if cpu_sample then
    result ← map_io_err cpu_sampling_failure (cpu_validate report);
    mret (PrintCpuValidation result)
  else if syscall_aggregate then
    result ← map_io_err syscall_failure (syscall_validate report);
    mret (PrintSyscallValidation result)
  else
    match from, to, match_policy with
    | Some from, Some to, Some match_policy =>
        result ← map_io_err validate_failure (validate_run report from to match_policy);
        mret (PrintValidation result)
    | _, _, _ =>
        lift (Err (failure ErrorCode.InvalidEventSelector
          "validate requires an event pair, --cpu-sample, or --syscall-aggregate" true))
    end.

Definition mapped_binary (report : ProcessReport) (binary : string) : io string string :=
  canonical ← call (fs_canonicalize binary) (λ error,
    "failed to resolve " +:+ binary +:+ ": " +:+ io_message error);
  let is_executable := path_eq (pr_executable report) canonical in
  let is_library := existsb (λ mapped, path_eq mapped canonical) (pr_loaded_libraries report) in
  lift (if negb is_executable && negb is_library then
          Err (canonical +:+ " is not mapped by target PID "
                 +:+ to_decimal (target_pid (pr_target report)))
        else Ok canonical).
Definition run_uprobe (pid : Z) (binary symbol : string) (return_probe : bool)
    (probe_id samples timeout_ms : Z) : io CommandFailure HostCaptureResult :=
  report ← map_io_err inspect_failure (inspect_process pid);
  binary ← map_io_err (λ message, failure ErrorCode.BinaryNotMapped message true)
             (mapped_binary report binary);
  result ← map_io_err uprobe_failure
    (uprobe_capture (BuildUprobeRequest (pr_target report) binary (Some symbol) None 0
       (if return_probe then HostProbeKind.Uretprobe else HostProbeKind.Uprobe) probe_id samples
       (from_millis timeout_ms)) false);
  _ ← map_io_err inspect_failure (verify_target (pr_target report));
  mret result.
(** [run_cupti]: the capture, and its events as they are printed, one per line. *)
Definition run_cupti (input socket : option string) (timeout_ms : Z) (session_id : string) :
    io CommandFailure (CuptiCapture * string) :=
  capture ← match input with
            | Some input =>
                bytes ← read_file input;
                lift (map_err (λ error, failure ErrorCode.TraceExportFailed
                  (cupti_decode_error_display error) false) (decode_capture bytes session_id))
            | None =>
                socket ← lift (or_panic socket);
                map_io_err (λ error, failure ErrorCode.TraceExportFailed
                  (snapshot_error_display error) true)
                  (cupti_snapshot socket (from_millis timeout_ms) session_id 0)
            end;
  output ← lift (map_err (λ error, failure ErrorCode.TraceExportFailed
    ("failed to serialize CUPTI events: " +:+ error) false) (events_to_jsonl (cc_events capture)));
  mret (capture, output).

(** ** The agent's library *)
Record AgentSelection := BuildAgentSelection {
  as_path : string;
  as_major : option Z;
  as_cupti_path : option string }.
Fixpoint find_file (paths : list string) : io CommandFailure (option string) :=
  match paths with
  | [] => mret None
  | path :: paths =>
      file ← is_file path;
      if file : bool then mret (Some path) else find_file paths
  end.
(** [agent_variable] is the value of the environment variable, [executable] what the system
    says is running. *)
Definition resolve_agent_path (report : ProcessReport) (configured agent_variable : option string)
    (executable : syscall_result string) : io CommandFailure AgentSelection :=
  let cupti_failure e := failure (cupti_error_code e) (cupti_error_display e) true in
  match configured, agent_variable with
  | Some path, _ | None, Some path =>
      major ← lift (map_err cupti_failure (target_major report));
      mret (BuildAgentSelection path major None)
  | None, None =>
      cupti ← map_io_err cupti_failure (resolve_library report);
      executable ← lift match executable with
        | inl error =>
            Err (failure ErrorCode.CuptiNotAvailable
                   ("failed to locate xprobe executable: " +:+ io_message error) true)
        | inr executable => Ok executable
        end;
      parent ← lift (or_panic (parent executable));
      let cuda := "cuda" +:+ to_decimal (cl_major cupti) +:+ "/libxprobe-cupti.so" in
      path ← find_file [path_join parent ("../lib/xprobe/" +:+ cuda); path_join parent cuda;
                        "build/cupti/" +:+ cuda];
      path ← lift (ok_or path (failure ErrorCode.CuptiNotAvailable
        ("CUDA " +:+ to_decimal (cl_major cupti)
           +:+ " CUPTI agent was not found; pass --agent or set XPROBE_CUPTI_AGENT_PATH") true));
      mret (BuildAgentSelection path (Some (cl_major cupti)) (Some (cl_path cupti)))
  end.
End commands.

(** ** Evidence is kept *)
Section evidence.
Context `{SerdeJson} `{!RegexEngine} `{FilesLaws} `{!JsonReader} `{!JsonWriter}.

Lemma reject_incomplete_events capture live require_complete e :
  map_err (with_artifact_events (cap_events capture))
    (reject_incomplete_capture capture live require_complete) = Err e →
  fail_artifact_events e = Some (cap_events capture).
Proof. destruct (reject_incomplete_capture _ _ _); simpl; by intros [= <-]. Qed.
(** Every outcome of a measurement carries the events that were measured. *)
Lemma measure_capture_events capture options live :
  match measure_capture capture options live true with
  | Ok execution => ex_events execution = cap_events capture
  | Err e => fail_artifact_events e = Some (cap_events capture)
  | Panic => True
  end.
Proof.
  unfold measure_capture.
  destruct (map_err _ (reject_incomplete_capture capture live true)) as [[]|e|] eqn:E; [| |done].
  2: { by eapply reject_incomplete_events. }
  cbn [mbind res_bind]. destruct (negb (cap_unknown_records capture =? 0)); [done|].
  destruct (measure _ _) as [result|e|]; [done| |done]. simpl. by destruct e.
Qed.

#[local] Ltac details :=
  cbn [with_detail with_hint fail_details];
  repeat (rewrite bt_get_insert_ne by discriminate); apply bt_get_insert_eq.

(** The artifact of events, where it was written. *)
Definition artifact_at (w : World) (path : string) (format : ExportFormat) (events : list Event) :
    Prop :=
  ∃ text, artifact_text format events = Ok text
    ∧ contents w path = Some (bytes_of_string text).
Lemma export_code own_pid events path format w :
  match export_measurement_capture own_pid 0 events path format w with
  | (Ok _, w') => artifact_at w' path format events
  | (Err e, _) => fail_code e = ErrorCode.TraceExportFailed
  | (Panic, _) => artifact_text format events = Panic
  end.
Proof.
  destruct (export_measurement_capture own_pid 0 events path format w) as [[[]|e|] w'] eqn:Hrun.
  - by apply export_written in Hrun.
  - unfold export_measurement_capture, mbind, io_bind, lift, map_io_err in Hrun.
    destruct (artifact_text format events); simplify_eq/=; [|done].
    destruct (untraced _ _) as [[]]; by simplify_eq/=.
  - unfold export_measurement_capture, mbind, io_bind, lift, map_io_err, untraced in Hrun.
    destruct (artifact_text format events) as [text| |]; simplify_eq/=; [|done].
    destruct (write_export_file own_pid 0 path (bytes_of_string text) w) as [[r w1] passed] eqn:Hw.
    apply write_export_no_panic in Hw. destruct r; by simplify_eq/=.
Qed.

(** C37: evidence is kept.  Once the inputs of a measurement with an artifact path have been
    read and merged, the artifact is written with all the events of the merged capture
    whether the measurement succeeds or fails; a success prints the measurement, a failure
    keeps its error code and names the path, the format and the number of events; the only
    other outcome is the failure to write it, which is reported as such and, after a failed
    measurement, carries the code of that failure. *)
Theorem evidence_kept (own_pid : Z) (input : list string) (options : MeasureOptions)
    (path : string) (format : option ExportFormat) (captures : list CompletedCapture)
    (capture : CompletedCapture) (w w1 w' : World) (r : res CommandFailure MeasurementResult)
    (Hserde : artifact_text (default ExportFormat.Jsonl format) (cap_events capture) ≠ Panic)
    (Hinput : input ≠ [])
    (Hread : read_inputs input (opt_session_id options) w = (Ok captures, w1))
    (Hmerge : merge captures (opt_session_id options) = Ok capture)
    (Hrun : run_completed_measurement own_pid input options false false (Some path) format w
            = (r, w')) :
  let format := default ExportFormat.Jsonl format in
  let written := artifact_at w' path format (cap_events capture) in
  match measure_capture capture options false true with
  | Ok execution =>
      (r = Ok (ex_result execution) ∧ written)
      ∨ ∃ e, r = Err e ∧ fail_code e = ErrorCode.TraceExportFailed
  | Err error =>
      ∃ e, r = Err e
        ∧ let detail key := bt_get key (fail_details e) in
          (written ∧ fail_code e = fail_code error ∧ fail_message e = fail_message error
           ∧ detail "artifact_path"%string = Some (value_string path)
           ∧ detail "artifact_format"%string = Some (value_string (export_format_name format))
           ∧ detail "artifact_event_count"%string = Some (value_number (len (cap_events capture))))
          ∨ (fail_code e = ErrorCode.TraceExportFailed
             ∧ detail "original_error_code"%string
               = Some (value_string (as_code_str (fail_code error))))
  | Panic => r = Panic
  end.
Proof.
  unfold run_completed_measurement in Hrun. cbn zeta.
  destruct (Z.eqb_spec (len input) 0) as [Hz|_]; [by destruct input|].
  unfold finish, measure_completed_inputs, mbind, io_bind in Hrun. rewrite Hread in Hrun.
  unfold lift, merge_captures in Hrun. rewrite Hmerge in Hrun. cbn [map_err] in Hrun.
  pose proof (measure_capture_events capture options false) as Hevents.
  set (chosen := default ExportFormat.Jsonl format) in *.
  pose proof (export_code own_pid (cap_events capture) path chosen w1) as Hexport.
  destruct (measure_capture capture options false true) as [execution|error|]; [| |by injection Hrun].
  - unfold finish_measurement in Hrun. rewrite Hevents in Hrun. fold chosen in Hrun.
    assert ((_ ← export_measurement_capture own_pid 0 (cap_events capture) path chosen;
             mret (ex_result execution)) w1 = (r, w')) as Hrun' by (by destruct format).
    unfold mbind, io_bind in Hrun'.
    destruct (export_measurement_capture _ _ _ _ _ _) as [[[]|e|] w2]; [| |done];
      injection Hrun' as <- <-; [by left|right; eauto].
  - unfold finish_measurement_failure in Hrun. rewrite Hevents in Hrun. fold chosen in Hrun.
    set (kept := with_detail "artifact_event_count" _ _) in Hrun.
    assert ((_ ← map_io_err (λ export, with_hint _ (with_detail "original_error_code"
               (value_string (as_code_str (fail_code error))) export))
               (export_measurement_capture own_pid 0 (cap_events capture) path chosen);
             lift (Err kept)) w1 = (r, w')) as Hrun' by (destruct format; exact Hrun).
    unfold mbind, io_bind, map_io_err, lift in Hrun'.
    destruct (export_measurement_capture _ _ _ _ _ _) as [[[]|e|] w2]; [| |done];
      injection Hrun' as <- <-; eexists; (split; [reflexivity|]); [left|right].
    + subst kept. split_and!; [done|done|done|details..].
    + split; [exact Hexport|details].
Qed.
End evidence.
