(* ===== verification/Print.v ===== *)
(** * What the commands print

    [xprobe/cli/src/main.rs]: with [--json] a command writes one JSON document, otherwise text
    for people; a failure is a document too, or one line on the error stream.  A command gives
    what it writes to the two streams and its exit code.  [serde_json] is a parameter: it makes
    the text of a document or fails, and a failure is the panic of [expect]. *)
From S2P Require Import Prelude BTree RustString Text Protocol Selector Measure Os Process Inspect.
From S2P Require Import CuptiCompat Doctor Discover Resolve Uprobe Usdt Validate Cupti CuptiFilter.
From S2P Require Import Completed Live Session Export Aggregate SyscallAggregate.
From S2P Require Import CuptiClient BpfCollect CpuAnalysis CpuSampling CpuCollect CpuCommand Command.
From Stdlib Require Import SpecFloat.
#[local] Open Scope Z_scope.

(** ** Formatting *)

(** [{:#x}]. *)
Definition alternate_hex (z : Z) : string := "0x" +:+ to_hex z.
(** [{s:<n}] of ASCII text. *)
Fixpoint spaces (n : nat) : string :=
  match n with O => EmptyString | S n => String " " (spaces n) end.
Definition pad_right (n : nat) (s : string) : string := s +:+ spaces (n - String.length s).
(** A number with leading zeros. *)
Fixpoint zeros (n : nat) : string :=
  match n with O => EmptyString | S n => String "0" (zeros n) end.
Definition padded_decimal (n : nat) (z : Z) : string :=
  let text := to_decimal z in zeros (n - String.length text) +:+ text.
(** [numerator / denominator] rounded to nearest, ties to even. *)
Definition round_half_even (numerator denominator : Z) : Z :=
  let quotient := numerator / denominator in
  let twice := 2 * (numerator mod denominator) in
  if (denominator <? twice) || ((denominator =? twice) && Z.odd quotient) then quotient + 1
  else quotient.
(** [{:.n}] of a floating point number: its exact value, rounded. *)
Definition format_fixed (digits : nat) (x : f64) : string :=
  let scale := 10 ^ Z.of_nat digits in
  let text (value : Z) :=
    to_decimal (value / scale)
    +:+ match digits with
        | O => EmptyString
        | S _ => "." +:+ padded_decimal digits (value mod scale)
        end in
  let signed (negative : bool) (s : string) := if negative then "-" +:+ s else s in
  match x with
  | S754_zero s => signed s (text 0)
  | S754_infinity s => signed s "inf"
  | S754_nan => "NaN"
  | S754_finite s m e =>
      signed s (text (if 0 <=? e then Z.pos m * scale * 2 ^ e
                      else round_half_even (Z.pos m * scale) (2 ^ (- e))))
  end.

(** Hundred times a proportion, as [proportion * 100.0] rounds. *)
Definition percent (x : f64) : f64 := SFmul 53 1024 x (f64_of_int 100).

(** [{:?}] of the enumerations that are printed. *)
Definition check_status_debug (s : CheckStatus) : string :=
  match s with
  | CheckStatus.Available => "Available"
  | CheckStatus.Restricted => "Restricted"
  | CheckStatus.Unavailable => "Unavailable"
  | CheckStatus.Unknown => "Unknown"
  end.
Definition check_status_lower (s : CheckStatus) : string :=
  match s with
  | CheckStatus.Available => "available"
  | CheckStatus.Restricted => "restricted"
  | CheckStatus.Unavailable => "unavailable"
  | CheckStatus.Unknown => "unknown"
  end.
Definition object_kind_debug (k : ElfObjectKind) : string :=
  match k with
  | ElfObjectKind.Executable => "Executable"
  | ElfObjectKind.PositionIndependentExecutable => "PositionIndependentExecutable"
  | ElfObjectKind.SharedLibrary => "SharedLibrary"
  end.
Definition match_policy_debug (p : MatchPolicy) : string :=
  match p with
  | MatchPolicy.Exact => "Exact"
  | MatchPolicy.FirstAfter => "FirstAfter"
  | MatchPolicy.Nearest => "Nearest"
  | MatchPolicy.StackNested => "StackNested"
  | MatchPolicy.StreamOrder => "StreamOrder"
  end.
Definition reason_debug (r : PolicyRecommendationReason) : string :=
  match r with
  | PolicyRecommendationReason.DeterministicCorrelationKey => "DeterministicCorrelationKey"
  | PolicyRecommendationReason.HostCallFrame => "HostCallFrame"
  | PolicyRecommendationReason.CudaStreamOrder => "CudaStreamOrder"
  | PolicyRecommendationReason.TemporalOrderOnly => "TemporalOrderOnly"
  end.
Definition activation_debug (a : AgentActivation) : string :=
  match a with
  | AgentActivation.NotRequired => "NotRequired"
  | AgentActivation.AlreadyLoaded => "AlreadyLoaded"
  | AgentActivation.InjectionRequired => "InjectionRequired"
  | AgentActivation.StartupRequired => "StartupRequired"
  end.
Definition activity_debug (a : CuptiAggregateActivity) : string :=
  match a with
  | CuptiAggregateActivity.Kernel => "Kernel"
  | CuptiAggregateActivity.Memcpy => "Memcpy"
  | CuptiAggregateActivity.Memset => "Memset"
  end.
Definition python_status_debug (s : PythonSymbolizationStatus) : string :=
  match s with
  | PythonSymbolizationStatus.NotDetected => "NotDetected"
  | PythonSymbolizationStatus.Inactive => "Inactive"
  | PythonSymbolizationStatus.Active => "Active"
  | PythonSymbolizationStatus.Unsupported => "Unsupported"
  end.
Definition export_format_debug (f : ExportFormat) : string :=
  match f with ExportFormat.Jsonl => "Jsonl" | ExportFormat.Chrome => "Chrome" end.
Definition bool_text (b : bool) : string := if b then "true" else "false".
Definition yes_no (value : bool) : string := if value then "yes" else "no".
Definition schema_version (version : SchemaVersion) : string :=
  match version with SchemaVersion.V2 => "2.0" end.
Definition host_probe_debug (k : HostProbeKind) : string :=
  match k with
  | HostProbeKind.Uprobe => "Uprobe"
  | HostProbeKind.Uretprobe => "Uretprobe"
  | HostProbeKind.Kprobe => "Kprobe"
  | HostProbeKind.Kretprobe => "Kretprobe"
  | HostProbeKind.Tracepoint => "Tracepoint"
  | HostProbeKind.Syscall => "Syscall"
  | HostProbeKind.Usdt => "Usdt"
  end.

(** ** Streams *)

(** What a command wrote when it exits. *)
Record Printed := BuildPrinted {
  printed_stdout : string;
  printed_stderr : string;
  printed_exit : Z }.
(** [println!] for every line. *)
Definition println (lines : list string) : string :=
  foldr (λ line text, line +:+ String newline text) EmptyString lines.

Section printing.
Context `{SerdeJson}.

(** [XprobeError] and [ErrorResponse]. *)
Record XprobeError := BuildXprobeError {
  xe_code : ErrorCode;
  xe_message : string;
  xe_recoverable : bool;
  xe_details : btree string Value;
  xe_hints : list string }.
Record ErrorResponse := BuildErrorResponse {
  er_schema_version : SchemaVersion;
  er_ok : bool;
  er_error : XprobeError }.
Definition error_response (error : XprobeError) : ErrorResponse :=
  BuildErrorResponse SchemaVersion.V2 false error.

(** What is written as JSON. *)
Inductive Document : Type :=
| CapabilityDocument (report : CapabilityReport)
| ProcessDocument (report : ProcessReport)
| DiscoveryDocument (result : DiscoveryResult)
| ResolvedDocument (resolved : ResolvedProbe)
| ValidationDocument (result : ValidationResult)
| CpuValidationDocument (result : CpuSamplingValidationResult)
| SyscallValidationDocument (result : SyscallAggregateValidationResult)
| MeasurementDocument (result : MeasurementResult)
| InventoryDocument (result : AggregateInventoryResult)
| CpuInventoryDocument (result : CpuSampleInventoryResult)
| SyscallInventoryDocument (result : SyscallAggregateResult)
| HostCaptureDocument (result : HostCaptureResult)
| ExportDocument (result : TraceExportResult)
| ErrorDocument (response : ErrorResponse).
Class Serializer := { pretty_json : Document → res string string }.
Context `{!Serializer}.

(** [println!("{}", serde_json::to_string_pretty(document).expect(..))]. *)
Definition print_json (document : Document) : option string :=
  match pretty_json document with Ok text => Some (println [text]) | _ => None end.
(** A success: the document with [--json], and text otherwise. *)
Definition emit (document : Document) (out err : string) (json : bool) : option Printed :=
  if json then text ← print_json document; Some (BuildPrinted text EmptyString 0)
  else Some (BuildPrinted out err 0).

Definition emit_xprobe_error (error : XprobeError) (json : bool) : option Printed :=
  let code := xe_code error in
  let response := error_response error in
  if json then
    text ← print_json (ErrorDocument response);
    Some (BuildPrinted text EmptyString (error_exit code))
  else
    Some (BuildPrinted EmptyString
            (println [as_code_str code +:+ ": " +:+ xe_message (er_error response)])
            (error_exit code)).
Definition emit_command_failure (error : CommandFailure) (json : bool) : option Printed :=
  emit_xprobe_error (BuildXprobeError (fail_code error) (fail_message error)
    (fail_recoverable error) (fail_details error) (fail_hints error)) json.
Definition emit_error (code : ErrorCode) (message : string) (recoverable json : bool) :
    option Printed :=
  emit_xprobe_error (BuildXprobeError code message recoverable [] []) json.

(** ** Text for people *)
Definition check_line (name : string) (result : CheckResult) : string :=
  "  " +:+ pad_right 17 name +:+ " " +:+ pad_right 11 (check_status_lower (check_status result))
  +:+ " " +:+ default EmptyString (check_detail result).
Definition warning_line (warning : Warning) : string :=
  "Warning: " +:+ warn_code warning +:+ ": " +:+ warn_message warning.
Definition issue_line (issue : ValidationIssue) : string :=
  "Issue: " +:+ as_code_str (vi_code issue) +:+ ": " +:+ vi_message issue.
Definition valid_text (valid : bool) : string := if valid then "valid" else "invalid".

Definition print_human_report (report : CapabilityReport) : string :=
  let environment := cr_environment report in
  let capabilities := cr_capabilities report in
  let checks := cr_checks report in
  println
    (["xprobe doctor (schema " +:+ schema_version (cr_schema_version report) +:+ ")"; "";
      "Environment:";
      "  OS             " +:+ env_operating_system environment;
      "  architecture   " +:+ env_architecture environment;
      "  kernel         " +:+ env_kernel_release environment;
      "  effective UID  " +:+ to_decimal (env_effective_uid environment);
      "  container      " +:+ default "none detected" (env_container environment);
      "  PID namespace  " +:+ env_pid_namespace environment; "";
      "Capabilities:";
      "  uprobe          " +:+ yes_no (cap_uprobe capabilities);
      "  uretprobe       " +:+ yes_no (cap_uretprobe capabilities);
      "  tracepoint      " +:+ yes_no (cap_tracepoint capabilities);
      "  CUDA callback   " +:+ yes_no (cap_cuda_callback capabilities);
      "  CUDA activity   " +:+ yes_no (cap_cuda_activity capabilities);
      "  runtime inject  " +:+ yes_no (cap_runtime_injection capabilities); "";
      "Checks:";
      check_line "BTF" (sc_btf checks);
      check_line "eBPF permissions" (sc_ebpf_permissions checks);
      check_line "kernel lockdown" (sc_kernel_lockdown checks);
      check_line "perf paranoid" (sc_perf_event_paranoid checks);
      check_line "ptrace scope" (sc_ptrace_scope checks);
      check_line "NVIDIA driver" (sc_nvidia_driver checks);
      check_line "CUDA driver" (sc_cuda_driver checks);
      check_line "CUDA toolkit" (sc_cuda_toolkit checks);
      check_line "CUPTI" (sc_cupti checks)]%string
     ++ match cr_warnings report with
        | [] => []
        | warnings =>
            [EmptyString; "Warnings:"%string] ++
            ((λ warning, "  " +:+ warn_code warning +:+ ": " +:+ warn_message warning) <$> warnings)
        end).
Definition print_process_report (report : ProcessReport) : string :=
  let cuda := pr_cuda report in
  println
    ["Process: PID " +:+ to_decimal (target_pid (pr_target report));
     "Executable: " +:+ pr_executable report;
     "Start time: " +:+ to_decimal (target_process_start_time (pr_target report)) +:+ " ticks";
     "Namespace PIDs: " +:+ debug_majors (pr_namespace_pids report);
     "Mount namespace: " +:+ pr_mount_namespace report;
     "Credentials: uid=" +:+ to_decimal (cred_effective_uid (pr_credentials report)) +:+ " gid="
       +:+ to_decimal (cred_effective_gid (pr_credentials report)); "";
     "CUDA:";
     "  libcuda          " +:+ yes_no (pcs_libcuda_loaded cuda);
     "  libcudart        " +:+ yes_no (pcs_libcudart_loaded cuda);
     "  xprobe CUPTI    " +:+ yes_no (pcs_xprobe_cupti_loaded cuda);
     "  context          " +:+ check_status_debug (check_status (pcs_context cuda)); "";
     "Loaded shared libraries: " +:+ to_decimal (len (pr_loaded_libraries report))]%string.
(** The warnings go to the error stream. *)
Definition print_discovery_result (result : DiscoveryResult) : string * string :=
  (println
     (["Root: PID " +:+ to_decimal (target_pid (dr_root result));
       "CUDA workers: " +:+ to_decimal (len (dr_candidates result)) +:+ " of "
         +:+ to_decimal (dr_total_candidates result)
         +:+ (if dr_truncated result then " (truncated)" else "")]%string
      ++ ((λ candidate,
             "  PID " +:+ to_decimal (target_pid (cand_target candidate)) +:+ " parent="
             +:+ to_decimal (cand_parent_pid candidate) +:+ " GPUs="
             +:+ join "," (cand_gpu_uuids candidate) +:+ " " +:+ cand_executable candidate)%string
          <$> dr_candidates result)),
   println ((λ warning, warn_code warning +:+ ": " +:+ warn_message warning) <$> dr_warnings result)).
Definition print_host_capture (result : HostCaptureResult) : string :=
  println
    (["Captured " +:+ to_decimal (hc_captured result) +:+ " event(s), dropped "
        +:+ to_decimal (hc_dropped result) +:+ ", timed out: "
        +:+ bool_text (hc_timed_out result)]%string
     ++ ((λ event,
            "  " +:+ to_decimal (ev_timestamp_ns event) +:+ "  pid=" +:+ to_decimal (ev_pid event)
            +:+ " tid=" +:+ to_decimal (ev_tid event) +:+ " cpu="
            +:+ match ev_cpu event with None => "-" | Some cpu => to_decimal cpu end
            +:+ " probe=" +:+ to_decimal (hc_probe_id result))%string <$> hc_events result)).
Definition print_resolved_probe (resolved : ResolvedProbe) : string :=
  let mapping := rp_mapping resolved in
  println
    (["Target: PID " +:+ to_decimal (target_pid (rp_target resolved));
      "Binary: " +:+ rp_binary_path resolved;
      "Build ID: " +:+ default "unavailable" (rp_build_id resolved);
      "Object: " +:+ object_kind_debug (rp_object_kind resolved);
      "Probe: " +:+ host_probe_debug (rp_probe_kind resolved)]%string
     ++ option_list ((λ symbol, "Symbol: " +:+ symbol)%string <$> rp_symbol resolved)
     ++ option_list ((λ symbol, "Demangled: " +:+ symbol)%string <$> rp_symbol_demangled resolved)
     ++ ["File offset: " +:+ alternate_hex (rp_file_offset resolved);
         "Runtime address: " +:+ alternate_hex (rp_runtime_address resolved);
         "Mapping: " +:+ alternate_hex (pm_start_address mapping) +:+ "-"
           +:+ alternate_hex (pm_end_address mapping) +:+ " (file offset "
           +:+ alternate_hex (pm_file_offset mapping) +:+ ")"]%string).
Definition print_validation_result (result : ValidationResult) : string :=
  let recommendation := vres_policy_recommendation result in
  println
    (["Validation: " +:+ valid_text (vres_valid result);
      "Target: PID " +:+ to_decimal (target_pid (vres_target result));
      "Start: " +:+ ve_selector (vres_start result);
      "End: " +:+ ve_selector (vres_end result);
      "Match: " +:+ match_policy_debug (vres_match_policy result);
      "Recommended match: " +:+ match_policy_debug (rec_policy recommendation) +:+ " ("
        +:+ reason_debug (rec_reason recommendation) +:+ ")";
      "Agent activation: "
        +:+ activation_debug (vr_agent_activation (vres_requirements result));
      "Target mutation: " +:+ bool_text (vr_target_mutation (vres_requirements result))]%string
     ++ (issue_line <$> vres_issues result) ++ (warning_line <$> vres_warnings result)).
Definition print_measurement_result (result : MeasurementResult) : string :=
  let measurement := mr_measurement result in
  let latency := meas_latency_ns measurement in
  println
    ["Measurement: " +:+ default "unnamed" (meas_name measurement);
     "Matched samples: " +:+ to_decimal (samples_matched (meas_samples measurement));
     "Evidence pairs: " +:+ to_decimal (len (mr_evidence result));
     "Correlation: " +:+ corr_method (mr_correlation result);
     "Clock: " +:+ clock_alignment (mr_clock result);
     "Latency (ns):";
     "  min   " +:+ to_decimal (stat_min latency);
     "  mean  " +:+ format_fixed 2 (stat_mean latency);
     "  p50   " +:+ to_decimal (stat_p50 latency);
     "  p90   " +:+ to_decimal (stat_p90 latency);
     "  p95   " +:+ to_decimal (stat_p95 latency);
     "  p99   " +:+ to_decimal (stat_p99 latency);
     "  max   " +:+ to_decimal (stat_max latency)]%string.

(** ** The results of the commands *)
Definition emit_measurement (result : MeasurementResult) (json : bool) : option Printed :=
  emit (MeasurementDocument result) (print_measurement_result result) EmptyString json.
Definition emit_aggregate_inventory (result : AggregateInventoryResult) (json : bool) :
    option Printed :=
  emit (InventoryDocument result)
    (println
       (["aggregate inventory: " +:+ to_decimal (acs_grouped_activities (air_collection result))
           +:+ " activities in " +:+ to_decimal (acs_groups (air_collection result))
           +:+ " groups"]%string
        ++ ((λ group,
               let duration := agg_duration_ns group in
               "  " +:+ match agg_name group with
                        | Some name => name
                        | None => activity_debug (agg_activity group)
                        end
               +:+ ": count=" +:+ to_decimal (agg_count group) +:+ " mean="
               +:+ format_fixed 0 (ad_mean duration) +:+ "ns min=" +:+ to_decimal (ad_min duration)
               +:+ "ns max=" +:+ to_decimal (ad_max duration) +:+ "ns")%string
            <$> air_groups result))) EmptyString json.
Definition frame_label (frame : CpuStackFrame) : string :=
  match fr_symbol frame with
  | Some symbol => symbol
  | None =>
      match fr_module_path frame with
      | Some path => path
      | None => alternate_hex (fr_address frame)
      end
  end.
Definition emit_cpu_inventory (result : CpuSampleInventoryResult) (json : bool) : option Printed :=
  let collection := cir_collection result in
  emit (CpuInventoryDocument result)
    (println
       (["CPU sample inventory: " +:+ to_decimal (ccl_observed_samples collection) +:+ " samples";
         "Stacks: " +:+ to_decimal (ccl_groups collection) +:+ " groups, "
           +:+ to_decimal (ccl_lost_samples collection) +:+ " lost, "
           +:+ to_decimal (sy_unresolved_frames (cir_symbolization result))
           +:+ " unresolved frames"]%string
        ++ ((λ hotspot,
               "  " +:+ format_fixed 1 (percent (hot_inclusive_proportion hotspot))
               +:+ "% inclusive, " +:+ format_fixed 1 (percent (hot_exclusive_proportion hotspot))
               +:+ "% self  " +:+ frame_label (hot_frame hotspot))%string
            <$> take 10 (cir_hotspots result))
        ++ (warning_line <$> cir_warnings result))) EmptyString json.
Definition emit_syscall_inventory (result : SyscallAggregateResult) (json : bool) :
    option Printed :=
  let collection := sa_collection result in
  emit (SyscallInventoryDocument result)
    (println
       (["Syscall inventory: " +:+ to_decimal (cs_observed_entries collection) +:+ " entries, "
           +:+ to_decimal (cs_matched_exits collection) +:+ " matched exits"]%string
        ++ ((λ group,
               let duration := sg_duration_ns group in
               "  " +:+ match sg_syscall_name group with
                        | Some name => name
                        | None => "syscall#" +:+ to_decimal (sg_syscall_number group)
                        end
               +:+ ": count=" +:+ to_decimal (sg_count group) +:+ " total="
               +:+ to_decimal (ad_total duration) +:+ "ns mean="
               +:+ format_fixed 0 (ad_mean duration) +:+ "ns errors="
               +:+ to_decimal (sg_errors group))%string <$> take 10 (sa_groups result))
        ++ (warning_line <$> sa_warnings result))) EmptyString json.
Definition emit_cpu_sampling_validation (result : CpuSamplingValidationResult) (json : bool) :
    option Printed :=
  emit (CpuValidationDocument result)
    (println
       (["CPU sampling validation: " +:+ valid_text (cv_valid result);
         "Target: PID " +:+ to_decimal (target_pid (cv_target result));
         "Threads: " +:+ to_decimal (cv_target_threads result);
         "Python symbols: " +:+ python_status_debug (cv_python_status result);
         check_line "perf event" (cv_perf_event result)]%string
        ++ (issue_line <$> cv_issues result) ++ (warning_line <$> cv_warnings result)))
    EmptyString json.
Definition emit_syscall_aggregate_validation (result : SyscallAggregateValidationResult)
    (json : bool) : option Printed :=
  emit (SyscallValidationDocument result)
    (println
       (["Syscall aggregate validation: " +:+ valid_text (sv_valid result);
         "Target: PID " +:+ to_decimal (target_pid (sv_target result));
         check_line "eBPF" (sv_ebpf result)]%string ++ (issue_line <$> sv_issues result)))
    EmptyString json.
End printing.
