(* ===== verification/CommandLine.v ===== *)
(** * The command line

    [xprobe/cli/src/main.rs]: the commands with their arguments, as [clap] has parsed them, and
    [main], which runs one and prints its result.  What scripts rely on is how a run ends: with
    [--json] the standard output is one document and nothing else, a failure writes no result,
    and the exit code tells the kinds of failure apart. *)
From S2P Require Import Prelude BTree RustString Text Protocol Selector Measure Os Process Inspect.
From S2P Require Import CuptiCompat Doctor Discover Resolve Uprobe Usdt Validate Cupti CuptiFilter.
From S2P Require Import Completed Live Session Export Aggregate SyscallAggregate.
From S2P Require Import CuptiClient BpfCollect CpuAnalysis CpuSampling CpuCollect CpuCommand Command.
From S2P Require Import Print.
#[local] Open Scope Z_scope.

(** ** Arguments *)
Record CommonOutputArgs := BuildCommonOutputArgs {
  co_json : bool;
  co_no_color : bool;
  co_non_interactive : bool }.
Record TraceArgs := BuildTraceArgs {
  tr_spec : string;
  tr_cupti_socket : option string;
  tr_json : bool;
  tr_no_color : bool;
  tr_non_interactive : bool }.
Record ExportArgs := BuildExportArgs {
  ex_input : list string;
  ex_format : ExportFormat;
  ex_output : string;
  ex_json : bool;
  ex_no_color : bool;
  ex_non_interactive : bool }.
Record DoctorArgs := BuildDoctorArgs {
  do_json : bool;
  do_no_color : bool;
  do_non_interactive : bool }.
Record DiscoverArgs := BuildDiscoverArgs {
  di_pid : Z;
  di_limit : Z;
  di_json : bool;
  di_no_color : bool;
  di_non_interactive : bool }.
Record InspectArgs := BuildInspectArgs {
  in_pid : Z;
  in_json : bool;
  in_no_color : bool;
  in_non_interactive : bool }.
Record ResolveArgs := BuildResolveArgs {
  re_pid : Z;
  re_selector : string;
  re_json : bool;
  re_no_color : bool;
  re_non_interactive : bool }.
Record ValidateArgs := BuildValidateArgs {
  va_pid : Z;
  va_from : option string;
  va_to : option string;
  va_match_policy : option string;
  va_cpu_sample : bool;
  va_syscall_aggregate : bool;
  va_output : CommonOutputArgs }.
Record EventOutputArgs := BuildEventOutputArgs {
  eo_json : bool;
  eo_jsonl : bool }.
Record UprobeArgs := BuildUprobeArgs {
  up_pid : Z;
  up_binary : string;
  up_symbol : string;
  up_return_probe : bool;
  up_probe_id : Z;
  up_samples : Z;
  up_timeout_ms : Z;
  up_output : EventOutputArgs;
  up_no_color : bool;
  up_non_interactive : bool }.
Record CuptiArgs := BuildCuptiArgs {
  cu_input : option string;
  cu_socket : option string;
  cu_timeout_ms : Z;
  cu_session_id : string;
  cu_json : bool;
  cu_no_color : bool;
  cu_non_interactive : bool }.
Inductive DevCommand : Type :=
| UprobeCommand (args : UprobeArgs)
| CuptiCommand (args : CuptiArgs).
(** The output arguments of [measure] are beside [MeasureArgs]. *)
Inductive Command : Type :=
| DoctorCommand (args : DoctorArgs)
| DiscoverCommand (args : DiscoverArgs)
| InspectCommand (args : InspectArgs)
| ResolveCommand (args : ResolveArgs)
| ValidateCommand (args : ValidateArgs)
| MeasureCommand (args : MeasureArgs) (output : CommonOutputArgs)
| TraceCommand (args : TraceArgs)
| ExportCommand (args : ExportArgs)
| CaptureCommand (command : DevCommand)
| Dev (command : DevCommand).

Section main.
Context `{SerdeJson} `{!RegexEngine} `{Files} `{ObjectCrate} `{!NoteParser}.
Context `{!JsonReader} `{!JsonWriter} `{!SpecReader} `{!Libbpf} `{!UnixSocket} `{!Serializer}.
Context (own_pid sequence : Z).
Context (live_measurement :
  LiveMeasureRequest → option string → io CommandFailure MeasurementExecution).
Context (live_aggregate :
  LiveMeasureRequest → option string → io CommandFailure AggregateInventoryResult).
Context (cpu_collector : CpuSamplingRequest → res CpuCollectorError CpuSampleCapture).

(** A command runs and prints its result or its failure; a panic prints nothing here. *)
Definition printing {A} (run : io CommandFailure A) (success : A → option Printed) (json : bool)
    (w : World) : option Printed * World :=
  let '(r, w) := run w in
  (match r with
   | Ok result => success result
   | Err error => emit_command_failure error json
   | Panic => None
   end, w).

(** The ends of [run_uprobe] and [run_cupti]. *)
Definition emit_host_capture (output : EventOutputArgs) (result : HostCaptureResult) :
    option Printed :=
  if eo_jsonl output then
    match events_to_jsonl (hc_events result) with
    | Ok text => Some (BuildPrinted text EmptyString 0)
    | Err error =>
        emit_error ErrorCode.TraceExportFailed ("failed to serialize host events: " +:+ error)
          false true
    | Panic => None
    end
  else emit (HostCaptureDocument result) (print_host_capture result) EmptyString (eo_json output).
Definition emit_cupti_events (result : CuptiCapture * string) : option Printed :=
  let '(capture, output) := result in
  Some (BuildPrinted output
          (if negb (cc_dropped_records capture =? 0) || negb (cc_unknown_records capture =? 0) then
             println ["CUPTI capture diagnostics: dropped="
                        +:+ to_decimal (cc_dropped_records capture) +:+ ", unknown="
                        +:+ to_decimal (cc_unknown_records capture)]%string
           else EmptyString) 0).
Definition emit_export (result : TraceExportResult) (json : bool) : option Printed :=
  emit (ExportDocument result)
    (println ["Exported " +:+ to_decimal (te_event_count result) +:+ " events to "
                +:+ te_output result +:+ " (" +:+ export_format_debug (te_format result)
                +:+ ")"]%string) EmptyString json.
Definition emit_measure_output (output : MeasureOutput) (json : bool) : option Printed :=
  match output with
  | PrintMeasurement result => emit_measurement result json
  | PrintInventory result => emit_aggregate_inventory result json
  | PrintCpuInventory result => emit_cpu_inventory result json
  | PrintSyscallInventory result => emit_syscall_inventory result json
  end.
Definition emit_validate_output (output : ValidateOutput) (json : bool) : option Printed :=
  match output with
  | PrintValidation result =>
      emit (ValidationDocument result) (print_validation_result result) EmptyString json
  | PrintCpuValidation result => emit_cpu_sampling_validation result json
  | PrintSyscallValidation result => emit_syscall_aggregate_validation result json
  end.

Definition run_capture (command : DevCommand) : World → option Printed * World :=
  match command with
  | UprobeCommand args =>
      printing (run_uprobe (up_pid args) (up_binary args) (up_symbol args) (up_return_probe args)
                  (up_probe_id args) (up_samples args) (up_timeout_ms args))
        (emit_host_capture (up_output args))
        (eo_json (up_output args) || eo_jsonl (up_output args))
  | CuptiCommand args =>
      printing (run_cupti (cu_input args) (cu_socket args) (cu_timeout_ms args)
                  (cu_session_id args)) emit_cupti_events (cu_json args)
  end.
Definition main (command : Command) : World → option Printed * World :=
  match command with
  | DoctorCommand args =>
      printing run_doctor
        (λ report, emit (CapabilityDocument report) (print_human_report report) EmptyString
                     (do_json args)) (do_json args)
  | DiscoverCommand args =>
      printing (run_discover (di_pid args) (di_limit args))
        (λ result, let '(out, err) := print_discovery_result result in
                   emit (DiscoveryDocument result) out err (di_json args)) (di_json args)
  | InspectCommand args =>
      printing (run_inspect (in_pid args))
        (λ report, emit (ProcessDocument report) (print_process_report report) EmptyString
                     (in_json args)) (in_json args)
  | ResolveCommand args =>
      printing (run_resolve (re_pid args) (re_selector args))
        (λ resolved, emit (ResolvedDocument resolved) (print_resolved_probe resolved) EmptyString
                       (re_json args)) (re_json args)
  | ValidateCommand args =>
      let json := co_json (va_output args) in
      printing (run_validate (va_pid args) (va_from args) (va_to args) (va_match_policy args)
                  (va_cpu_sample args) (va_syscall_aggregate args))
        (λ output, emit_validate_output output json) json
  | MeasureCommand args output =>
      let json := co_json output in
      printing (run_measure own_pid live_measurement live_aggregate cpu_collector args)
        (λ output, emit_measure_output output json) json
  | TraceCommand args =>
      printing (run_trace own_pid live_measurement (tr_spec args) (tr_cupti_socket args))
        (λ result, emit_measurement result (tr_json args)) (tr_json args)
  | ExportCommand args =>
      printing (run_export own_pid sequence (ex_input args) (ex_format args) (ex_output args))
        (λ result, emit_export result (ex_json args)) (ex_json args)
  | CaptureCommand command | Dev command => run_capture command
  end.

(** ** How a run ends *)

(** Whether errors are documents, and whether the result is one. *)
Definition machine_output (command : Command) : bool :=
  match command with
  | DoctorCommand args => do_json args
  | DiscoverCommand args => di_json args
  | InspectCommand args => in_json args
  | ResolveCommand args => re_json args
  | ValidateCommand args => co_json (va_output args)
  | MeasureCommand _ output => co_json output
  | TraceCommand args => tr_json args
  | ExportCommand args => ex_json args
  | CaptureCommand (UprobeCommand args) | Dev (UprobeCommand args) =>
      eo_json (up_output args) || eo_jsonl (up_output args)
  | CaptureCommand (CuptiCommand args) | Dev (CuptiCommand args) => cu_json args
  end.
Definition document_output (command : Command) : bool :=
  match command with
  | CaptureCommand (UprobeCommand args) | Dev (UprobeCommand args) =>
      eo_json (up_output args) && negb (eo_jsonl (up_output args))
  | CaptureCommand (CuptiCommand _) | Dev (CuptiCommand _) => false
  | _ => machine_output command
  end.

(** The output is one document: the given one. *)
Definition is_document (p : Printed) (document : Document) : Prop :=
  ∃ text, pretty_json document = Ok text ∧ printed_stdout p = println [text]
    ∧ printed_stderr p = EmptyString.
Definition success_document (document : Document) : Prop :=
  match document with ErrorDocument _ => False | _ => True end.
(** A failure: a document that says so, or a line for people. *)
Definition failed_with (machine : bool) (p : Printed) (error : XprobeError) : Prop :=
  printed_exit p = error_exit (xe_code error)
  ∧ if machine then is_document p (ErrorDocument (error_response error))
    else printed_stdout p = EmptyString
         ∧ printed_stderr p = println [as_code_str (xe_code error) +:+ ": " +:+ xe_message error].
Definition ends_well (machine document : bool) (p : Printed) : Prop :=
  (printed_exit p = 0
   ∧ (document = true → ∃ doc, success_document doc ∧ is_document p doc))
  ∨ ∃ error, failed_with machine p error.

Lemma emit_ends document out err json machine wanted p :
  success_document document → (wanted = true → json = true) →
  emit document out err json = Some p → ends_well machine wanted p.
Proof using.
  intros Hd Hj. unfold emit, print_json. destruct json.
  - destruct (pretty_json document) as [text| |] eqn:E; [|done..]. intros [= <-]. left.
    split; [done|]. intros _. exists document. split; [done|]. by exists text.
  - intros [= <-]. left. split; [done|]. intros Hw. by specialize (Hj Hw).
Qed.
Lemma error_ends error machine wanted p :
  emit_xprobe_error error machine = Some p → ends_well machine wanted p.
Proof using.
  unfold emit_xprobe_error, print_json. intros Hp. right. exists error. destruct machine.
  - destruct (pretty_json _) as [text| |] eqn:E; [|done..]. cbn [mbind option_bind] in Hp.
    injection Hp as <-. split; [done|]. by exists text.
  - injection Hp as <-. done.
Qed.
Lemma printing_ends {A} (run : io CommandFailure A) success json wanted w p :
  (∀ result p, success result = Some p → ends_well json wanted p) →
  (printing run success json w).1 = Some p → ends_well json wanted p.
Proof using.
  intros Hs. unfold printing. destruct (run w) as [[result|error|] w1]; cbn [fst]; intros Hp; [..|done].
  - by eapply Hs.
  - by eapply error_ends.
Qed.

(** A run that prints nothing: the command itself panics, or [serde_json] has no text for what
    is written. *)
Definition panics {A} (run : io CommandFailure A) (w : World) : Prop := (run w).1 = Panic.
Definition command_panics (command : Command) : World → Prop :=
  match command with
  | DoctorCommand _ => panics run_doctor
  | DiscoverCommand args => panics (run_discover (di_pid args) (di_limit args))
  | InspectCommand args => panics (run_inspect (in_pid args))
  | ResolveCommand args => panics (run_resolve (re_pid args) (re_selector args))
  | ValidateCommand args =>
      panics (run_validate (va_pid args) (va_from args) (va_to args) (va_match_policy args)
                (va_cpu_sample args) (va_syscall_aggregate args))
  | MeasureCommand args _ =>
      panics (run_measure own_pid live_measurement live_aggregate cpu_collector args)
  | TraceCommand args =>
      panics (run_trace own_pid live_measurement (tr_spec args) (tr_cupti_socket args))
  | ExportCommand args =>
      panics (run_export own_pid sequence (ex_input args) (ex_format args) (ex_output args))
  | CaptureCommand (UprobeCommand args) | Dev (UprobeCommand args) =>
      panics (run_uprobe (up_pid args) (up_binary args) (up_symbol args) (up_return_probe args)
                (up_probe_id args) (up_samples args) (up_timeout_ms args))
  | CaptureCommand (CuptiCommand args) | Dev (CuptiCommand args) =>
      panics (run_cupti (cu_input args) (cu_socket args) (cu_timeout_ms args)
                (cu_session_id args))
  end.
Definition unwritable : Prop :=
  (∃ document, ∀ text, pretty_json document ≠ Ok text) ∨ ∃ event, event_to_string event = Panic.

Lemma print_json_none document : print_json document = None → unwritable.
Proof using.
  unfold print_json. intros E. left. exists document. intros text Et. by rewrite Et in E.
Qed.
Lemma emit_none document out err json : emit document out err json = None → unwritable.
Proof using.
  unfold emit. destruct json; [|done]. destruct (print_json document) eqn:E; [done|].
  intros _. by eapply print_json_none.
Qed.
Lemma emit_xprobe_error_none error json : emit_xprobe_error error json = None → unwritable.
Proof using.
  unfold emit_xprobe_error. destruct json; [|done].
  destruct (print_json _) eqn:E; [done|]. intros _. by eapply print_json_none.
Qed.
Lemma events_to_jsonl_panic events :
  events_to_jsonl events = Panic → ∃ event, event_to_string event = Panic.
Proof using.
  induction events as [|event events IH]; [done|]. cbn [events_to_jsonl].
  destruct (event_to_string event) eqn:E; cbn; [|done|by exists event].
  destruct (events_to_jsonl events); cbn; [done..|auto].
Qed.
Lemma printing_none {A} (run : io CommandFailure A) success json w :
  (∀ result, success result = None → unwritable) →
  (printing run success json w).1 = None → panics run w ∨ unwritable.
Proof using.
  intros Hs. unfold printing, panics. destruct (run w) as [[result|error|] w1]; cbn [fst];
    intros Hp; [right; by eapply Hs|right; by eapply emit_xprobe_error_none|by left].
Qed.
Lemma emit_host_capture_none output result : emit_host_capture output result = None → unwritable.
Proof using.
  unfold emit_host_capture. destruct (eo_jsonl output); [|by apply emit_none].
  destruct (events_to_jsonl _) eqn:E; [done|by apply emit_xprobe_error_none|].
  intros _. right. by eapply events_to_jsonl_panic.
Qed.
Lemma main_none command w : (main command w).1 = None → command_panics command w ∨ unwritable.
Proof using.
  destruct command as [args|args|args|args|args|args output|args|args|[args|args]|[args|args]];
    cbn [main run_capture command_panics]; apply printing_none; intros result;
    try apply emit_none; try apply emit_host_capture_none.
  - destruct result; apply emit_none.
  - destruct result; apply emit_none.
  - by destruct result.
  - by destruct result.
Qed.
Lemma main_ends command w p :
  (main command w).1 = Some p → ends_well (machine_output command) (document_output command) p.
Proof using.
  assert (∀ dev, (run_capture dev w).1 = Some p →
    ends_well (machine_output (Dev dev)) (document_output (Dev dev)) p) as Hdev.
  { intros [args|args] Hrun; cbn [run_capture machine_output document_output] in *.
    - eapply printing_ends; [|exact Hrun]. intros result p0. unfold emit_host_capture.
      destruct (eo_jsonl (up_output args)) eqn:Ej.
      + rewrite orb_true_r, andb_false_r.
        destruct (events_to_jsonl _) as [text|error|]; [|by apply error_ends|done].
        intros [= <-]. by left.
      + rewrite orb_false_r, andb_true_r. by eapply emit_ends.
    - eapply printing_ends; [|exact Hrun]. intros [capture output] p0 [= <-]. by left. }
  intros Hmain. destruct command; cbn [main] in Hmain; try (eapply Hdev, Hmain);
    (eapply printing_ends; [|exact Hmain]); intros result p0; cbn [document_output machine_output];
    try (by apply emit_ends); destruct result; by apply emit_ends.
Qed.

End main.

(** Rounding of printed numbers is to the nearest. *)
Lemma round_half_even_near numerator denominator :
  0 < denominator →
  2 * Z.abs (round_half_even numerator denominator * denominator - numerator) ≤ denominator.
Proof.
  intros Hd. unfold round_half_even.
  pose proof (Z.div_mod numerator denominator ltac:(lia)) as E.
  pose proof (Z.mod_pos_bound numerator denominator Hd).
  destruct (Z.ltb_spec denominator (2 * (numerator mod denominator))); cbn [orb]; [lia|].
  destruct (Z.eqb_spec denominator (2 * (numerator mod denominator))); cbn [andb]; [|lia].
  destruct (Z.odd _); lia.
Qed.
