(* ===== verification/Inject.v ===== *)
(** * Injecting the agent

    [xprobe/core/src/inject.rs]: the target is stopped with ptrace and made to call [malloc],
    [dlopen], [dlsym], the agent's start function and [free].  ptrace, the memory of the
    target and the clock are parameters, class [Ptrace] over the worlds of [Os]; an error of
    theirs is its number. *)
From S2P Require Import Prelude BTree RustString Text Protocol Selector Os Process Inspect Resolve.
From S2P Require Import Session.
#[local] Open Scope Z_scope.

(** [user_regs_struct]: the registers a call sets, and the others together. *)
Record Regs := BuildRegs {
  rip : Z; rsp : Z; rax : Z; rdi : Z; rsi : Z; rdx : Z; rcx : Z; r8 : Z; r9 : Z;
  other_regs : list Z }.

(** [WaitStatus], as far as it is distinguished. *)
Definition SIGSEGV : Z := 11.
Module WaitStatus.
Inductive WaitStatus : Set :=
| Stopped (signal : Z)
| PtraceEvent (signal event : Z)
| Exited (code : Z)
| Signaled (signal : Z)
| Continued
| StillAlive.
#[global] Instance WaitStatus_eq_dec : EqDecision WaitStatus.
Proof. solve_decision. Defined.
End WaitStatus.
Abbreviation WaitStatus := WaitStatus.WaitStatus.

Definition errno_result (A : Type) : Type := Z + A.
Class Ptrace `{Os} := {
  ptrace_seize : Z → World → errno_result unit * World;
  ptrace_interrupt : Z → World → errno_result unit * World;
  ptrace_getregs : Z → World → errno_result Regs * World;
  ptrace_setregs : Z → Regs → World → errno_result unit * World;
  ptrace_cont : Z → World → errno_result unit * World;
  ptrace_detach : Z → World → errno_result unit * World;
  (* the bytes transferred, at most as many as asked for *)
  process_vm_readv : Z → Z → Z → World → errno_result (list Z) * World;
  process_vm_writev : Z → Z → list Z → World → errno_result Z * World;
  waitpid : Z → World → errno_result WaitStatus * World;
  instant_now : World → Z * World;
  thread_sleep : Z → World → World }.

(** ** Errors *)
Module InjectError.
Inductive InjectError : Type :=
| Inspect (error : InspectError)
| Resolve (error : ResolveError)
| UnsupportedPlatform
| DifferentMountNamespace
| InvalidAgent (path : string)
| MissingRuntimeSymbol (symbol : string)
| Operation (operation : string) (source : Z)
| UnexpectedStop (status : WaitStatus)
| TimedOut
| RemoteCallTrap (instruction_pointer : Z)
| ShortMemoryTransfer (expected actual : Z)
| RemoteCallFailed (function : string) (result : Z).
End InjectError.
Abbreviation InjectError := InjectError.InjectError.
Definition inject_error_code (e : InjectError) : ErrorCode :=
  match e with
  | InjectError.Inspect error => inspect_error_code error
  | InjectError.Resolve error => resolve_error_code error
  | InjectError.DifferentMountNamespace | InjectError.Operation _ _
  | InjectError.UnexpectedStop _ | InjectError.TimedOut => ErrorCode.PermissionDenied
  | InjectError.UnsupportedPlatform => ErrorCode.UnsupportedCudaVersion
  | InjectError.InvalidAgent _ | InjectError.MissingRuntimeSymbol _
  | InjectError.ShortMemoryTransfer _ _ | InjectError.RemoteCallFailed _ _
  | InjectError.RemoteCallTrap _ => ErrorCode.CuptiNotAvailable
  end.
Definition inject_error_recoverable (e : InjectError) : bool :=
  match e with InjectError.ShortMemoryTransfer _ _ => false | _ => true end.

(** [Display]; the texts of [nix] for an error number and a wait status are arguments. *)
Definition inject_error_display (errno_text : Z → string) (status_text : WaitStatus → string)
    (e : InjectError) : string :=
  match e with
  | InjectError.Inspect error => inspect_error_display error
  | InjectError.Resolve error => resolve_error_display error
  | InjectError.UnsupportedPlatform => "online injection requires Linux x86_64"
  | InjectError.DifferentMountNamespace =>
      "target uses a different mount namespace; the agent path is not safely addressable"
  | InjectError.InvalidAgent path => "CUPTI agent is not a regular file: " +:+ path
  | InjectError.MissingRuntimeSymbol symbol =>
      "target runtime symbol " +:+ debug_str symbol +:+ " was not found"
  | InjectError.Operation operation source => operation +:+ " failed: " +:+ errno_text source
  | InjectError.UnexpectedStop status =>
      "target stopped unexpectedly during injection: " +:+ status_text status
  | InjectError.TimedOut => "remote function call timed out"
  | InjectError.RemoteCallTrap instruction_pointer =>
      "remote function trapped at 0x" +:+ to_hex instruction_pointer +:+ " before returning"
  | InjectError.ShortMemoryTransfer expected actual =>
      "remote memory transfer copied " +:+ to_decimal actual +:+ " bytes, expected "
        +:+ to_decimal expected
  | InjectError.RemoteCallFailed function result =>
      "remote " +:+ function +:+ " returned 0x" +:+ to_hex result
  end.

Definition RTLD_NOW : Z := 2.
Definition RTLD_LOCAL : Z := 0.
Definition AGENT_START_SYMBOL : string := "xprobe_cupti_agent_start".

Section inject.
Context `{Ptrace} `{ObjectCrate}.

(** A ptrace call whose error number is reported with the operation. *)
Definition operation {A} (name : string) (f : World → errno_result A * World) :
    io InjectError A := λ w,
  match f w with
  | (inl source, w) => (Err (InjectError.Operation name source), w)
  | (inr a, w) => (Ok a, w)
  end.

(** ** The memory of the target *)
Definition read_memory (pid address length : Z) : io InjectError (list Z) :=
  bytes ← operation "read target memory" (process_vm_readv pid address length);
  lift (if negb (len bytes =? length)
        then Err (InjectError.ShortMemoryTransfer length (len bytes)) else Ok bytes).
Definition write_memory (pid address : Z) (bytes : list Z) : io InjectError unit :=
  actual ← operation "write target memory" (process_vm_writev pid address bytes);
  lift (if negb (actual =? len bytes)
        then Err (InjectError.ShortMemoryTransfer (len bytes) actual) else Ok ()).

(** ** Waiting *)
Definition MILLISECOND : Z := 1000000.
Definition clock {E} : io E Z := λ w, let '(now, w) := instant_now w in (Ok now, w).
Definition sleep {E} (duration : Z) : io E unit := λ w, (Ok (), thread_sleep duration w).
(** The loop of [wait_status]; running out of [fuel], which [wait_fuel] excludes, is a panic. *)
Fixpoint wait_loop (fuel : nat) (pid deadline : Z) : io InjectError WaitStatus :=
  match fuel with
  | O => lift Panic
  | S fuel =>
      status ← operation "wait for target" (waitpid pid);
      if status != WaitStatus.StillAlive then mret status
      else
        now ← clock;
        if deadline <=? now then lift (Err InjectError.TimedOut)
        else
          _ ← sleep MILLISECOND;
          wait_loop fuel pid deadline
  end.
(** A sleep takes at least a millisecond, so that the deadline is met after that many
    polls and two more. *)
Definition wait_fuel (timeout : Z) : nat := Z.to_nat (timeout / MILLISECOND + 2).
Definition wait_status (pid timeout : Z) : io InjectError WaitStatus :=
  now ← clock;
  deadline ← lift (ok_or (instant_checked_add now timeout) InjectError.TimedOut);
  wait_loop (wait_fuel timeout) pid deadline.
Definition wait_for_stop (pid timeout : Z) : io InjectError unit :=
  status ← wait_status pid timeout;
  lift match status with
       | WaitStatus.Stopped _ | WaitStatus.PtraceEvent _ _ => Ok ()
       | status => Err (InjectError.UnexpectedStop status)
       end.
Definition wait_for_call (pid timeout : Z) : io InjectError unit :=
  status ← wait_status pid timeout;
  lift (if status == WaitStatus.Stopped SIGSEGV then Ok ()
        else Err (InjectError.UnexpectedStop status)).
Definition ensure_stopped (pid timeout : Z) : io InjectError unit :=
  _ ← operation "interrupt timed out target" (ptrace_interrupt pid);
  wait_for_stop pid timeout.

(** ** A remote call *)
Definition restore_call_state (pid stack_pointer : Z) (saved_stack : list Z) (saved : Regs) :
    io InjectError unit :=
  _ ← write_memory pid stack_pointer saved_stack;
  operation "restore target registers" (ptrace_setregs pid saved).
(** The stack pointer of the call; [None] is the underflow of a subtraction. *)
Definition call_stack_pointer (saved : Z) : option Z :=
  below ← checked_sub_u64 saved 256;
  checked_sub_u64 (Z.land below (Z.lnot 15)) 8.
Definition call_registers (saved : Regs) (function stack_pointer : Z) (arguments : list Z) : Regs :=
  let argument i := default 0 (arguments !! i) in
  BuildRegs function stack_pointer 0 (argument 0%nat) (argument 1%nat) (argument 2%nat)
    (argument 3%nat) (argument 4%nat) (argument 5%nat) (other_regs saved).
(** Run [m]; if it fails, restore the target before reporting its error. *)
Definition or_restore {A} (pid stack_pointer : Z) (saved_stack : list Z) (saved : Regs)
    (m : io InjectError A) : io InjectError A := λ w,
  match m w with
  | (Err e, w) =>
      (_ ← restore_call_state pid stack_pointer saved_stack saved; lift (Err e)) w
  | r => r
  end.
(** The outcome of a computation as a value. *)
Definition attempt {E A} (m : io E A) : io E (res E A) := λ w, let '(r, w) := m w in (Ok r, w).
Definition execution (pid timeout : Z) : io InjectError Z :=
  _ ← wait_for_call pid timeout;
  result ← operation "read remote call result" (ptrace_getregs pid);
  lift (if negb (rip result =? 0) then Err (InjectError.RemoteCallTrap (rip result))
        else Ok (rax result)).
Definition remote_call (pid timeout function : Z) (arguments : list Z) : io InjectError Z :=
  if 6 <? len arguments then
    lift (Err (InjectError.RemoteCallFailed "function with more than six arguments"
                 (len arguments)))
  else
    saved ← operation "read target registers" (ptrace_getregs pid);
    stack_pointer ← lift (or_panic (call_stack_pointer (rsp saved)));
    saved_stack ← read_memory pid stack_pointer 8;
    _ ← write_memory pid stack_pointer (replicate 8 0);
    let registers := call_registers saved function stack_pointer arguments in
    _ ← or_restore pid stack_pointer saved_stack saved
          (operation "write target registers" (ptrace_setregs pid registers));
    _ ← or_restore pid stack_pointer saved_stack saved
          (operation "continue target for remote call" (ptrace_cont pid));
    result ← attempt (execution pid timeout);
    _ ← match result with
        | Err InjectError.TimedOut => ensure_stopped pid timeout
        | _ => mret ()
        end;
    _ ← restore_call_state pid stack_pointer saved_stack saved;
    lift result.
Definition copy_c_string (pid timeout malloc : Z) (bytes : list Z) : io InjectError Z :=
  match checked_add_u64 (len bytes) 1 with
  | None => lift (Err (InjectError.ShortMemoryTransfer u64_max (len bytes)))
  | Some length =>
      address ← remote_call pid timeout malloc [length];
      if address =? 0 then lift (Err (InjectError.RemoteCallFailed "malloc" 0))
      else
        _ ← write_memory pid address (bytes ++ [0]);
        mret address
  end.

(** ** Attaching *)

(** [Drop for RemoteProcess]: a failure while attached detaches, ignoring errors. *)
Definition dropping {A} (pid : Z) (m : io InjectError A) : io InjectError A := λ w,
  match m w with
  | (Ok a, w) => (Ok a, w)
  | (r, w) => (r, (ptrace_detach pid w).2)
  end.
Definition i32_max : Z := 2 ^ 31 - 1.
Definition attach (pid timeout : Z) : io InjectError unit :=
  if i32_max <? pid then lift (Err InjectError.UnsupportedPlatform)
  else
    _ ← operation "ptrace seize" (ptrace_seize pid);
    dropping pid
      (_ ← operation "ptrace interrupt" (ptrace_interrupt pid);
       wait_for_stop pid timeout).
Definition detach (pid : Z) : io InjectError unit :=
  operation "ptrace detach" (ptrace_detach pid).

(** ** Symbols of the target *)
Definition EIO : Z := 5.
Definition verify_mount_namespace (report : ProcessReport) : io InjectError unit :=
  local ← call (fs_read_link "/proc/self/ns/mnt")
    (λ source, InjectError.Operation "read local mount namespace"
                 (default EIO (io_errno source)));
  lift (if local != pr_mount_namespace report then Err InjectError.DifferentMountNamespace
        else Ok ()).
Fixpoint find_runtime_symbol (report : ProcessReport) (symbol : string) (paths : list string) :
    io InjectError Z :=
  match paths with
  | [] => lift (Err (InjectError.MissingRuntimeSymbol symbol))
  | path :: paths =>
      let name := default EmptyString (file_name path) in
      if negb (starts_with "libc.so" name) && negb (starts_with "libdl.so" name)
      then find_runtime_symbol report symbol paths
      else λ w,
        match resolve_run report ("uprobe:" +:+ path +:+ ":" +:+ symbol +:+ ":entry") w with
        | (Ok probe, w) => (Ok (rp_runtime_address probe), w)
        | (Err _, w) => find_runtime_symbol report symbol paths w
        | (Panic, w) => (Panic, w)
        end
  end.
Definition resolve_runtime_symbol (report : ProcessReport) (symbol : string) :
    io InjectError Z :=
  find_runtime_symbol report symbol (pr_loaded_libraries report).
Definition resolve_agent_symbol (report : ProcessReport) (symbol : string) : io InjectError Z :=
  path ← lift (ok_or (list_find_bool (λ path,
                 match file_name path with
                 | Some name => starts_with "libxprobe-cupti.so" name
                 | None => false
                 end) (pr_loaded_libraries report))
               (InjectError.MissingRuntimeSymbol symbol));
  probe ← map_io_err InjectError.Resolve
    (resolve_run report ("uprobe:" +:+ path +:+ ":" +:+ symbol +:+ ":entry"));
  mret (rp_runtime_address probe).

(** ** Activation *)
Record InjectionResult := BuildInjectionResult { ir_socket_path : string; ir_injected : bool }.

(** The start function of the agent, whether it was injected, and the strings allocated
    for it. *)
Definition load_agent (report : ProcessReport) (pid timeout malloc : Z) (agent_path : string) :
    io InjectError (Z * bool * list Z) :=
  if pcs_xprobe_cupti_loaded (pr_cuda report) then
    start ← resolve_agent_symbol report AGENT_START_SYMBOL;
    mret (start, false, [])
  else
    path ← call (fs_canonicalize agent_path) (λ _, InjectError.InvalidAgent agent_path);
    regular ← is_file path;
    _ ← lift (if negb regular then Err (InjectError.InvalidAgent path) else Ok ());
    dlopen ← resolve_runtime_symbol report "dlopen";
    dlsym ← resolve_runtime_symbol report "dlsym";
    path_address ← copy_c_string pid timeout malloc (bytes_of_string path);
    handle ← remote_call pid timeout dlopen [path_address; Z.lor RTLD_NOW RTLD_LOCAL];
    _ ← lift (if handle =? 0 then Err (InjectError.RemoteCallFailed "dlopen" handle) else Ok ());
    symbol_address ← copy_c_string pid timeout malloc (bytes_of_string AGENT_START_SYMBOL);
    start ← remote_call pid timeout dlsym [handle; symbol_address];
    _ ← lift (if start =? 0 then Err (InjectError.RemoteCallFailed "dlsym" start) else Ok ());
    mret (start, true, [path_address; symbol_address]).
Fixpoint free_all (pid timeout free : Z) (allocations : list Z) : io InjectError unit :=
  match allocations with
  | [] => mret ()
  | address :: allocations =>
      _ ← remote_call pid timeout free [address];
      free_all pid timeout free allocations
  end.
(** Between attaching and detaching. *)
Definition start_agent (report : ProcessReport) (pid timeout malloc free : Z)
    (agent_path socket_path : string) (record_capacity : Z) : io InjectError (Z * bool) :=
  socket_address ← copy_c_string pid timeout malloc (bytes_of_string socket_path);
  '(start_address, injected, allocations) ← load_agent report pid timeout malloc agent_path;
  status ← remote_call pid timeout start_address [socket_address; record_capacity];
  _ ← free_all pid timeout free (socket_address :: allocations);
  _ ← detach pid;
  mret (status, injected).
(** [activate], built for Linux on x86_64. *)
Definition activate (report : ProcessReport) (agent_path socket_path : string)
    (record_capacity timeout : Z) : io InjectError InjectionResult :=
  let pid := target_pid (pr_target report) in
  _ ← map_io_err InjectError.Inspect (verify_target (pr_target report));
  _ ← verify_mount_namespace report;
  malloc ← resolve_runtime_symbol report "malloc";
  free ← resolve_runtime_symbol report "free";
  _ ← attach pid timeout;
  '(status, injected) ← dropping pid
    (start_agent report pid timeout malloc free agent_path socket_path record_capacity);
  _ ← map_io_err InjectError.Inspect (verify_target (pr_target report));
  lift (if negb (status =? 0)
        then Err (InjectError.RemoteCallFailed AGENT_START_SYMBOL status)
        else Ok (BuildInjectionResult socket_path injected)).
End inject.

(** ** What ptrace and the clock promise

    The clock does not go back and a sleep lasts at least as long as asked.  A stopped
    process has registers and bytes of memory, by address; reading gives them and changes
    nothing, writing changes what was written. *)
Class PtraceLaws `{Ptrace} := {
  clock_of : World → Z;
  now_law : ∀ w, (instant_now w).1 = clock_of (instant_now w).2
                 ∧ clock_of w ≤ clock_of (instant_now w).2;
  sleep_law : ∀ d w, clock_of w + d ≤ clock_of (thread_sleep d w);
  wait_law : ∀ pid w, clock_of w ≤ clock_of (waitpid pid w).2;
  regs_of : World → Z → Regs;
  mem_of : World → Z → Z → Z;
  getregs_law : ∀ pid w r w', ptrace_getregs pid w = (inr r, w') →
    r = regs_of w pid ∧ regs_of w' pid = regs_of w pid
    ∧ ∀ a, mem_of w' pid a = mem_of w pid a;
  setregs_law : ∀ pid r w w', ptrace_setregs pid r w = (inr (), w') →
    regs_of w' pid = r ∧ ∀ a, mem_of w' pid a = mem_of w pid a;
  readv_law : ∀ pid a n w bytes w', process_vm_readv pid a n w = (inr bytes, w') →
    (∀ i b, bytes !! i = Some b → mem_of w pid (a + Z.of_nat i) = b)
    ∧ regs_of w' pid = regs_of w pid ∧ ∀ x, mem_of w' pid x = mem_of w pid x;
  writev_law : ∀ pid a bytes w n w', process_vm_writev pid a bytes w = (inr n, w') →
    regs_of w' pid = regs_of w pid
    ∧ (∀ i b, bytes !! i = Some b → Z.of_nat i < n → mem_of w' pid (a + Z.of_nat i) = b)
    ∧ ∀ x, (x < a ∨ a + len bytes ≤ x) → mem_of w' pid x = mem_of w pid x }.

Section laws.
Context `{Ptrace} `{ObjectCrate} `{!PtraceLaws}.

Lemma operation_ok {A} name (f : World → errno_result A * World) w a w' :
  operation name f w = (Ok a, w') → f w = (inr a, w').
Proof. unfold operation. destruct (f w) as [[e|b] w1]; by intros [= -> ->]. Qed.
Lemma clock_ok {E} w t w' :
  clock (E := E) w = (Ok t, w') → t = clock_of w' ∧ clock_of w ≤ clock_of w'.
Proof.
  unfold clock. pose proof (now_law w) as [Ht Hle]. destruct (instant_now w) as [now w1].
  by intros [= -> ->].
Qed.

(** ** Waiting ends *)
Lemma wait_loop_ends fuel : ∀ pid deadline w,
  deadline - clock_of w ≤ (Z.of_nat fuel - 1) * MILLISECOND → (0 < fuel)%nat →
  (wait_loop fuel pid deadline w).1 ≠ Panic.
Proof.
  induction fuel as [|fuel IH]; intros pid deadline w Hfuel Hpos; [lia|]. cbn [wait_loop].
  unfold mbind, io_bind, operation. pose proof (wait_law pid w) as Hw.
  destruct (waitpid pid w) as [[e|status] w1]; [done|]. cbn in Hw.
  destruct (status != WaitStatus.StillAlive); [done|]. unfold clock.
  pose proof (now_law w1) as [Ht Hle]. destruct (instant_now w1) as [now w2]. cbn in Ht, Hle. subst now.
  destruct (Z.leb_spec deadline (clock_of w2)); [done|]. unfold sleep.
  pose proof (sleep_law MILLISECOND w2). unfold MILLISECOND in *.
  destruct fuel as [|fuel]; [lia|]. apply IH; lia.
Qed.
Lemma wait_status_total pid timeout : 0 ≤ timeout → total (wait_status pid timeout).
Proof.
  intros Ht w. unfold wait_status, mbind, io_bind, clock.
  pose proof (now_law w) as [Hn Hle]. destruct (instant_now w) as [now w1]. cbn in Hn, Hle.
  unfold instant_checked_add. destruct (_ <? _); [|done]. cbn. unfold wait_fuel, MILLISECOND.
  pose proof (Z.div_pos timeout 1000000 Ht ltac:(lia)).
  apply wait_loop_ends; [|lia]. rewrite Z2Nat.id by lia. unfold MILLISECOND.
  pose proof (Z.mod_pos_bound timeout 1000000 ltac:(lia)).
  pose proof (Z.div_mod timeout 1000000 ltac:(lia)). lia.
Qed.

(** ** Memory *)
Lemma read_memory_ok pid a n w bytes w' :
  read_memory pid a n w = (Ok bytes, w') →
  len bytes = n ∧ (∀ i b, bytes !! i = Some b → mem_of w pid (a + Z.of_nat i) = b)
  ∧ regs_of w' pid = regs_of w pid ∧ ∀ x, mem_of w' pid x = mem_of w pid x.
Proof.
  unfold read_memory. intros Hr. io_steps. apply operation_ok, readv_law in Hio as (Hb & Hregs & Hm).
  destruct (Z.eqb_spec (len a0) n); simplify_eq/=. done.
Qed.
Lemma write_memory_ok pid a bytes w w' :
  write_memory pid a bytes w = (Ok (), w') →
  regs_of w' pid = regs_of w pid
  ∧ (∀ i b, bytes !! i = Some b → mem_of w' pid (a + Z.of_nat i) = b)
  ∧ ∀ x, (x < a ∨ a + len bytes ≤ x) → mem_of w' pid x = mem_of w pid x.
Proof.
  unfold write_memory. intros Hr. io_steps. apply operation_ok, writev_law in Hio as (Hregs & Hb & Hm).
  destruct (Z.eqb_spec a0 (len bytes)) as [->|]; [|done]. simplify_eq/=.
  split_and!; [done| |done]. intros i b Hi. apply Hb; [done|]. apply lookup_lt_Some in Hi.
  unfold len. lia.
Qed.
Lemma restore_ok pid sp bytes saved w w' :
  restore_call_state pid sp bytes saved w = (Ok (), w') →
  regs_of w' pid = saved
  ∧ (∀ i b, bytes !! i = Some b → mem_of w' pid (sp + Z.of_nat i) = b)
  ∧ ∀ x, (x < sp ∨ sp + len bytes ≤ x) → mem_of w' pid x = mem_of w pid x.
Proof.
  unfold restore_call_state. intros Hr. io_steps. destruct a.
  apply write_memory_ok in Hio as (_ & Hb & Hm). apply operation_ok, setregs_law in Hr as [Hregs Hs].
  split_and!; [done|..].
  - intros i b Hi. rewrite Hs. by apply Hb.
  - intros x Hx. rewrite Hs. by apply Hm.
Qed.
Lemma or_restore_ok {A} pid sp bytes saved (m : io InjectError A) w a w' :
  or_restore pid sp bytes saved m w = (Ok a, w') → m w = (Ok a, w').
Proof.
  unfold or_restore. destruct (m w) as [[b|e|] w1]; [done| |done].
  intros Hr. io_steps. done.
Qed.

Lemma land_not_15 z : Z.land z (Z.lnot 15) = z - z mod 16.
Proof.
  change 15 with (Z.ones 4). rewrite <-Z.ldiff_land, Z.ldiff_ones_r by done.
  rewrite Z.shiftl_mul_pow2, Z.shiftr_div_pow2 by done.
  change (2 ^ 4) with 16. pose proof (Z.div_mod z 16 ltac:(lia)). lia.
Qed.
(** The stack of the call: aligned as at the entry of a function, below the red zone. *)
Lemma call_stack_pointer_spec saved sp :
  call_stack_pointer saved = Some sp → (sp + 8) mod 16 = 0 ∧ 0 ≤ sp ∧ sp + 264 ≤ saved.
Proof.
  unfold call_stack_pointer, checked_sub_u64.
  destruct (Z.leb_spec 256 saved); [|done]. cbn [mbind option_bind].
  destruct (Z.leb_spec 8 (Z.land (saved - 256) (Z.lnot 15))); [|done]. intros [= <-].
  rewrite land_not_15 in *. pose proof (Z.mod_pos_bound (saved - 256) 16).
  replace (saved - 256 - (saved - 256) mod 16 - 8 + 8) with ((saved - 256) / 16 * 16)
    by (pose proof (Z.div_mod (saved - 256) 16 ltac:(lia)); lia).
  rewrite Z.mod_mul by done. lia.
Qed.

(** ** A remote call *)
Lemma remote_call_steps pid timeout function arguments w v w' :
  remote_call pid timeout function arguments w = (Ok v, w') →
  ∃ saved sp bytes w0 w1 w2 w3 w4 w5,
    ptrace_getregs pid w = (inr saved, w0) ∧ call_stack_pointer (rsp saved) = Some sp
    ∧ read_memory pid sp 8 w0 = (Ok bytes, w1)
    ∧ write_memory pid sp (replicate 8 0) w1 = (Ok (), w2)
    ∧ ptrace_setregs pid (call_registers saved function sp arguments) w2 = (inr (), w3)
    ∧ ptrace_cont pid w3 = (inr (), w4)
    ∧ execution pid timeout w4 = (Ok v, w5)
    ∧ restore_call_state pid sp bytes saved w5 = (Ok (), w').
Proof.
  unfold remote_call. destruct (6 <? len arguments); [done|]. intros Hr.
  apply io_bind_ok in Hr as (saved & w0 & Hregs%operation_ok & Hr).
  apply io_bind_ok in Hr as (sp & w0' & [Hsp ->]%lift_ok & Hr).
  apply io_bind_ok in Hr as (bytes & w1 & Hread & Hr).
  apply io_bind_ok in Hr as ([] & w2 & Hwrite & Hr).
  apply io_bind_ok in Hr as ([] & w3 & Hset%or_restore_ok%operation_ok & Hr).
  apply io_bind_ok in Hr as ([] & w4 & Hcont%or_restore_ok%operation_ok & Hr).
  apply io_bind_ok in Hr as (result & w5 & Hexec & Hr). unfold attempt in Hexec.
  destruct (execution pid timeout w4) as [r w5'] eqn:He. injection Hexec as -> ->.
  apply io_bind_ok in Hr as ([] & w5' & Hstop & Hr).
  apply io_bind_ok in Hr as ([] & w6 & Hrest & Hr). apply lift_ok in Hr as [-> ->].
  injection Hstop as <-. unfold or_panic in Hsp.
  destruct (call_stack_pointer (rsp saved)) as [sp'|] eqn:E; [|done]. injection Hsp as ->.
  eexists _, _, _, _, _, _, _, _, _. split_and!; eauto.
Qed.


(** ** Every call ends *)
Lemma total_operation {A} name (f : World → errno_result A * World) : total (operation name f).
Proof. intros w. unfold operation. by destruct (f w) as [[]]. Qed.
#[local] Hint Resolve total_operation : xprobe.
Lemma total_wait_for_stop pid timeout : 0 ≤ timeout → total (wait_for_stop pid timeout).
Proof.
  intros Ht. unfold wait_for_stop. apply total_bind; [by apply wait_status_total|].
  intros ? [] ? _; by apply total_lift.
Qed.
Lemma total_execution pid timeout : 0 ≤ timeout → total (execution pid timeout).
Proof.
  intros Ht. unfold execution, wait_for_call. total_steps. by apply wait_status_total.
Qed.
Lemma total_restore pid sp bytes saved : total (restore_call_state pid sp bytes saved).
Proof. unfold restore_call_state, write_memory. total_steps. Qed.
#[local] Hint Resolve total_wait_for_stop total_restore : xprobe.
Lemma total_or_restore {A} pid sp bytes saved (m : io InjectError A) :
  total m → total (or_restore pid sp bytes saved m).
Proof.
  intros Hm w. specialize (Hm w). unfold or_restore.
  destruct (m w) as [[a|e|] w1]; [done| |done]. 
  apply (total_bind (restore_call_state pid sp bytes saved) (λ _, lift (Err e)));
    [apply total_restore|]. intros. by apply total_lift.
Qed.
Lemma attempt_result {E A} (m : io E A) w r w' :
  attempt m w = (Ok r, w') → total m → r ≠ Panic.
Proof. unfold attempt. intros Ha Hm. specialize (Hm w). destruct (m w). by injection Ha as -> ->. Qed.

Lemma total_read pid address length : total (read_memory pid address length).
Proof. unfold read_memory. total_steps. Qed.
Lemma total_write pid address bytes : total (write_memory pid address bytes).
Proof. unfold write_memory. total_steps. Qed.
Lemma total_stopped pid timeout (result : res InjectError Z) : 0 ≤ timeout →
  total match result with
        | Err InjectError.TimedOut => ensure_stopped pid timeout
        | _ => mret ()
        end.
Proof. intros Ht. unfold ensure_stopped. total_steps. Qed.
Lemma bind_no_panic {E A B} (m : io E A) (f : A → io E B) w :
  (m w).1 ≠ Panic → (∀ a w1, m w = (Ok a, w1) → (f a w1).1 ≠ Panic) → ((m ≫= f) w).1 ≠ Panic.
Proof. unfold mbind, io_bind. destruct (m w) as [[a|e|] w1]; eauto. Qed.

(** C33: every remote call ends.  If the stack of the target leaves room, a call in the target
    returns a value or an error: the polls of a wait are bounded by its timeout, whatever
    the target does, also when the call has to be interrupted. *)
Theorem remote_call_ends (pid timeout function : Z) (arguments : list Z) (w : World)
    (Ht : 0 ≤ timeout) (Hstack : 272 ≤ rsp (regs_of w pid)) :
  (remote_call pid timeout function arguments w).1 ≠ Panic.
Proof.
  unfold remote_call. destruct (6 <? len arguments); [done|].
  apply bind_no_panic; [apply total_operation|]. intros saved w1 Hregs%operation_ok%getregs_law.
  destruct Hregs as [-> _]. apply bind_no_panic.
  { apply total_lift. unfold call_stack_pointer, checked_sub_u64.
    destruct (Z.leb_spec 256 (rsp (regs_of w pid))); [|lia]. cbn [mbind option_bind].
    destruct (Z.leb_spec 8 (Z.land (rsp (regs_of w pid) - 256) (Z.lnot 15))) as [|Hl]; [done|].
    rewrite land_not_15 in Hl. Z.div_mod_to_equations. lia. }
  intros sp w2 _. apply bind_no_panic; [apply total_read|]. intros bytes w3 _.
  apply bind_no_panic; [apply total_write|]. intros _ w4 _.
  apply bind_no_panic; [apply total_or_restore, total_operation|]. intros _ w5 _.
  apply bind_no_panic; [apply total_or_restore, total_operation|]. intros _ w6 _.
  apply bind_no_panic; [unfold attempt; by destruct (execution pid timeout w6)|].
  intros result w7 Hresult%attempt_result; [|by apply total_execution].
  apply bind_no_panic; [by apply total_stopped|].
  intros _ w8 _. apply bind_no_panic; [apply total_restore|]. intros _ w9 _. exact Hresult.
Qed.
End laws.
