(* ===== verification/Examples.v ===== *)
(** * Concrete captures

    Witnesses: the theorems that have hypotheses are applied to concrete
    events, with concrete instances of the two outside libraries. *)
From S2P Require Import Prelude BTree RustString Protocol Selector Correlate.
From S2P Require Import Lifecycle GroupPairs Exact Greedy Nearest StackNested Measure.
#[local] Open Scope Z_scope.

(** JSON values, and patterns that match exactly themselves. *)
Inductive json : Type :=
| JString (s : string)
| JNumber (z : Z)
| JBool (b : bool)
| JArray (l : list json).
#[global] Instance example_json : SerdeJson := {|
  Value := json;
  as_str := λ v, match v with JString s => Some s | _ => None end;
  value_string := JString;
  value_number := JNumber;
  value_bool := JBool;
  value_array := JArray;
  as_str_string := λ s, eq_refl;
  as_str_number := λ z, eq_refl |}.
#[global] Instance example_regex : RegexEngine := {|
  Regex := string;
  Regex_new := λ pattern, Ok pattern;
  Regex_new_no_panic := λ pattern E, match E with eq_refl => I end;
  is_match := λ pattern text, pattern == text |}.

(** A memset activity record of the given boundary. *)
Definition memset_event (event_type : EventType) (timestamp : Z) : Event :=
  BuildEvent SchemaVersion.V2 "s" "e" 0 EventSource.CuptiActivity event_type 1 1 None
    timestamp timestamp ClockDomain.CuptiNormalizedToHostMonotonic (Some 5) None None
    (Some (BuildCudaEvent (Some 0) (Some 1) (Some 7) (Some 3) None None None None None None
             None None None None None)) None [].
Definition starts : list Event :=
  [memset_event EventType.GpuMemsetStart 10; memset_event EventType.GpuMemsetStart 20].
Definition ends : list Event :=
  [memset_event EventType.GpuMemsetEnd 15; memset_event EventType.GpuMemsetEnd 18;
   memset_event EventType.GpuMemsetEnd 25].
Definition options : MeasureOptions :=
  BuildMeasureOptions "s" None "cuda:memset_start" "cuda:memset_end" MatchPolicy.FirstAfter
    (Some 10) (Some 100) 1000 0.

Lemma starts_sorted : time_sorted starts.
Proof. unfold starts. repeat constructor; unfold earlier; simpl; lia. Qed.
Lemma ends_sorted : time_sorted ends.
Proof. unfold ends. repeat constructor; unfold earlier; simpl; lia. Qed.
Lemma options_ok : options_wf options.
Proof. unfold options_wf, options. simpl. split_and!; intros; simplify_eq; lia. Qed.

(** ** Correlators *)
Lemma first_after_refines_witness :
  0 ≤ 1 ∧ ∃ out, correlate_first_after starts ends (Some 1) = Some out
    ∧ out_pairs out = take 1 (greedy starts ends).
Proof.
  split; [lia|]. assert (0 ≤ default usize_max (Some 1)) as Hl by (simpl; lia).
  destruct (first_after_refines starts ends (Some 1) Hl) as (out & Hout & Hpairs & _).
  by exists out.
Defined.

Lemma first_after_maximum_witness :
  len [BuildPair (memset_event EventType.GpuMemsetStart 10)
         (memset_event EventType.GpuMemsetEnd 18) 8] ≤ 2.
Proof.
  destruct (correlate_first_after starts ends None) as [out|] eqn:Hout; [|discriminate Hout].
  assert (len (out_pairs out) = 2) as Hlen by (injection Hout as <-; reflexivity).
  rewrite <-Hlen. apply (first_after_maximum starts ends None out).
  - apply starts_sorted.
  - apply ends_sorted.
  - exact Hout.
  - rewrite Hlen. reflexivity.
  - split; simpl; [apply submseteq_skip, submseteq_nil_l|].
    apply submseteq_cons, submseteq_skip, submseteq_nil_l.
  - repeat constructor. unfold earlier. simpl. lia.
Defined.

Lemma first_after_earliest_witness :
  memset_event EventType.GpuMemsetEnd 15 ∈
    pair_end <$> [BuildPair (memset_event EventType.GpuMemsetStart 10)
                    (memset_event EventType.GpuMemsetEnd 15) 5].
Proof.
  destruct (correlate_first_after
    [memset_event EventType.GpuMemsetStart 10; memset_event EventType.GpuMemsetStart 15]
    ends None) as [out|] eqn:Hout; [|discriminate Hout].
  apply (first_after_earliest
    [memset_event EventType.GpuMemsetStart 10; memset_event EventType.GpuMemsetStart 15]
    ends None out _ []
    (BuildPair (memset_event EventType.GpuMemsetStart 15)
       (memset_event EventType.GpuMemsetEnd 18) 3)).
  - repeat constructor; unfold earlier; simpl; lia.
  - apply ends_sorted.
  - simpl. unfold usize_max, u64_max. lia.
  - exact Hout.
  - injection Hout as <-. reflexivity.
  - by left.
  - simpl. lia.
  - simpl. lia.
Defined.

Lemma nearest_refines_witness :
  ∃ out rest, correlate_nearest starts ends (Some 2) = Some out
    ∧ nearest_run (take (length (out_pairs out)) starts) ends (out_pairs out) rest.
Proof.
  assert (0 ≤ default usize_max (Some 2)) as Hl by (simpl; lia).
  destruct (nearest_refines starts ends (Some 2) Hl) as (out & rest & Hout & Hrun & _).
  by exists out, rest.
Defined.

Lemma stack_nested_refines_witness :
  ∃ P us ue, correlate_stack_nested starts ends (Some 1)
    = Some (BuildOutcome (sort_pairs (take 1 P)) us ue 0).
Proof.
  assert (0 ≤ default usize_max (Some 1)) as Hl by (simpl; lia).
  destruct (stack_nested_refines starts ends (Some 1) Hl) as (P & us & ue & Hout & _).
  by exists P, us, ue.
Defined.

(** ** Measurement *)
Lemma measure_never_panics_witness : measure (starts ++ ends) options ≠ Panic.
Proof.
  apply measure_never_panics; [apply options_ok|]. vm_compute. discriminate.
Defined.

(** The measurement of the example capture succeeds. *)
Definition example_result : res MeasureError MeasurementResult :=
  measure (starts ++ ends) options.
Lemma example_measured : ∃ r, example_result = Ok r.
Proof. vm_compute. by eexists. Qed.

Lemma measure_evidence_witness :
  ∃ r, measure (starts ++ ends) options = Ok r ∧ mr_evidence r ≠ [].
Proof.
  destruct example_measured as [r Hr]. exists r. split; [exact Hr|].
  destruct (measure_evidence (starts ++ ends) options r options_ok Hr)
    as (? & ? & _ & _ & Hne & _). exact Hne.
Defined.
Lemma measure_statistics_witness :
  ∃ r, measure (starts ++ ends) options = Ok r
    ∧ statistics_ok (mp_latency_ns <$> mr_evidence r) (meas_latency_ns (mr_measurement r)).
Proof.
  destruct example_measured as [r Hr]. exists r. split; [exact Hr|].
  apply (measure_statistics (starts ++ ends) options r options_ok); [|exact Hr].
  vm_compute. discriminate.
Defined.
Lemma measure_clock_witness :
  ∃ r, measure (starts ++ ends) options = Ok r
    ∧ ∀ x y, x ∈ evidence_events r → y ∈ evidence_events r →
        clock_group (ev_clock_domain x) = clock_group (ev_clock_domain y).
Proof.
  destruct example_measured as [r Hr]. exists r. split; [exact Hr|].
  apply (measure_clock (starts ++ ends) options r options_ok Hr).
Defined.
