(* ===== verification/HostExamples.v ===== *)
(** * A concrete host

    Witnesses for the theorems about the host side: a system with one process,
    whose files never change, and an object file with one symbol. *)
From S2P Require Import Prelude BTree RustString Text Bytes Ring Protocol Selector Measure Examples.
From S2P Require Import Os Process CuptiCompat Inspect Doctor Resolve Uprobe Usdt Syscalls.
From S2P Require Import Validate SyscallAggregate Linux Bpf.
#[local] Open Scope Z_scope.

(** ** The process *)
Definition stat_fields : list string :=
  ["R"; "1"; "42"; "42"; "0"; "-1"; "0"; "0"; "0"; "0"; "0"; "0"; "0"; "0"; "0"; "20"; "0"; "1";
   "0"; "777"; "0"]%string.
Definition nl (s : string) : string := s +:+ String newline EmptyString.
Definition status_text : string :=
  nl "Uid:	1000	0	0	0" +:+ nl "Gid:	1000	0	0	0" +:+ nl "NSpid:	42".
Definition maps_text : string := nl "1000-3000 r-xp 00000000 08:01 7 /bin/app".

Definition missing_file : IoError := BuildIoError ErrorKind.NotFound "not found" (Some 2).
Definition found {A} (o : option A) : syscall_result A :=
  match o with Some a => inr a | None => inl missing_file end.
#[global] Instance example_os : Os := {|
  World := ();
  fs_read_to_string := λ path w,
    (found (assoc path
       [("/proc/42/stat", stat_line "42" "my (app) 1" stat_fields);
        ("/proc/42/status", status_text); ("/proc/42/cgroup", nl "0::/user");
        ("/proc/42/maps", maps_text);
        ("/proc/43/stat", stat_line "43" "other" stat_fields);
        ("/proc/1/stat", stat_line "1" "init" ("S" :: "0" :: drop 2 stat_fields));
        ("/proc/1/cgroup", nl "0::/init");
        ("/proc/self/status", nl "Uid:	0	0	0	0" +:+ nl "CapEff:	0");
        ("/proc/sys/kernel/osrelease", nl "6.8.0")]%string), w);
  fs_read := λ path w,
    (found (assoc path [("/proc/42/cmdline"%string, bytes_of_string "app" ++ [0]);
                        ("/bin/app"%string, [127; 69; 76; 70])]), w);
  fs_read_link := λ path w,
    (found (assoc path [("/proc/42/exe", "/bin/app"); ("/proc/42/ns/mnt", "mnt:[1]");
                        ("/proc/self/ns/pid", "pid:[1]")]%string), w);
  fs_canonicalize := λ path w,
    (found (assoc path [("/bin/app", "/bin/app"); ("/link/app", "/bin/app")]%string), w);
  fs_metadata := λ path w, (found None, w);
  fs_try_exists := λ path w, (inr false, w);
  fs_read_dir := λ path w,
    (found (assoc path [("/proc/42/task"%string, [inr (bytes_of_string "42")])]), w);
  command_output := λ program arguments w,
    (found (assoc program
       [("nvidia-smi"%string, BuildOutput true (Some 0) "exit status: 0"
           (bytes_of_string (nl "42, GPU-a" +:+ nl "43, GPU-b")) [])]), w) |}.
Definition now : World := ().
(** The object has one defined function at 0x1100 in a segment of the file. *)
#[global] Instance example_object : ObjectCrate := {|
  object_parse := λ bytes, inr (BuildObjectFile ObjectKind.Dynamic (inr None)
    [BuildObjectSymbol true true (Some "handle"%string) 4352 16] []
    [BuildObjectSegment 4096 0 4096]);
  cpp_demangle := λ name, None |}.
#[global] Instance example_notes : NoteParser := λ bytes, inr (BuildNoteObject None true true).

Definition capabilities : Capabilities := BuildCapabilities true true true false false true.
Definition report : ProcessReport :=
  BuildProcessReport SchemaVersion.V2 true (BuildTargetIdentity 42 777) "/bin/app" ["app"%string]
    (BuildProcessCredentials 1000 0 0 0 1000 0 0 0) [42] "mnt:[1]" [] []
    (BuildProcessCudaState false false false
       (BuildCheckResult CheckStatus.Unavailable None)) capabilities.

(** ** Inspection *)
Lemma start_time_any_command_witness :
  parse_start_time (stat_line "42" "my (app) 1" stat_fields) "/proc/42/stat" = Ok 777.
Proof.
  apply (start_time_any_command "42" "my (app) 1" stat_fields "/proc/42/stat" "777" 777).
  - repeat constructor.
  - reflexivity.
  - reflexivity.
Defined.
Lemma inspected : ∃ r, inspect_run (mret capabilities) 42 now = (Ok r, now).
Proof. vm_compute. by eexists. Qed.
Lemma inspect_run_identity_witness :
  ∃ r, inspect_run (mret capabilities) 42 now = (Ok r, now) ∧ target_pid (pr_target r) = 42.
Proof.
  destruct inspected as [r Hr]. exists r. split; [exact Hr|].
  apply (inspect_run_identity (mret capabilities) 42 now now r Hr).
Defined.
Lemma doctor_uid_is_real_witness :
  parse_status_u32 status_text "Uid:" "/proc/self/status" = Ok 1000.
Proof.
  apply (doctor_uid_is_real status_text "/proc/self/status" 42
           (BuildProcessCredentials 1000 0 0 0 1000 0 0 0)).
  vm_compute. reflexivity.
Defined.

(** ** Resolution and collection *)
Definition entry_text : string := "uprobe:/bin/app:handle:entry".
Definition link_text : string := "uprobe:/link/app:handle:entry".
Lemma resolved text : text = entry_text ∨ text = link_text →
  ∃ probe, resolve_run report text now = (Ok probe, now) ∧ rp_binary_path probe = "/bin/app"%string.
Proof. intros [->| ->]; vm_compute; eexists; split; reflexivity. Qed.

Definition raw : RawEvent := BuildRawEvent 1000 9 42 43 2 1.
Lemma uprobe_collection_witness :
  ring_consume raw_event_decode 2 ([], None) (raw_event_encode <$> [raw; raw; raw])
  = Some (([raw; raw], None), 0).
Proof.
  apply (uprobe_collection 2 [raw; raw; raw] [] []).
  repeat constructor; vm_compute; discriminate.
Defined.

(** The path written as a symbolic link: the event of the probe is not matched. *)
Lemma collected_events_match_witness :
  ∃ s probe, parse_selector link_text = Ok s ∧ resolve_run report link_text now = (Ok probe, now)
    ∧ let request := capture_request (pr_target report) probe 0 10 1000 in
      selector_matches (host_selector s)
        (normalize_event raw request "session" (ur_binary request)) = false.
Proof.
  destruct (resolved link_text) as (probe & Hr & Hpath); [by right|].
  destruct (collected_events_match report link_text now now probe raw "session" 0 10 1000 Hr)
    as (s & Hs & _ & Hiff).
  exists s, probe. split; [exact Hs|]. split; [exact Hr|]. cbv zeta in Hiff |- *.
  destruct (selector_matches _ _); [|reflexivity].
  assert (ps_binary s = "/link/app"%string) as Hb by (vm_compute in Hs; by injection Hs as <-).
  rewrite Hb, Hpath in Hiff. discriminate (proj1 Hiff eq_refl).
Defined.

Lemma stapsdt_notes_total_witness : parse_stapsdt_notes [1; 2; 3] true true ≠ Panic.
Proof. apply stapsdt_notes_total. repeat constructor; discriminate. Defined.

(** ** Validation *)
Definition return_text : string := "uprobe:/bin/app:handle:return".
Lemma validated :
  ∃ r, validate_run report entry_text return_text "stack-nested" now = (Ok r, now).
Proof. vm_compute. by eexists. Qed.
Lemma validated_selectors_measurable_witness :
  ∃ r, validate_run report entry_text return_text "stack-nested" now = (Ok r, now)
    ∧ (vres_valid r = true ↔ vres_issues r = []).
Proof.
  destruct validated as [r Hr]. exists r. split; [exact Hr|].
  apply (validated_selectors_measurable report entry_text return_text "stack-nested" now now r Hr).
Defined.

Definition nvtx_text : string := "cuda:nvtx_range_start:name~step".
Definition nvtx_endpoint : Endpoint :=
  BuildEndpoint
    (BuildValidatedEndpoint nvtx_text EndpointSource.Cuda EventType.NvtxRangeStart true None None
       (Some (cuda_selector EventType.NvtxRangeStart None (Some "step"%string) None)))
    (EndpointKind.NvtxRange "step").
Lemma recommend_policy_spec_witness :
  ∃ r, recommend_policy nvtx_endpoint nvtx_endpoint = Some r
    ∧ head (rec_compatible_policies r) = Some (rec_policy r).
Proof.
  destruct (recommend_policy_spec nvtx_endpoint nvtx_endpoint) as (r & Hr & Hhead & _);
    [reflexivity..|].
  by exists r.
Defined.
(** The same NVTX range start twice: no issue for the validator, refused by the
    correlator. *)
Lemma accepted_policies_witness :
  check_policy nvtx_endpoint nvtx_endpoint MatchPolicy.Exact = Some ([], [])
  ∧ ∃ s f, selector_parse nvtx_text = Ok s ∧ selector_parse nvtx_text = Ok f
      ∧ validate_policy s f MatchPolicy.Exact ≠ Ok ().
Proof.
  split; [reflexivity|].
  destruct (accepted_policies report nvtx_text nvtx_text now now now now nvtx_endpoint
    nvtx_endpoint MatchPolicy.Exact []) as (s & f & Hs & Hf & Hiff); [vm_compute; reflexivity..|].
  exists s, f. split; [exact Hs|]. split; [exact Hf|].
  intros Hok. apply (proj1 Hiff Hok). vm_compute in Hs, Hf.
  injection Hs as <-. injection Hf as <-. by intros [_ ?].
Defined.

(** ** System call aggregation *)
Definition cells : list Cell := [BuildCell 2 1 30 10 20; BuildCell 0 0 0 0 0; BuildCell 1 0 5 5 5].
Lemma sum_group_refines_witness :
  sum_group 0 (encode_cell <$> reverse cells) = Ok (BuildRawSyscallGroup 0 3 1 35 5 20).
Proof.
  apply (sum_group_refines 0 cells (reverse cells) [] []).
  - repeat constructor; vm_compute; discriminate.
  - symmetry. apply reverse_Permutation.
Defined.
Definition capture : SyscallCapture :=
  BuildSyscallCapture [BuildRawSyscallGroup 0 3 1 35 5 20; BuildRawSyscallGroup 1 0 0 0 0 0]
    3 3 0 0 0.
Definition spec : SyscallAggregateSpec :=
  BuildSyscallAggregateSpec None (BuildTargetIdentity 42 777) 1000 2000 64 64.
Lemma analyzed : ∃ r, syscall_analyze report spec "session" capture now = (Ok r, now).
Proof. vm_compute. by eexists. Qed.
Lemma syscall_inventory_witness :
  ∃ r, syscall_analyze report spec "session" capture now = (Ok r, now)
    ∧ cs_completeness (sa_collection r) = SyscallAggregateCompleteness.Complete.
Proof.
  destruct analyzed as [r Hr]. exists r. split; [exact Hr|].
  destruct (syscall_inventory report spec "session" capture now now r Hr) as (_ & _ & Hc & _).
  by apply Hc.
Defined.

(** ** Linux endpoints *)
Definition read_entry : ResolvedLinuxSelector :=
  BuildResolvedLinuxSelector EventType.SyscallEntry HostProbeKind.Syscall "syscalls" "read"
    (Some 0) None None.
Definition read_exit : ResolvedLinuxSelector :=
  BuildResolvedLinuxSelector EventType.SyscallExit HostProbeKind.Syscall "syscalls" "read"
    (Some 0) None None.
Definition linux_request : LinuxCaptureRequest :=
  BuildLinuxCaptureRequest (BuildTargetIdentity 42 777) [read_entry; read_exit] 10 false 1000.
Definition linux_raw : LinuxRawEvent := BuildLinuxRawEvent 5 1 [3; 0; 0; 0; 0; 0] 42 43 0 2.
Lemma linux_endpoints :
  ∃ e e', resolve_endpoint report "syscall:read:entry" "start" now = (Ok e, now)
    ∧ resolve_endpoint report "syscall:read:exit" "end" now = (Ok e', now)
    ∧ ve_linux (ep_public e) = Some read_entry ∧ ve_linux (ep_public e') = Some read_exit.
Proof. vm_compute. eexists _, _. split_and!; reflexivity. Qed.
(** An exit record is not matched by the entry selector. *)
Lemma linux_events_match_witness :
  ∃ s event, selector_parse "syscall:read:entry" = Ok s
    ∧ linux_normalize_event linux_raw linux_request "session" = Ok event
    ∧ selector_matches s event = false.
Proof.
  destruct linux_endpoints as (e & e' & He & He' & Hl & Hl').
  destruct (linux_events_match report "syscall:read:entry" "syscall:read:exit" now now now now
              e e' read_entry read_exit linux_request linux_raw "session" He He' Hl Hl')
    as (s & event & Hs & Hev & Hiff); [done|done|].
  exists s, event. split; [exact Hs|]. split; [exact Hev|].
  destruct (selector_matches s event); [|done]. by destruct (proj1 Hiff eq_refl).
Defined.

Definition linux_env : bpf_env := Build_bpf_env (λ _ _, Some (42, 43)) 5 0 true.
Definition registers : xprobe_registers := Build_xprobe_registers 0 0 0 100 200 3 0.
Definition bpf_start : bpf_linux_state := Build_bpf_linux_state 0 0 [].
Lemma linux_request_typed : request_typed linux_request 4 4026531836.
Proof. repeat constructor; vm_compute; done. Qed.
Lemma linux_task : target_task linux_request 4 4026531836 linux_env 43.
Proof. constructor; repeat constructor; vm_compute; done. Qed.
Lemma invalid_syscall_misattributed_witness :
  ∃ event, linux_normalize_event
      (syscall_record linux_request linux_env 43 bpf_start 1 (entry_values registers))
      linux_request "session" = Ok event
    ∧ selector_matches (Syscall EventType.SyscallExit "read") event = true.
Proof.
  destruct (invalid_syscall_misattributed linux_request 4 4026531836 read_entry read_exit 0
              linux_env 43 registers bpf_start "session") as (_ & event & host & Hev & Hm & _).
  - reflexivity.
  - exact linux_request_typed.
  - exact linux_task.
  - repeat constructor; vm_compute; done.
  - reflexivity.
  - reflexivity.
  - by eexists.
  - reflexivity.
  - reflexivity.
  - exists event. split; [exact Hev|exact Hm].
Defined.
