(* ===== verification/BpfExamples.v ===== *)
(** * A concrete libbpf

    Witnesses for the theorems about the BPF programs and their collectors: a kernel whose
    calls all succeed, with a clock, the configuration written last and the records waiting
    in the ring buffer. *)
From stdpp Require Import gmap.
From S2P Require Import Prelude BTree RustString Text Bytes Ring Protocol Selector Measure Examples.
From S2P Require Import Os Process Inspect Resolve Uprobe Usdt Syscalls Validate Linux Bpf.
From S2P Require Import Session SyscallAggregate BpfAggregate BpfCollect.
#[local] Open Scope Z_scope.

Record Kernel := BuildKernel {
  kn_clock : Z;
  kn_config : list Z;
  kn_records : list (list Z) }.
Definition refused : IoError := BuildIoError ErrorKind.Other "refused" None.
#[local] Instance kernel_os : Os := {|
  World := Kernel;
  fs_read_to_string := λ _ w, (inl refused, w);
  fs_read := λ _ w, (inl refused, w);
  fs_read_link := λ _ w, (inl refused, w);
  fs_canonicalize := λ _ w, (inl refused, w);
  fs_metadata := λ _ w, (inl refused, w);
  fs_try_exists := λ _ w, (inl refused, w);
  fs_read_dir := λ _ w, (inl refused, w);
  command_output := λ _ _ w, (inl refused, w) |}.
Definition tick (d : Z) (w : Kernel) : Kernel :=
  BuildKernel (kn_clock w + Z.max 0 d) (kn_config w) (kn_records w).
Definition one_group : list Z := to_le_bytes 4 0.
#[local] Instance kernel_libbpf : Libbpf := {|
  BpfObject := unit;
  bpf_name := λ _ w, (inr (), w);
  bpf_open := λ w, (inr (), w);
  bpf_load := λ _ w, (inr (), tick 50 w);
  bpf_has_map := λ _ _, true;
  bpf_has_program := λ _ _, true;
  bpf_set_max_entries := λ _ _ _ w, (inr (), w);
  bpf_update := λ _ _ _ value w, (inr (), BuildKernel (kn_clock w) value (kn_records w));
  bpf_lookup := λ _ name _ w,
    (inr (Some (if bool_decide (name = "linux_dropped"%string) then replicate 8 0
                else if bool_decide (name = "syscall_aggregate_summary"%string)
                then encode_fields [1; 1; 0; 0]
                else kn_config w)), w);
  bpf_lookup_percpu := λ _ _ _ w,
    (inr (Some [encode_cell (BuildCell 1 0 30 30 30); encode_cell (BuildCell 0 0 0 0 0)]), w);
  bpf_keys := λ _ name w,
    (if bool_decide (name = "syscall_aggregate_groups"%string) then [one_group] else [], w);
  bpf_attach := λ _ _ w, (inr (), w);
  ring_add := λ _ _ w, (inr (), w);
  ring_build := λ _ w, (inr (), w);
  ring_poll := λ _ wait w,
    match kn_records w with
    | [] => (([], None), tick wait w)
    | records => ((records, None), BuildKernel (kn_clock w) (kn_config w) [])
    end;
  monotonic_now := λ w, (kn_clock w, w);
  sleep_for := tick;
  load_cancelled := λ w, (false, w);
  send_ready := λ w, (true, w);
  process_id := λ w, (9, w);
  next_session := λ w, (1, w);
  fs_dev_ino := λ _ w, (inr (4, 4026531836), w) |}.
#[local] Instance kernel_laws : LibbpfLaws.
Proof.
  refine (@Build_LibbpfLaws kernel_os kernel_libbpf kn_clock _ _ _ _ _ _ _ _ _ _ _ _ _ _ _ _ _).
  - done.
  - intros d w Hd. cbn. lia.
  - intros object wait w Hw. cbn. destruct (kn_records w); [|done]. intros _. cbn. lia.
  - intros w. cbn. lia.
  - intros object wait w. cbn. destruct (kn_records w); cbn; lia.
  - intros w. cbn. lia.
  - intros w. cbn. lia.
  - intros name w. cbn. lia.
  - intros w. cbn. lia.
  - intros object w. cbn. lia.
  - intros object name n w. cbn. lia.
  - intros object name key value w. cbn. lia.
  - intros object name key w. cbn. lia.
  - intros object attachment w. cbn. lia.
  - intros object name w. cbn. lia.
  - intros object w. cbn. lia.
  - intros path w. cbn. lia.
Defined.

(** ** Captures *)
Definition exit_probe : ResolvedLinuxSelector :=
  BuildResolvedLinuxSelector EventType.SyscallExit HostProbeKind.Syscall "syscalls" "read"
    (Some 0) None None.
Definition exit_request : LinuxCaptureRequest :=
  BuildLinuxCaptureRequest (BuildTargetIdentity 42 777) [exit_probe] 3 false 250000000.
Definition exit_record : LinuxRawEvent := BuildLinuxRawEvent 5 1 [3; 0; 0; 0; 0; 0] 42 43 0 1.
Definition booted : World := BuildKernel 1000 [] [linux_event_encode exit_record].
Definition captured := linux_capture exit_request true booted.


Definition aggregate_request : SyscallAggregateRequest :=
  BuildSyscallAggregateRequest (BuildTargetIdentity 42 777) 25000000 30000000 64 64.
Definition aggregated := syscall_collect aggregate_request booted.
Lemma syscall_collect_window_witness :
  match aggregated with
  | (Ok capture, w') => cap_matched_exits capture = 1
      ∧ ∃ w2 w3, kn_clock w2 + 25000000 ≤ kn_clock w3
  | _ => False
  end.
Proof.
  destruct (syscall_collect_window aggregate_request booted) as (_ & Hok & _); [vm_compute; done|].
  fold aggregated in Hok. destruct aggregated as [[c|e|] w'] eqn:E;
    [|exfalso; vm_compute in E; congruence..].
  destruct (Hok c w' eq_refl) as (object & w1 & w2 & w3 & w4 & group_map & summary & inflight
    & _ & _ & Hwindow & _).
  split; [vm_compute in E; injection E as <- _; reflexivity|]. exists w2, w3. exact Hwindow.
Defined.

(** ** Programs *)
Definition task (thread : Z) (time : Z) (cpu : nat) : aggregate_env :=
  Build_aggregate_env (λ _ _, Some (42, thread)) time cpu true [] true.
(** Two threads on two CPUs make the same call; one call fails. *)
Definition two_calls : list aggregate_run :=
  [Entry (task 42 100 0) 0; Entry (task 43 110 1) 0; Exit (task 42 130 1) 5;
   Exit (task 43 180 0) (2 ^ 64 - 4); Entry (task 42 200 0) 1].
Definition two_calls_maps : aggregate_maps :=
  aggregate_runs 2 64 (config_of 4 5 aggregate_request 1) two_calls.
Definition two_calls_observed : observed :=
  observe 64 (config_of 4 5 aggregate_request 1) two_calls.
Lemma two_calls_fit : durations_fit (ob_calls two_calls_observed).
Proof. split; [|split]; [|by vm_compute..]. repeat constructor; by vm_compute. Qed.
Lemma syscall_aggregate_exact_witness :
  ∃ capture,
    read_capture (encode_group <$> map_to_list (am_groups two_calls_maps))
      (encode_summary (am_summary two_calls_maps))
      (to_le_bytes 4 <$> (map_to_list (am_inflight two_calls_maps)).*1) = Ok capture
    ∧ cap_groups capture ≡ₚ [BuildRawSyscallGroup 0 2 1 100 30 70]
    ∧ cap_observed_entries capture = 3.
Proof.
  destruct (syscall_aggregate_exact 2 4 5 aggregate_request two_calls
    (map_to_list (am_groups two_calls_maps))
    (to_le_bytes 4 <$> (map_to_list (am_inflight two_calls_maps)).*1)) as (bytes & armed & disarmed
    & capture & _ & _ & _ & Hread & Hgroups & Hentries & _).
  - by vm_compute.
  - repeat constructor; vm_compute; lia.
  - by vm_compute.
  - exact two_calls_fit.
  - reflexivity.
  - reflexivity.
  - exists capture. split; [exact Hread|]. split.
    + rewrite Hgroups. vm_compute. reflexivity.
    + rewrite Hentries. vm_compute. reflexivity.
Defined.
