(* ===== verification/CpuExamples.v ===== *)
(** * CPU sampling, injection and discovery on the concrete host

    Witnesses for the theorems about the CPU profile and about the processes the program
    finds and calls into: the host of [HostExamples], a kernel that delivers two samples,
    and a process that returns from every call. *)
From S2P Require Import Prelude BTree RustString Text Bytes Protocol Selector Measure Examples.
From S2P Require Import Os Process Inspect Doctor Discover Resolve Validate HostExamples Session.
From S2P Require Import CpuAnalysis CpuSymbols CpuSampling CpuCollect CpuCommand Inject.
#[local] Open Scope Z_scope.

(** ** The profile *)
Definition cpu_spec : CpuSamplingSpec :=
  BuildCpuSamplingSpec None (BuildTargetIdentity 42 777) 99 10 1000 100 10 16 8.
Definition two_samples : list PerfRecord :=
  [Sample None (Some [OtherChain; UserChain [4360; 5000]]); Sample (Some 4360) None; OtherRecord].
Definition perf_kernel (request : CpuSamplingRequest) : Perf :=
  BuildPerf 0 (λ _, BuildPerfThread 0 None None None None) 0
    [BuildPerfRound 0 1 (λ _, two_samples);
     BuildPerfRound (cq_duration request) (cq_duration request) (λ _, [])]
    (λ _, []) (cq_duration request).
Definition perf_collector (request : CpuSamplingRequest) : res CpuCollectorError CpuSampleCapture :=
  default Panic (collect (perf_kernel request) request).2.
Lemma arrived_wf tids (arrivals : Arrivals) :
  (∀ i r, r ∈ arrivals i → record_wf (0, r)) → Forall record_wf (arrived tids arrivals).
Proof.
  intros Hwf. unfold arrived. revert arrivals Hwf. induction tids as [|tid tids IH];
    intros arrivals Hwf; [constructor|]. cbn [imap concat]. apply Forall_app. split.
  - apply Forall_fmap, Forall_forall. intros r Hr. by apply (Hwf 0%nat r).
  - apply (IH (λ i, arrivals (S i))). intros i r. apply Hwf.
Qed.
Lemma perf_kernel_wf request : perf_wf (perf_kernel request).
Proof.
  intros tids. unfold round_records. cbn. rewrite app_nil_r. repeat (apply Forall_app; split);
    apply arrived_wf; intros i r Hr; [|by apply not_elem_of_nil in Hr..].
  repeat (apply elem_of_cons in Hr as [->|Hr]; [done|]). by apply not_elem_of_nil in Hr.
Qed.
Lemma perf_collects request :
  (collect (perf_kernel request) request).2 = Some (perf_collector request).
Proof.
  unfold perf_collector. destruct (collect_returns (perf_kernel request) request) as (calls & r & ->);
    [|done].
  intros deadline. unfold instant_checked_add. destruct (_ <? _); [|done]. intros [= <-].
  apply Exists_cons. right. apply Exists_cons. left. cbn. lia.
Qed.
Definition cpu_run : res CuptiFilter.CommandFailure CpuSampleInventoryResult * World :=
  run_cpu_sampling_spec perf_collector 7 cpu_spec (Some report) now.
Lemma cpu_ran : ∃ result, cpu_run = (Ok result, now)
  ∧ ccl_completeness (cir_collection result) = CpuCaptureCompleteness.Complete.
Proof. vm_compute. eexists. split; reflexivity. Qed.

Definition cpu_request : CpuSamplingRequest :=
  BuildCpuSamplingRequest [42; 43] 99 10 1000 100 8 16.

Definition empty_symbolizer : Symbolizer := BuildSymbolizer [] [] [] PythonSymbolizationStatus.NotDetected [].
Definition cpu_capture : CpuCaptureData :=
  BuildCpuCaptureData [BuildRawCpuSample 42 [1; 2]; BuildRawCpuSample 42 [1; 2]] 2 0 0 0 1 1 []
    false PythonSymbolizationStatus.NotDetected.
Lemma cpu_inventory_exact_witness :
  ∃ r, analyze_capture report cpu_spec "session" cpu_capture empty_symbolizer = Ok r
    ∧ (λ g, (fr_address <$> csg_frames g, csg_samples g)) <$> cir_stack_groups r = [([1; 2], 2)].
Proof.
  destruct (cpu_inventory_exact report cpu_spec "session" cpu_capture empty_symbolizer)
    as (r & all & hot & Hrun & _).
  - by vm_compute.
  - constructor.
  - by vm_compute.
  - exists r. split; [exact Hrun|]. vm_compute in Hrun. by injection Hrun as <-.
Defined.

Definition app_symbolizer : Symbolizer :=
  match symbolizer_load report PythonSymbolizationStatus.NotDetected now with
  | (Ok s, _) => s
  | _ => empty_symbolizer
  end.
Definition handle_frame : CpuStackFrame :=
  BuildCpuStackFrame 4360 (Some "/bin/app"%string) None (Some 264) (Some "handle"%string) (Some 8)
    CpuFrameLanguage.Native None None.
Lemma symbolizer_loaded :
  symbolizer_load report PythonSymbolizationStatus.NotDetected now = (Ok app_symbolizer, now).
Proof. vm_compute. reflexivity. Qed.
Lemma frame_symbolized : symbolize app_symbolizer 4360 = Some handle_frame.
Proof. vm_compute. reflexivity. Qed.
Lemma hotspot_hints_witness :
  ∃ entry return_hint, selector_hints handle_frame = (Some entry, Some return_hint)
    ∧ ∃ selector, parse_selector entry = Ok selector.
Proof.
  destruct (hotspot_hints report PythonSymbolizationStatus.NotDetected now now app_symbolizer 4360
    handle_frame) as (path & offset & m & symbol & entry & return_hint & H).
  - intros bytes file [= <-]. by apply Forall_singleton.
  - exact symbolizer_loaded.
  - exact frame_symbolized.
  - by intros path [= <-].
  - exists entry, return_hint.
    destruct H as (_ & _ & _ & _ & _ & _ & _ & _ & Hhints & Hentry & _).
    split; [exact Hhints|]. eexists. exact Hentry.
Defined.

(** ** Discovery *)
Lemma discovered : ∃ r, discover_run report 1 now = (Ok r, now) ∧ dr_truncated r = false.
Proof. vm_compute. eexists. split; reflexivity. Qed.
Lemma parents_stable p (w : World) : read_parent_pid p w = ((read_parent_pid p now).1, w).
Proof.
  change World with unit in w. destruct w. change tt with now.
  unfold read_parent_pid, mbind, io_bind, call, lift. cbn [fs_read_to_string example_os].
  by destruct (found _).
Qed.
Lemma discovery_exact_witness :
  ∃ r all, discover_run report 1 now = (Ok r, now)
    ∧ (λ c, target_pid (cand_target c)) <$> dr_candidates r = take 1 all ∧ len all ≤ 1.
Proof.
  destruct discovered as (r & Hr & Hfull).
  destruct (discovery_exact (λ p, (read_parent_pid p now).1) parents_stable
    report 1 now now r) as (output & rows & processes & all & w1 & w2 & H).
  - done.
  - exact Hr.
  - exists r, all. split; [exact Hr|]. destruct H as (_ & _ & _ & _ & _ & Htake & _ & _ & Htr).
    split; [exact Htake|]. rewrite Hfull in Htr. destruct (Z.ltb_spec 1 (len all)) as [Hlt|Hle];
      [by apply Htr in Hlt|exact Hle].
Defined.

(** ** Injection *)

(** A process whose every call returns one more than its first argument: continuing it runs
    the call, and waiting then reports the fault at the zero return address.  Another one
    never stops. *)
Record Machine := BuildMachine { mc_clock : Z; mc_regs : Regs; mc_memory : Z → Z }.
Definition machine_os : Os := {|
  World := Machine;
  fs_read_to_string := λ _ w, (inl missing_file, w);
  fs_read := λ _ w, (inl missing_file, w);
  fs_read_link := λ _ w, (inl missing_file, w);
  fs_canonicalize := λ _ w, (inl missing_file, w);
  fs_metadata := λ _ w, (inl missing_file, w);
  fs_try_exists := λ _ w, (inl missing_file, w);
  fs_read_dir := λ _ w, (inl missing_file, w);
  command_output := λ _ _ w, (inl missing_file, w) |}.
Definition store (a : Z) (bytes : list Z) (memory : Z → Z) : Z → Z := λ x,
  if (a <=? x) && (x <? a + len bytes) then default 0 (bytes !! Z.to_nat (x - a)) else memory x.
Definition returned (r : Regs) : Regs :=
  BuildRegs 0 (rsp r + 8) (rdi r + 1) (rdi r) (rsi r) (rdx r) (rcx r) (r8 r) (r9 r) (other_regs r).
(** Continuing changes the registers with [resume]; waiting then reports [status]. *)
Definition machine_ptrace (resume : Regs → Regs) (status : WaitStatus) : @Ptrace machine_os :=
  @Build_Ptrace machine_os
  (λ _ w, (inr (), w)) (λ _ w, (inr (), w)) (λ _ w, (inr (mc_regs w), w))
  (λ _ r w, (inr (), BuildMachine (mc_clock w) r (mc_memory w)))
  (λ _ w, (inr (), BuildMachine (mc_clock w) (resume (mc_regs w)) (mc_memory w)))
  (λ _ w, (inr (), w))
  (λ _ a n w, (inr ((λ i, mc_memory w (a + Z.of_nat i)) <$> seq 0 (Z.to_nat n)), w))
  (λ _ a bytes w,
     (inr (len bytes), BuildMachine (mc_clock w) (mc_regs w) (store a bytes (mc_memory w))))
  (λ _ w, (inr status, w))
  (λ w, (mc_clock w, w))
  (λ d w, BuildMachine (mc_clock w + Z.max 0 d) (mc_regs w) (mc_memory w)).
Lemma machine_laws resume status : @PtraceLaws machine_os (machine_ptrace resume status).
Proof.
  refine (@Build_PtraceLaws machine_os (machine_ptrace resume status) mc_clock _ _ _ (λ w _, mc_regs w)
            (λ w _, mc_memory w) _ _ _ _).
  - intros w. split; [reflexivity|]. cbn. lia.
  - intros d w. cbn. lia.
  - intros pid w. cbn. lia.
  - by intros pid w r w' [= <- <-].
  - by intros pid r w w' [= <-].
  - intros pid a n w bytes w' [= <- <-]. split; [|done]. intros i b.
    rewrite list_lookup_fmap. destruct (seq 0 (Z.to_nat n) !! i) as [j|] eqn:Hj; [|done].
    apply lookup_seq in Hj as [-> _]. by intros [= <-].
  - intros pid a bytes w n w' [= <- <-]. cbn. split; [done|]. unfold store. split.
    + intros i b Hi _. pose proof (lookup_lt_Some _ _ _ Hi). unfold len.
      destruct (Z.leb_spec a (a + Z.of_nat i)); [|lia].
      destruct (Z.ltb_spec (a + Z.of_nat i) (a + Z.of_nat (length bytes))); [|lia]. cbn.
      by replace (Z.to_nat (a + Z.of_nat i - a)) with i by lia; rewrite Hi.
    + intros x Hx. destruct (Z.leb_spec a x), (Z.ltb_spec x (a + len bytes)); cbn; (done || lia).
Defined.
Definition machine : @World machine_os :=
  BuildMachine 0 (BuildRegs 100 4096 7 1 2 3 4 5 6 []) (λ x, x mod 256).
Definition calling : @Ptrace machine_os :=
  machine_ptrace returned (WaitStatus.Stopped SIGSEGV).
Definition machine_result := @remote_call machine_os calling 42 1000 4352 [9] machine.

(** A process that never stops: the call ends with the timeout. *)
Definition stuck : @Ptrace machine_os := machine_ptrace id WaitStatus.StillAlive.
Lemma remote_call_ends_witness :
  (@remote_call machine_os stuck 42 5000000 4352 [9] machine).1 = Err InjectError.TimedOut
  ∧ (@remote_call machine_os stuck 42 5000000 4352 [9] machine).1 ≠ Panic.
Proof.
  split; [reflexivity|].
  apply (@remote_call_ends machine_os stuck (machine_laws _ _) 42 5000000 4352 [9] machine);
    by vm_compute.
Defined.
