(* ===== verification/ExportExamples.v ===== *)
(** * Exporting on a concrete file system

    Witnesses for the theorems about artifacts and about what a command prints: files by path,
    and a JSON whose documents are lines that all say the same event. *)
From S2P Require Import Prelude BTree RustString Text Protocol Selector Measure Examples.
From S2P Require Import Os Process Inspect Resolve Usdt Completed Cupti CuptiFilter Live Session.
From S2P Require Import Export Aggregate CuptiClient BpfCollect CpuAnalysis CpuCollect Command.
From S2P Require Import Print CommandLine.
#[local] Open Scope Z_scope.

(** ** Files *)
Definition FileSystem : Type := list (Z * string) → option (list Z).
Definition put (path : string) (bytes : option (list Z)) (w : FileSystem) : FileSystem :=
  λ k, if bool_decide (k = components path) then bytes else w k.
Definition denied : IoError := BuildIoError ErrorKind.Other "denied" None.
#[local] Instance files_os : Os := {|
  World := FileSystem;
  fs_read_to_string := λ _ w, (inl denied, w);
  fs_read := λ path w,
    (match w (components path) with Some bytes => inr bytes | None => inl denied end, w);
  fs_read_link := λ _ w, (inl denied, w);
  fs_canonicalize := λ _ w, (inl denied, w);
  fs_metadata := λ _ w, (inl denied, w);
  fs_try_exists := λ _ w, (inl denied, w);
  fs_read_dir := λ _ w, (inl denied, w);
  command_output := λ _ _ w, (inl denied, w) |}.
#[local] Instance memory_files : Files :=
  @Build_Files files_os
    (λ path w, match w (components path) with
               | Some _ => (inl denied, w)
               | None => (inr (), put path (Some []) w)
               end)
    (λ path bytes w, (inr (), put path (Some bytes) w))
    (λ _ w, (inr (), w))
    (λ path path' w, match w (components path) with
                     | Some bytes => (inr (), put path' (Some bytes) (put path None w))
                     | None => (inl denied, w)
                     end)
    (λ path w, (inr (), put path None w))
    (λ _ w, (inr (), w)).
Lemma put_other p q bytes (w : FileSystem) :
  path_eq q p = false → put p bytes w (components q) = w (components q).
Proof. unfold put, path_eq. rewrite bool_decide_eq_false. intros. by case_bool_decide. Qed.
Lemma put_same p bytes (w : FileSystem) : put p bytes w (components p) = bytes.
Proof. unfold put. by rewrite bool_decide_eq_true_2. Qed.
#[local] Instance memory_laws : FilesLaws.
Proof.
  refine (@Build_FilesLaws files_os memory_files (λ w p, w (components p)) _ _ _ _ _ _ _ _).
  - intros w p q Hpq. apply bool_decide_eq_true in Hpq. by rewrite Hpq.
  - intros p w r w'. cbn. destruct (w (components p)) eqn:E; intros [= <- <-]; [done|].
    split; [|done]. intros q. apply put_other.
  - intros p bytes w r w' [= <- <-]. split; [intros q; apply put_other|]. intros _. apply put_same.
  - done.
  - intros p q w r w' Hpq. cbn. destruct (w (components p)) eqn:E; intros [= <- <-]; [|done].
    split; [apply put_same|]. split; [by rewrite put_other, put_same|].
    intros x Hp Hq. by rewrite !put_other.
  - intros p w r w' [= <- <-]. split; [intros q; apply put_other|apply put_same].
  - done.
  - intros p w bytes w'. cbn. destruct (w (components p)); by intros [= <- <-].
Defined.

(** ** Documents *)
Definition line : string := "{memset}".
Definition the_event : Event :=
  event_renumber "xp_export_7" 0 (memset_event EventType.GpuMemsetStart 10).
#[local] Instance line_reader : JsonReader := {|
  json_documents := λ bytes, replicate (count_occ Z.eq_dec bytes 10) (Ok (JString line));
  json_get := λ _ _, None;
  capture_from_value := λ _, Err "no capture"%string;
  event_from_value := λ _, Ok the_event |}.
#[local] Instance line_writer : JsonWriter := {|
  event_to_string := λ _, Ok line;
  value_null := JArray [];
  value_object := λ members, JArray (members.*2);
  clock_domain_value := λ _, JString "clock";
  nvtx_value := λ nvtx, JString (nvtx_name nvtx);
  to_string_pretty := λ _, Ok "{}"%string |}.
#[local] Instance line_laws : JsonLaws.
Proof.
  refine {| event_value := λ _, JString line; exact := λ e, e = the_event |}.
  - done.
  - intros e text rest [= <-]. change (10 :: rest) with ([10] ++ rest).
    cbn [json_documents line_reader]. rewrite count_occ_app. reflexivity.
  - by intros e text [= <-].
  - done.
  - by intros e ->.
Defined.

(** ** Witnesses *)
Definition disk : World :=
  put "in.jsonl" (Some (bytes_of_string (line +:+ String newline EmptyString))) (λ _, None).
Definition loaded : CompletedCapture := BuildCompletedCapture 0 0 None false None [the_event].
Lemma artifact_replaced_atomically_witness :
  let '(r, w', _) := write_export_file 7 0 "in.jsonl" [1; 2] disk in
  r = Ok () ∧ contents w' "in.jsonl" = Some [1; 2].
Proof.
  pose proof (artifact_replaced_atomically 7 0 "in.jsonl" [1; 2] disk) as Hwrite.
  assert ((write_export_file 7 0 "in.jsonl" [1; 2] disk).1.1 = Ok ()) as Hok by reflexivity.
  destruct (write_export_file 7 0 "in.jsonl" [1; 2] disk) as [[r w'] passed]. cbn in Hok.
  destruct Hwrite as (_ & _ & Hbytes & _). split; [exact Hok|]. by apply Hbytes.
Defined.
Definition exported : res CommandFailure TraceExportResult * World :=
  run_export 7 0 ["in.jsonl"%string] ExportFormat.Jsonl "out.jsonl" disk.
Definition measured : res CommandFailure MeasurementResult * World :=
  run_completed_measurement 7 ["in.jsonl"%string]
    (BuildMeasureOptions "xp_export_7" None "cuda:memset_start" "cuda:memset_end"
       MatchPolicy.FirstAfter (Some 10) (Some 100) 1000 0) false false (Some "out.jsonl"%string)
    None disk.
Lemma text_written :
  artifact_text (default ExportFormat.Jsonl None) (cap_events loaded) ≠ Panic.
Proof. discriminate. Qed.
(** No end in the capture: the measurement fails, and its one event is kept. *)
Lemma evidence_kept_witness :
  ∃ e, measured.1 = Err e ∧ fail_code e = ErrorCode.NoMatchedSamples
    ∧ contents measured.2 "out.jsonl"
      = Some (bytes_of_string (line +:+ String newline EmptyString)).
Proof.
  pose proof (evidence_kept 7 ["in.jsonl"%string]
    (BuildMeasureOptions "xp_export_7" None "cuda:memset_start" "cuda:memset_end"
       MatchPolicy.FirstAfter (Some 10) (Some 100) 1000 0) "out.jsonl" None [loaded] loaded disk disk
    measured.2 measured.1 text_written ltac:(done) eq_refl eq_refl
    ltac:(unfold measured; by destruct (run_completed_measurement _ _ _ _ _ _ _ _))) as Hkept.
  assert (∃ e, measured.1 = Err e ∧ fail_code e = ErrorCode.NoMatchedSamples) as (e & He & Hcode)
    by (vm_compute; eauto).
  exists e. split; [exact He|]. split; [exact Hcode|]. cbn zeta in Hkept. rewrite He in Hkept.
  destruct (measure_capture _ _ _ _) as [execution|error|] eqn:E; [vm_compute in E; discriminate| |done].
  destruct Hkept as (e' & [= <-] & [((text & [= <-] & Hbytes) & _)|[Hother _]]); [exact Hbytes|].
  rewrite Hcode in Hother. discriminate.
Defined.

(** ** A command

    Exporting needs only files; the other services refuse. *)
#[local] Instance no_objects : ObjectCrate :=
  {| object_parse := λ _, inl "refused"%string; cpp_demangle := λ _, None |}.
#[local] Instance no_notes : NoteParser := λ _, inl "refused"%string.
#[local] Instance no_specs : SpecReader := {|
  json_value := λ _, Err "refused"%string;
  measurement_spec_of := λ _, Err "refused"%string;
  cpu_spec_of := λ _, Err "refused"%string;
  syscall_spec_of := λ _, Err "refused"%string |}.
#[local] Instance no_bpf : Libbpf := {|
  BpfObject := unit;
  bpf_name := λ _ w, (inl denied, w);
  bpf_open := λ w, (inl denied, w);
  bpf_load := λ _ w, (inl denied, w);
  bpf_has_map := λ _ _, false;
  bpf_has_program := λ _ _, false;
  bpf_set_max_entries := λ _ _ _ w, (inl denied, w);
  bpf_update := λ _ _ _ _ w, (inl denied, w);
  bpf_lookup := λ _ _ _ w, (inl denied, w);
  bpf_lookup_percpu := λ _ _ _ w, (inl denied, w);
  bpf_keys := λ _ _ w, ([], w);
  bpf_attach := λ _ _ w, (inl denied, w);
  ring_add := λ _ _ w, (inl denied, w);
  ring_build := λ _ w, (inl denied, w);
  ring_poll := λ _ _ w, (([], Some denied), w);
  monotonic_now := λ w, (0, w);
  sleep_for := λ _ w, w;
  load_cancelled := λ w, (false, w);
  send_ready := λ w, (false, w);
  process_id := λ w, (7, w);
  next_session := λ w, (0, w);
  fs_dev_ino := λ _ w, (inl denied, w) |}.
#[local] Instance no_sockets : UnixSocket := {|
  Stream := unit;
  socket_connect := λ _ w, (inl denied, w);
  set_read_timeout := λ _ _ w, (inl denied, w);
  set_write_timeout := λ _ _ w, (inl denied, w);
  socket_write_all := λ _ _ w, (inl denied, w);
  shutdown_write := λ _ w, (inl denied, w);
  read_to_end := λ _ w, (inl denied, w) |}.
#[local] Instance short_documents : Serializer := {|
  pretty_json := λ document,
    Ok match document with ErrorDocument _ => "{error}"%string | _ => "{ok}"%string end |}.
Definition refuse {A} : io CommandFailure A :=
  λ w, (Err (failure ErrorCode.Internal "refused" false), w).
Definition run_command (command : Command) (w : World) : option Printed * World :=
  main 7 0 (λ _ _, refuse) (λ _ _, refuse) (λ _, Panic) command w.
Definition export_command (input : string) (json : bool) : Command :=
  ExportCommand (BuildExportArgs [input] ExportFormat.Jsonl "out.jsonl" json false true).
