(* ===== verification/AgentExamples.v ===== *)
(** * A concrete agent

    Witnesses for the theorems about the CUPTI agent: two kernels that are counted or recorded
    at the same time, and the NVTX calls of one thread. *)
From S2P Require Import Prelude BTree RustString Text Bytes Protocol Selector Measure Examples.
From S2P Require Import Cupti CuptiFilter Aggregate Agent AgentAggregate AgentInventory.
From S2P Require Import AgentRecords AgentNvtx AgentEvents AgentActivities.
#[local] Open Scope Z_scope.

Definition idle_status : AgentStatus := BuildAgentStatus AGENT_UNAVAILABLE CAPTURE_IDLE STOP_NONE.
Definition text_of (s : string) : c_string := Some (bytes_of_string s).
(** Every call takes a step in turn. *)
Definition round_robin (calls rounds : nat) : list (nat * bool) :=
  concat (replicate rounds ((λ j, (j, false)) <$> seq 0 calls)).

(** ** Counting *)
Definition two_kernels : list Activity :=
  [BuildActivity 3 0 0 (text_of "gemm") 10 15 0; BuildActivity 3 0 0 (text_of "gemm") 12 20 0].
Definition counted_kernels : AggregateTable * list AggregateCall :=
  count_activities (round_robin 2 40) (arm_table 4 idle_status, activity_calls two_kernels).
Definition kernel_options : MeasureOptions :=
  BuildMeasureOptions "s" None "cuda:kernel_start" "cuda:kernel_end" MatchPolicy.Exact None None 10 0.

Lemma kernel_name_wf : c_string_wf (text_of "gemm").
Proof. unfold c_string_wf. repeat constructor; done. Qed.
Lemma two_kernels_wf : Forall activity_wf two_kernels ∧ Forall activity_readable two_kernels.
Proof.
  split; repeat constructor; try apply kernel_name_wf; try (unfold in_u32, in_u64; simpl; done).
  all: left; split_and!; [reflexivity|discriminate|reflexivity].
Qed.
Lemma all_returned : Forall call_returned counted_kernels.2.
Proof. vm_compute. repeat constructor. Qed.

(** ** Records *)
Definition cupti_thread : Caller := BuildCaller 42 43 (Some 100).
Definition one_kernel : KernelActivity :=
  BuildKernelActivity 0 1 7 5 (2, 1, 1) (64, 1, 1) (text_of "gemm") 110 120.
Definition two_records : list xprobe_cupti_record :=
  [enqueue_kernel_record 0 cupti_thread one_kernel 3 110;
   enqueue_kernel_record 0 cupti_thread one_kernel 4 120].
Lemma two_records_wf : Forall record_wf two_records.
Proof.
  repeat constructor; cbn; unfold layout_wf; cbn; repeat constructor; cbn; try lia; done.
Qed.
Definition recorded : RecordTable * list (xprobe_cupti_record * RecordPc) :=
  enqueue_records false [] (round_robin 2 12) (arm_records 4 idle_status, record_calls two_records).

(** The first record is committed when the snapshot begins; the second follows while it is
    written. *)
Definition first_recorded : RecordTable * list (xprobe_cupti_record * RecordPc) :=
  enqueue_records false [] (replicate 8 (0%nat, false))
    (arm_records 4 idle_status, record_calls two_records).
Definition second_recorded : RecordTable * list (xprobe_cupti_record * RecordPc) :=
  enqueue_records false [] (replicate 8 (1%nat, false)) first_recorded.
Lemma agent_snapshot_consistent_witness :
  rt_committed first_recorded.1 = 1 ∧ rt_committed second_recorded.1 = 2
  ∧ ∃ bytes, write_exact_capture true true 0 0 0 1 0 second_recorded.1 = Some bytes
      ∧ ∃ capture, decode_capture bytes "s" = Ok capture
          ∧ (ev_event_type <$> cc_events capture) = [EventType.GpuKernelStart].
Proof.
  split; [reflexivity|]. split; [reflexivity|].
  destruct (agent_snapshot_consistent false [] two_records 4 idle_status (replicate 8 (0%nat, false))
    (replicate 8 (1%nat, false)) first_recorded.1 second_recorded.1 first_recorded.2
    second_recorded.2 true true 0 0 0 0 "s") as (bytes & state & reason & Hw & _ & _ & Hdec).
  - unfold u64_max. lia.
  - vm_compute. discriminate.
  - apply two_records_wf.
  - unfold in_u64, u64_max. lia.
  - unfold first_recorded. by destruct (enqueue_records _ _ _ _).
  - unfold second_recorded. rewrite <-(surjective_pairing first_recorded).
    by destruct (enqueue_records _ _ _ _).
  - vm_compute. split; discriminate.
  - exists bytes. split; [exact Hw|]. eexists. split; [rewrite Hdec; vm_compute; reflexivity|].
    reflexivity.
Defined.

(** ** Callbacks *)

(** A push and a pop, a range of the process that is never ended, and a full table. *)
Definition worker : Caller := BuildCaller 42 45 (Some 200).
Definition nvtx_calls : list NvtxStep :=
  [Callback worker (Some (RangePushA (Some (text_of "step")) (Some 0)));
   Callback worker (Some (RangeStartA (Some (text_of "epoch")) (Some 9)));
   Callback worker (Some (RangePushA (Some (text_of "inner")) (Some 1)));
   Callback worker (Some (RangePop (Some 0)))].
Lemma nvtx_calls_ok : Forall step_ok nvtx_calls.
Proof.
  assert (caller_wf worker) as Hw
    by (split; unfold in_u32, u32_max, u64_max; cbn; [lia|lia|intros t [= <-]; lia]).
  assert (∀ s, forallb (λ b, (0 <? b) && (b <? 128)) (bytes_of_string s) = true →
    utf8_valid (bytes_of_string s) = true → text_wf (text_of s)) as Ht.
  { intros s Hs Hu. split; [|done]. apply Forall_forall. intros b Hb%list_elem_of_In.
    rewrite forallb_forall in Hs. specialize (Hs b Hb). unfold is_byte. lia. }
  assert (text_wf None) by (split; [by apply Forall_nil|done]).
  unfold nvtx_calls. rewrite !Forall_cons, Forall_nil. unfold step_ok.
  split_and!; try done; try (by apply Ht); unfold result_wf, in_u64, u64_max; lia.
Qed.

(** ** Both modes *)
Definition one_buffer : list (CuptiActivity * bool) :=
  [(ConcurrentKernel one_kernel, true); (OtherActivity, true);
   (Memset (BuildMemsetActivity 0 1 7 6 255 4096 130 135), true);
   (ConcurrentKernel one_kernel, false)].
Lemma one_buffer_wf : Forall (λ x, cupti_activity_wf 0 x.1) one_buffer.
Proof.
  unfold one_buffer. rewrite !Forall_cons, Forall_nil. cbn [fst cupti_activity_wf].
  unfold times_wf, in_u32, in_u64, u32_max, u64_max.
  split_and!; try done; try apply kernel_name_wf; cbn; lia.
Qed.
Lemma cupti_thread_wf : caller_wf cupti_thread.
Proof. split; unfold in_u32, u32_max, u64_max; cbn; [lia|lia|intros t [= <-]; lia]. Qed.
Lemma agent_calls_return_witness :
  (∃ slot table', count_activities (replicate 28 (1%nat, false))
       (arm_table 4 idle_status, activity_calls two_kernels)
     = (table', <[1%nat := (BuildActivity 3 0 0 (text_of "gemm") 12 20 0, Returned slot)]>
                  (activity_calls two_kernels)))
  ∧ ∃ index records', enqueue_records false [] (replicate 28 (0%nat, false))
       (arm_records 4 idle_status, record_calls two_records)
     = (records', <[0%nat := (enqueue_kernel_record 0 cupti_thread one_kernel 3 110, Enqueued index)]>
                    (record_calls two_records)).
Proof.
  apply (agent_calls_return false [] (arm_table 4 idle_status) (activity_calls two_kernels)
    (BuildActivity 3 0 0 (text_of "gemm") 12 20 0) LoadState (arm_records 4 idle_status)
    (record_calls two_records) (enqueue_kernel_record 0 cupti_thread one_kernel 3 110) CheckCapture
    1 0 28).
  - reflexivity.
  - reflexivity.
  - vm_compute. discriminate.
  - vm_compute. split_and!; try discriminate. exact I.
Defined.
