(* ===== verification/CuptiExamples.v ===== *)
(** * A concrete CUPTI agent

    Witnesses for the theorems about the CUPTI side, with an engine for the
    patterns of literal text that [CuptiFilter] is about. *)
From S2P Require Import Prelude BTree RustString Text Bytes Ring Protocol Selector Measure Examples.
From S2P Require Import Os Process Inspect Resolve Uprobe Usdt Syscalls Validate.
From S2P Require Import Cupti CuptiFilter HostExamples.
#[local] Open Scope Z_scope.

(** ** Patterns of literal text *)
Fixpoint literal_body (pattern : string) : string * string :=
  match pattern with
  | EmptyString => (EmptyString, EmptyString)
  | String c rest =>
      if c == backslash then
        match rest with
        | EmptyString => (EmptyString, pattern)
        | String escaped rest =>
            if is_ascii_alphanumeric escaped || contains_char escaped "<>"
            then (EmptyString, pattern)
            else let '(literal, rest) := literal_body rest in (String escaped literal, rest)
        end
      else if contains_char c "\.+*?()|[]{}^$" then (EmptyString, pattern)
      else let '(literal, rest) := literal_body rest in (String c literal, rest)
  end.
Definition fragment_new (pattern : string) : res string (edge * string * edge) :=
  let '(a, rest) :=
    match strip_prefix "^" pattern, strip_prefix ".*" pattern with
    | Some rest, _ => (Anchored, rest)
    | None, Some rest => (Dots, rest)
    | None, None => (Free, pattern)
    end in
  let '(literal, rest) := literal_body rest in
  if rest == "" then Ok (a, literal, Free)
  else if rest == "$" then Ok (a, literal, Anchored)
  else if rest == ".*" then Ok (a, literal, Dots)
  else Err "unsupported pattern"%string.
Definition fragment_here (literal : string) (z : edge) (text : string) : bool :=
  match strip_prefix literal text with
  | Some rest => match z with Anchored => is_empty rest | _ => true end
  | None => false
  end.
Fixpoint fragment_search (literal : string) (z : edge) (text : string) : bool :=
  fragment_here literal z text
  || match text with EmptyString => false | String _ text => fragment_search literal z text end.
Definition fragment_match (regex : edge * string * edge) (text : string) : bool :=
  let '(a, literal, z) := regex in
  match a with Anchored => fragment_here literal z text | _ => fragment_search literal z text end.
Lemma fragment_new_no_panic pattern : fragment_new pattern ≠ Panic.
Proof.
  unfold fragment_new. destruct (strip_prefix "^" pattern), (strip_prefix ".*" pattern);
    destruct (literal_body _); repeat case_bool_decide; discriminate.
Qed.
#[local] Instance fragment_regex : RegexEngine := {|
  Regex := edge * string * edge;
  Regex_new := fragment_new;
  Regex_new_no_panic := fragment_new_no_panic;
  is_match := fragment_match |}.

#[local] Arguments contains_char : simpl never.
#[local] Arguments is_ascii_alphanumeric : simpl never.
Lemma literal_body_quoted pattern literal z :
  quoted pattern literal → literal_body (pattern +:+ trail z) = (literal, trail z).
Proof.
  induction 1 as [|c p s Hc _ IH|c p s Ha Hb _ IH]; simpl.
  - by destruct z.
  - rewrite Hc. rewrite bool_decide_eq_false_2 by by intros ->. simpl in IH. by rewrite IH.
  - rewrite Ha, Hb. simpl. by rewrite IH.
Qed.
Lemma fragment_new_quoted a z pattern literal :
  quoted pattern literal →
  fragment_new (lead a +:+ pattern +:+ trail z) = Ok (a, literal, z)
  ∨ (literal = ""%string ∧ a = Free ∧ z = Dots).
Proof.
  intros Hq. unfold fragment_new.
  assert (match strip_prefix "^" (lead a +:+ pattern +:+ trail z),
            strip_prefix ".*" (lead a +:+ pattern +:+ trail z) with
          | Some rest, _ => (Anchored, rest)
          | None, Some rest => (Dots, rest)
          | None, None => (Free, lead a +:+ pattern +:+ trail z)
          end = (a, pattern +:+ trail z)
          ∨ (literal = ""%string ∧ a = Free ∧ z = Dots)) as [Hlead|?]; [| |by right].
  2: { left. rewrite Hlead, (literal_body_quoted _ _ z Hq). by destruct z. }
  destruct a; [|by left|by left].
  change (lead Free +:+ pattern +:+ trail z) with (pattern +:+ trail z).
  destruct (strip_prefix "^" (pattern +:+ trail z)) as [rest|] eqn:E1.
  { apply strip_prefix_Some in E1. destruct Hq; [by destruct z|..]; by simplify_eq/=. }
  destruct (strip_prefix ".*" (pattern +:+ trail z)) as [rest|] eqn:E2; [|by left].
  apply strip_prefix_Some in E2. destruct Hq; [destruct z; by (right || simplify_eq/=)|..];
    by simplify_eq/=.
Qed.
Lemma fragment_here_sound literal z text :
  fragment_here literal z text = true →
  ∃ after, text = literal +:+ after ∧ (z = Anchored → after = ""%string).
Proof.
  unfold fragment_here. destruct (strip_prefix literal text) as [rest|] eqn:E; [|done].
  apply strip_prefix_Some in E as ->. intros Hz. exists rest. split; [done|].
  intros ->. by destruct rest.
Qed.
Lemma fragment_search_sound literal z text :
  fragment_search literal z text = true →
  ∃ before after, text = before +:+ literal +:+ after ∧ (z = Anchored → after = ""%string).
Proof.
  induction text as [|c text IH]; cbn [fragment_search];
    intros [(after & -> & Hz)%fragment_here_sound|Hs]%orb_true_iff;
    [by exists ""%string, after|done|by exists ""%string, after|].
  destruct (IH Hs) as (before & after & -> & Hz). by exists (String c before), after.
Qed.
#[local] Instance fragment_literals : RegexLiterals.
Proof.
  intros a z pattern literal regex text Hq Hnew Hm. simpl in *.
  destruct (fragment_new_quoted a z pattern literal Hq) as [Hnew'|(-> & -> & ->)].
  - rewrite Hnew' in Hnew. simplify_eq. simpl in Hm. destruct a.
    + destruct (fragment_search_sound _ _ _ Hm) as (before & after & -> & Hz).
      by exists before, after.
    + destruct (fragment_here_sound _ _ _ Hm) as (after & -> & Hz). by exists ""%string, after.
    + destruct (fragment_search_sound _ _ _ Hm) as (before & after & -> & Hz).
      by exists before, after.
  - by exists ""%string, text.
Qed.

(** ** A kernel launch *)
Definition kernel_text : string := "cuda:kernel_start:name~^gemm".
Definition kernel_cuda : ResolvedCudaSelector :=
  cuda_selector EventType.GpuKernelStart (Some "^gemm"%string) None None.
Definition kernel_filter : CuptiEventFilter :=
  BuildCuptiEventFilter CuptiRecordKind.GpuKernelStart CuptiApiDomain.Any CuptiMemcpyKind.Any
    (CuptiNameFilter.Prefix "gemm").
Definition kernel_config : CuptiArmConfig :=
  BuildCuptiArmConfig 64 CuptiCaptureMode.Exact [kernel_filter].
Definition kernel_name : list Z := bytes_of_string "gemm_f16" ++ replicate 120 0.
Definition kernel_record : xprobe_cupti_record :=
  Build_xprobe_cupti_record 1000 3 42 43 0 1 7 5 0 0 (1, 1, 1) (32, 1, 1) 5 kernel_name.
Lemma kernel_endpoint :
  ∃ e, resolve_endpoint report kernel_text "start" now = (Ok e, now)
    ∧ ve_cuda (ep_public e) = Some kernel_cuda.
Proof. vm_compute. eexists. split; reflexivity. Qed.
Lemma kernel_control : ∃ bytes, encode_control 1 0 (Some kernel_config) = Ok bytes.
Proof. vm_compute. by eexists. Qed.
Lemma kernel_selected :
  match decode_record (record_encode kernel_record) 0 "s" 1, selector_parse kernel_text with
  | Ok event, Ok s => selector_matches s event
  | _, _ => false
  end = true.
Proof. vm_compute. reflexivity. Qed.
Lemma kernel_event :
  ∃ event s, decode_record (record_encode kernel_record) 0 "s" 1 = Ok event
    ∧ selector_parse kernel_text = Ok s ∧ selector_matches s event = true.
Proof.
  pose proof kernel_selected as Hm.
  destruct (decode_record _ _ _ _) as [event| |], (selector_parse kernel_text) as [s| |]; try done.
  by exists event, s.
Qed.

(** ** A word boundary *)

(** The pattern [\<gemm] is armed as the text it looks like without its backslash, so the
    agent drops the records of the kernel [gemm_f16], whose name it matches at the start. *)
Example word_boundary_dropped :
  bounded_kernel_name_filter "\<gemm" = CuptiNameFilter.Contains "<gemm"
  ∧ ∃ bytes request,
      encode_control 1 0 (Some (BuildCuptiArmConfig 64 CuptiCaptureMode.Exact
        [BuildCuptiEventFilter CuptiRecordKind.GpuKernelStart CuptiApiDomain.Any
           CuptiMemcpyKind.Any (CuptiNameFilter.Contains "<gemm")])) = Ok bytes
      ∧ read_control bytes = Some request
      ∧ capture_filter_matches (xr_filters request) kernel_record = false.
Proof.
  split; [vm_compute; reflexivity|]. do 2 eexists. split; [vm_compute; reflexivity|].
  split; vm_compute; reflexivity.
Qed.
