(* ===== verification/LiveExamples.v ===== *)
(** * Concrete sessions

    Witnesses for the theorems about captures, live measurements and aggregates: an agent
    that records one memset, a session that measures it, and a table of kernel groups. *)
From S2P Require Import Prelude BTree RustString Text Bytes Protocol Selector Correlate.
From S2P Require Import Lifecycle GroupPairs Exact Greedy Nearest StackNested Measure Examples.
From S2P Require Import Os Process Inspect Resolve Ring Uprobe Usdt Syscalls Validate Linux.
From S2P Require Import Cupti CuptiFilter Completed Live Session Aggregate HostExamples.
#[local] Open Scope Z_scope.

(** ** Captures as the agent sends them *)
Definition header (flags state reason count capacity observed offset : Z) : list Z :=
  OUTPUT_MAGIC ++ encode_layout
    [(4, ABI_VERSION); (4, HEADER_SIZE); (4, RECORD_SIZE); (4, flags); (4, state); (4, reason);
     (8, count); (8, capacity); (8, observed); (8, 0%Z); (8, 0%Z); (8, 0%Z); (8, offset)]%nat.
Definition no_name : list Z := replicate 128 0.
Definition memset_record (kind timestamp : Z) : list Z :=
  record_encode (Build_xprobe_cupti_record timestamp kind 42 43 0 1 7 5 0 0 (1, 1, 1) (1, 1, 1) 5
                   no_name).
(** The start, the end, and nothing more as the capture is stopped. *)
Definition first_bytes : list Z := header 3 1 0 1 64 1 0 ++ memset_record 7 1000.
Definition second_bytes : list Z := header 3 1 0 1 64 2 1 ++ memset_record 8 1500.
Definition final_bytes : list Z := header 3 3 1 0 64 2 2.
(** The end only as the capture is stopped. *)
Definition late_bytes : list Z := header 3 3 1 1 64 2 1 ++ memset_record 8 1500.

Lemma answers_bytes :
  Forall (Forall is_byte) [first_bytes; second_bytes; final_bytes; late_bytes].
Proof.
  assert (forallb (forallb (λ z, (0 <=? z) && (z <=? 255)))
    [first_bytes; second_bytes; final_bytes; late_bytes] = true) as Hb by (vm_compute; reflexivity).
  apply Forall_forall. intros l Hl. rewrite forallb_forall in Hb.
  apply list_elem_of_In, Hb in Hl. rewrite forallb_forall in Hl. apply Forall_forall.
  intros z Hz. apply list_elem_of_In, Hl, andb_true_iff in Hz as [? ?].
  unfold is_byte. lia.
Qed.
Definition captured (bytes : list Z) : CuptiCapture :=
  match decode_capture bytes "s" with
  | Ok c => c
  | _ => BuildCuptiCapture false 0 CuptiCaptureState.Idle CuptiStopReason.None 0 0 0 0 0 0 [] []
  end.
Lemma captured_ok bytes :
  match decode_capture bytes "s" with Ok _ => true | _ => false end = true →
  decode_capture bytes "s" = Ok (captured bytes).
Proof. unfold captured. by destruct (decode_capture bytes "s"). Qed.
Lemma decode_capture_typed_witness :
  decode_capture first_bytes "s" ≠ Panic ∧ len (cc_events (captured first_bytes)) = 1.
Proof.
  destruct (decode_capture_typed first_bytes "s") as [Hp _].
  - pose proof answers_bytes as Hb. by apply Forall_cons in Hb as [Hb _].
  - split; [exact Hp|]. vm_compute. reflexivity.
Defined.

Definition collection : LiveCollection :=
  BuildLiveCollection true 5000000000 None None 0 0 0 (Some []) None 0.
Lemma appended :
  match append_captures collection [captured first_bytes; captured second_bytes] with
  | Ok _ => true
  | _ => false
  end = true.
Proof. vm_compute. reflexivity. Qed.
Lemma incremental_captures_witness :
  match append_captures collection [captured first_bytes; captured second_bytes] with
  | Ok final => lc_cuda_record_offset final = len (cuda_events final)
  | _ => False
  end.
Proof.
  pose proof appended as Hok.
  destruct (append_captures collection _) as [final| |] eqn:E; [|discriminate Hok..].
  destruct (incremental_captures collection final "s" [first_bytes; second_bytes]
    [captured first_bytes; captured second_bytes]) as (_ & Hoff & _).
  - reflexivity.
  - reflexivity.
  - pose proof answers_bytes as Hb. apply Forall_cons in Hb as [H1 Hb].
    apply Forall_cons in Hb as [H2 _]. by repeat constructor.
  - repeat constructor; apply captured_ok; vm_compute; reflexivity.
  - exact E.
  - exact Hoff.
Defined.

Definition completed_one : CompletedCapture :=
  BuildCompletedCapture 2 0 (Some 64) false (Some (BuildCompletedCuptiStatistics true 64 2 0)) starts.
Definition completed_two : CompletedCapture :=
  BuildCompletedCapture 1 0 None false (Some (BuildCompletedCuptiStatistics false 64 3 0)) ends.
Lemma merge_refines_witness :
  match merge [completed_one; completed_two] "s" with
  | Ok m => cap_dropped_records m = 3
  | _ => False
  end.
Proof.
  assert (Forall capture_wf [completed_one; completed_two]) as Hwf.
  { assert (∀ z, (0 <=? z) && (z <=? u64_max) = true → in_u64 z) as Hu.
    { intros z [Ha Hb]%andb_true_iff. apply Z.leb_le in Ha, Hb. by split. }
    apply Forall_cons_2; [|apply Forall_cons_2; [|constructor]];
      (split; [by apply Hu|split; [by apply Hu|]]); intros s [= <-];
      (split; [by apply Hu|split; by apply Hu]). }
  pose proof (merge_refines [completed_one; completed_two] "s" Hwf) as Hm.
  assert (match merge [completed_one; completed_two] "s" with Ok _ => true | _ => false end = true)
    as Hok by (vm_compute; reflexivity).
  destruct (merge _ _) as [m| |]; [|discriminate Hok..].
  destruct Hm as (_ & _ & _ & Hd & _). exact Hd.
Defined.

(** ** A session *)
Definition memset_cuda (event_type : EventType) : ResolvedCudaSelector :=
  cuda_selector event_type None None None.
Definition memset_endpoint (selector : string) (event_type : EventType) : ValidatedEndpoint :=
  BuildValidatedEndpoint selector EndpointSource.Cuda event_type true None None
    (Some (memset_cuda event_type)).
Definition validation : ValidationResult :=
  BuildValidationResult SchemaVersion.V2 true true (pr_target report)
    (memset_endpoint "cuda:memset_start" EventType.GpuMemsetStart)
    (memset_endpoint "cuda:memset_end" EventType.GpuMemsetEnd) MatchPolicy.Exact
    (BuildPolicyRecommendation MatchPolicy.Exact PolicyRecommendationReason.DeterministicCorrelationKey
       [MatchPolicy.Exact])
    (BuildValidationRequirements false true false true false false AgentActivation.AlreadyLoaded
       false) [] [].
Definition memset_options : MeasureOptions :=
  BuildMeasureOptions "s" None "cuda:memset_start" "cuda:memset_end" MatchPolicy.Exact
    (Some 1) None 64 0.
Definition request : LiveMeasureRequest :=
  BuildLiveMeasureRequest 42 memset_options "exact" 5000000000 MeasurementMode.Exact
    (Some "/tmp/agent.sock"%string) None.
Definition armed_bytes : list Z := header 3 1 0 0 64 0 0.
Definition setup_with (verify : res CommandFailure unit) : Setup :=
  BuildSetup (Ok report) (λ _, Ok validation) Panic (Ok (captured armed_bytes)) Panic 0 verify
    (Ok ()) (λ _, Ready) Panic.
Definition setup : Setup := setup_with (Ok ()).
Definition snapshot (now : Z) (bytes : list Z) : Tick :=
  BuildTick None now (Ok (captured bytes)) now (Ok ()) (Ok []).
Definition ticks : list Tick := [snapshot 1000 first_bytes; snapshot 2000 second_bytes].
Lemma session_ok :
  match collect_live_measurement request setup ticks (Ok (captured final_bytes)) with
  | Some (_, Ok _) => true
  | _ => false
  end = true.
Proof. vm_compute. reflexivity. Qed.
Lemma live_measurement_complete_witness :
  match collect_live_measurement request setup ticks (Ok (captured final_bytes)) with
  | Some (_, Ok execution) =>
      ∃ final finished, from_complete_capture final true memset_options finished
        ∧ ex_events execution = ex_events finished
  | _ => False
  end.
Proof.
  pose proof session_ok as Hok.
  destruct (collect_live_measurement request setup ticks _) as [[commands [execution| |]]|] eqn:E;
    [|discriminate Hok..].
  destruct (live_measurement_complete request setup ticks (Ok (captured final_bytes)) commands
    execution E) as (sent0 & c & a & armed & last & before & final & finished & Hp & _ & _ & Hc & ->).
  exists final, finished. split; [|reflexivity].
  assert (match prepare_live_collection request setup with
          | (_, Ok (_, _, armed)) => armed
          | _ => false
          end = true) as Harmed by (vm_compute; reflexivity).
  rewrite Hp in Harmed. rewrite Harmed in Hc. exact Hc.
Defined.
Lemma live_measurement_ends_witness :
  is_Some (collect_live_measurement request setup
    ([snapshot 1000 first_bytes] ++ [snapshot 5000000000 second_bytes])
    (Ok (captured final_bytes))).
Proof.
  apply (live_measurement_ends request setup [snapshot 1000 first_bytes] []
    (snapshot 5000000000 second_bytes) (Ok (captured final_bytes))).
  vm_compute. discriminate.
Defined.

Lemma prepared_ok :
  match prepare_live_collection request setup with
  | (_, Ok (_, activation, armed)) => armed && negb (act_managed activation)
  | _ => false
  end = true.
Proof. vm_compute. reflexivity. Qed.

Definition exited : CommandFailure := failure ErrorCode.TargetExited "process exited" true.
Definition unmanaged : CuptiActivation :=
  BuildCuptiActivation (Some "/tmp/agent.sock"%string) false false None None None.
Lemma failed_start_leaves_agent_armed_witness :
  collect_live_measurement request (setup_with (Err exited)) ticks (Ok (captured final_bytes))
  = Some ([ARM], Err exited).
Proof.
  apply (failed_start_leaves_agent_armed request (setup_with (Err exited)) ticks
    (Ok (captured final_bytes)) report validation unmanaged
    (Some (BuildCuptiArmConfig 64 CuptiCaptureMode.Exact
       [BuildCuptiEventFilter CuptiRecordKind.GpuMemsetStart CuptiApiDomain.Any CuptiMemcpyKind.Any
          CuptiNameFilter.Any;
        BuildCuptiEventFilter CuptiRecordKind.GpuMemsetEnd CuptiApiDomain.Any CuptiMemcpyKind.Any
          CuptiNameFilter.Any])) (captured armed_bytes) [ARM] exited).
  - reflexivity.
  - reflexivity.
  - reflexivity.
  - vm_compute. reflexivity.
  - vm_compute. by eexists.
  - reflexivity.
Defined.

(** ** The end of the memset arrives with the answer to STOP *)
Definition waiting : LiveCollection :=
  BuildLiveCollection true 5000000000 None None 0 0 0 (Some []) (Some (captured first_bytes)) 1.
Definition stopped_collection : LiveCollection :=
  (stop_cupti_agent (set_hosts waiting []) true (Ok (captured late_bytes))).1.
Definition waiting_capture : CompletedCapture :=
  match completed_live_capture [] (set_hosts waiting []) "s" with
  | Ok c => c
  | _ => completed_one
  end.
Lemma late_measured :
  match measure_live_capture [] stopped_collection memset_options true with
  | Ok _ => true
  | _ => false
  end = true.
Proof. vm_compute. reflexivity. Qed.
Lemma timed_out_active_capture_fails_witness :
  ∃ e, finish_live_measurement
         (finish_live_timeout waiting memset_options (snapshot 5000000000 first_bytes)).1 true
         memset_options
         (finish_live_timeout waiting memset_options (snapshot 5000000000 first_bytes)).2
         (Ok (captured late_bytes)) = Err e
    ∧ fail_code e = ErrorCode.CuptiNotAvailable.
Proof.
  pose proof late_measured as Hok.
  destruct (measure_live_capture [] stopped_collection memset_options true) as [execution| |] eqn:E;
    [|discriminate Hok..].
  apply (timed_out_active_capture_fails waiting stopped_collection memset_options
    (snapshot 5000000000 first_bytes) (Ok (captured late_bytes)) [] (captured first_bytes)
    waiting_capture execution).
  - reflexivity.
  - reflexivity.
  - vm_compute. reflexivity.
  - vm_compute. reflexivity.
  - split; vm_compute; reflexivity.
  - vm_compute. reflexivity.
  - exact E.
Defined.

(** ** Kernel groups *)
Definition group_record (name : string) (count total min max : Z) : list Z :=
  encode_layout [(8%nat, count); (8%nat, total); (8%nat, min); (8%nat, max); (8%nat, 0);
    (4%nat, 3); (4%nat, 0); (4%nat, 0); (4%nat, 0); (4%nat, 0); (4%nat, 0); (4%nat, 0); (4%nat, 0)]
  ++ bytes_of_string name ++ replicate (128 - String.length name) 0.
Definition aggregate_bytes : list Z :=
  header 7 3 1 3 64 9 0 ++ group_record "b*" 2 30 10 20 ++ group_record "a" 3 30 5 15
  ++ group_record "b*" 4 60 4 30.
Lemma aggregate_ok :
  match aggregate_inventory_result (captured aggregate_bytes) memset_options with
  | Ok r => (agg_count <$> air_groups r) == [3; 6]
  | _ => false
  end = true.
Proof. vm_compute. reflexivity. Qed.
Lemma aggregate_inventory_exact_witness :
  match aggregate_inventory_result (captured aggregate_bytes) memset_options with
  | Ok r => acs_groups (air_collection r) = len (air_groups r) ∧ (agg_count <$> air_groups r) = [3; 6]
  | _ => False
  end.
Proof.
  pose proof aggregate_ok as Hok.
  destruct (aggregate_inventory_exact aggregate_bytes "s" (captured aggregate_bytes) memset_options)
    as [_ Hr].
  - apply Forall_forall. intros z Hz. apply list_elem_of_In in Hz.
    assert (forallb (λ z, (0 <=? z) && (z <=? 255)) aggregate_bytes = true) as Hb
      by (vm_compute; reflexivity).
    rewrite forallb_forall in Hb. apply Hb, andb_true_iff in Hz as [? ?]. unfold is_byte. lia.
  - apply captured_ok. vm_compute. reflexivity.
  - destruct (aggregate_inventory_result _ _) as [r| |]; [|discriminate Hok..].
    destruct (Hr r eq_refl) as (_ & _ & merged & _ & _ & _ & _ & Hg). split; [exact Hg|].
    by apply bool_decide_eq_true in Hok.
Defined.
Definition kernel_group : CuptiAggregateGroup :=
  BuildCuptiAggregateGroup CuptiAggregateActivity.Kernel (Some "b*"%string) (Some true) (Some 0)
    None 6 90 4 30 None.
